(* ===== verification/_CoqProject ===== *)
-Q . S2P
Prelude.v
GoStd.v
GoTime.v
Rfc3339.v
Json.v
Sha256.v
NetIP.v
NetUrl.v
Domain.v
Wire.v
Enrich.v
World.v
Schema.v
LinkRepo.v
ClickRepo.v
LinkCache.v
Shortcode.v
LinkService.v
Concrete.v
LinkServiceSpec.v
Counters.v
Redirect.v
Coherence.v
KeyRepo.v
Auth.v
WebhookRepo.v
Sql.v
WebhookService.v
Stats.v
Janitor.v
RateLimit.v
Ingest.v
Delivery.v
Notifier.v
Config.v
Http.v
Observe.v
Handlers.v
Server.v
Invariant.v
System.v
Lifecycle.v
Programs.v
CallBound.v
Healing.v
Guarantee.v
Safety.v
Concurrent.v
Races.v
Secrecy.v
Witnesses.v
