(* ===== verification/Prelude.v ===== *)
(** go-link-shortener: a verification library of the URL shortener.

    The program is one Go process (src/cmd/server/main.go) over PostgreSQL and Redis.
    Tenants hold API keys; with one a client creates, lists, updates and deletes short
    links, reads their statistics and registers webhooks.  Anyone follows a short code;
    the redirect path answers from a Redis cache in front of the links table and hands
    the click to an in-memory analytics pipeline, which enriches, batches and writes
    it.  Link creations and flushed clicks become webhook events, which a dispatcher
    signs and delivers with retries.  A janitor sweeps the demo tenant's links.

    ** How the program is modelled

    World.v holds the state the process shares: the tables of src/migrations, the Redis
    keyspace, the pipeline, the dispatcher, the Prometheus counters and the lines of the
    access log, in one record [World].  An operation is a computation [M A]: a function from a world to a value,
    an error or a panic, and the world it leaves, so that the effects done before an
    error stay.  What the process does not decide (the clock, fresh ids, random bytes,
    the failures of a backend and whether the effect of a failing call happened, the
    order of a range over a map, what webhook endpoints answer) is an [Oracle], indexed
    by the number of effects done so far.  Theorems hold for every oracle: every call of
    a backend may fail, before or after its effect, at every point.

    Each function of the source is one definition of the same name, in a Module named
    after its Go type where it is a method, composed as the code composes them.  Go's
    interfaces are records of functions or type classes; their laws are classes
    ([CodeGeneratorLaws], [SinkLaws], [InvalidatorLaws], [cfg_laws] of the pipeline):
    the clients' theorems are proved against the laws and Server.v discharges them for
    the wiring of main.go.  Integers are Z with their wrap-around or their column's
    range written out where it can matter; a Go string is a string of bytes.

    Goroutines are the steps of a relation: Ingest.v has one step per channel operation
    or flush of a worker, and splits the two selects of Enqueue; Delivery.v has one
    step per call of Dispatch, resolution, delivery and timer, and a step for whatever
    the rest of the program does between them.  System.v composes them with the start of
    the program into one process, whose steps are a request, a step of the pipeline or of
    the dispatcher, a sweep, and the shutdown.  A request is atomic there.  Programs.v
    writes every request, with its handler, its services and its middleware, as a program
    of calls ([Prog], a free monad), each call one statement or transaction, one Redis
    command or script, one operation of a channel or one reading of the clock, and
    shows that the program, run with nothing in between, is the request of Server.v;
    Concurrent.v lets any number of these programs interleave, call by call, with each
    other and with the process.  Lifecycle.v follows [run] to its end: the signal, the
    stages of the shutdown, the deadline, the exit status.

    The statements are functions on rows.  Sql.v holds them as they are written, with
    their column lists, placeholders, assignments and conditions as data and an evaluator
    with NULL, and shows that the functions are what they mean.

    Texts are checked where PostgreSQL and encoding/json check them: a parameter that is
    not UTF-8, or holds a NUL, makes a statement fail, and what is not UTF-8 changes when
    it is encoded as JSON.  Durations, timestamps and JSON are read and written by
    definitions of the Go library's own algorithms, so that no theorem assumes them.

    ** The files

    - Prelude.v, GoStd.v, GoTime.v, Rfc3339.v, Json.v, Sha256.v, NetIP.v, NetUrl.v: list
      and option lemmas, and the part of Go's language and standard library the program
      uses: byte strings, UTF-8, strconv, base64, hexadecimal; [time.ParseDuration];
      RFC 3339 timestamps and the calendar; the encoder, the scanner and the decoder of
      encoding/json; SHA-256 and HMAC; textual IP addresses; [url.Parse].
    - Domain.v: src/internal/domain.  Wire.v: its events as JSON.  Shortcode.v: internal/shortcode.  Enrich.v: the
      pure part of internal/analytics.
    - World.v, Schema.v: the world, its monad, and the invariant of the tables.
    - LinkRepo.v, ClickRepo.v, KeyRepo.v, WebhookRepo.v, LinkCache.v, RateLimit.v:
      internal/repository, a definition per SQL statement, Redis command and script.
      Sql.v: the statements and the scanning of rows, as data.
    - LinkService.v with LinkServiceSpec.v, Redirect.v with Coherence.v, Auth.v (and
      internal/seed), WebhookService.v, Stats.v, Janitor.v: internal/service.
    - Ingest.v: internal/analytics/pipeline.go.  Delivery.v, Notifier.v:
      internal/webhook.  Counters.v: internal/metrics.  Config.v: internal/config.
    - Http.v, Handlers.v: internal/httpx, internal/middleware, internal/handler.
      Observe.v: internal/logger and the observability middleware.
    - Server.v: the wiring and routes of main.go and the end-to-end theorems.
    - Invariant.v, System.v: what every row and cache entry satisfies, the start of the
      program (internal/repository/db.go, cache.go, migrate.go) and the process.
    - Lifecycle.v: [run] and [main], from the environment to the exit status.  Healing.v:
      what becomes of stale cache entries.
    - Programs.v: requests as programs of calls.  CallBound.v: how many calls they make.
      Guarantee.v: what a call may do to the state and to the history the others rely
      on, and a logic of programs under interference ([safe]).  Safety.v: the proofs in
      that logic, one lemma per service, handler and middleware.  Concurrent.v: runs of
      interleaved requests, and what follows for them.  Races.v: what a lost race leaves
      in the cache, and its end, with requests still in flight.
    - Secrecy.v: what responses can depend on.
    - Concrete.v, Witnesses.v: concrete oracles and parameters, and a run of the
      program at which each theorem with hypotheses is applied.

    ** What the theorems show

    - The process (System.v): in every state the program reaches, by any interleaving and
      whatever fails, the tables, the keys and the cache are sound, a redirect leads to a
      web URL, queues, batches and attempts respect the configuration, every accepted click
      is in the channel, in a batch, written, or of a batch whose write failed, and every
      webhook request carries the signed event of a tenant, and goes to the URL it
      registered or where an answer redirected it.
    - Concurrency (Programs.v, CallBound.v, Concurrent.v, Races.v, Healing.v): by a
      rely-guarantee argument, interleaved requests keep the tables and the cache sound,
      never serve a target that was never set, and show and change links, webhooks and
      click counts of the tenant of a valid key only; what a race leaves in the cache is
      gone when its entry expires, counted from the moment the requests that were in
      flight have been answered; a request makes a bounded number of calls whatever the
      others do.
    - The end (Lifecycle.v): a graceful exit writes or reports every accepted click, the
      process can always exit, and an exit with an error drains nothing.
    - Confidentiality (Secrecy.v): responses are the same whatever the stored secrets are,
      by a relation between two runs that is closed under every operation of a request.
    - Requests end to end (Server.v, Observe.v): a redirect answers as the table says
      whatever Redis does; the API is closed without a key; a key reaches its own tenant
      only; a request is logged and measured once.
    - Tables (Schema.v, Sql.v, LinkService.v, ClickRepo.v, Janitor.v): the keys, the unique live
      codes, the references and the agreement of click counters with click rows survive
      every operation and every failure; a batch of clicks is written whole or not at all,
      is equivalent to writing its clicks one by one, and is lost for one bad text; the
      statements mean what the functions on rows say.
    - Operations (LinkServiceSpec.v, Auth.v, WebhookService.v, WebhookRepo.v, Stats.v,
      Config.v, Http.v): what each returns and writes, on success and on error.
    - The cache (Redirect.v, Coherence.v): the coherence invariant, a refinement of the
      answer the table alone gives, the visibility of updates and deletions, and the
      executions in which the cache goes stale.
    - Round trips (LinkCache.v, Wire.v, Handlers.v, Config.v, Auth.v): what the cache
      stores it answers, a payload tells its event, a PATCH is understood as written, a
      configuration survives being written to the environment, a minted key
      authenticates.
    - The limiter (RateLimit.v): the Lua script refines a count over a sliding window, and
      bounds the requests allowed in a window also when requests wait or overtake each other.
    - The pipeline and the dispatcher (Ingest.v, Delivery.v, Notifier.v): conservation of
      clicks, bounds of the queues and of the attempts, draining and termination of
      shutdown, fan-out, backoff.
    - Findings: theorems about what the code does where a comment or its intent says
      otherwise (stale backfill, dead letters that come back, events dropped by the
      drain, a batch lost to one visitor's header, a negative backoff cap or queue size,
      malformed variables that are ignored, an exit that drains nothing, no webhook workers,
      entries without an expiry, an update lost to a concurrent one, deliveries that follow
      redirects).

    ** Bounds and fuel

    The generator's loop over random bytes takes fuel, one unit per buffer read; by
    [Generate_correct] it returns as soon as the buffers the fuel allows hold enough
    unbiased bytes, so only an endless run of rejected bytes exhausts it.  The allocation
    loop is bounded by MaxCollisionRetries in the code itself.  The pipeline and the
    dispatcher have no fuel: they are relations, and termination is a theorem about
    their runs, and so is the exit of the process.  [ParseDuration] and the JSON scanner recurse with a fuel computed from
    the length of their input, every round of which consumes a byte ([terms_fuel],
    [scan_fuel]); nesting is bounded by maxNestingDepth, as in the library.

    ** Parameters

    Code outside src/ is a parameter: the text of a UUID and the time zone of the process
    ([Codec], with the laws [CodecLaws]), gin's JSON binding of a body ([Binding]) and
    its own answers ([Gin]), the quoting of %q, which follows the Unicode tables
    ([Quoter]), the collation of the database ([Collation]), the GeoIP resolver and the
    Prometheus page.  Concrete.v and Witnesses.v instantiate them.

    ** Not modelled

    The insides of the connection pools and of the migration library, the encoding of
    responses and of log lines (gin's and slog's), the MaxMind adapter, test helpers and
    the web console: input and output, or calls of libraries only.  gin's matching of a
    path to a route is the library's: a request comes with its route.  A statement of
    PostgreSQL and a script of Redis is one step; so is a transaction (the batch of
    clicks); how long a call waits for a connection, a lock of a row or the network is not
    modelled, a call returns.  Of the HTTP client of the dispatcher its redirects are
    modelled, not the transport nor the headers it adds (Host, User-Agent, Referer).  A panic of a goroutine other than a handler ends a Go process; the steps of
    System.v go on after it. *)
From stdpp Require Import prelude gmap strings list sorting.

Create Rewrite HintDb go_length.

(** * Tactics *)

(** Split every [match]/[if] of the goal, then of the hypotheses, and clean up. *)
Ltac split_match :=
  repeat (case_match; simplify_eq/=; try done).

(** Turn boolean tests of the hypotheses and the goal into propositions. *)
Ltac bool_to_prop :=
  repeat match goal with
  | H : negb _ = true |- _ => apply negb_true_iff in H
  | H : negb _ = false |- _ => apply negb_false_iff in H
  | H : (_ && _)%bool = true |- _ => apply andb_true_iff in H as [??]
  | H : (_ || _)%bool = false |- _ => apply orb_false_iff in H as [??]
  | H : bool_decide _ = true |- _ => apply bool_decide_eq_true in H
  | H : bool_decide _ = false |- _ => apply bool_decide_eq_false in H
  | H : (_ <? _)%Z = true |- _ => apply Z.ltb_lt in H
  | H : (_ <? _)%Z = false |- _ => apply Z.ltb_ge in H
  | H : (_ <=? _)%Z = true |- _ => apply Z.leb_le in H
  | H : (_ <=? _)%Z = false |- _ => apply Z.leb_gt in H
  | H : (_ =? _)%Z = true |- _ => apply Z.eqb_eq in H
  | H : (_ =? _)%Z = false |- _ => apply Z.eqb_neq in H
  | H : String.eqb _ _ = true |- _ => apply String.eqb_eq in H
  | H : String.eqb _ _ = false |- _ => apply String.eqb_neq in H
  end.

(** * Lists *)

(** Cutting at [n] twice, with something appended in between, is cutting once. *)
Lemma take_take_app {A} n (l k : list A) : take n (take n l ++ k) = take n (l ++ k).
Proof.
  destruct (Nat.le_gt_cases n (length l)).
  - rewrite (take_app_le l k), take_app_le; [by rewrite take_take, Nat.min_id | | done].
    rewrite length_take. lia.
  - by rewrite (take_ge l) by lia.
Qed.

Lemma filter_fmap {A B} (f : A → B) (P : B → Prop) `{!∀ x, Decision (P x)} (l : list A) :
  filter P (f <$> l) = f <$> filter (λ x, P (f x)) l.
Proof. induction l as [|x l IH]; [done|]. rewrite fmap_cons, !filter_cons. case_decide; csimpl; by rewrite IH. Qed.

Lemma Forall_insert {A} (P : A → Prop) l i x : Forall P l → P x → Forall P (<[i := x]> l).
Proof.
  intros Hl Hx. apply Forall_lookup. intros j y. rewrite list_lookup_insert_Some.
  intros [(_ & <- & _)|[_ Hj]]; [done|]. by eapply Forall_lookup_1 in Hl.
Qed.

Lemma elem_of_take {A} n (l : list A) x : x ∈ take n l → x ∈ l.
Proof. intros H. rewrite <- (take_drop n l). apply elem_of_app. by left. Qed.

Lemma list_filter_all {A} (P : A → Prop) `{∀ x, Decision (P x)} (l : list A) :
  (∀ x, x ∈ l → P x) → filter P l = l.
Proof.
  induction l as [|x l IH]; intros Hl; [done|].
  rewrite filter_cons, decide_True by (apply Hl; by left). f_equal. apply IH. intros; apply Hl; by right.
Qed.

Lemma list_filter_none {A} (P : A → Prop) `{∀ x, Decision (P x)} (l : list A) :
  (∀ x, x ∈ l → ¬ P x) → filter P l = [].
Proof.
  induction l as [|x l IH]; intros Hl; [done|].
  rewrite filter_cons, decide_False by (apply Hl; by left). apply IH. intros; apply Hl; by right.
Qed.

(** Sorting commutes with a map that keeps the order. *)
Section merge_sort_fmap.
Context {A} (R : relation A) `{!RelDecision R} (f : A → A).
Context (Hf : ∀ a b, R (f a) (f b) ↔ R a b).

Lemma list_merge_fmap l1 l2 : f <$> list_merge R l1 l2 = list_merge R (f <$> l1) (f <$> l2).
Proof.
  revert l2. induction l1 as [|a l1 IH1]; intros l2; [by destruct l2|].
  induction l2 as [|b l2 IH2]; [done|]. rewrite !fmap_cons, !list_merge_cons.
  rewrite (decide_ext (R (f a) (f b)) (R a b)) by apply Hf.
  case_decide; rewrite fmap_cons; f_equal; [apply (IH1 (b :: l2))|apply IH2].
Qed.

Local Abbreviation on_stack := (fmap (M:=list) (fmap (M:=option) (fmap (M:=list) f))).

Lemma merge_list_to_stack_fmap st l :
  on_stack (merge_list_to_stack R st l) = merge_list_to_stack R (on_stack st) (f <$> l).
Proof.
  revert l. induction st as [|[l'|] st IH]; intros l; csimpl; [done| |done]. by rewrite IH, list_merge_fmap.
Qed.

Lemma merge_stack_fmap st : f <$> merge_stack R st = merge_stack R (on_stack st).
Proof. induction st as [|[l|] st IH]; csimpl; [done| |done]. by rewrite list_merge_fmap, IH. Qed.

Lemma merge_sort_fmap l : f <$> merge_sort R l = merge_sort R (f <$> l).
Proof.
  unfold merge_sort. change [] with (on_stack []) at 2. generalize (@nil (option (list A))).
  induction l as [|a l IH]; intros st; csimpl; [apply merge_stack_fmap|]. by rewrite IH, merge_list_to_stack_fmap.
Qed.
End merge_sort_fmap.
