(* ===== verification/GoStd.v ===== *)
(** The parts of Go's language and standard library the program uses.

    A Go string is a sequence of bytes: it is Rocq's [string], whose
    characters ([ascii]) are exactly the 256 byte values.  A [int], [int64] or
    [time.Duration] is a [Z] with its 64-bit wrap-around written out where it
    can matter; a [time.Time] is an instant, in nanoseconds since the Unix
    epoch. *)
From stdpp Require Import prelude strings pretty.
From Stdlib Require Import Ascii.
From S2P Require Import Prelude.

Local Open Scope Z_scope.
#[local] Arguments String.append : simpl nomatch.

(** * Integers and instants *)

Definition min_int64 : Z := - 2 ^ 63.
Definition max_int64 : Z := 2 ^ 63 - 1.

(** The value of a 64-bit signed machine integer holding [z]. *)
Definition wrap64 (z : Z) : Z := (z + 2 ^ 63) mod 2 ^ 64 - 2 ^ 63.

Definition in_int64 (z : Z) : bool := (min_int64 <=? z) && (z <=? max_int64).

(** Go's shift [x << n] on an [int64], for [0 <= n]. *)
Definition shl64 (x n : Z) : Z := wrap64 (Z.shiftl x n).

Lemma wrap64_range z : min_int64 <= wrap64 z <= max_int64.
Proof.
  unfold wrap64, min_int64, max_int64.
  pose proof (Z.mod_pos_bound (z + 2 ^ 63) (2 ^ 64)). lia.
Qed.

Lemma wrap64_id z : min_int64 <= z <= max_int64 → wrap64 z = z.
Proof.
  unfold wrap64, min_int64, max_int64. intros ?.
  rewrite Z.mod_small; lia.
Qed.

Abbreviation Duration := Z (only parsing).
Abbreviation Time := Z (only parsing).

Definition Millisecond : Duration := 1000000.
Definition Second : Duration := 1000000000.
Definition Minute : Duration := 60 * Second.
Definition Hour : Duration := 60 * Minute.

(** [time.Time{}]: January 1 of year 1, 00:00 UTC. *)
Definition zero_time : Time := -62135596800 * Second.

(** [Time.Unix]: the seconds since the epoch. *)
Definition Unix (t : Time) : Z := t / Second.

(** * Bytes *)

Definition byte_val (c : ascii) : Z := Z.of_N (N_of_ascii c).
Definition byte_of (z : Z) : ascii := ascii_of_N (Z.to_N (z mod 256)).

Lemma byte_val_range c : 0 <= byte_val c < 256.
Proof. unfold byte_val. pose proof (N_ascii_bounded c). lia. Qed.

Definition bytes_of (s : string) : list ascii := String.list_ascii_of_string s.
Definition string_of (l : list ascii) : string := String.string_of_list_ascii l.

(** [len(s)] of a Go string. *)
Definition len (s : string) : Z := Z.of_nat (String.length s).

(** [s[:n]] and [s[n:]] for [0 <= n <= len(s)]. *)
Fixpoint str_take (n : nat) (s : string) : string :=
  match n, s with
  | S n, String c s => String c (str_take n s)
  | _, _ => EmptyString
  end.

Fixpoint str_drop (n : nat) (s : string) : string :=
  match n, s with
  | O, _ => s
  | S n, String _ s => str_drop n s
  | S _, EmptyString => EmptyString
  end.

Lemma str_take_drop n s : str_take n s +:+ str_drop n s = s.
Proof.
  revert s. induction n as [|n IH]; intros [|c s]; try done.
  simpl. by rewrite IH.
Qed.

Lemma length_str_take n s : String.length (str_take n s) = (n `min` String.length s)%nat.
Proof. revert s. induction n as [|n IH]; intros [|??]; simpl; auto. Qed.

Lemma str_app_assoc (a b c : string) : (a +:+ b) +:+ c = a +:+ (b +:+ c).
Proof. induction a; simpl; by f_equal. Qed.

Lemma str_app_nil_r (a : string) : a +:+ "" = a.
Proof. induction a; simpl; by f_equal. Qed.

Lemma length_str_app (a b : string) :
  String.length (a +:+ b) = (String.length a + String.length b)%nat.
Proof. induction a; simpl; auto. Qed.

Lemma length_string_of l : String.length (string_of l) = length l.
Proof. induction l; simpl; auto. Qed.

Lemma bytes_of_string_of l : bytes_of (string_of l) = l.
Proof. apply String.list_ascii_of_string_of_list_ascii. Qed.

(** * Package strings *)

(** [strings.HasPrefix]. *)
Definition HasPrefix (s pre : string) : bool := String.prefix pre s.

(** [strings.Contains]. *)
Fixpoint Contains (s sub : string) : bool :=
  HasPrefix s sub ||
  match s with
  | EmptyString => false
  | String _ s => Contains s sub
  end.

Lemma HasPrefix_spec s pre : HasPrefix s pre = true ↔ ∃ t, s = pre +:+ t.
Proof.
  unfold HasPrefix. revert s. induction pre as [|c pre IH]; intros s; simpl.
  - split; [by exists s | intros _; by destruct s].
  - destruct s as [|d s]; simpl.
    + split; [done | intros [t Ht]; discriminate Ht].
    + destruct (ascii_dec c d) as [->|Hne].
      * rewrite IH. split; intros [t Ht]; exists t; simpl in *; congruence.
      * split; [done | intros [t Ht]; simpl in Ht; congruence].
Qed.

Lemma Contains_spec s sub : Contains s sub = true ↔ ∃ a b, s = a +:+ sub +:+ b.
Proof.
  induction s as [|c s IH]; cbn [Contains]; rewrite orb_true_iff, HasPrefix_spec.
  - split.
    + intros [[t Ht]|?]; [|done]. by exists "", t.
    + intros (a & b & Hab). left. destruct a; simplify_eq/=. by exists b.
  - rewrite IH. split.
    + intros [[t Ht]|(a & b & ->)]; [by exists "", t | by exists (String c a), b].
    + intros ([|c' a] & b & Hab); simplify_eq/=; [left; by exists b | right; by eauto].
Qed.

(** [strings.TrimRight(s, "c")] for a one-byte cutset. *)
Fixpoint trim_right_byte (c : ascii) (s : string) : string :=
  match s with
  | EmptyString => EmptyString
  | String d s' =>
      match trim_right_byte c s' with
      | EmptyString => if ascii_dec d c then EmptyString else String d EmptyString
      | t => String d t
      end
  end.

(** The UTF-8 encodings of the code points [unicode.IsSpace] accepts. *)
Definition spaces : list (list ascii) :=
  (λ l : list Z, byte_of <$> l) <$>
  [[9]; [10]; [11]; [12]; [13]; [32]; [194; 133]; [194; 160]; [225; 154; 128];
   [226; 128; 128]; [226; 128; 129]; [226; 128; 130]; [226; 128; 131];
   [226; 128; 132]; [226; 128; 133]; [226; 128; 134]; [226; 128; 135];
   [226; 128; 136]; [226; 128; 137]; [226; 128; 138]; [226; 128; 168];
   [226; 128; 169]; [226; 128; 175]; [226; 129; 159]; [227; 128; 128]].

(** Drop the leading sequences of [seqs], at most [fuel] of them; the length of
    the list is always enough, every sequence being non-empty. *)
Fixpoint strip_leading (fuel : nat) (seqs : list (list ascii)) (l : list ascii) : list ascii :=
  match fuel with
  | O => l
  | S fuel =>
      match list_find (λ p, take (length p) l = p) seqs with
      | Some (_, p) => strip_leading fuel seqs (drop (length p) l)
      | None => l
      end
  end.

(** [strings.TrimSpace]. *)
Definition TrimSpace (s : string) : string :=
  let l := bytes_of s in
  let l := strip_leading (length l) spaces l in
  string_of (reverse (strip_leading (length l) (reverse <$> spaces) (reverse l))).

Lemma strip_leading_suffix fuel seqs l : ∃ k, l = k ++ strip_leading fuel seqs l.
Proof.
  revert l. induction fuel as [|fuel IH]; intros l; [by exists []|]. cbn [strip_leading].
  destruct (list_find _ seqs) as [[i p]|]; [|by exists []].
  destruct (IH (drop (length p) l)) as [k Hk]. exists (take (length p) l ++ k).
  by rewrite <-app_assoc, <-Hk, take_drop.
Qed.

(** No space starts with the byte [c]. *)
Definition not_space (c : ascii) : bool := forallb (λ p, bool_decide (head p ≠ Some c)) spaces.

Lemma strip_leading_head fuel c l : not_space c = true → strip_leading fuel spaces (c :: l) = c :: l.
Proof.
  intros Hc. destruct fuel as [|fuel]; [done|]. cbn [strip_leading].
  destruct (list_find _ spaces) as [[i p]|] eqn:Hf; [|done]. exfalso.
  apply list_find_Some in Hf as (Hi & Hp & _). apply list_elem_of_lookup_2 in Hi.
  unfold not_space in Hc. rewrite forallb_forall in Hc. specialize (Hc p). rewrite <-list_elem_of_In in Hc.
  specialize (Hc Hi). apply bool_decide_eq_true in Hc. destruct p as [|d p].
  - assert (E : bool_decide ([] ∈ spaces) = false) by (vm_compute; reflexivity). by apply bool_decide_eq_false in E.
  - simpl in Hp. injection Hp as <- _. by apply Hc.
Qed.

(** A text that starts with another byte is not trimmed to [w]. *)
Lemma TrimSpace_other s c l d w :
  bytes_of s = c :: l → not_space c = true → c ≠ d → TrimSpace s ≠ String d w.
Proof.
  intros Hs Hc Hne. unfold TrimSpace. rewrite Hs, strip_leading_head by done.
  destruct (strip_leading_suffix (length (c :: l)) (reverse <$> spaces) (reverse (c :: l))) as [k Hk].
  revert Hk. generalize (strip_leading (length (c :: l)) (reverse <$> spaces) (reverse (c :: l))). intros t Hk.
  apply (f_equal reverse) in Hk. rewrite reverse_involutive, reverse_app in Hk.
  destruct (reverse t) as [|e r]; [done|]. simpl in Hk. injection Hk as <- _. simpl. congruence.
Qed.

(** [strings.ToLower], as far as the ASCII bytes of the result go: an upper-case
    ASCII letter is lowered, and the two other code points whose lower case is
    ASCII, U+0130 and U+212A, become "i" and "k".  The other bytes of the result
    are not ASCII in either case, and no caller looks at them. *)
Fixpoint lower_bytes (l : list ascii) : list ascii :=
  match l with
  | [] => []
  | c :: l' =>
      match byte_val c, l' with
      | 196, d :: l'' => if byte_val d =? 176 then "i"%char :: lower_bytes l'' else c :: lower_bytes l'
      | 226, d :: (e :: l'') =>
          if (byte_val d =? 132) && (byte_val e =? 170) then "k"%char :: lower_bytes l''
          else c :: lower_bytes l'
      | b, _ =>
          (if (65 <=? b) && (b <=? 90) then byte_of (b + 32) else c) :: lower_bytes l'
      end
  end.

Definition ToLower (s : string) : string := string_of (lower_bytes (bytes_of s)).

(** [strings.EqualFold(s, t)] for a [t] of ASCII letters other than k and s (no
    other code point folds to those) and non-letters. *)
Definition fold_byte (c : ascii) : ascii :=
  let b := byte_val c in if (65 <=? b) && (b <=? 90) then byte_of (b + 32) else c.

Definition EqualFold (s t : string) : bool :=
  bool_decide (fold_byte <$> bytes_of s = fold_byte <$> bytes_of t).

(** [strings.Join]. *)
Fixpoint Join (sep : string) (l : list string) : string :=
  match l with
  | [] => ""
  | [s] => s
  | s :: l => s +:+ sep +:+ Join sep l
  end.

(** * Package unicode/utf8 *)

Definition in_bytes (lo hi : Z) (c : ascii) : bool := (lo <=? byte_val c) && (byte_val c <=? hi).

(** A continuation byte. *)
Definition tail_byte : ascii → bool := in_bytes 128 191.

(** [utf8.ValidString]: no stray or missing continuation byte, no overlong form, no
    surrogate, nothing above U+10FFFF. *)
Fixpoint valid_utf8 (l : list ascii) : bool :=
  match l with
  | [] => true
  | a :: l1 =>
      if in_bytes 0 127 a then valid_utf8 l1
      else match l1 with
      | [] => false
      | b :: l2 =>
          if in_bytes 194 223 a then tail_byte b && valid_utf8 l2
          else match l2 with
          | [] => false
          | c :: l3 =>
              if in_bytes 224 239 a then
                in_bytes (if byte_val a =? 224 then 160 else 128) (if byte_val a =? 237 then 159 else 191) b
                && tail_byte c && valid_utf8 l3
              else match l3 with
              | [] => false
              | d :: l4 =>
                  in_bytes 240 244 a
                  && in_bytes (if byte_val a =? 240 then 144 else 128) (if byte_val a =? 244 then 143 else 191) b
                  && tail_byte c && tail_byte d && valid_utf8 l4
              end
          end
      end
  end.

Definition ValidString (s : string) : bool := valid_utf8 (bytes_of s).

(** ASCII is valid. *)
Lemma ascii_valid l : (∀ c, c ∈ l → byte_val c < 128) → valid_utf8 l = true.
Proof.
  induction l as [|c l IH]; intros Hl; [done|]. cbn [valid_utf8].
  assert (Hc : in_bytes 0 127 c = true).
  { specialize (Hl c ltac:(by left)). unfold in_bytes, byte_val in *. apply andb_true_iff. split; apply Z.leb_le; lia. }
  rewrite Hc. apply IH. intros; apply Hl. by right.
Qed.

(** * Package strconv *)

(** [strconv.Itoa]. *)
Definition Itoa (z : Z) : string := pretty z.

Fixpoint digits_val (acc : Z) (l : list ascii) : option Z :=
  match l with
  | [] => Some acc
  | c :: l =>
      let d := byte_val c - 48 in
      if (0 <=? d) && (d <=? 9) then digits_val (acc * 10 + d) l else None
  end.

(** An optional sign: whether it is negative, and what follows. *)
Definition sign (l : list ascii) : bool * list ascii :=
  match l with
  | "+"%char :: l => (false, l)
  | "-"%char :: l => (true, l)
  | l => (false, l)
  end.

Lemma sign_digit c l : 48 <= byte_val c → sign (c :: l) = (false, c :: l).
Proof. intros Hc. destruct c as [[] [] [] [] [] [] [] []]; try done; exfalso; by apply Hc. Qed.

(** [strconv.ParseInt(s, 10, bits)]: an optional sign, then decimal digits; a
    value out of range is an error. *)
Definition ParseInt (bits : Z) (s : string) : option Z :=
  let '(neg, ds) := sign (bytes_of s) in
  match ds with
  | [] => None
  | _ =>
      match digits_val 0 ds with
      | None => None
      | Some v =>
          let z := if neg : bool then - v else v in
          if (- 2 ^ (bits - 1) <=? z) && (z <=? 2 ^ (bits - 1) - 1) then Some z else None
      end
  end.

(** [strconv.Atoi] on a 64-bit platform. *)
Definition Atoi (s : string) : option Z := ParseInt 64 s.

(** The decimal digits [Itoa] writes. *)
Lemma pretty_digit d : (d < 10)%N → byte_val (pretty_N_char d) = 48 + Z.of_N d.
Proof.
  intros ?. assert (d = 0 ∨ d = 1 ∨ d = 2 ∨ d = 3 ∨ d = 4 ∨ d = 5 ∨ d = 6 ∨ d = 7 ∨ d = 8 ∨ d = 9)%N by lia.
  destruct_or!; subst; done.
Qed.

(** A left-to-right reader of decimal digits: reading [d] after a number [x] gives
    [10 x + d] as long as that is at most [m].  Then reading the digits of [x] gives [x]. *)
Lemma read_digits {A} (f : Z → list ascii → A) (m : Z) :
  (∀ x d l, 0 <= x → 0 <= d <= 9 → 10 * x + d <= m → ∀ c, byte_val c = 48 + d → f x (c :: l) = f (10 * x + d) l) →
  ∀ x s l, Z.of_N x <= m → f 0 (bytes_of (pretty_N_go x s) ++ l) = f (Z.of_N x) (bytes_of s ++ l).
Proof.
  intros Hf x. induction (N.lt_wf_0 x) as [x _ IH]. intros s l Hm.
  destruct (decide (x = 0)%N) as [->|Hx]; [by rewrite pretty_N_go_0|].
  pose proof (N.div_mod x 10 ltac:(done)). pose proof (N.mod_lt x 10 ltac:(done)). pose proof (N.div_lt x 10 ltac:(lia) ltac:(done)).
  assert (E : Z.of_N x = 10 * Z.of_N (x `div` 10) + Z.of_N (x `mod` 10))
    by (rewrite (N.div_mod x 10) at 1 by done; by rewrite N2Z.inj_add, N2Z.inj_mul).
  rewrite pretty_N_go_step, IH by lia.
  cbn [bytes_of String.list_ascii_of_string app].
  rewrite (Hf _ (Z.of_N (x `mod` 10)%N)); [by rewrite <-E | ..].
  - lia.
  - revert H0. generalize (x `mod` 10)%N. lia.
  - lia.
  - by apply pretty_digit.
Qed.

Lemma Itoa_N n : 0 < n → Itoa n = pretty_N_go (Z.to_N n) "".
Proof. by destruct n. Qed.

Lemma Itoa_neg n : n < 0 → Itoa n = String "-" (Itoa (- n)).
Proof. by destruct n. Qed.

(** Reading the whole of a non-negative [Itoa]. *)
Lemma read_Itoa {A} (f : Z → list ascii → A) (m : Z) :
  (∀ x d l, 0 <= x → 0 <= d <= 9 → 10 * x + d <= m → ∀ c, byte_val c = 48 + d → f x (c :: l) = f (10 * x + d) l) →
  ∀ n l, 0 <= n <= m → f 0 (bytes_of (Itoa n) ++ l) = f n l.
Proof.
  intros Hf n l Hn. destruct (decide (n = 0)) as [->|].
  - by apply (Hf 0 0 l); try lia.
  - rewrite Itoa_N by lia. rewrite (read_digits f m Hf) by lia. by rewrite Z2N.id by lia.
Qed.

(** A positive [Itoa] is digits, the first of which is no zero. *)
Lemma pretty_go_digits x s :
  (0 < x)%N →
  ∃ c l, bytes_of (pretty_N_go x s) = c :: l ++ bytes_of s
         ∧ 49 <= byte_val c <= 57 ∧ Forall (λ d, 48 <= byte_val d <= 57) l.
Proof.
  revert s. induction (N.lt_wf_0 x) as [x _ IH]. intros s Hx. rewrite pretty_N_go_step by done.
  pose proof (N.mod_lt x 10 ltac:(done)) as Hm. pose proof (N.div_mod x 10 ltac:(done)) as Hd.
  assert (Hc : byte_val (pretty_N_char (x `mod` 10)) = 48 + Z.of_N (x `mod` 10)) by (by apply pretty_digit).
  destruct (decide (x `div` 10 = 0)%N) as [E|].
  - rewrite E, pretty_N_go_0. eexists _, []. split; [done|]. split; [|done].
    rewrite Hc. rewrite E in Hd. revert Hm Hd. generalize (x `mod` 10)%N. lia.
  - destruct (IH (x `div` 10)%N ltac:(by apply N.div_lt) (String (pretty_N_char (x `mod` 10)) s)) as (c & l & Hl & ? & ?);
      [by apply N.neq_0_lt_0|].
    exists c, (l ++ [pretty_N_char (x `mod` 10)]). rewrite Hl. split; [by rewrite <-app_assoc|]. split; [done|].
    apply Forall_app. split; [done|]. constructor; [|constructor].
    rewrite Hc. revert Hm. generalize (x `mod` 10)%N. lia.
Qed.

Lemma Itoa_digits n :
  0 < n → ∃ c l, bytes_of (Itoa n) = c :: l ∧ 49 <= byte_val c <= 57 ∧ Forall (λ d, 48 <= byte_val d <= 57) l.
Proof.
  intros Hn. rewrite Itoa_N by done. destruct (pretty_go_digits (Z.to_N n) "") as (c & l & Hl & H); [lia|].
  exists c, l. by rewrite Hl, app_nil_r.
Qed.

(** The first byte of a non-negative [Itoa] is a digit. *)
Lemma Itoa_head n : 0 <= n → ∃ c l, bytes_of (Itoa n) = c :: l ∧ 48 <= byte_val c <= 57.
Proof.
  intros Hn. destruct (decide (n = 0)) as [->|]; [by exists "0"%char, []|].
  destruct (Itoa_digits n) as (c & l & ? & ? & _); [lia|]. exists c, l. split; [done|lia].
Qed.

(** [Atoi] reads what [Itoa] writes. *)
Lemma ParseInt_Itoa bits n :
  ParseInt bits (Itoa n) = if (- 2 ^ (bits - 1) <=? n) && (n <=? 2 ^ (bits - 1) - 1) then Some n else None.
Proof.
  assert (Hd : ∀ k, 0 <= k → digits_val 0 (bytes_of (Itoa k)) = Some k).
  { intros k Hk. rewrite <-(app_nil_r (bytes_of _)). rewrite (read_Itoa digits_val k); [done| |lia].
    intros x d l ? ? ? c Hc. cbn [digits_val]. rewrite Hc.
    replace (48 + d - 48) with d by lia. rewrite (proj2 (Z.leb_le _ _)), (proj2 (Z.leb_le _ _)) by lia. simpl. f_equal. lia. }
  unfold ParseInt. destruct (decide (0 <= n)).
  - destruct (Itoa_head n) as (c & tl & Hc & Hr); [done|]. specialize (Hd n). rewrite Hc in *.
    by rewrite sign_digit, Hd by lia.
  - rewrite Itoa_neg by lia. change (bytes_of (String "-" ?s)) with ("-"%char :: bytes_of s). cbn [sign].
    destruct (Itoa_head (- n)) as (c & l & Hc & Hr); [lia|]. specialize (Hd (- n)). rewrite Hc in *.
    rewrite Hd by lia. by rewrite Z.opp_involutive.
Qed.

Corollary Atoi_Itoa n : Atoi (Itoa n) = if in_int64 n then Some n else None.
Proof. apply ParseInt_Itoa. Qed.

(** [strconv.ParseBool]. *)
Definition ParseBool (s : string) : option bool :=
  if bool_decide (s ∈ ["1"; "t"; "T"; "true"; "TRUE"; "True"]) then Some true
  else if bool_decide (s ∈ ["0"; "f"; "F"; "false"; "FALSE"; "False"]) then Some false
  else None.

(** * Packages encoding/hex and encoding/base64 *)

Definition hex_digit (n : Z) : ascii :=
  if n <? 10 then byte_of (48 + n) else byte_of (87 + n).

(** [hex.EncodeToString]. *)
Fixpoint hex_encode (l : list ascii) : string :=
  match l with
  | [] => ""
  | c :: l =>
      String (hex_digit (byte_val c / 16)) (String (hex_digit (byte_val c mod 16)) (hex_encode l))
  end.

Definition base64_digit (n : Z) : ascii :=
  if n <? 26 then byte_of (65 + n)
  else if n <? 52 then byte_of (71 + n)
  else if n <? 62 then byte_of (n - 4)
  else if n =? 62 then "-"%char else "_"%char.

(** [base64.RawURLEncoding.EncodeToString]. *)
Fixpoint base64_encode (l : list ascii) : string :=
  match l with
  | [] => ""
  | [a] =>
      let v := byte_val a * 2 ^ 16 in
      string_of [base64_digit (v / 2 ^ 18); base64_digit (v / 2 ^ 12 mod 64)]
  | [a; b] =>
      let v := byte_val a * 2 ^ 16 + byte_val b * 2 ^ 8 in
      string_of [base64_digit (v / 2 ^ 18); base64_digit (v / 2 ^ 12 mod 64);
                 base64_digit (v / 2 ^ 6 mod 64)]
  | a :: b :: c :: l =>
      let v := byte_val a * 2 ^ 16 + byte_val b * 2 ^ 8 + byte_val c in
      string_of [base64_digit (v / 2 ^ 18); base64_digit (v / 2 ^ 12 mod 64);
                 base64_digit (v / 2 ^ 6 mod 64); base64_digit (v mod 64)] +:+ base64_encode l
  end.

Lemma length_hex_encode l : String.length (hex_encode l) = (2 * length l)%nat.
Proof. induction l; simpl; lia. Qed.

(** Three bytes become four characters. *)
Lemma length_base64_encode k l :
  length l = (3 * k)%nat → String.length (base64_encode l) = (4 * k)%nat.
Proof.
  revert l. induction k as [|k IH]; intros l Hl.
  - by destruct l.
  - destruct l as [|a [|b [|c l]]]; simpl in Hl; try lia.
    simpl. rewrite IH; lia.
Qed.

(** * Self-tests against the documented behaviour *)

Example TrimSpace_ex : TrimSpace "  a b	 " = "a b".
Proof. reflexivity. Qed.

Example Atoi_ex : Atoi <$> ["12"; "-7"; "+3"; ""; "1x"; "9223372036854775808"]
  = [Some 12; Some (-7); Some 3; None; None; None].
Proof. reflexivity. Qed.

Example base64_ex : base64_encode (bytes_of "light w") = "bGlnaHQgdw".
Proof. reflexivity. Qed.

Example hex_ex : hex_encode (byte_of <$> [0; 171; 255]) = "00abff".
Proof. reflexivity. Qed.
