(* ===== verification/GoTime.v ===== *)
(** Package time: [time.ParseDuration], with which internal/config/config.go reads
    every duration of the environment.  The integer part of a term is an unsigned
    64-bit integer whose overflow is an error; the fraction goes through IEEE 754
    double precision, as the library computes it. *)
From stdpp Require Import prelude strings pretty list.
From Stdlib Require Import Ascii SpecFloat.
From S2P Require Import Prelude GoStd.

Local Open Scope Z_scope.
#[local] Arguments String.append : simpl nomatch.

(** The value of a 64-bit unsigned machine integer holding [z]. *)
Definition wrapu64 (z : Z) : Z := z mod 2 ^ 64.

Definition is_digit : ascii → bool := in_bytes 48 57.

(** A prefix of bytes that satisfy [p], and the rest. *)
Fixpoint span (p : ascii → bool) (l : list ascii) : list ascii * list ascii :=
  match l with
  | c :: l' => if p c then (let '(a, b) := span p l' in (c :: a, b)) else ([], l)
  | [] => ([], [])
  end.

(** * float64, rounding to nearest even *)

Definition float_of (z : Z) : spec_float := binary_normalize 53 1024 z 0 false.
Definition fmul : spec_float → spec_float → spec_float := SFmul 53 1024.
Definition fdiv : spec_float → spec_float → spec_float := SFdiv 53 1024.

(** [uint64(f)] of a finite non-negative [f]: the fraction is dropped. *)
Definition float_trunc (f : spec_float) : Z :=
  match f with S754_finite false m e => Z.shiftl (Zpos m) e | _ => 0 end.

(** * ParseDuration *)

(** The unsigned number [l] starts with, [x] being the value of the digits before
    it; nothing on overflow. *)
Fixpoint leadingInt (x : Z) (l : list ascii) : option (Z * list ascii) :=
  match l with
  | c :: l' =>
      if is_digit c then
        if 2 ^ 63 / 10 <? x then None
        else let x := x * 10 + (byte_val c - 48) in
             if 2 ^ 63 <? x then None else leadingInt x l'
      else Some (x, l)
  | [] => Some (x, [])
  end.

(** The digits of a fraction and the power of ten they are over; digits that
    would overflow are skipped. *)
Fixpoint leadingFraction (x : Z) (scale : spec_float) (overflow : bool) (l : list ascii)
    : Z * spec_float * list ascii :=
  match l with
  | c :: l' =>
      if is_digit c then
        if overflow || ((2 ^ 63 - 1) / 10 <? x) then leadingFraction x scale true l'
        else let y := x * 10 + (byte_val c - 48) in
             if 2 ^ 63 <? y then leadingFraction x scale true l'
             else leadingFraction y (fmul scale (float_of 10)) false l'
      else (x, scale, l)
  | [] => (x, scale, [])
  end.

(** [unitMap]: the micro sign comes with either of its two code points. *)
Definition unitMap : list (list ascii * Z) :=
  [(bytes_of "ns", 1); (bytes_of "us", 1000);
   (byte_of <$> [194; 181; 115], 1000); (byte_of <$> [206; 188; 115], 1000);
   (bytes_of "ms", Millisecond); (bytes_of "s", Second); (bytes_of "m", Minute); (bytes_of "h", Hour)].

Definition unit_of (u : list ascii) : option Z :=
  snd ∘ snd <$> list_find (λ p, p.1 = u) unitMap.

(** The optional [.digits] of a term: the fraction, its scale, whether it has
    digits, and what follows. *)
Definition fraction (l : list ascii) : Z * spec_float * bool * list ascii :=
  match l with
  | "."%char :: l =>
      let '(f, scale, l') := leadingFraction 0 (float_of 1) false l in
      (f, scale, negb (length l =? length l')%nat, l')
  | _ => (0, float_of 1, false, l)
  end.

(** One term, [digits.digits unit]: its value, unsigned, and what follows it. *)
Definition term (l : list ascii) : option (Z * list ascii) :=
  match l with
  | [] => None
  | c :: _ =>
      if negb (Ascii.eqb c "." || is_digit c) then None
      else
        leadingInt 0 l ≫= λ '(v, l1),
        let pre := negb (length l =? length l1)%nat in
        let '(f, scale, post, l2) := fraction l1 in
        if negb pre && negb post then None
        else
          let '(u, l3) := span (λ c, negb (Ascii.eqb c "." || is_digit c)) l2 in
          if bool_decide (u = []) then None
          else
            unit_of u ≫= λ unit,
            if 2 ^ 63 / unit <? v then None
            else
              let v := wrapu64 (v * unit) in
              if 0 <? f then
                let v := wrapu64 (v + float_trunc (fmul (float_of f) (fdiv (float_of unit) scale))) in
                if 2 ^ 63 <? v then None else Some (v, l3)
              else Some (v, l3)
  end.

(** The loop over the terms, [d] being their sum so far.  Each round consumes a
    byte at least, so the length of the input is enough fuel. *)
Fixpoint terms (fuel : nat) (d : Z) (l : list ascii) : option Z :=
  match l, fuel with
  | [], _ => Some d
  | _, O => None
  | _, S fuel =>
      term l ≫= λ '(v, l'),
      let d := wrapu64 (d + v) in
      if 2 ^ 63 <? d then None else terms fuel d l'
  end.

Definition ParseDuration (s : string) : option Duration :=
  let '(neg, l) := sign (bytes_of s) in
  if bool_decide (l = ["0"%char]) then Some 0
  else if bool_decide (l = []) then None
  else
    terms (length l) 0 l ≫= λ d,
    if neg : bool then Some (wrap64 (- wrap64 d))
    else if max_int64 <? d then None else Some d.

Example parse_1 : ParseDuration "1h30m" = Some (90 * Minute). Proof. vm_compute. reflexivity. Qed.
Example parse_2 : ParseDuration "-1.5h" = Some (- (90 * Minute)). Proof. vm_compute. reflexivity. Qed.
Example parse_3 : ParseDuration ".3s" = Some 300000000. Proof. vm_compute. reflexivity. Qed.
Example parse_4 : ParseDuration "30" = None. Proof. vm_compute. reflexivity. Qed.
Example parse_5 : ParseDuration "-9223372036854775808ns" = Some min_int64. Proof. vm_compute. reflexivity. Qed.
Example parse_6 : ParseDuration "9223372036854775808ns9223372036854775808ns" = Some 0. Proof. vm_compute. reflexivity. Qed.
Example parse_7 : ParseDuration "39h9m14.425s" = Some 140954425000000. Proof. vm_compute. reflexivity. Qed.
Example parse_8 : ParseDuration "0.100000000000000000000h" = Some 360000000000. Proof. vm_compute. reflexivity. Qed.
Example parse_9 : ParseDuration "0.9223372036854775807h" = Some 3320413933267. Proof. vm_compute. reflexivity. Qed.
Example parse_10 : ParseDuration "0.3333333333333333333h" = Some 1200000000000. Proof. vm_compute. reflexivity. Qed.
Example parse_11 : ParseDuration "0.830103483285477580700h" = Some 2988372539827. Proof. vm_compute. reflexivity. Qed.

(** * The fuel is enough *)

Lemma length_span p l : (length (span p l).1 + length (span p l).2 = length l)%nat.
Proof. induction l as [|c l IH]; simpl; [done|]. destruct (p c); [|done]. destruct (span p l); simpl in *; lia. Qed.

Lemma leadingInt_length x l v l' : leadingInt x l = Some (v, l') → (length l' <= length l)%nat.
Proof.
  revert x. induction l as [|c l IH]; intros x; simpl; [by intros [= _ <-]|].
  destruct (is_digit c); [|by intros [= _ <-]]. do 2 (destruct (_ <? _); [done|]). intros ?%IH. lia.
Qed.

Lemma leadingFraction_length x sc o l : (length (leadingFraction x sc o l).2 <= length l)%nat.
Proof.
  revert x sc o. induction l as [|c l IH]; intros x sc o; cbn -[Z.mul]; [done|].
  destruct (is_digit c); [|done]. destruct (_ || _); [|destruct (_ <? _)]; etrans; try apply IH; lia.
Qed.

Lemma fraction_length l f sc post l' : fraction l = (f, sc, post, l') → (length l' <= length l)%nat.
Proof.
  unfold fraction. intros Hf. repeat case_match; simplify_eq/=; try lia.
  match goal with H : leadingFraction ?x ?sc ?o ?k = _ |- _ => pose proof (leadingFraction_length x sc o k) as Hk; rewrite H in Hk end.
  simpl in Hk. lia.
Qed.

Lemma term_consumes l v l' : term l = Some (v, l') → (length l' < length l)%nat.
Proof.
  unfold term. destruct l as [|c l0]; [done|]. set (l := c :: l0). destruct (negb _); [done|].
  destruct (leadingInt 0 l) as [[v0 l1]|] eqn:H1; [|done]. apply leadingInt_length in H1. simpl.
  destruct (fraction l1) as [[[f sc] post] l2] eqn:H2. apply fraction_length in H2.
  destruct (_ && _); [done|].
  destruct (span _ l2) as [u l3] eqn:H3. pose proof (length_span (λ c, negb (Ascii.eqb c "." || is_digit c)) l2) as H4.
  rewrite H3 in H4. simpl in H4. destruct (bool_decide_reflect (u = [])) as [|Hu]; [done|].
  assert (0 < length u)%nat by (destruct u; simpl; [done|lia]).
  destruct (unit_of u); [|done]. cbn [mbind option_bind]. cbv zeta.
  enough (length l3 < length l)%nat by (repeat case_match; by intros [= _ <-]). lia.
Qed.

Lemma terms_fuel f d l : (length l <= f)%nat → terms f d l = terms (length l) d l.
Proof.
  remember (length l) as n eqn:Hn. revert f d l Hn.
  induction n as [n IH] using lt_wf_ind. intros f d l -> Hf.
  destruct l as [|c l]; [by destruct f|]. destruct f as [|f]; [simpl in Hf; lia|].
  cbn [terms length]. destruct (term (c :: l)) as [[v l']|] eqn:Ht; [|done]. simpl.
  apply term_consumes in Ht. destruct (_ <? _); [done|]. simpl in Hf, Ht.
  rewrite (IH (length l')); [|simpl; lia|done|lia].
  symmetry. apply (IH (length l')); [simpl; lia|done|lia].
Qed.

(** * What ParseDuration reads back *)

Lemma digit_spec c : is_digit c = true ↔ 48 <= byte_val c <= 57.
Proof. unfold is_digit, in_bytes. by rewrite andb_true_iff, !Z.leb_le. Qed.

(** A byte that a unit can hold: neither a point nor a digit. *)
Definition unit_byte (c : ascii) : bool := negb (Ascii.eqb c "." || is_digit c).

Lemma leadingInt_Itoa n l :
  0 <= n <= 2 ^ 63 → match l with c :: _ => unit_byte c = true | [] => True end →
  leadingInt 0 (bytes_of (Itoa n) ++ l) = Some (n, l).
Proof.
  intros Hn Hl. rewrite (read_Itoa leadingInt (2 ^ 63)); [| |done].
  - destruct l as [|c l]; [done|]. cbn [leadingInt]. unfold unit_byte in Hl. by destruct (is_digit c); [destruct (Ascii.eqb c ".")|].
  - intros x d k ? ? ? c Hc. cbn [leadingInt]. rewrite (proj2 (digit_spec c)) by lia.
    rewrite (proj2 (Z.ltb_ge _ x)) by (apply Z.div_le_lower_bound; lia). cbv zeta.
    rewrite (proj2 (Z.ltb_ge _ _)) by lia. f_equal. lia.
Qed.

(** A unit and its length in nanoseconds. *)
Definition is_unit (p : list ascii * Z) : Prop := unit_of p.1 = Some p.2.

Lemma is_unit_inv u k : unit_of u = Some k → 1 <= k <= Hour ∧ u ≠ [] ∧ forallb unit_byte u = true.
Proof.
  unfold unit_of. destruct (list_find _ unitMap) as [[i p]|] eqn:Hf; [|done]. intros [= <-].
  apply list_find_Some in Hf as (Hi & <- & _). apply list_elem_of_lookup_2 in Hi. simpl.
  revert p Hi. apply Forall_forall. unfold unitMap. repeat constructor; try done; vm_compute; by intros.
Qed.

Lemma span_app p u l :
  forallb p u = true → match l with c :: _ => p c = false | [] => True end → span p (u ++ l) = (u, l).
Proof.
  intros Hu Hl. induction u as [|c u IH]; simpl in *.
  - destruct l as [|c l]; simpl; [done|]. by rewrite Hl.
  - apply andb_true_iff in Hu as [-> Hu]. by rewrite IH.
Qed.

(** The text of a list of terms, each a number and a unit. *)
Fixpoint render (ts : list (Z * (list ascii * Z))) : list ascii :=
  match ts with
  | [] => []
  | (n, (u, _)) :: ts => bytes_of (Itoa n) ++ u ++ render ts
  end.

Definition total (ts : list (Z * (list ascii * Z))) : Z := foldr (λ t acc, t.1 * t.2.2 + acc) 0 ts.

Definition well_formed (t : Z * (list ascii * Z)) : Prop := 0 <= t.1 ∧ is_unit t.2.

Lemma render_head ts :
  Forall well_formed ts → match render ts with c :: _ => unit_byte c = false | [] => True end.
Proof.
  destruct 1 as [|[n [u k]] ts [Hn _] _]; [done|]. simpl in *.
  destruct (Itoa_head n Hn) as (c & l & -> & Hc). simpl. unfold unit_byte.
  rewrite (proj2 (digit_spec c)) by done. by rewrite orb_true_r.
Qed.

Lemma term_render n u k l :
  0 <= n → unit_of u = Some k → n * k <= 2 ^ 63 → match l with c :: _ => unit_byte c = false | [] => True end →
  term (bytes_of (Itoa n) ++ u ++ l) = Some (n * k, l).
Proof.
  intros Hn Hu Hk Hl. destruct (is_unit_inv u k Hu) as (Hr & Hne & Hb). unfold term.
  destruct (Itoa_head n Hn) as (c & t & Hc & Hd). rewrite Hc. cbn [app].
  rewrite (proj2 (digit_spec c)), orb_true_r by done. cbn [negb].
  change (c :: t ++ u ++ l) with ((c :: t) ++ u ++ l). rewrite <-Hc.
  destruct u as [|b u]; [done|]. cbn [app].
  rewrite leadingInt_Itoa; [|nia|by apply andb_true_iff in Hb as [? _]].
  cbn [mbind option_bind].
  assert (Hpre : (length (bytes_of (Itoa n) ++ b :: u ++ l) =? length (b :: u ++ l))%nat = false)
    by (apply Nat.eqb_neq; rewrite Hc; simpl; rewrite !length_app; simpl; rewrite length_app; lia).
  rewrite Hpre. cbn [negb].
  assert (Hfr : fraction (b :: u ++ l) = (0, float_of 1, false, b :: u ++ l)).
  { simpl in Hb. apply andb_true_iff in Hb as [Hb _]. unfold unit_byte in Hb. unfold fraction.
    destruct b as [[] [] [] [] [] [] [] []]; done. }
  rewrite Hfr. cbn [negb andb]. change (b :: u ++ l) with ((b :: u) ++ l).
  pose proof (span_app unit_byte (b :: u) l Hb Hl) as Hs. unfold unit_byte in Hs. rewrite Hs.
  rewrite bool_decide_eq_false_2 by done. rewrite Hu. cbn [mbind option_bind].
  rewrite (proj2 (Z.ltb_ge _ n)) by (apply Z.div_le_lower_bound; lia). cbv zeta. simpl.
  unfold wrapu64. rewrite Z.mod_small by lia. done.
Qed.

Lemma terms_render ts d :
  Forall well_formed ts → 0 <= d → d + total ts <= 2 ^ 63 →
  terms (length (render ts)) d (render ts) = Some (d + total ts).
Proof.
  intros Hts. revert d. induction Hts as [|[n [u k]] ts [Hn Hu] Hts IH]; intros d Hd Hm.
  - simpl. f_equal. lia.
  - assert (Ht : 0 <= total ts).
    { clear -Hts. induction Hts as [|[n [u k]] ts [Hn Hu] _ IH]; simpl in *; [done|].
      destruct (is_unit_inv u k Hu). nia. }
    destruct (is_unit_inv u k Hu) as (Hk & Hne & _). simpl in Hn, Hu. cbn [total foldr fst snd] in Hm.
    fold (total ts) in Hm. assert (0 <= n * k) by nia.
    pose proof (term_render n u k (render ts) Hn Hu ltac:(lia) (render_head ts Hts)) as Hterm.
    pose proof (term_consumes _ _ _ Hterm) as Hlt. cbn [render] in *.
    destruct (bytes_of (Itoa n) ++ u ++ render ts) as [|c l] eqn:E; [done|].
    cbn [length terms]. rewrite Hterm. cbn [mbind option_bind]. cbv zeta.
    unfold wrapu64. rewrite Z.mod_small, (proj2 (Z.ltb_ge _ _)) by lia.
    rewrite terms_fuel by (simpl in Hlt; lia). rewrite IH by lia. cbn [total foldr fst snd]. fold (total ts). f_equal. lia.
Qed.

Lemma sign_render ts : Forall well_formed ts → sign (render ts) = (false, render ts).
Proof.
  destruct 1 as [|[n [u k]] ts [Hn _] _]; [done|]. simpl in *.
  destruct (Itoa_head n Hn) as (c & l & -> & Hc). apply sign_digit, Hc.
Qed.

Lemma render_not_zero ts : Forall well_formed ts → ts ≠ [] → render ts ≠ [] ∧ render ts ≠ ["0"%char].
Proof.
  destruct 1 as [|[n [u k]] ts [Hn Hu] _]; [done|]. intros _. simpl in *.
  destruct (Itoa_head n Hn) as (c & l & -> & _). destruct (is_unit_inv u k Hu) as (_ & Hne & _).
  split; [done|]. intros Heq. injection Heq as _ Heq. by apply app_eq_nil in Heq as [_ [? _]%app_eq_nil].
Qed.

(** A duration written as terms with units, [1h30m], is read as their sum; with a
    minus sign in front, as its opposite, down to the least 64-bit integer. *)
Lemma ParseDuration_render ts :
  Forall well_formed ts → ts ≠ [] →
  (total ts <= max_int64 → ParseDuration (string_of (render ts)) = Some (total ts))
  ∧ (total ts <= 2 ^ 63 → ParseDuration (String "-" (string_of (render ts))) = Some (- total ts)).
Proof.
  intros Hts Hne. destruct (render_not_zero ts Hts Hne). unfold ParseDuration.
  pose proof (terms_render ts 0 Hts ltac:(lia)) as Hr.
  assert (0 <= total ts).
  { clear -Hts. induction Hts as [|[n [u k]] ts [Hn Hu] _ IH]; simpl in *; [done|].
    destruct (is_unit_inv u k Hu). nia. }
  unfold max_int64. split; intros Hm.
  - rewrite bytes_of_string_of, sign_render by done. rewrite !bool_decide_eq_false_2 by done.
    rewrite Hr by lia. cbn [mbind option_bind]. by rewrite (proj2 (Z.ltb_ge _ _)) by lia.
  - change (bytes_of (String "-" ?s)) with ("-"%char :: bytes_of s). rewrite bytes_of_string_of. cbn [sign].
    rewrite !bool_decide_eq_false_2 by done. rewrite Hr by lia. cbn [mbind option_bind].
    rewrite Z.add_0_l. f_equal. destruct (decide (total ts = 2 ^ 63)) as [->|]; [done|].
    rewrite (wrap64_id (total ts)), wrap64_id by (unfold min_int64, max_int64; lia). done.
Qed.

(** Every duration is read back from its number of nanoseconds. *)
Lemma ParseDuration_ns d : min_int64 <= d <= max_int64 → ParseDuration (Itoa d +:+ "ns") = Some d.
Proof.
  intros Hd. assert (Hs : ∀ n, Itoa n +:+ "ns" = string_of (bytes_of (Itoa n) ++ bytes_of "ns")).
  { intros n. generalize (Itoa n). intros s. induction s as [|c s IH]; [done|]. cbn. by f_equal. }
  assert (Hw : ∀ n, 0 <= n → n <= 2 ^ 63 → Forall well_formed [(n, (bytes_of "ns", 1))] ∧ total [(n, (bytes_of "ns", 1))] = n).
  { intros n Hn _. split; [constructor; [by split | constructor] | simpl; lia]. }
  unfold min_int64, max_int64 in *. destruct (decide (0 <= d)).
  - destruct (Hw d) as [Hf Ht]; [lia..|]. rewrite Hs. destruct (ParseDuration_render _ Hf) as [Hp _]; [done|].
    rewrite Ht in Hp. simpl in Hp. exact (Hp (proj2 Hd)).
  - destruct (Hw (- d)) as [Hf Ht]; [lia..|]. rewrite Itoa_neg by lia.
    change (String "-" ?s +:+ "ns") with (String "-" (s +:+ "ns")). rewrite Hs.
    destruct (ParseDuration_render _ Hf) as [_ Hp]; [done|]. rewrite Ht in Hp.
    refine (eq_trans (Hp _) _); [lia|]. f_equal. lia.
Qed.
