(* ===== verification/Rfc3339.v ===== *)
(** Package time: RFC 3339 timestamps.  [time.Time.MarshalJSON], which writes the
    instants of the cache entries and of the webhook payloads, and
    [time.Parse(time.RFC3339, _)], which also reads the times of a JSON body. *)
From stdpp Require Import prelude strings list.
From Stdlib Require Import Ascii.
From S2P Require Import Prelude GoStd GoTime.

Local Open Scope Z_scope.

(** * The proleptic Gregorian calendar *)

Module Civil.
Record t := Mk { year : Z; month : Z; day : Z }.

(** The days of an era of 400 years are counted from a 1st of March, so that a leap
    day comes last in its year; [epoch] is the 1st of January 1970. *)
Definition era_days : Z := 146097.
Definition epoch : Z := 719468.

(** The year of the era, the month and the day of the [doe]-th day of an era, years
    starting in January. *)
Definition of_day_of_era (doe : Z) : t :=
  let yoe := (doe - doe / 1460 + doe / 36524 - doe / 146096) / 365 in
  let doy := doe - (365 * yoe + yoe / 4 - yoe / 100) in
  let mp := (5 * doy + 2) / 153 in
  let m := if mp <? 10 then mp + 3 else mp - 9 in
  Mk (yoe + (if m <=? 2 then 1 else 0)) m (doy - (153 * mp + 2) / 5 + 1).

(** The date of a day since the epoch. *)
Definition of_days (z : Z) : t :=
  let c := of_day_of_era ((z + epoch) mod era_days) in
  Mk (year c + (z + epoch) / era_days * 400) (month c) (day c).

(** The days from the epoch to a date. *)
Definition days (c : t) : Z :=
  let y := if month c <=? 2 then year c - 1 else year c in
  let yoe := y mod 400 in
  let mp := if 2 <? month c then month c - 3 else month c + 9 in
  let doy := (153 * mp + 2) / 5 + day c - 1 in
  y / 400 * era_days + (yoe * 365 + yoe / 4 - yoe / 100 + doy) - epoch.

Definition leap (y : Z) : bool := (y mod 4 =? 0) && (negb (y mod 100 =? 0) || (y mod 400 =? 0)).

(** [daysIn]. *)
Definition days_in (m y : Z) : Z :=
  if m =? 2 then (if leap y then 29 else 28)
  else if (m =? 4) || (m =? 6) || (m =? 9) || (m =? 11) then 30 else 31.

Definition valid (c : t) : bool :=
  (1 <=? month c) && (month c <=? 12) && (1 <=? day c) && (day c <=? days_in (month c) (year c)).

Example epoch_date : of_days 0 = Mk 1970 1 1. Proof. reflexivity. Qed.
Example leap_date : of_days 11016 = Mk 2000 2 29 ∧ days (Mk 2000 2 29) = 11016. Proof. done. Qed.
Example first_date : of_days (-719162) = Mk 1 1 1. Proof. reflexivity. Qed.

(** The year of an era and the day of that year. *)
Lemma year_of_era doe :
  0 <= doe < era_days →
  let yoe := (doe - doe / 1460 + doe / 36524 - doe / 146096) / 365 in
  let doy := doe - (365 * yoe + yoe / 4 - yoe / 100) in
  0 <= yoe <= 399 ∧ 0 <= doy <= 365
  ∧ (doy = 365 → (yoe + 1) mod 4 = 0 ∧ ((yoe + 1) mod 100 ≠ 0 ∨ (yoe + 1) mod 400 = 0)).
Proof.
  unfold era_days. intros Hd. cbv zeta. repeat split; try (Z.div_mod_to_equations; lia).
Qed.

Lemma leap_era y k : leap (y + k * 400) = leap y.
Proof.
  unfold leap. f_equal; [|f_equal; [f_equal|]]; f_equal; Z.div_mod_to_equations; lia.
Qed.

(** The month and the day of a year that starts in March. *)
Lemma month_of_year doy :
  0 <= doy <= 365 →
  let mp := (5 * doy + 2) / 153 in
  let m := if mp <? 10 then mp + 3 else mp - 9 in
  let d := doy - (153 * mp + 2) / 5 + 1 in
  1 <= m <= 12 ∧ 1 <= d ∧ (if 2 <? m then m - 3 else m + 9) = mp
  ∧ (∀ y, (doy = 365 → m <= 2 → leap y = true) → d <= days_in m y).
Proof.
  intros Hd. cbv zeta. assert (Hmp : 0 <= (5 * doy + 2) / 153 <= 11) by (Z.div_mod_to_equations; lia).
  assert (Hlo : (153 * ((5 * doy + 2) / 153) + 2) / 5 <= doy) by (Z.div_mod_to_equations; lia).
  split_and!; [destruct (Z.ltb_spec ((5 * doy + 2) / 153) 10); lia..|lia| |].
  - destruct (Z.ltb_spec ((5 * doy + 2) / 153) 10); case_match; bool_to_prop; lia.
  - intros y Hy. assert (Hr : 153 * ((5 * doy + 2) / 153) <= 5 * doy + 2 < 153 * ((5 * doy + 2) / 153) + 153)
      by (Z.div_mod_to_equations; lia).
    revert Hmp Hr Hlo. generalize ((5 * doy + 2) / 153). intros mp Hmp Hr Hlo. unfold days_in.
    assert (mp = 0 ∨ mp = 1 ∨ mp = 2 ∨ mp = 3 ∨ mp = 4 ∨ mp = 5 ∨ mp = 6 ∨ mp = 7 ∨ mp = 8 ∨ mp = 9
            ∨ mp = 10 ∨ mp = 11) as Hcases by lia.
    destruct_or! Hcases; subst mp; simpl; try (Z.div_mod_to_equations; lia).
    destruct (leap y); [Z.div_mod_to_equations; lia|]. assert (doy ≠ 365) by (intros ->; by specialize (Hy eq_refl ltac:(done))). Z.div_mod_to_equations. lia.
Qed.

(** A day is found again from its date, which is a date of the calendar. *)
Lemma of_days_spec z : days (of_days z) = z ∧ valid (of_days z) = true.
Proof.
  pose proof (Z.div_mod (z + epoch) era_days ltac:(done)) as Hz.
  pose proof (Z.mod_pos_bound (z + epoch) era_days ltac:(done)) as Hr.
  unfold of_days. set (era := (z + epoch) / era_days) in *. set (doe := (z + epoch) mod era_days) in *.
  destruct (year_of_era doe Hr) as (Hy & Hdoy & Hleap). unfold of_day_of_era. cbv zeta in *. cbn [year month day].
  set (yoe := (doe - doe / 1460 + doe / 36524 - doe / 146096) / 365) in *.
  set (doy := doe - (365 * yoe + yoe / 4 - yoe / 100)) in *.
  assert (Hdoe : doe = doy + (365 * yoe + yoe / 4 - yoe / 100)) by (unfold doy; lia).
  clearbody doy yoe. destruct (month_of_year doy Hdoy) as (Hm & Hd & Hmp & Hmax). cbv zeta in *.
  set (mp := (5 * doy + 2) / 153) in *. clearbody mp.
  set (m := if mp <? 10 then mp + 3 else mp - 9) in *. clearbody m.
  split.
  - unfold days. cbn [year month day]. rewrite Hmp.
    assert (Hyear : (if m <=? 2 then yoe + (if m <=? 2 then 1 else 0) + era * 400 - 1
                     else yoe + (if m <=? 2 then 1 else 0) + era * 400) = yoe + era * 400) by (destruct (m <=? 2); lia).
    rewrite Hyear, Z.div_add, Z.mod_add, Z.div_small, Z.mod_small by lia. lia.
  - unfold valid. cbn [year month day]. rewrite !andb_true_iff, !Z.leb_le. split_and!; try lia.
    apply Hmax. intros H365 Hm2. rewrite (proj2 (Z.leb_le m 2) Hm2), leap_era.
    destruct (Hleap H365) as [H4 H100]. unfold leap. rewrite H4. simpl.
    destruct H100 as [H100|H100]; [|by rewrite H100, orb_true_r].
    by rewrite (proj2 (Z.eqb_neq _ _) H100).
Qed.
End Civil.

(** * Writing *)

Definition digit (n : Z) : ascii := byte_of (48 + n).

(** [n] over two, and over four digits. *)
Definition pad2 (n : Z) : list ascii := [digit (n / 10); digit (n mod 10)].
Definition pad4 (n : Z) : list ascii := pad2 (n / 100) ++ pad2 (n mod 100).

(** The [k] decimal digits of [n]. *)
Fixpoint padk (k : nat) (n : Z) : list ascii :=
  match k with O => [] | S k => padk k (n / 10) ++ [digit (n mod 10)] end.

(** Trailing zeros go. *)
Definition trim_zeros (l : list ascii) : list ascii :=
  foldr (λ c l, match l with [] => if Ascii.eqb c "0" then [] else [c] | _ => c :: l end) [] l.

(** The fraction of a second, in nanoseconds: nothing, or a point and up to nine digits. *)
Definition frac (ns : Z) : list ascii :=
  if ns =? 0 then [] else "."%char :: trim_zeros (padk 9 ns).

(** An offset in minutes east of UTC. *)
Definition zone_text (o : Z) : list ascii :=
  if o =? 0 then ["Z"%char]
  else (if o <? 0 then "-"%char else "+"%char) :: pad2 (Z.abs o / 60) ++ [":"%char] ++ pad2 (Z.abs o mod 60).

(** The date and the nanosecond of the day of an instant seen [o] minutes east of UTC. *)
Definition local_date (t : Time) (o : Z) : Civil.t := Civil.of_days ((t + o * Minute) / (24 * Hour)).
Definition local_nanos (t : Time) (o : Z) : Z := (t + o * Minute) mod (24 * Hour).

Definition format (t : Time) (o : Z) : list ascii :=
  let c := local_date t o in
  let n := local_nanos t o in
  pad4 (Civil.year c) ++ "-"%char :: pad2 (Civil.month c) ++ "-"%char :: pad2 (Civil.day c)
  ++ "T"%char :: pad2 (n / Hour) ++ ":"%char :: pad2 (n / Minute mod 60) ++ ":"%char :: pad2 (n / Second mod 60)
  ++ frac (n mod Second) ++ zone_text o.

(** [Time.MarshalJSON], without the quotes: an error if the year has not four digits,
    or the zone is a day away from UTC. *)
Definition time_MarshalText (t : Time) (o : Z) : option (list ascii) :=
  let y := Civil.year (local_date t o) in
  if (0 <=? y) && (y <=? 9999) && (Z.abs o / 60 <? 24) then Some (format t o) else None.

(** * Reading *)

(** [getnum]: two digits, or one where [fixed] does not forbid it. *)
Definition getnum (fixed : bool) (l : list ascii) : option (Z * list ascii) :=
  match l with
  | a :: l1 =>
      if negb (is_digit a) then None
      else match l1 with
      | b :: l2 =>
          if is_digit b then Some (10 * (byte_val a - 48) + (byte_val b - 48), l2)
          else if fixed then None else Some (byte_val a - 48, l1)
      | [] => if fixed then None else Some (byte_val a - 48, l1)
      end
  | [] => None
  end.

(** Four digits. *)
Definition getyear (l : list ascii) : option (Z * list ascii) :=
  '(hi, l) ← getnum true l; '(lo, l) ← getnum true l; Some (100 * hi + lo, l).

Definition expect (c : ascii) (l : list ascii) : option (list ascii) :=
  match l with d :: l => if Ascii.eqb d c then Some l else None | [] => None end.

Definition check (b : bool) : option () := if b then Some () else None.

(** A point or a comma and digits: nanoseconds, digits after the ninth being ignored.
    Anything else is left to what follows. *)
Definition getfrac (l : list ascii) : Z * list ascii :=
  match l with
  | c :: l1 =>
      if Ascii.eqb c "." || Ascii.eqb c "," then
        match span is_digit l1 with
        | ([], _) => (0, l)
        | (ds, l2) =>
            let ds := take 9 ds in
            (default 0 (digits_val 0 ds) * 10 ^ (9 - Z.of_nat (length ds)), l2)
        end
      else (0, l)
  | [] => (0, l)
  end.

(** [Z] or [±hh:mm], in minutes east of UTC; 24 hours and 60 minutes are let through. *)
Definition getzone (l : list ascii) : option (Z * list ascii) :=
  match l with
  | [] => None
  | c :: l1 =>
      if Ascii.eqb c "Z" then Some (0, l1)
      else
        '(hr, l2) ← getnum true l1;
        l3 ← expect ":" l2;
        '(mm, l4) ← getnum true l3;
        check ((hr <=? 24) && (mm <=? 60));;
        if Ascii.eqb c "+" then Some (hr * 60 + mm, l4)
        else if Ascii.eqb c "-" then Some (- (hr * 60 + mm), l4) else None
  end.

(** [time.Parse(time.RFC3339, s)]: hours may have one digit, a fraction may follow the
    seconds, and nothing may be left. *)
Definition ParseRFC3339 (s : string) : option Time :=
  '(y, l) ← getyear (bytes_of s);
  l ← expect "-" l; '(mo, l) ← getnum true l; check ((1 <=? mo) && (mo <=? 12));;
  l ← expect "-" l; '(d, l) ← getnum true l;
  l ← expect "T" l; '(h, l) ← getnum false l; check (h <? 24);;
  l ← expect ":" l; '(mi, l) ← getnum true l; check (mi <? 60);;
  l ← expect ":" l; '(s, l) ← getnum true l; check (s <? 60);;
  let '(ns, l) := getfrac l in
  '(o, l) ← getzone l;
  check (bool_decide (l = []));;
  check (Civil.valid (Civil.Mk y mo d));;
  Some (Civil.days (Civil.Mk y mo d) * (24 * Hour) + h * Hour + mi * Minute + s * Second + ns - o * Minute).

Example rfc_1 : ParseRFC3339 "1970-01-01T00:00:00Z" = Some 0. Proof. vm_compute. reflexivity. Qed.
Example rfc_2 : ParseRFC3339 "2026-03-01T12:00:00.5+02:00" = ParseRFC3339 "2026-03-01T10:00:00,50Z".
Proof. vm_compute. reflexivity. Qed.
Example rfc_3 : ParseRFC3339 "2026-02-29T00:00:00Z" = None. Proof. vm_compute. reflexivity. Qed.
Example rfc_4 : string_of (format 1767225599123000000 (-330)) = "2025-12-31T18:29:59.123-05:30".
Proof. vm_compute. reflexivity. Qed.

(** * Reading back *)

Lemma digit_val n : 0 <= n <= 9 → byte_val (digit n) = 48 + n.
Proof.
  intros ?. assert (n = 0 ∨ n = 1 ∨ n = 2 ∨ n = 3 ∨ n = 4 ∨ n = 5 ∨ n = 6 ∨ n = 7 ∨ n = 8 ∨ n = 9) as Hn by lia.
  by destruct_or! Hn; subst n.
Qed.

Lemma digit_is n : 0 <= n <= 9 → is_digit (digit n) = true.
Proof. intros ?. apply digit_spec. rewrite digit_val by done. lia. Qed.

Lemma getnum_pad2 b n l : 0 <= n <= 99 → getnum b (pad2 n ++ l) = Some (n, l).
Proof.
  intros ?. assert (0 <= n / 10 <= 9 ∧ 0 <= n mod 10 <= 9) as [] by (Z.div_mod_to_equations; lia).
  unfold pad2. cbn [app getnum]. rewrite !digit_is, !digit_val by done. cbn [negb].
  do 2 f_equal. Z.div_mod_to_equations. lia.
Qed.

Lemma getyear_pad4 n l : 0 <= n <= 9999 → getyear (pad4 n ++ l) = Some (n, l).
Proof.
  intros ?. unfold getyear, pad4. rewrite <-app_assoc.
  rewrite getnum_pad2 by (Z.div_mod_to_equations; lia). cbn [mbind option_bind].
  rewrite getnum_pad2 by (Z.div_mod_to_equations; lia). cbn [mbind option_bind].
  do 2 f_equal. Z.div_mod_to_equations. lia.
Qed.

Lemma length_padk k n : length (padk k n) = k.
Proof. revert n. induction k as [|k IH]; intros n; simpl; [done|]. rewrite length_app, IH. simpl. lia. Qed.

Lemma padk_digits k n : Forall (λ c, is_digit c = true) (padk k n).
Proof.
  revert n. induction k as [|k IH]; intros n; simpl; [done|].
  apply Forall_app. split; [done|]. repeat constructor. apply digit_is. Z.div_mod_to_equations. lia.
Qed.

Lemma digits_val_app acc l k :
  digits_val acc (l ++ k) = digits_val acc l ≫= λ v, digits_val v k.
Proof. revert acc. induction l as [|c l IH]; intros acc; cbn [app digits_val]; [done|]. destruct (_ && _); [apply IH|done]. Qed.

Lemma padk_val k n : 0 <= n < 10 ^ Z.of_nat k → digits_val 0 (padk k n) = Some n.
Proof.
  revert n. induction k as [|k IH]; intros n Hn; [simpl in *; f_equal; lia|].
  rewrite Nat2Z.inj_succ, Z.pow_succ_r in Hn by lia. cbn [padk].
  rewrite digits_val_app, IH by (Z.div_mod_to_equations; lia). cbn [mbind option_bind digits_val].
  assert (0 <= n mod 10 <= 9) by (Z.div_mod_to_equations; lia). rewrite digit_val by done.
  replace (48 + n mod 10 - 48) with (n mod 10) by lia.
  rewrite (proj2 (Z.leb_le _ _)), (proj2 (Z.leb_le _ _)) by lia. cbn [andb]. f_equal. Z.div_mod_to_equations. lia.
Qed.

Lemma trim_zeros_spec l : ∃ j, l = trim_zeros l ++ replicate j "0"%char.
Proof.
  induction l as [|c l [j IH]]; [by exists 0%nat|]. cbn [trim_zeros foldr]. fold (trim_zeros l).
  destruct (trim_zeros l) as [|d k] eqn:E.
  - destruct (Ascii.eqb_spec c "0") as [->|]; [exists (S j)|exists j]; rewrite IH at 1; done.
  - exists j. by rewrite IH at 1.
Qed.

Lemma digits_val_zeros v j : digits_val v (replicate j "0"%char) = Some (v * 10 ^ Z.of_nat j).
Proof.
  revert v. induction j as [|j IH]; intros v; [simpl; f_equal; lia|].
  cbn [replicate digits_val]. change (byte_val "0" - 48) with 0. cbn [Z.leb andb].
  rewrite Nat2Z.inj_succ, Z.pow_succ_r by lia. etrans; [apply IH|]. f_equal. lia.
Qed.

Lemma span_all p u l :
  Forall (λ c, p c = true) u → match l with c :: _ => p c = false | [] => True end → span p (u ++ l) = (u, l).
Proof. intros Hu. apply span_app. induction Hu as [|c u Hc _ IH]; simpl; [done|]. by rewrite Hc. Qed.

(** What can follow the seconds and their fraction: the zone. *)
Definition zone_head (l : list ascii) : Prop :=
  match l with c :: _ => is_digit c = false ∧ (Ascii.eqb c "." || Ascii.eqb c ",") = false | [] => True end.

Lemma getfrac_frac ns l : 0 <= ns < Second → zone_head l → getfrac (frac ns ++ l) = (ns, l).
Proof.
  intros Hns Hl. unfold frac. destruct (Z.eqb_spec ns 0) as [->|Hne].
  - destruct l as [|c l]; [done|]. destruct Hl as [_ Hc]. simpl. by rewrite Hc.
  - pose proof (padk_val 9 ns Hns) as Hv. pose proof (length_padk 9 ns) as Hlen. pose proof (padk_digits 9 ns) as Hd.
    destruct (trim_zeros_spec (padk 9 ns)) as [j Hj]. revert Hj.
    generalize (trim_zeros (padk 9 ns)). intros ds Hj. rewrite Hj in Hv, Hlen, Hd.
    apply Forall_app in Hd as [Hd _]. rewrite length_app, length_replicate in Hlen.
    rewrite digits_val_app in Hv. destruct (digits_val 0 ds) as [v|] eqn:Ev; [|done].
    cbn [mbind option_bind] in Hv. rewrite digits_val_zeros in Hv. injection Hv as Hv.
    cbn [app getfrac]. change (Ascii.eqb "." "." || _) with true. cbv iota.
    rewrite span_all; [|done|by destruct l; [|destruct Hl]].
    destruct ds as [|d ds]; [simpl in Ev; injection Ev as <-; lia|].
    rewrite take_ge by lia. rewrite Ev. cbn [default]. rewrite <-Hv. do 3 f_equal. lia.
Qed.

Lemma zone_text_head o : Z.abs o / 60 < 24 → zone_head (zone_text o).
Proof. intros ?. unfold zone_text. by destruct (o =? 0), (o <? 0). Qed.

Lemma getzone_text o : Z.abs o / 60 < 24 → getzone (zone_text o) = Some (o, []).
Proof.
  intros Ho. unfold zone_text. destruct (Z.eqb_spec o 0) as [->|Hne]; [done|].
  assert (Hh : 0 <= Z.abs o / 60 <= 99) by (Z.div_mod_to_equations; lia).
  assert (Hm : 0 <= Z.abs o mod 60 <= 60) by (Z.div_mod_to_equations; lia).
  assert (Hs : ∀ c, Ascii.eqb c "Z" = false →
            getzone (c :: pad2 (Z.abs o / 60) ++ [":"%char] ++ pad2 (Z.abs o mod 60))
            = if Ascii.eqb c "+" then Some (Z.abs o, []) else if Ascii.eqb c "-" then Some (- Z.abs o, []) else None).
  { intros c Hc. cbn [getzone]. rewrite Hc. rewrite getnum_pad2 by done. cbn [mbind option_bind app expect].
    change (Ascii.eqb ":" ":") with true. cbn [mbind option_bind].
    rewrite <-(app_nil_r (pad2 (_ mod _))), getnum_pad2 by lia. cbn [mbind option_bind].
    unfold check. rewrite (proj2 (Z.leb_le _ _)), (proj2 (Z.leb_le _ _)) by lia. cbn [andb mbind option_bind].
    replace (Z.abs o / 60 * 60 + Z.abs o mod 60) with (Z.abs o) by (Z.div_mod_to_equations; lia). done. }
  destruct (Z.ltb_spec o 0); rewrite Hs by done; cbn; do 2 f_equal; lia.
Qed.

(** An instant survives being written and read, in any zone less than a day from UTC
    and as long as its year there has four digits. *)
Lemma ParseRFC3339_format t o l : time_MarshalText t o = Some l → ParseRFC3339 (string_of l) = Some t.
Proof.
  unfold time_MarshalText, ParseRFC3339. destruct (_ && _) eqn:Hc; [|done]. intros [= <-]. bool_to_prop.
  rewrite bytes_of_string_of. unfold format. set (n := local_nanos t o). set (c := local_date t o) in *.
  destruct (Civil.of_days_spec ((t + o * Minute) / (24 * Hour))) as [Hdays Hvalid].
  fold (local_date t o) in Hdays, Hvalid. fold c in Hdays, Hvalid.
  assert (Hn : 0 <= n < 24 * Hour) by (apply Z.mod_pos_bound; done).
  assert (Ht : t + o * Minute = Civil.days c * (24 * Hour) + n)
    by (rewrite Hdays; unfold n, local_nanos; rewrite (Z.div_mod (t + o * Minute) (24 * Hour)) at 1 by done; lia).
  destruct c as [y mo d]. pose proof Hvalid as Hv. unfold Civil.valid in Hv. cbn [Civil.year Civil.month Civil.day] in *.
  bool_to_prop. assert (d <= 31) by (unfold Civil.days_in in *; repeat case_match; lia).
  assert (Hh : 0 <= n / Hour < 24 ∧ 0 <= n / Minute mod 60 < 60 ∧ 0 <= n / Second mod 60 < 60
               ∧ 0 <= n mod Second < Second
               ∧ n = n / Hour * Hour + n / Minute mod 60 * Minute + n / Second mod 60 * Second + n mod Second)
    by (unfold Hour, Minute, Second in *; Z.div_mod_to_equations; lia).
  revert Hh. generalize (n / Hour), (n / Minute mod 60), (n / Second mod 60), (n mod Second).
  intros h mi s ns (? & ? & ? & ? & Hsum).
  assert (He : ∀ c k, expect c (c :: k) = Some k) by (intros; unfold expect; by rewrite Ascii.eqb_refl).
  rewrite getyear_pad4 by lia.
  repeat (first [rewrite He | rewrite getnum_pad2 by lia | progress cbn [mbind option_bind app]
    | rewrite (proj2 (Z.leb_le _ _)) by lia | rewrite (proj2 (Z.ltb_lt _ _)) by lia | progress cbn [check andb] ]).
  rewrite getfrac_frac, getzone_text by (try apply zone_text_head; lia). cbn [mbind option_bind].
  rewrite bool_decide_eq_true_2 by done. cbn [check mbind option_bind]. rewrite Hvalid. cbn [check mbind option_bind].
  f_equal. lia.
Qed.
