(* ===== verification/Json.v ===== *)
(** Package encoding/json: the text of a value ([json.Marshal]), the scanner and the
    decoder ([json.Unmarshal]), as far as the program uses them: strings, integers,
    times, objects, and raw values.  The cache entries, the webhook payloads and the
    body of a PATCH go through here. *)
From stdpp Require Import prelude gmap strings list.
From Stdlib Require Import Ascii.
From S2P Require Import Prelude GoStd GoTime Rfc3339.

Local Open Scope Z_scope.

(** * UTF-8 *)

(** The encodings of two, three and four bytes [utf8.DecodeRune] accepts. *)
Definition rune2 (a b : ascii) : bool := in_bytes 194 223 a && tail_byte b.
Definition rune3 (a b c : ascii) : bool :=
  in_bytes 224 239 a
  && in_bytes (if byte_val a =? 224 then 160 else 128) (if byte_val a =? 237 then 159 else 191) b && tail_byte c.
Definition rune4 (a b c d : ascii) : bool :=
  in_bytes 240 244 a
  && in_bytes (if byte_val a =? 240 then 144 else 128) (if byte_val a =? 244 then 143 else 191) b
  && tail_byte c && tail_byte d.

Definition is_ascii (a : ascii) : bool := in_bytes 0 127 a.

(** The text cut where [utf8.DecodeRune] cuts it: a byte that starts no rune is alone. *)
Fixpoint runes (l : list ascii) : list (list ascii) :=
  match l with
  | [] => []
  | a :: l1 =>
      if is_ascii a then [a] :: runes l1
      else match l1 with
      | [] => [[a]]
      | b :: l2 =>
          if rune2 a b then [a; b] :: runes l2
          else match l2 with
          | [] => [a] :: runes l1
          | c :: l3 =>
              if rune3 a b c then [a; b; c] :: runes l3
              else match l3 with
              | [] => [a] :: runes l1
              | d :: l4 => if rune4 a b c d then [a; b; c; d] :: runes l4 else [a] :: runes l1
              end
          end
      end
  end.

(** A rune, well formed or not. *)
Definition rune_ok (r : list ascii) : bool :=
  match r with
  | [a] => is_ascii a
  | [a; b] => rune2 a b
  | [a; b; c] => rune3 a b c
  | [a; b; c; d] => rune4 a b c d
  | _ => false
  end.

(** The bytes of U+FFFD, which stands for what is not UTF-8. *)
Definition replacement : list ascii := byte_of <$> [239; 191; 189].

Definition sanitize (l : list ascii) : list ascii :=
  concat ((λ r, if rune_ok r then r else replacement) <$> runes l).

(** [utf8.AppendRune] of a code point below U+110000 that is no surrogate. *)
Definition encode_rune (z : Z) : list ascii :=
  byte_of <$>
  (if z <? 128 then [z]
   else if z <? 2048 then [192 + z / 64; 128 + z mod 64]
   else if z <? 65536 then [224 + z / 4096; 128 + z / 64 mod 64; 128 + z mod 64]
   else [240 + z / 262144; 128 + z / 4096 mod 64; 128 + z / 64 mod 64; 128 + z mod 64]).

(** * String literals *)

Definition dquote : ascii := "034"%char.
Definition backslash : ascii := "\"%char.

(** [\u00xy]. *)
Definition u_escape (z : Z) : list ascii :=
  [backslash; "u"%char; "0"%char; "0"%char; hex_digit (z / 16); hex_digit (z mod 16)].

(** [appendString] with [escapeHTML], rune by rune. *)
Definition quote_rune (r : list ascii) : list ascii :=
  match r with
  | [a] =>
      let z := byte_val a in
      if z =? 8 then [backslash; "b"%char]
      else if z =? 9 then [backslash; "t"%char]
      else if z =? 10 then [backslash; "n"%char]
      else if z =? 12 then [backslash; "f"%char]
      else if z =? 13 then [backslash; "r"%char]
      else if (z =? 34) || (z =? 92) then [backslash; a]
      else if (z <? 32) || (z =? 38) || (z =? 60) || (z =? 62) then u_escape z
      else if z <? 128 then [a]
      else backslash :: bytes_of "ufffd"
  | [a; b; c] =>
      if (byte_val a =? 226) && (byte_val b =? 128) && ((byte_val c =? 168) || (byte_val c =? 169))
      then backslash :: bytes_of (if byte_val c =? 168 then "u2028" else "u2029") else r
  | _ => r
  end.

(** The text between the double quotes of a literal. *)
Definition quote (l : list ascii) : list ascii := concat (quote_rune <$> runes l).

Definition hex_val (c : ascii) : option Z :=
  let z := byte_val c in
  if (48 <=? z) && (z <=? 57) then Some (z - 48)
  else if (97 <=? z) && (z <=? 102) then Some (z - 87)
  else if (65 <=? z) && (z <=? 70) then Some (z - 55) else None.

Definition hex4 (a b c d : ascii) : option Z :=
  w ← hex_val a; x ← hex_val b; y ← hex_val c; z ← hex_val d; Some (w * 4096 + x * 256 + y * 16 + z).

(** The literal up to its closing quote, which the scanner validates. *)
Fixpoint scan_string (l : list ascii) : option (list ascii * list ascii) :=
  match l with
  | [] => None
  | c :: l1 =>
      if Ascii.eqb c dquote then Some ([], l1)
      else if byte_val c <? 32 then None
      else if Ascii.eqb c backslash then
        match l1 with
        | [] => None
        | e :: l2 =>
            if Ascii.eqb e "u" then
              match l2 with
              | h1 :: h2 :: h3 :: h4 :: l3 =>
                  hex4 h1 h2 h3 h4;; '(body, l) ← scan_string l3; Some (c :: e :: h1 :: h2 :: h3 :: h4 :: body, l)
              | _ => None
              end
            else if existsb (Ascii.eqb e) [dquote; backslash; "/"; "b"; "f"; "n"; "r"; "t"]%char
            then '(body, l) ← scan_string l2; Some (c :: e :: body, l)
            else None
        end
      else '(body, l) ← scan_string l1; Some (c :: body, l)
  end.

Definition is_high (z : Z) : bool := (55296 <=? z) && (z <? 56320).
Definition is_low (z : Z) : bool := (56320 <=? z) && (z <? 57344).

(** The byte a simple escape stands for. *)
Definition unescape (e : ascii) : ascii :=
  if Ascii.eqb e "b" then byte_of 8
  else if Ascii.eqb e "f" then byte_of 12
  else if Ascii.eqb e "n" then byte_of 10
  else if Ascii.eqb e "r" then byte_of 13
  else if Ascii.eqb e "t" then byte_of 9
  else e.

(** The rune is the ASCII character [c]. *)
Definition is_char (c : ascii) (r : list ascii) : bool :=
  match r with [a] => Ascii.eqb a c | _ => false end.

(** [unquoteBytes]: escapes are replaced, a lone surrogate and what is not UTF-8 become
    U+FFFD. *)
Fixpoint unquote (rs : list (list ascii)) : list ascii :=
  match rs with
  | [] => []
  | r :: rs1 =>
      if is_char backslash r then
        match rs1 with
        | [] => []
        | e :: rs2 =>
            if is_char "u" e then
              match rs2 with
              | [a] :: [b] :: [c] :: [d] :: rs3 =>
                  let z := default 0 (hex4 a b c d) in
                  if is_high z || is_low z then
                    match rs3 with
                    | [s] :: [v] :: [a'] :: [b'] :: [c'] :: [d'] :: rs4 =>
                        let z' := default 0 (hex4 a' b' c' d') in
                        if Ascii.eqb s backslash && Ascii.eqb v "u" && bool_decide (is_Some (hex4 a' b' c' d'))
                           && is_high z && is_low z'
                        then encode_rune ((z - 55296) * 1024 + (z' - 56320) + 65536) ++ unquote rs4
                        else replacement ++ unquote rs3
                    | _ => replacement ++ unquote rs3
                    end
                  else encode_rune z ++ unquote rs3
              | _ => []
              end
            else (unescape <$> e) ++ unquote rs2
        end
      else (if rune_ok r then r else replacement) ++ unquote rs1
  end.

(** The string a literal denotes. *)
Definition string_literal (body : list ascii) : list ascii := unquote (runes body).

(** * Runes *)

Lemma in_bytes_true lo hi c : in_bytes lo hi c = true ↔ lo <= byte_val c <= hi.
Proof. unfold in_bytes. by rewrite andb_true_iff, !Z.leb_le. Qed.

Lemma in_bytes_false lo hi c : in_bytes lo hi c = false ↔ ¬ (lo <= byte_val c <= hi).
Proof. rewrite <-in_bytes_true. by destruct (in_bytes lo hi c); split. Qed.

(** The first byte of a rune tells its length. *)
Lemma rune2_head a b : rune2 a b = true → is_ascii a = false.
Proof. unfold rune2. intros [Ha _]%andb_true_iff. apply in_bytes_true in Ha. apply in_bytes_false. lia. Qed.

Lemma rune3_head a b c : rune3 a b c = true → is_ascii a = false ∧ ∀ b', rune2 a b' = false.
Proof.
  unfold rune3. intros [[Ha _]%andb_true_iff _]%andb_true_iff. apply in_bytes_true in Ha.
  split; [apply in_bytes_false; lia|]. intros b'. unfold rune2. apply andb_false_iff. left. apply in_bytes_false. lia.
Qed.

Lemma rune4_head a b c d :
  rune4 a b c d = true → is_ascii a = false ∧ (∀ b', rune2 a b' = false) ∧ ∀ b' c', rune3 a b' c' = false.
Proof.
  unfold rune4. intros [[[Ha _]%andb_true_iff _]%andb_true_iff _]%andb_true_iff. apply in_bytes_true in Ha.
  split_and!; [apply in_bytes_false; lia|..].
  - intros b'. unfold rune2. apply andb_false_iff. left. apply in_bytes_false. lia.
  - intros b' c'. unfold rune3. rewrite !andb_false_iff. do 2 left. apply in_bytes_false. lia.
Qed.

Lemma runes_app r k : rune_ok r = true → runes (r ++ k) = r :: runes k.
Proof.
  destruct r as [|a [|b [|c [|d [|]]]]]; intros Hr; try done; cbn [rune_ok] in Hr; cbn [app runes].
  - by rewrite Hr.
  - by rewrite (rune2_head _ _ Hr), Hr.
  - destruct (rune3_head _ _ _ Hr) as [-> ->]. by rewrite Hr.
  - destruct (rune4_head _ _ _ _ Hr) as (-> & -> & ->). by rewrite Hr.
Qed.

(** What a text is cut into: runes, and bytes that start none. *)
Definition rune_piece (r : list ascii) : Prop := rune_ok r = true ∨ ∃ a, r = [a] ∧ is_ascii a = false.

(** Cutting, one step at a time. *)
Lemma runes_cons a l :
  ∃ r k, a :: l = r ++ k ∧ r ≠ [] ∧ runes (a :: l) = r :: runes k ∧ rune_piece r.
Proof.
  destruct (is_ascii a) eqn:Ha.
  { exists [a], l. cbn [runes]. rewrite Ha. split_and!; [done..|by left]. }
  assert (Hsingle : runes (a :: l) = [a] :: runes l →
    ∃ r k, a :: l = r ++ k ∧ r ≠ [] ∧ runes (a :: l) = r :: runes k ∧ rune_piece r).
  { intros Hs. exists [a], l. split_and!; [done..|]. right. by exists a. }
  destruct l as [|b l2]; [by apply Hsingle; cbn [runes]; rewrite Ha|].
  destruct (rune2 a b) eqn:H2.
  { exists [a; b], l2. split_and!; [done..| |by left]. cbn [runes]. by rewrite Ha, H2. }
  destruct l2 as [|c l3]; [by apply Hsingle; cbn [runes]; rewrite Ha, H2|].
  destruct (rune3 a b c) eqn:H3.
  { exists [a; b; c], l3. split_and!; [done..| |by left]. cbn [runes]. by rewrite Ha, H2, H3. }
  destruct l3 as [|d l4]; [by apply Hsingle; cbn [runes]; rewrite Ha, H2, H3|].
  destruct (rune4 a b c d) eqn:H4.
  { exists [a; b; c; d], l4. split_and!; [done..| |by left]. cbn [runes]. by rewrite Ha, H2, H3, H4. }
  apply Hsingle. cbn [runes]. by rewrite Ha, H2, H3, H4.
Qed.

(** Induction along the runes of a text. *)
Lemma runes_ind (P : list ascii → Prop) :
  P [] → (∀ r k, rune_piece r → runes (r ++ k) = r :: runes k → P k → P (r ++ k)) → ∀ l, P l.
Proof.
  intros H0 Hstep l. induction l as [l IH] using (induction_ltof1 _ (@length ascii)). unfold ltof in IH.
  destruct l as [|a l]; [done|]. destruct (runes_cons a l) as (r & k & Heq & Hne & Hr & Hp).
  rewrite Heq in *. apply Hstep; [done..|]. apply IH. rewrite length_app. destruct r; [done|]. simpl. lia.
Qed.

Lemma valid_utf8_app r k : rune_ok r = true → valid_utf8 (r ++ k) = valid_utf8 k.
Proof.
  destruct r as [|a [|b [|c [|d [|]]]]]; intros Hr; try done; cbn [rune_ok] in Hr; cbn [app valid_utf8].
  - unfold is_ascii in Hr. by rewrite Hr.
  - pose proof (rune2_head _ _ Hr) as Ha. unfold is_ascii in Ha. rewrite Ha.
    unfold rune2 in Hr. apply andb_true_iff in Hr as [-> ->]. done.
  - destruct (rune3_head _ _ _ Hr) as [Ha _]. unfold is_ascii in Ha. rewrite Ha.
    unfold rune3 in Hr. apply andb_true_iff in Hr as [[H1 H2]%andb_true_iff H3].
    assert (in_bytes 194 223 a = false) as -> by (apply in_bytes_true in H1; apply in_bytes_false; lia).
    by rewrite H1, H2, H3.
  - destruct (rune4_head _ _ _ _ Hr) as [Ha _]. unfold is_ascii in Ha. rewrite Ha.
    unfold rune4 in Hr. apply andb_true_iff in Hr as [[[H1 H2]%andb_true_iff H3]%andb_true_iff H4].
    assert (in_bytes 194 223 a = false) as -> by (apply in_bytes_true in H1; apply in_bytes_false; lia).
    assert (in_bytes 224 239 a = false) as -> by (apply in_bytes_true in H1; apply in_bytes_false; lia).
    by rewrite H1, H2, H3, H4.
Qed.

(** A byte that starts no rune makes the text invalid. *)
Lemma valid_utf8_piece r k :
  rune_piece r → runes (r ++ k) = r :: runes k → valid_utf8 (r ++ k) = true → rune_ok r = true.
Proof.
  intros [|(a & -> & Ha)] Hr Hv; [done|]. exfalso. revert Hr Hv. cbn [app runes valid_utf8]. rewrite Ha.
  unfold is_ascii in Ha. rewrite Ha.
  destruct k as [|b k]; [done|]. unfold rune2. destruct (in_bytes 194 223 a) eqn:H2.
  { destruct (tail_byte b); [done|]. done. }
  cbn [andb]. destruct k as [|c k]; [done|]. unfold rune3. destruct (in_bytes 224 239 a) eqn:H3.
  { cbn [andb]. destruct (in_bytes _ _ b); [|done]. destruct (tail_byte c); done. }
  cbn [andb]. destruct k as [|d k]; [done|]. unfold rune4. destruct (in_bytes 240 244 a); [|done]. cbn [andb].
  destruct (in_bytes _ _ b); [|done]. destruct (tail_byte c); [|done]. by destruct (tail_byte d).
Qed.

Lemma sanitize_valid l : valid_utf8 l = true → sanitize l = l.
Proof.
  unfold sanitize. induction l as [|r k Hp Hr IH] using runes_ind; [done|]. intros Hv.
  pose proof (valid_utf8_piece r k Hp Hr Hv) as Hok. rewrite valid_utf8_app in Hv by done.
  rewrite Hr. cbn [fmap list_fmap concat]. rewrite Hok. f_equal. by apply IH.
Qed.

(** * Literals *)

Lemma scan_plain c k :
  128 <= byte_val c → scan_string (c :: k) = '(body, l) ← scan_string k; Some (c :: body, l).
Proof.
  intros Hc. cbn [scan_string].
  assert (Ascii.eqb c dquote = false ∧ Ascii.eqb c backslash = false) as [-> ->]
    by (split; apply Ascii.eqb_neq; intros ->; by apply Hc).
  by rewrite (proj2 (Z.ltb_ge _ _)) by lia.
Qed.

Lemma is_ascii_false a : is_ascii a = false → 128 <= byte_val a.
Proof. unfold is_ascii. rewrite in_bytes_false. pose proof (byte_val_range a). lia. Qed.

Lemma tail_byte_high b : tail_byte b = true → 128 <= byte_val b.
Proof. unfold tail_byte. rewrite in_bytes_true. lia. Qed.

(** Every byte of a longer rune has its high bit set. *)
Lemma rune_high r : rune_ok r = true → (1 < length r)%nat → Forall (λ c, 128 <= byte_val c) r.
Proof.
  destruct r as [|a [|b [|c [|d [|]]]]]; intros Hr Hl; try done; simpl in Hl; try lia; cbn [rune_ok] in Hr.
  - pose proof (is_ascii_false a (rune2_head _ _ Hr)). unfold rune2 in Hr. bool_to_prop. eauto using tail_byte_high.
  - destruct (rune3_head _ _ _ Hr) as [Ha%is_ascii_false _]. unfold rune3 in Hr.
    apply andb_true_iff in Hr as [[_ Hb%in_bytes_true]%andb_true_iff Hc%tail_byte_high].
    repeat constructor; [done| |done]. case_match; lia.
  - destruct (rune4_head _ _ _ _ Hr) as [Ha%is_ascii_false _]. unfold rune4 in Hr.
    apply andb_true_iff in Hr as [[[_ Hb%in_bytes_true]%andb_true_iff Hc%tail_byte_high]%andb_true_iff Hd%tail_byte_high].
    repeat constructor; [done| |done|done]. case_match; lia.
Qed.

Lemma scan_high r k :
  Forall (λ c, 128 <= byte_val c) r → scan_string (r ++ k) = '(body, l) ← scan_string k; Some (r ++ body, l).
Proof.
  induction 1 as [|c r Hc _ IH]; cbn [app]; [by destruct (scan_string k) as [[]|]|].
  rewrite scan_plain, IH by done. by destruct (scan_string k) as [[]|].
Qed.

(** A rune of several bytes is quoted as it is, or is one of the two line separators. *)
Lemma quote_rune_long r :
  rune_ok r = true → (1 < length r)%nat →
  quote_rune r = r ∨ (quote_rune r = backslash :: bytes_of "u2028" ∧ r = byte_of <$> [226; 128; 168])
  ∨ (quote_rune r = backslash :: bytes_of "u2029" ∧ r = byte_of <$> [226; 128; 169]).
Proof.
  destruct r as [|a [|b [|c [|d l]]]]; intros Hr Hl; try (by left); simpl in Hl; try lia.
  cbn [quote_rune]. destruct (_ && _) eqn:E; [right|by left].
  assert (Hinj : ∀ x z, byte_val x = z → x = byte_of z).
  { intros x z <-. destruct x as [[] [] [] [] [] [] [] []]; reflexivity. }
  apply andb_true_iff in E as [[Ha%Z.eqb_eq Hb%Z.eqb_eq]%andb_true_iff [Hc%Z.eqb_eq|Hc%Z.eqb_eq]%orb_true_iff];
    apply Hinj in Ha, Hb; rewrite Hc; apply Hinj in Hc; subst; auto.
Qed.

(** The quoted rune is a run of the scanner, and stands for the rune. *)
Lemma scan_quote_rune r k :
  rune_piece r → scan_string (quote_rune r ++ k) = '(body, l) ← scan_string k; Some (quote_rune r ++ body, l).
Proof.
  intros Hp. destruct r as [|a [|b r]]; [by destruct Hp as [|(? & ? & _)]|..].
  - clear Hp. destruct a as [[] [] [] [] [] [] [] []]; reflexivity.
  - assert (Hr : rune_ok (a :: b :: r) = true) by (by destruct Hp as [|(? & ? & _)]).
    assert (Hl : (1 < length (a :: b :: r))%nat) by (simpl; lia).
    destruct (quote_rune_long _ Hr Hl) as [->|[[-> _]|[-> _]]]; [|reflexivity..].
    by apply scan_high, rune_high.
Qed.

Lemma literal_quote_rune r k :
  rune_piece r →
  string_literal (quote_rune r ++ k) = (if rune_ok r then r else replacement) ++ string_literal k.
Proof.
  intros Hp. unfold string_literal. destruct r as [|a [|b r]]; [by destruct Hp as [|(? & ? & _)]|..].
  - clear Hp. destruct a as [[] [] [] [] [] [] [] []]; reflexivity.
  - assert (Hr : rune_ok (a :: b :: r) = true) by (by destruct Hp as [|(? & ? & _)]).
    assert (Hl : (1 < length (a :: b :: r))%nat) by (simpl; lia).
    rewrite Hr. destruct (quote_rune_long _ Hr Hl) as [->|[[-> ->]|[-> ->]]]; [|reflexivity..].
    rewrite runes_app by done. cbn [unquote is_char]. by rewrite Hr.
Qed.

(** [Marshal] then [Unmarshal] on strings: the literal ends where it should, and denotes
    the text, with U+FFFD for what is not UTF-8. *)
Lemma scan_quote l k : scan_string (quote l ++ dquote :: k) = Some (quote l, k).
Proof.
  unfold quote. induction l as [|r l Hp Hr IH] using runes_ind; [done|].
  rewrite Hr. cbn [fmap list_fmap concat]. rewrite <-app_assoc, scan_quote_rune by done. by rewrite IH.
Qed.

Lemma literal_quote l : string_literal (quote l) = sanitize l.
Proof.
  unfold quote, sanitize. induction l as [|r l Hp Hr IH] using runes_ind; [done|].
  rewrite Hr. cbn [fmap list_fmap concat]. rewrite literal_quote_rune by done. by rewrite IH.
Qed.

(** * The scanner *)

(** A value as it is written: a number and a string keep their text, and a member of an
    object keeps the text of its value, which a [json.RawMessage] receives. *)
#[warnings="-register-all"]
Inductive json :=
  | JNull
  | JBool (b : bool)
  | JNumber (literal : list ascii)
  | JString (body : list ascii)
  | JArray (elements : list json)
  | JObject (members : list (list ascii * list ascii * json)).

Definition is_space (c : ascii) : bool := existsb (Z.eqb (byte_val c)) [32; 9; 10; 13].

Definition skip_space (l : list ascii) : list ascii := (span is_space l).2.

(** The text [w], and what follows. *)
Definition literal (w l : list ascii) : option (list ascii) :=
  if bool_decide (take (length w) l = w) then Some (drop (length w) l) else None.

(** One digit at least. *)
Definition digits1 (l : list ascii) : option (list ascii * list ascii) :=
  match span is_digit l with ([], _) => None | (ds, l') => Some (ds, l') end.

(** An optional sign, an integer without leading zeros, a fraction, an exponent. *)
Definition scan_number (l : list ascii) : option (list ascii * list ascii) :=
  let '(sg, l) := match l with c :: l' => if Ascii.eqb c "-" then ([c], l') else ([], l) | [] => ([], []) end in
  '(int, l) ← match l with
              | c :: l' => if Ascii.eqb c "0" then Some ([c], l') else digits1 l
              | [] => None
              end;
  '(fr, l) ← match l with
             | c :: l' => if Ascii.eqb c "." then '(ds, l) ← digits1 l'; Some (c :: ds, l) else Some ([], l)
             | [] => Some ([], [])
             end;
  '(ex, l) ← match l with
             | c :: l' =>
                 if Ascii.eqb c "e" || Ascii.eqb c "E" then
                   let '(s, l) := match l' with
                                  | d :: l => if Ascii.eqb d "+" || Ascii.eqb d "-" then ([d], l) else ([], l')
                                  | [] => ([], []) end in
                   '(ds, l) ← digits1 l; Some (c :: s ++ ds, l)
                 else Some ([], l)
             | [] => Some ([], [])
             end;
  Some (sg ++ int ++ fr ++ ex, l).

(** [maxNestingDepth]. *)
Definition maxNestingDepth : nat := Z.to_nat 10000.

(** The program nests two objects at most. *)
Lemma nests_two n : (n <= 2)%nat → (n <= maxNestingDepth)%nat.
Proof. unfold maxNestingDepth. lia. Qed.

(** One value at the start of [l], [depth] more levels of nesting being allowed; each
    call consumes a byte at least, so a fuel above the length of [l] is enough. *)
Fixpoint scan_value (fuel depth : nat) (l : list ascii) {struct fuel} : option (json * list ascii) :=
  match fuel, l with
  | O, _ | _, [] => None
  | S fuel, c :: l1 =>
      if Ascii.eqb c dquote then '(body, l2) ← scan_string l1; Some (JString body, l2)
      else if Ascii.eqb c "{" then
        match depth with
        | O => None
        | S depth =>
            match skip_space l1 with
            | d :: l2 =>
                if Ascii.eqb d "}" then Some (JObject [], l2)
                else '(ms, l3) ← scan_members fuel depth (d :: l2); Some (JObject ms, l3)
            | [] => None
            end
        end
      else if Ascii.eqb c "[" then
        match depth with
        | O => None
        | S depth =>
            match skip_space l1 with
            | d :: l2 =>
                if Ascii.eqb d "]" then Some (JArray [], l2)
                else '(vs, l3) ← scan_elements fuel depth (d :: l2); Some (JArray vs, l3)
            | [] => None
            end
        end
      else if Ascii.eqb c "n" then l2 ← literal (bytes_of "null") l; Some (JNull, l2)
      else if Ascii.eqb c "t" then l2 ← literal (bytes_of "true") l; Some (JBool true, l2)
      else if Ascii.eqb c "f" then l2 ← literal (bytes_of "false") l; Some (JBool false, l2)
      else '(n, l2) ← scan_number l; Some (JNumber n, l2)
  end
with scan_members (fuel depth : nat) (l : list ascii) {struct fuel}
    : option (list (list ascii * list ascii * json) * list ascii) :=
  match fuel, l with
  | O, _ | _, [] => None
  | S fuel, c :: l1 =>
      if Ascii.eqb c dquote then
        '(key, l2) ← scan_string l1;
        match skip_space l2 with
        | [] => None
        | d :: l3 =>
            if Ascii.eqb d ":" then
              let l4 := skip_space l3 in
              '(v, l5) ← scan_value fuel depth l4;
              let raw := take (length l4 - length l5) l4 in
              match skip_space l5 with
              | [] => None
              | e :: l6 =>
                  if Ascii.eqb e "," then
                    '(ms, l7) ← scan_members fuel depth (skip_space l6); Some ((key, raw, v) :: ms, l7)
                  else if Ascii.eqb e "}" then Some ([(key, raw, v)], l6) else None
              end
            else None
        end
      else None
  end
with scan_elements (fuel depth : nat) (l : list ascii) {struct fuel} : option (list json * list ascii) :=
  match fuel with
  | O => None
  | S fuel' =>
      '(v, l1) ← scan_value fuel' depth l;
      match skip_space l1 with
      | [] => None
      | e :: l2 =>
          if Ascii.eqb e "," then '(vs, l3) ← scan_elements fuel' depth (skip_space l2); Some (v :: vs, l3)
          else if Ascii.eqb e "]" then Some ([v], l2) else None
      end
  end.

(** [checkValid]: one value and nothing else. *)
Definition scan (l : list ascii) : option json :=
  let l1 := skip_space l in
  '(v, l2) ← scan_value (2 * S (length l1)) maxNestingDepth l1;
  if bool_decide (skip_space l2 = []) then Some v else None.

(** ** The fuel is enough *)

Lemma span_length p l : (length (span p l).2 <= length l)%nat.
Proof. pose proof (length_span p l). lia. Qed.

Lemma skip_length l : (length (skip_space l) <= length l)%nat.
Proof. apply span_length. Qed.

Lemma scan_string_length l b r : scan_string l = Some (b, r) → (length r < length l)%nat.
Proof.
  revert b r. induction l as [l IH] using (induction_ltof1 _ (@length ascii)). unfold ltof in IH.
  intros b r. destruct l as [|c l1]; [done|]. cbn [scan_string].
  destruct (Ascii.eqb c dquote); [intros [= _ <-]; simpl; lia|]. destruct (_ <? _); [done|].
  assert (Hrec : ∀ k x, (length k <= length l1)%nat → scan_string k ≫= x = Some (b, r) →
            (∀ b' r', x (b', r') = Some (b, r) → r' = r) → (length r < S (length l1))%nat).
  { intros k x Hk Hs Hx. destruct (scan_string k) as [[b' r']|] eqn:E; [|done]. cbn [mbind option_bind] in Hs.
    apply Hx in Hs as <-. apply IH in E; [lia|simpl; lia]. }
  destruct (Ascii.eqb c backslash).
  - destruct l1 as [|e l2]; [done|]. destruct (Ascii.eqb e "u").
    + destruct l2 as [|h1 [|h2 [|h3 [|h4 l3]]]]; try done. destruct (hex4 h1 h2 h3 h4); [|done]. cbn [mbind option_bind].
      intros Hs. eapply (Hrec l3); [simpl; lia|exact Hs|]. by intros ? ? [= _ ->].
    + destruct (existsb _ _); [|done]. intros Hs. eapply (Hrec l2); [simpl; lia|exact Hs|]. by intros ? ? [= _ ->].
  - intros Hs. eapply (Hrec l1); [done|exact Hs|]. by intros ? ? [= _ ->].
Qed.

Lemma literal_length w l r : w ≠ [] → literal w l = Some r → (length r < length l)%nat.
Proof.
  unfold literal. intros Hw. case_bool_decide as E; [|done]. intros [= <-]. rewrite length_drop.
  assert (Hl : length (take (length w) l) = length w) by (by rewrite E). rewrite length_take in Hl.
  destruct w; [done|]. cbn [length] in *. lia.
Qed.

Lemma digits1_length l ds r : digits1 l = Some (ds, r) → (length r < length l)%nat.
Proof.
  unfold digits1. pose proof (length_span is_digit l) as Hl. destruct (span is_digit l) as [[|d l1] l2]; [done|].
  intros [= _ <-]. simpl in Hl. lia.
Qed.

Lemma scan_number_length l n r : scan_number l = Some (n, r) → (length r < length l)%nat.
Proof.
  unfold scan_number. destruct l as [|c l]; [done|].
  set (split := if Ascii.eqb c "-" then ([c], l) else ([], c :: l)).
  assert (Hs : (length split.2 <= S (length l))%nat) by (unfold split; destruct (Ascii.eqb c "-"); simpl; lia).
  destruct split as [sg l1]. cbn [snd] in Hs.
  assert (Hint : ∀ int l2, match l1 with
      | c :: l' => if Ascii.eqb c "0" then Some ([c], l') else digits1 l1 | [] => None end = Some (int, l2) →
      (length l2 < length l1)%nat).
  { intros int l2. destruct l1 as [|d l1]; [done|]. destruct (Ascii.eqb d "0"); [intros [= _ <-]; simpl; lia|].
    apply digits1_length. }
  destruct (match l1 with [] => None | _ => _ end) as [[int l2]|]; [|done]. specialize (Hint _ _ eq_refl).
  cbn [mbind option_bind].
  assert (Hfr : ∀ fr l3, match l2 with
      | c :: l' => if Ascii.eqb c "." then '(ds, l) ← digits1 l'; Some (c :: ds, l) else Some ([], l2)
      | [] => Some ([], []) end = Some (fr, l3) → (length l3 <= length l2)%nat).
  { intros fr l3. destruct l2 as [|d l2]; [by intros [= _ <-]|]. destruct (Ascii.eqb d "."); [|by intros [= _ <-]].
    destruct (digits1 l2) as [[ds l4]|] eqn:E; [|done]. intros [= _ <-]. apply digits1_length in E. simpl. lia. }
  destruct (match l2 with [] => Some ([], []) | _ => _ end) as [[fr l3]|]; [|done]. specialize (Hfr _ _ eq_refl).
  cbn [mbind option_bind]. intros Hex.
  enough (length r <= length l3)%nat by (simpl; lia). clear -Hex.
  destruct l3 as [|e l3]; [by injection Hex as _ <-|].
  destruct (Ascii.eqb e "e" || Ascii.eqb e "E"); [|by injection Hex as _ <-].
  assert (Hsg : ∀ s l, match l3 with
      | d :: l => if Ascii.eqb d "+" || Ascii.eqb d "-" then ([d], l) else ([], l3) | [] => ([], []) end = (s, l) →
      (length l <= length l3)%nat).
  { intros s l. destruct l3 as [|d l3]; [by intros [= _ <-]|]. destruct (_ || _); intros [= _ <-]; simpl; lia. }
  destruct (match l3 with [] => ([], []) | _ => _ end) as [s l]. specialize (Hsg _ _ eq_refl).
  destruct (digits1 l) as [[ds l4]|] eqn:E; [|done]. apply digits1_length in E. injection Hex as _ <-. simpl. lia.
Qed.

(** What each scanner leaves is shorter than what it was given. *)
Lemma scan_shortens f :
  (∀ d l v r, scan_value f d l = Some (v, r) → (length r < length l)%nat)
  ∧ (∀ d l ms r, scan_members f d l = Some (ms, r) → (length r < length l)%nat)
  ∧ (∀ d l vs r, scan_elements f d l = Some (vs, r) → (length r < length l)%nat).
Proof.
  induction f as [|f (IHv & IHm & IHe)]; [split_and!; intros; by destruct l|].
  assert (Hsk : ∀ l c k, skip_space l = c :: k → (length k < length l)%nat).
  { intros l c k E. pose proof (skip_length l) as Hl. rewrite E in Hl. simpl in Hl. lia. }
  split_and!.
  - intros d l v r. destruct l as [|c l1]; [done|]. cbn [scan_value].
    destruct (Ascii.eqb c dquote).
    { destruct (scan_string l1) as [[b l2]|] eqn:E; [|done]. intros [= _ <-]. apply scan_string_length in E. simpl. lia. }
    destruct (Ascii.eqb c "{").
    { destruct d as [|d]; [done|]. destruct (skip_space l1) as [|e l2] eqn:E; [done|]. apply Hsk in E as Hl.
      destruct (Ascii.eqb e "}"); [intros [= _ <-]; simpl; lia|].
      destruct (scan_members f d (e :: l2)) as [[ms l3]|] eqn:Em; [|done]. intros [= _ <-]. apply IHm in Em. simpl in *. lia. }
    destruct (Ascii.eqb c "[").
    { destruct d as [|d]; [done|]. destruct (skip_space l1) as [|e l2] eqn:E; [done|]. apply Hsk in E as Hl.
      destruct (Ascii.eqb e "]"); [intros [= _ <-]; simpl; lia|].
      destruct (scan_elements f d (e :: l2)) as [[vs l3]|] eqn:Em; [|done]. intros [= _ <-]. apply IHe in Em. simpl in *. lia. }
    destruct (Ascii.eqb c "n"); [destruct (literal _ _) eqn:E; [|done]; intros [= _ <-]; by eapply literal_length in E|].
    destruct (Ascii.eqb c "t"); [destruct (literal _ _) eqn:E; [|done]; intros [= _ <-]; by eapply literal_length in E|].
    destruct (Ascii.eqb c "f"); [destruct (literal _ _) eqn:E; [|done]; intros [= _ <-]; by eapply literal_length in E|].
    destruct (scan_number (c :: l1)) as [[n l2]|] eqn:E; [|done]. intros [= _ <-]. by apply scan_number_length in E.
  - intros d l ms r. destruct l as [|c l1]; [done|]. cbn [scan_members].
    destruct (Ascii.eqb c dquote); [|done]. destruct (scan_string l1) as [[key l2]|] eqn:Es; [|done].
    apply scan_string_length in Es. cbn [mbind option_bind]. destruct (skip_space l2) as [|e l3] eqn:E2; [done|].
    apply Hsk in E2. destruct (Ascii.eqb e ":"); [|done]. pose proof (skip_length l3).
    destruct (scan_value f d (skip_space l3)) as [[v l5]|] eqn:Ev; [|done]. apply IHv in Ev. cbn [mbind option_bind].
    destruct (skip_space l5) as [|g l6] eqn:E5; [done|]. apply Hsk in E5. pose proof (skip_length l6).
    destruct (Ascii.eqb g ",").
    + destruct (scan_members f d (skip_space l6)) as [[ms' l7]|] eqn:Em; [|done]. apply IHm in Em. intros [= _ <-]. simpl. lia.
    + destruct (Ascii.eqb g "}"); [|done]. intros [= _ <-]. simpl. lia.
  - intros d l vs r. cbn [scan_elements]. destruct (scan_value f d l) as [[v l1]|] eqn:Ev; [|done]. apply IHv in Ev.
    cbn [mbind option_bind]. destruct (skip_space l1) as [|e l2] eqn:E1; [done|]. apply Hsk in E1. pose proof (skip_length l2).
    destruct (Ascii.eqb e ",").
    + destruct (scan_elements f d (skip_space l2)) as [[vs' l3]|] eqn:Em; [|done]. apply IHe in Em. intros [= _ <-]. lia.
    + destruct (Ascii.eqb e "]"); [|done]. intros [= _ <-]. lia.
Qed.

(** More fuel than the input needs changes nothing, so running out of it is never the
    answer of [scan]. *)
Lemma scan_fuel f :
  (∀ f' d l, (2 * length l < f)%nat → (f <= f')%nat → scan_value f d l = scan_value f' d l)
  ∧ (∀ f' d l, (2 * length l < f)%nat → (f <= f')%nat → scan_members f d l = scan_members f' d l)
  ∧ (∀ f' d l, (2 * length l + 1 < f)%nat → (f <= f')%nat → scan_elements f d l = scan_elements f' d l).
Proof.
  induction f as [|f (IHv & IHm & IHe)]; [split_and!; intros; lia|].
  split_and!; intros [|f'] d l Hl Hf; try lia.
  - destruct l as [|c l1]; [done|]. cbn [scan_value]. simpl in Hl. pose proof (skip_length l1).
    destruct (Ascii.eqb c dquote); [done|].
    destruct (Ascii.eqb c "{").
    { destruct d as [|d]; [done|]. destruct (skip_space l1) as [|e l2]; [done|]. simpl in *.
      destruct (Ascii.eqb e "}"); [done|]. by rewrite (IHm f' d (e :: l2)) by (simpl; lia). }
    destruct (Ascii.eqb c "["); [|done].
    destruct d as [|d]; [done|]. destruct (skip_space l1) as [|e l2]; [done|]. simpl in *.
    destruct (Ascii.eqb e "]"); [done|]. by rewrite (IHe f' d (e :: l2)) by (simpl; lia).
  - destruct l as [|c l1]; [done|]. cbn [scan_members]. simpl in Hl.
    destruct (Ascii.eqb c dquote); [|done]. destruct (scan_string l1) as [[key l2]|] eqn:Es; [|done].
    apply scan_string_length in Es. cbn [mbind option_bind]. pose proof (skip_length l2).
    destruct (skip_space l2) as [|e l3]; [done|]. destruct (Ascii.eqb e ":"); [|done]. simpl in *.
    pose proof (skip_length l3). rewrite <-(IHv f') by lia.
    destruct (scan_value f d (skip_space l3)) as [[v l5]|] eqn:Ev; [|done].
    apply (proj1 (scan_shortens f)) in Ev. cbn [mbind option_bind]. pose proof (skip_length l5).
    destruct (skip_space l5) as [|g l6]; [done|]. simpl in *. pose proof (skip_length l6).
    destruct (Ascii.eqb g ","); [|done]. by rewrite (IHm f') by lia.
  - cbn [scan_elements]. rewrite <-(IHv f') by lia.
    destruct (scan_value f d l) as [[v l1]|] eqn:Ev; [|done].
    apply (proj1 (scan_shortens f)) in Ev. cbn [mbind option_bind]. pose proof (skip_length l1).
    destruct (skip_space l1) as [|e l2]; [done|]. simpl in *. pose proof (skip_length l2).
    destruct (Ascii.eqb e ","); [|done]. by rewrite (IHe f') by lia.
Qed.

(** * The encoder *)

(** What a program encodes: null, integers, texts, and objects with their keys in order. *)
#[warnings="-register-all"]
Inductive tree :=
  | TNull
  | TInt (z : Z)
  | TText (s : list ascii)
  | TObject (members : list (list ascii * tree)).

Definition text (s : list ascii) : list ascii := dquote :: quote s ++ [dquote].

Fixpoint intercalate (sep : list ascii) (ls : list (list ascii)) : list ascii :=
  match ls with
  | [] => []
  | [l] => l
  | l :: ls => l ++ sep ++ intercalate sep ls
  end.

Fixpoint encode (t : tree) : list ascii :=
  match t with
  | TNull => bytes_of "null"
  | TInt z => bytes_of (Itoa z)
  | TText s => text s
  | TObject ms =>
      "{"%char :: intercalate [","%char] (map (λ m, text m.1 ++ ":"%char :: encode m.2) ms) ++ ["}"%char]
  end.

(** The value the encoding is scanned to. *)
Fixpoint json_of (t : tree) : json :=
  match t with
  | TNull => JNull
  | TInt z => JNumber (bytes_of (Itoa z))
  | TText s => JString (quote s)
  | TObject ms => JObject (map (λ m, (quote m.1, encode m.2, json_of m.2)) ms)
  end.

Fixpoint nesting (t : tree) : nat :=
  match t with TObject ms => S (list_max (map (λ m, nesting m.2) ms)) | _ => 0 end.

Lemma tree_ind' (P : tree → Prop) :
  P TNull → (∀ z, P (TInt z)) → (∀ s, P (TText s)) →
  (∀ ms, Forall (λ m, P m.2) ms → P (TObject ms)) → ∀ t, P t.
Proof.
  intros Hn Hi Ht Ho. fix IH 1. intros [|z|s|ms]; [apply Hn|apply Hi|apply Ht|]. apply Ho.
  induction ms as [|[k t] ms IHms]; constructor; [apply IH|done].
Qed.

Lemma encode_head t : ∃ c l, encode t = c :: l ∧ is_space c = false.
Proof.
  destruct t as [|z|s|ms]; [by eexists _, _| |by eexists _, _|by eexists _, _].
  cbn [encode]. destruct (decide (0 <= z)).
  - destruct (Itoa_head z) as (c & tl & Hc & Hr); [done|]. exists c, tl. split; [done|].
    unfold is_space. cbn [existsb]. rewrite !orb_false_iff, !Z.eqb_neq. split_and!; lia || done.
  - rewrite Itoa_neg by lia. by eexists _, _.
Qed.

Lemma skip_head c l : is_space c = false → skip_space (c :: l) = c :: l.
Proof. intros Hc. unfold skip_space. cbn [span]. by rewrite Hc. Qed.

(** What may follow a number. *)
Definition number_end (k : list ascii) : Prop :=
  match k with
  | c :: _ => is_digit c = false ∧ Ascii.eqb c "." = false ∧ (Ascii.eqb c "e" || Ascii.eqb c "E") = false
  | [] => True
  end.

Lemma scan_Itoa z k : number_end k → scan_number (bytes_of (Itoa z) ++ k) = Some (bytes_of (Itoa z), k).
Proof.
  intros Hk.
  assert (Hpos : ∀ n, 0 <= n → ∃ c l, bytes_of (Itoa n) = c :: l ∧ Ascii.eqb c "-" = false
     ∧ (if Ascii.eqb c "0" then Some ([c], l ++ k) else digits1 (c :: l ++ k)) = Some (c :: l, k)).
  { intros n Hn. destruct (decide (n = 0)) as [->|]; [by exists "0"%char, []|].
    destruct (Itoa_digits n) as (c & l & Hl & Hc & Hd); [lia|]. exists c, l. split; [done|].
    assert (Ascii.eqb c "-" = false ∧ Ascii.eqb c "0" = false) as [-> ->]
      by (split; apply Ascii.eqb_neq; intros ->; by apply (proj1 Hc)).
    split; [done|]. unfold digits1. change (c :: l ++ k) with ((c :: l) ++ k). rewrite (span_all is_digit (c :: l) k); [done|..].
    - constructor; [apply digit_spec; lia|]. eapply Forall_impl; [done|]. intros d ?. by apply digit_spec.
    - by destruct k; [|destruct Hk]. }
  assert (Htail : ∀ sg int,
    ('(fr, l) ← match k with
             | c :: l' => if Ascii.eqb c "." then '(ds, l) ← digits1 l'; Some (c :: ds, l) else Some ([], k)
             | [] => Some ([], [])
             end;
     '(ex, l) ← match l with
             | c :: l' =>
                 if Ascii.eqb c "e" || Ascii.eqb c "E" then
                   let '(s, l) := match l' with
                                  | d :: l => if Ascii.eqb d "+" || Ascii.eqb d "-" then ([d], l) else ([], l')
                                  | [] => ([], []) end in
                   '(ds, l) ← digits1 l; Some (c :: s ++ ds, l)
                 else Some ([], l)
             | [] => Some ([], [])
             end;
     Some (sg ++ int ++ fr ++ ex, l)) = Some (sg ++ int : list ascii, k)).
  { intros sg int. destruct k as [|c k]; cbn [mbind option_bind].
    - by rewrite !app_nil_r.
    - destruct Hk as (_ & -> & He). cbn [mbind option_bind]. rewrite He. cbn [mbind option_bind]. by rewrite !app_nil_r. }
  unfold scan_number. destruct (decide (0 <= z)).
  - destruct (Hpos z) as (c & tl & -> & Hm & Hi); [done|]. cbn [app]. rewrite Hm. cbn [app]. rewrite Hi. exact (Htail [] (c :: tl)).
  - rewrite Itoa_neg by lia. change (bytes_of (String "-" ?s)) with ("-"%char :: bytes_of s). cbn [app].
    change (Ascii.eqb "-" "-") with true. cbv iota beta.
    destruct (Hpos (- z)) as (c & tl & -> & _ & Hi); [lia|]. cbn [app]. rewrite Hi. exact (Htail ["-"%char] (c :: tl)).
Qed.

(** The text of the members of an object, up to its closing brace. *)
Definition member (m : list ascii * tree) : list ascii := text m.1 ++ ":"%char :: encode m.2.

Definition member_of (m : list ascii * tree) : list ascii * list ascii * json := (quote m.1, encode m.2, json_of m.2).

Lemma scan_text s fuel depth k :
  (0 < fuel)%nat → scan_value fuel depth (text s ++ k) = Some (JString (quote s), k).
Proof.
  intros Hf. destruct fuel as [|fuel]; [lia|]. unfold text. cbn [app scan_value].
  change (Ascii.eqb dquote dquote) with true. cbv iota. rewrite <-app_assoc. cbn [app]. by rewrite scan_quote.
Qed.

(** The scanner reads a tree back from its encoding. *)
Definition scans (t : tree) : Prop :=
  ∀ fuel depth k, (2 * length (encode t) < fuel)%nat → (nesting t <= depth)%nat → number_end k →
    scan_value fuel depth (encode t ++ k) = Some (json_of t, k).

Lemma intercalate_cons sep l ls : ls ≠ [] → intercalate sep (l :: ls) = l ++ sep ++ intercalate sep ls.
Proof. by destruct ls. Qed.

Lemma skip_members m ms r :
  skip_space (intercalate [","%char] (map member (m :: ms)) ++ r) = intercalate [","%char] (map member (m :: ms)) ++ r.
Proof. destruct ms; cbn [map intercalate]; unfold member at 1, text; cbn [app]; by apply skip_head. Qed.

Lemma scan_members_encode ms :
  Forall (λ m, scans m.2) ms → ms ≠ [] →
  ∀ fuel depth k, (2 * length (intercalate [","%char] (map member ms)) < fuel)%nat →
    Forall (λ m, nesting m.2 <= depth)%nat ms →
    scan_members fuel depth (intercalate [","%char] (map member ms) ++ "}"%char :: k) = Some (map member_of ms, k).
Proof.
  induction 1 as [|[key t] ms Ht Hms IH]; [done|]. intros _ fuel depth k Hf Hd.
  apply Forall_cons in Hd as [Hd Hds]. cbn [snd] in Ht, Hd.
  destruct fuel as [|fuel]; [lia|].
  assert (Hone : ∀ rest, number_end rest → (2 * length (encode t) < fuel)%nat →
    ∀ f, scan_members (S fuel) depth (member (key, t) ++ rest) = f →
    f = match skip_space rest with
        | [] => None
        | e :: l6 =>
            if Ascii.eqb e "," then
              '(ms, l7) ← scan_members fuel depth (skip_space l6); Some ((quote key, encode t, json_of t) :: ms, l7)
            else if Ascii.eqb e "}" then Some ([(quote key, encode t, json_of t)], l6) else None
        end).
  { intros rest Hr Hlen f <-. unfold member, text. cbn [fst snd app scan_members].
    change (Ascii.eqb dquote dquote) with true. cbv iota. rewrite <-!app_assoc. cbn [app]. rewrite scan_quote.
    cbn [mbind option_bind]. rewrite skip_head by done. change (Ascii.eqb ":" ":") with true. cbv iota.
    assert (Hsk : skip_space (encode t ++ rest) = encode t ++ rest).
    { destruct (encode_head t) as (c & l & -> & Hc). by apply skip_head. }
    rewrite Hsk. rewrite Ht by done. cbn [mbind option_bind].
    assert (Hraw : take (length (encode t ++ rest) - length rest) (encode t ++ rest) = encode t)
      by (rewrite length_app, Nat.add_sub; apply take_app_length).
    by rewrite Hraw. }
  destruct ms as [|m ms].
  - cbn [map intercalate] in *. unfold member at 1 in Hf. rewrite length_app in Hf. simpl in Hf.
    rewrite (Hone ("}"%char :: k) ltac:(done) ltac:(lia) _ eq_refl). by rewrite skip_head.
  - specialize (IH ltac:(done) fuel depth k). pose proof (skip_members m ms ("}"%char :: k)) as Hsk.
    change (map member ((key, t) :: m :: ms)) with (member (key, t) :: map member (m :: ms)) in *.
    rewrite intercalate_cons in * by done. revert IH Hf Hsk.
    generalize (intercalate [","%char] (map member (m :: ms))). intros rest IH Hf Hsk.
    rewrite !length_app in Hf. unfold member at 1 in Hf. rewrite length_app in Hf. simpl in Hf.
    rewrite <-!app_assoc. cbn [app]. rewrite (Hone (","%char :: _) ltac:(done) ltac:(lia) _ eq_refl).
    rewrite skip_head by done. change (Ascii.eqb "," ",") with true. cbv iota.
    rewrite Hsk, IH; [done|lia|done].
Qed.

(** The first byte of an integer, which no other value starts with. *)
Lemma Itoa_first z :
  ∃ c l, bytes_of (Itoa z) = c :: l
         ∧ Forall (λ d, Ascii.eqb c d = false) [dquote; "{"; "["; "n"; "t"; "f"]%char.
Proof.
  assert (Hdig : ∀ n, 0 <= n → ∃ c l, bytes_of (Itoa n) = c :: l
    ∧ Forall (λ d, Ascii.eqb c d = false) [dquote; "{"; "["; "n"; "t"; "f"]%char).
  { intros n Hn. destruct (Itoa_head n Hn) as (c & l & Hc & Hr). exists c, l. split; [done|].
    repeat constructor; apply Ascii.eqb_neq; intros ->; first [by apply (proj1 Hr) | by apply (proj2 Hr)]. }
  destruct (decide (0 <= z)); [by apply Hdig|]. rewrite Itoa_neg by lia.
  exists "-"%char, (bytes_of (Itoa (- z))). by repeat constructor.
Qed.

Lemma scan_encode t : scans t.
Proof.
  induction t as [|z|s|ms IH] using tree_ind'; intros fuel depth k Hf Hd Hk.
  - destruct fuel as [|fuel]; [lia|]. reflexivity.
  - pose proof (scan_Itoa z k Hk) as Hs. destruct (Itoa_first z) as (c & l & Hc & Hne).
    cbn [encode json_of] in *. rewrite Hc in *. destruct fuel as [|fuel]; [lia|].
    rewrite !Forall_cons in Hne.
    cbn [app scan_value]. destruct Hne as (H1 & H2 & H3 & H4 & H5 & H6 & _).
    rewrite H1, H2, H3, H4, H5, H6. cbn [app] in Hs. by rewrite Hs.
  - cbn [encode json_of] in *. apply scan_text. lia.
  - destruct depth as [|depth]; [cbn [nesting] in Hd; lia|]. cbn [nesting] in Hd.
    assert (Hn : Forall (λ m, nesting m.2 <= depth)%nat ms).
    { apply le_S_n, list_max_le, Forall_map in Hd. done. }
    destruct fuel as [|fuel]; [lia|].
    change (encode (TObject ms)) with ("{"%char :: intercalate [","%char] (map member ms) ++ ["}"%char]) in *.
    change (json_of (TObject ms)) with (JObject (map member_of ms)).
    cbn [app]. rewrite <-app_assoc. cbn [length] in Hf. rewrite length_app in Hf.
    cbn [scan_value]. change (Ascii.eqb "{" dquote) with false. change (Ascii.eqb "{" "{") with true. cbv iota.
    destruct ms as [|m ms]; [done|]. cbn [app] in *. rewrite skip_members.
    destruct (intercalate [","%char] (map member (m :: ms)) ++ "}"%char :: k) as [|d l2] eqn:E.
    { by apply app_eq_nil in E as [_ ?]. }
    assert (Hdq : Ascii.eqb d "}" = false).
    { destruct ms; cbn [map intercalate] in E; unfold member at 1, text in E; cbn [app] in E; by injection E as <- _. }
    rewrite Hdq, <-E. rewrite scan_members_encode; [done|done|done|lia|done].
Qed.

(** ** A value encoded is a value read back *)

Lemma scan_of_encode t : (nesting t <= maxNestingDepth)%nat → scan (encode t) = Some (json_of t).
Proof.
  intros Hn. unfold scan. destruct (encode_head t) as (c & l & Hc & Hs).
  assert (Hsk : skip_space (encode t) = encode t) by (rewrite Hc; by apply skip_head).
  rewrite Hsk. rewrite <-(app_nil_r (encode t)) at 2. rewrite scan_encode; [done|lia|done|done].
Qed.

(** * The decoder *)

(** Decoding into a variable that holds [old]: [null] leaves it alone, a value of
    another kind is an error. *)
Definition to_string (old : string) (v : json) : option string :=
  match v with
  | JNull => Some old
  | JString body => Some (string_of (string_literal body))
  | _ => None
  end.

Definition to_int (old : Z) (v : json) : option Z :=
  match v with
  | JNull => Some old
  | JNumber n => ParseInt 64 (string_of n)
  | _ => None
  end.

(** [Time.UnmarshalJSON]: the text of the literal, its escapes as they are. *)
Definition to_time (old : Time) (v : json) : option Time :=
  match v with
  | JNull => Some old
  | JString body => ParseRFC3339 (string_of body)
  | _ => None
  end.

(** Into a pointer: [null] makes it nil. *)
Definition to_pointer {A} (dec : json → option A) (v : json) : option (option A) :=
  match v with JNull => Some None | _ => Some <$> dec v end.

(** [json.Unmarshal] into a [string], an [int], an [int64], a [time.Time]. *)
Definition Unmarshal {A} (dec : json → option A) (s : string) : option A := scan (bytes_of s) ≫= dec.

Definition json_string : string → option string := Unmarshal (to_string "").
Definition json_int : string → option Z := Unmarshal (to_int 0).
Definition json_time : string → option Time := Unmarshal (to_time zero_time).

(** Into a [map[string]json.RawMessage]: the text of each member, the last of two with
    one name. *)
Definition raw_fields (v : json) : option (gmap string string) :=
  match v with
  | JNull => Some ∅
  | JObject ms =>
      Some (foldl (λ m '(key, raw, _), <[string_of (string_literal key) := string_of raw]> m) ∅ ms)
  | _ => None
  end.

Definition json_fields : string → option (gmap string string) := Unmarshal raw_fields.

(** [foldName]: names are compared up to case, the Kelvin sign and the long s included. *)
Definition fold_rune (r : list ascii) : list ascii :=
  match r with
  | [a] => if in_bytes 97 122 a then [byte_of (byte_val a - 32)] else r
  | _ => if bool_decide (r = byte_of <$> [226; 132; 170]) then ["K"%char]
         else if bool_decide (r = byte_of <$> [197; 191]) then ["S"%char] else r
  end.

Definition fold_name (l : list ascii) : list ascii := concat (fold_rune <$> runes l).

(** The member is one of the field [name]. *)
Definition names (name : string) (key : list ascii) : bool :=
  bool_decide (fold_name (string_literal key) = fold_name (bytes_of name)).

(** ** What is read back *)

Lemma to_string_text old s : to_string old (json_of (TText (bytes_of s))) = Some (string_of (sanitize (bytes_of s))).
Proof. cbn [json_of to_string]. by rewrite literal_quote. Qed.

Lemma string_of_bytes_of s : string_of (bytes_of s) = s.
Proof. apply String.string_of_list_ascii_of_string. Qed.

Lemma to_string_valid old s : ValidString s = true → to_string old (json_of (TText (bytes_of s))) = Some s.
Proof. intros Hv. rewrite to_string_text, sanitize_valid by done. by rewrite string_of_bytes_of. Qed.

Lemma to_int_int old z : to_int old (json_of (TInt z)) = if in_int64 z then Some z else None.
Proof. cbn [json_of to_int]. rewrite string_of_bytes_of. apply Atoi_Itoa. Qed.

(** The bytes of a timestamp need no quoting. *)
Definition plain (c : ascii) : bool :=
  is_digit c || existsb (Ascii.eqb c) ["-"; "+"; ":"; "."; "T"; "Z"]%char.

Lemma quote_plain l : Forall (λ c, plain c = true) l → quote l = l.
Proof.
  assert (Hp : ∀ c, plain c = true → is_ascii c = true ∧ quote_rune [c] = [c]).
  { intros c. destruct c as [[] [] [] [] [] [] [] []]; done. }
  unfold quote. induction 1 as [|c l Hc _ IH]; [done|]. destruct (Hp c Hc) as [Ha Hq].
  cbn [runes]. rewrite Ha. cbn [fmap list_fmap concat]. rewrite Hq. cbn [app]. f_equal. exact IH.
Qed.

Lemma digit_plain n : 0 <= n <= 9 → plain (digit n) = true.
Proof. intros ?. unfold plain. by rewrite digit_is. Qed.

Lemma pad2_plain n : 0 <= n <= 99 → Forall (λ c, plain c = true) (pad2 n).
Proof. intros ?. repeat constructor; apply digit_plain; Z.div_mod_to_equations; lia. Qed.

Lemma trim_zeros_incl (P : ascii → Prop) l : Forall P l → Forall P (trim_zeros l).
Proof. intros Hl. destruct (trim_zeros_spec l) as [j Hj]. rewrite Hj in Hl. by apply Forall_app in Hl as [? _]. Qed.

Lemma frac_plain ns : Forall (λ c, plain c = true) (frac ns).
Proof.
  unfold frac. destruct (ns =? 0); [done|]. constructor; [done|]. apply trim_zeros_incl.
  eapply Forall_impl; [apply padk_digits|]. intros c Hc. unfold plain. by rewrite Hc.
Qed.

Lemma marshal_time_plain t o l : time_MarshalText t o = Some l → Forall (λ c, plain c = true) l.
Proof.
  unfold time_MarshalText. destruct (_ && _) eqn:Hc; [|done]. intros [= <-]. bool_to_prop. unfold format.
  destruct (Civil.of_days_spec ((t + o * Minute) / (24 * Hour))) as [_ Hv]. fold (local_date t o) in Hv.
  assert (Hn : 0 <= local_nanos t o < 24 * Hour) by (apply Z.mod_pos_bound; done).
  unfold Civil.valid in Hv. bool_to_prop.
  assert (Civil.days_in (Civil.month (local_date t o)) (Civil.year (local_date t o)) <= 31)
    by (unfold Civil.days_in; repeat case_match; lia).
  unfold Hour, Minute, Second in *. unfold pad4.
  repeat first [ apply Forall_app; split | apply frac_plain
               | apply pad2_plain; Z.div_mod_to_equations; lia | constructor; [done|] ].
  unfold zone_text. destruct (o =? 0); [by repeat constructor|]. constructor; [by destruct (o <? 0)|].
  repeat first [ apply Forall_app; split | apply pad2_plain; Z.div_mod_to_equations; lia | constructor; [done|] ].
  constructor.
Qed.

Lemma to_time_text old t o l :
  time_MarshalText t o = Some l → to_time old (json_of (TText l)) = Some t.
Proof.
  intros Ht. cbn [json_of to_time]. rewrite quote_plain by (by eapply marshal_time_plain).
  by eapply ParseRFC3339_format.
Qed.

(** What [Unmarshal] decodes of an encoding. *)
Lemma Unmarshal_encode {A} (dec : json → option A) t :
  (nesting t <= maxNestingDepth)%nat → Unmarshal dec (string_of (encode t)) = dec (json_of t).
Proof. intros Hn. unfold Unmarshal. by rewrite bytes_of_string_of, scan_of_encode. Qed.

(** The raw fields of an encoded object. *)
Definition add_raw (m : gmap string string) (p : list ascii * tree) : gmap string string :=
  <[string_of (sanitize p.1) := string_of (encode p.2)]> m.

Lemma json_fields_encode ms :
  (nesting (TObject ms) <= maxNestingDepth)%nat →
  json_fields (string_of (encode (TObject ms))) = Some (foldl add_raw ∅ ms).
Proof.
  intros Hn. unfold json_fields. rewrite Unmarshal_encode by done. cbn [json_of raw_fields]. f_equal. clear Hn.
  generalize (∅ : gmap string string) as acc.
  induction ms as [|[k t] ms IH]; intros acc; [done|]. cbn [map foldl fst snd]. rewrite literal_quote. apply IH.
Qed.

Lemma add_raw_other ms acc k :
  Forall (λ p, string_of (sanitize p.1) ≠ k) ms → foldl add_raw acc ms !! k = acc !! k.
Proof.
  intros Hms. revert acc. induction Hms as [|p ms Hp _ IH]; intros acc; [done|].
  cbn [foldl]. rewrite IH. unfold add_raw. by rewrite lookup_insert_ne.
Qed.

Lemma add_raw_elem ms acc p :
  NoDup ((λ p : list ascii * tree, string_of (sanitize p.1)) <$> ms) → p ∈ ms →
  foldl add_raw acc ms !! string_of (sanitize p.1) = Some (string_of (encode p.2)).
Proof.
  revert acc. induction ms as [|q ms IH]; intros acc; [by intros _ ?%not_elem_of_nil|].
  cbn [fmap list_fmap foldl]. intros [Hq Hnd]%NoDup_cons [->|Hp]%elem_of_cons; [|by apply IH].
  rewrite add_raw_other; [unfold add_raw; by rewrite lookup_insert_eq|].
  apply Forall_forall. intros r Hr Heq. apply Hq. rewrite <-Heq.
  by apply (list_elem_of_fmap_2 (λ p : list ascii * tree, string_of (sanitize p.1))).
Qed.
