(* ===== verification/Sha256.v ===== *)
(** SHA-256 (FIPS 180-4) and HMAC (RFC 2104), the functions of Go's crypto/sha256
    and crypto/hmac the program calls, executable and checked on the published
    test vectors.  They are proved to produce 32 bytes; no cryptographic
    assumption is made anywhere in the library. *)
From stdpp Require Import prelude strings list.
From Stdlib Require Import Ascii.
From S2P Require Import Prelude GoStd.

Local Open Scope Z_scope.

Definition w32 (z : Z) : Z := z mod 2 ^ 32.
Definition add32 (a b : Z) : Z := w32 (a + b).
Definition rotr (n x : Z) : Z := Z.lor (Z.shiftr x n) (w32 (Z.shiftl x (32 - n))).

Definition Ch (x y z : Z) : Z := Z.lxor (Z.land x y) (Z.land (2 ^ 32 - 1 - x) z).
Definition Maj (x y z : Z) : Z := Z.lxor (Z.lxor (Z.land x y) (Z.land x z)) (Z.land y z).
Definition Sigma0 (x : Z) : Z := Z.lxor (Z.lxor (rotr 2 x) (rotr 13 x)) (rotr 22 x).
Definition Sigma1 (x : Z) : Z := Z.lxor (Z.lxor (rotr 6 x) (rotr 11 x)) (rotr 25 x).
Definition sigma0 (x : Z) : Z := Z.lxor (Z.lxor (rotr 7 x) (rotr 18 x)) (Z.shiftr x 3).
Definition sigma1 (x : Z) : Z := Z.lxor (Z.lxor (rotr 17 x) (rotr 19 x)) (Z.shiftr x 10).

Definition K256 : list Z :=
  [1116352408; 1899447441; 3049323471; 3921009573; 961987163; 1508970993; 2453635748; 2870763221;
   3624381080; 310598401; 607225278; 1426881987; 1925078388; 2162078206; 2614888103; 3248222580;
   3835390401; 4022224774; 264347078; 604807628; 770255983; 1249150122; 1555081692; 1996064986;
   2554220882; 2821834349; 2952996808; 3210313671; 3336571891; 3584528711; 113926993; 338241895;
   666307205; 773529912; 1294757372; 1396182291; 1695183700; 1986661051; 2177026350; 2456956037;
   2730485921; 2820302411; 3259730800; 3345764771; 3516065817; 3600352804; 4094571909; 275423344;
   430227734; 506948616; 659060556; 883997877; 958139571; 1322822218; 1537002063; 1747873779;
   1955562222; 2024104815; 2227730452; 2361852424; 2428436474; 2756734187; 3204031479; 3329325298].

Definition H256 : list Z :=
  [1779033703; 3144134277; 1013904242; 2773480762; 1359893119; 2600822924; 528734635; 1541459225].

(** The big-endian bytes of a [k]-byte number, and back. *)
Fixpoint be_bytes (k : nat) (z : Z) : list ascii :=
  match k with
  | O => []
  | S k => be_bytes k (z / 256) ++ [byte_of z]
  end.

Definition be_val (l : list ascii) : Z := foldl (λ acc c, acc * 256 + byte_val c) 0 l.

(** Cut a list into chunks of [n]; [fuel] bounds their number. *)
Fixpoint chunks {A} (fuel n : nat) (l : list A) : list (list A) :=
  match fuel with
  | O => []
  | S fuel => match l with [] => [] | _ => take n l :: chunks fuel n (drop n l) end
  end.

Definition pad (msg : list ascii) : list ascii :=
  let n := Z.of_nat (length msg) in
  msg ++ [byte_of 128] ++ replicate (Z.to_nat ((55 - n) mod 64)) (byte_of 0) ++ be_bytes 8 (8 * n).

(** The message schedule, most recent word first. *)
Fixpoint schedule (k : nat) (ws : list Z) : list Z :=
  match k with
  | O => ws
  | S k =>
      let w i := nth i ws 0 in
      schedule k (w32 (sigma1 (w 1%nat) + w 6%nat + sigma0 (w 14%nat) + w 15%nat) :: ws)
  end.

Definition round (st : list Z) (kw : Z * Z) : list Z :=
  match st with
  | [a; b; c; d; e; f; g; h] =>
      let t1 := w32 (h + Sigma1 e + Ch e f g + kw.1 + kw.2) in
      let t2 := add32 (Sigma0 a) (Maj a b c) in
      [add32 t1 t2; a; b; c; add32 d t1; e; f; g]
  | _ => st
  end.

Definition compress (st : list Z) (block : list ascii) : list Z :=
  let ws := reverse (schedule 48 (reverse (be_val <$> chunks 16 4 block))) in
  zip_with add32 st (foldl round st (zip K256 ws)).

Definition sha256 (msg : list ascii) : list ascii :=
  let p := pad msg in
  mjoin (be_bytes 4 <$> foldl compress H256 (chunks (length p) 64 p)).

Definition hmac_sha256 (key msg : list ascii) : list ascii :=
  let k := if (64 <? length key)%nat then sha256 key else key in
  let k := k ++ replicate (64 - length k) (byte_of 0) in
  let xor v := (λ c, byte_of (Z.lxor (byte_val c) v)) <$> k in
  sha256 (xor 92 ++ sha256 (xor 54 ++ msg)).

(** * Test vectors *)

Example sha256_abc :
  hex_encode (sha256 (bytes_of "abc"))
  = "ba7816bf8f01cfea414140de5dae2223b00361a396177a9cb410ff61f20015ad".
Proof. vm_compute. reflexivity. Qed.

Example sha256_two_blocks :
  hex_encode (sha256 (bytes_of "abcdbcdecdefdefgefghfghighijhijkijkljklmklmnlmnomnopnopq"))
  = "248d6a61d20638b8e5c026930c3e6039a33ce45964ff2167f6ecedd419db06c1".
Proof. vm_compute. reflexivity. Qed.

Example hmac_rfc4231_2 :
  hex_encode (hmac_sha256 (bytes_of "Jefe") (bytes_of "what do ya want for nothing?"))
  = "5bdcc146bf60754e6a042426089575c75a003f089d2739839dec58b964ec3843".
Proof. vm_compute. reflexivity. Qed.

(** * The digest has 32 bytes *)

Lemma length_be_bytes k z : length (be_bytes k z) = k.
Proof. revert z. induction k; intros z; simpl; [done|]. rewrite length_app, IHk. simpl. lia. Qed.

Lemma length_round st kw : length (round st kw) = length st.
Proof. unfold round. by repeat (case_match; try done). Qed.

Lemma length_rounds l st : length (foldl round st l) = length st.
Proof. revert st. induction l as [|kw l IH]; intros st; simpl; [done|]. by rewrite IH, length_round. Qed.

Lemma length_compress st block : length (compress st block) = length st.
Proof. unfold compress. rewrite length_zip_with, length_rounds. lia. Qed.

Lemma length_sha256_state bs st : length (foldl compress st bs) = length st.
Proof. revert st. induction bs as [|b bs IH]; intros st; simpl; [done|]. by rewrite IH, length_compress. Qed.

Lemma length_join_be k (l : list Z) : length (mjoin (be_bytes k <$> l)) = (k * length l)%nat.
Proof. induction l as [|z l IH]; csimpl; [lia|]. rewrite length_app, length_be_bytes, IH. lia. Qed.

Lemma length_sha256 msg : length (sha256 msg) = 32%nat.
Proof. unfold sha256. by rewrite length_join_be, length_sha256_state. Qed.

Lemma length_hmac_sha256 key msg : length (hmac_sha256 key msg) = 32%nat.
Proof. apply length_sha256. Qed.

#[export] Hint Rewrite length_sha256 length_hmac_sha256 length_hex_encode : go_length.
