(* ===== verification/NetIP.v ===== *)
(** The textual IP addresses of Go's package net: [net.ParseIP] and [IP.To4].
    An address is its 16 bytes, an IPv4 one in the IPv4-mapped range, as
    [net.ParseIP] returns it. *)
From stdpp Require Import prelude strings list.
From Stdlib Require Import Ascii.
From S2P Require Import Prelude GoStd.

Local Open Scope Z_scope.

Abbreviation IP := (list Z) (only parsing).

Definition IPv4len : nat := 4.
Definition IPv6len : nat := 16.

Definition is_byte (c d : ascii) : bool := bool_decide (d = c).

(** One decimal octet: digits only, no leading zero, at most 255. *)
Fixpoint octet (first : bool) (val : Z) (l : list ascii) : option Z :=
  match l with
  | [] => if first then None else Some val
  | c :: l =>
      let d := byte_val c - 48 in
      if negb ((0 <=? d) && (d <=? 9)) then None
      else if negb first && (val =? 0) then None
      else let val := val * 10 + d in
           if 255 <? val then None else octet false val l
  end.

(** Split at every occurrence of [sep]. *)
Fixpoint split_byte (sep : ascii) (cur l : list ascii) : list (list ascii) :=
  match l with
  | [] => [reverse cur]
  | c :: l => if is_byte sep c then reverse cur :: split_byte sep [] l
              else split_byte sep (c :: cur) l
  end.

(** The four fields of a dotted quad. *)
Definition parseIPv4Fields (s : list ascii) : option (list Z) :=
  match mapM (octet true 0) (split_byte "."%char [] s) with
  | Some [a; b; c; d] => Some [a; b; c; d]
  | _ => None
  end.

Definition hex_val (c : ascii) : option Z :=
  let b := byte_val c in
  if (48 <=? b) && (b <=? 57) then Some (b - 48)
  else if (97 <=? b) && (b <=? 102) then Some (b - 87)
  else if (65 <=? b) && (b <=? 70) then Some (b - 55)
  else None.

(** The longest run of hexadecimal digits: its value, length and the rest. *)
Fixpoint hex_run (acc : Z) (off : nat) (s : list ascii) : Z * nat * list ascii :=
  match s with
  | c :: s' =>
      match hex_val c with
      | Some d => hex_run (acc * 16 + d) (S off) s'
      | None => (acc, off, s)
      end
  | [] => (acc, off, [])
  end.

(** The loop of [parseIPv6]: [ip] holds the bytes read so far and [ell] the
    position of the ellipsis; the result is the bytes and that position.  Each
    turn adds two bytes, so nine turns are enough. *)
Fixpoint groups (fuel : nat) (ip : list Z) (ell : option nat) (s : list ascii)
    : option (list Z * option nat) :=
  match fuel with
  | O => None
  | S fuel =>
      if (16 <=? length ip)%nat then match s with [] => Some (ip, ell) | _ => None end
      else
        let '(acc, off, rest) := hex_run 0 0 s in
        if (off =? 0)%nat || (4 <? off)%nat then None
        else match rest with
        | [] => Some (ip ++ [acc / 256; acc mod 256], ell)
        | c :: s' =>
            if is_byte "."%char c then
              if bool_decide (ell = None) && negb (length ip =? 12)%nat then None
              else if (16 <? length ip + 4)%nat then None
              else (λ q, (ip ++ q, ell)) <$> parseIPv4Fields s
            else if is_byte ":"%char c then
              let ip := ip ++ [acc / 256; acc mod 256] in
              match s' with
              | [] => None
              | d :: s'' =>
                  if is_byte ":"%char d then
                    match ell, s'' with
                    | Some _, _ => None
                    | None, [] => Some (ip, Some (length ip))
                    | None, _ => groups fuel ip (Some (length ip)) s''
                    end
                  else groups fuel ip ell s'
              end
            else None
        end
  end.

(** Expand the ellipsis of the bytes read, or check that none is needed. *)
Definition expand (r : list Z * option nat) : option (list Z) :=
  let '(ip, ell) := r in
  if (length ip <? 16)%nat then
    (λ p, take p ip ++ replicate (16 - length ip) 0 ++ drop p ip) <$> ell
  else match ell with Some _ => None | None => Some ip end.

(** A leading ellipsis. *)
Definition strip_ellipsis (s : list ascii) : option (list ascii) :=
  match s with
  | c :: d :: s => if is_byte ":"%char c && is_byte ":"%char d then Some s else None
  | _ => None
  end.

Definition parseIPv6 (s : list ascii) : option (list Z) :=
  match strip_ellipsis s with
  | Some [] => Some (replicate 16 0)
  | Some s => groups 9 [] (Some 0%nat) s ≫= expand
  | None => groups 9 [] None s ≫= expand
  end.

Definition v4InV6Prefix : list Z := replicate 10 0 ++ [255; 255].

(** [net.ParseIP]; an address with a zone is not accepted. *)
Definition ParseIP (s : string) : option IP :=
  let l := bytes_of s in
  if existsb (is_byte "%"%char) l then None
  else match list_find (λ c, c = "."%char ∨ c = ":"%char) l with
       | Some (_, c) =>
           if is_byte "."%char c then (λ q, v4InV6Prefix ++ q) <$> parseIPv4Fields l
           else parseIPv6 l
       | None => None
       end.

(** [IP.To4] and [IP.To16] of a 16-byte address. *)
Definition To4 (ip : IP) : option IP :=
  if bool_decide (take 12 ip = v4InV6Prefix) then Some (drop 12 ip) else None.

(** * Tests from the behaviour documented for net.ParseIP *)

Example ParseIP_v4 : ParseIP "203.0.113.42" = Some (v4InV6Prefix ++ [203; 0; 113; 42]).
Proof. vm_compute. reflexivity. Qed.

Example ParseIP_v6 :
  ParseIP "2001:db8::12.34.56.78"
  = Some [32; 1; 13; 184; 0; 0; 0; 0; 0; 0; 0; 0; 12; 34; 56; 78].
Proof. vm_compute. reflexivity. Qed.

Example ParseIP_bad :
  ParseIP <$> ["not-an-ip"; ""; "1.2.3"; "1.2.3.4.5"; "01.2.3.4"; "1.2.3.256"; "1:2"; "::1::"; "fe80::1%eth0"; ":1:2:3:4:5:6:7:8"; "1:2:3:4:5:6:7:8::"; "1:2:3:4:5:6:7:8:9"; "1:"; "12345::"]
  = replicate 14 None.
Proof. vm_compute. reflexivity. Qed.

Example ParseIP_ellipsis :
  ParseIP <$> ["::"; "::1"; "1::"; "1:2:3:4:5:6:7:8"; "::ffff:1.2.3.4"]
  = [Some (replicate 16 0); Some (replicate 15 0 ++ [1]); Some ([0; 1] ++ replicate 14 0);
     Some [0; 1; 0; 2; 0; 3; 0; 4; 0; 5; 0; 6; 0; 7; 0; 8]; Some (v4InV6Prefix ++ [1; 2; 3; 4])].
Proof. vm_compute. reflexivity. Qed.

(** * A parsed address has 16 bytes *)

Lemma length_parseIPv4Fields s q : parseIPv4Fields s = Some q → length q = 4%nat.
Proof. unfold parseIPv4Fields. intros. by repeat (case_match; simplify_eq/=). Qed.

Lemma even_chunk (ip : list Z) x y :
  (length ip < 16)%nat → Nat.Even (length ip) →
  (length (ip ++ [x; y]) ≤ 16)%nat ∧ Nat.Even (length (ip ++ [x; y])).
Proof. intros ? [k Hk]. rewrite length_app. simpl. split; [lia | exists (S k); lia]. Qed.

(** The state of the loop: an even number of bytes, sixteen at most, and the
    ellipsis inside them. *)
Definition groups_ok (ip : list Z) (ell : option nat) : Prop :=
  (length ip ≤ 16)%nat ∧ Nat.Even (length ip) ∧ ∀ p, ell = Some p → (p ≤ length ip)%nat.

Lemma groups_ok_chunk ip ell x y :
  groups_ok ip ell → (length ip < 16)%nat → groups_ok (ip ++ [x; y]) ell.
Proof.
  intros (? & Hev & Hell) ?. destruct (even_chunk ip x y) as [??]; [done..|].
  split_and!; [done..|]. intros p Hp. specialize (Hell p Hp). rewrite length_app. lia.
Qed.

Lemma groups_ok_ell ip ell : groups_ok ip ell → groups_ok ip (Some (length ip)).
Proof. intros (? & ? & ?). split_and!; [done..|]. intros p ?. by simplify_eq. Qed.

#[local] Hint Resolve groups_ok_chunk groups_ok_ell : core.

Lemma groups_inv fuel ip ell s r :
  groups fuel ip ell s = Some r → groups_ok ip ell → groups_ok r.1 r.2.
Proof.
  revert ip ell s. induction fuel as [|fuel IH]; intros ip ell s; cbn [groups]; [done|].
  intros H Hok. destruct (Nat.leb_spec 16 (length ip)) as [|Hlt].
  { destruct s; by simplify_eq. }
  destruct (hex_run 0 0 s) as [[acc off] rest]. case_match; [done|].
  destruct rest as [|c s']; [simplify_eq/=; eauto|].
  case_match.
  - (* a trailing dotted quad *)
    repeat (case_match; [done|]).
    apply fmap_Some in H as (q & Hq & ->). apply length_parseIPv4Fields in Hq.
    destruct Hok as (? & [k ?] & Hell). simpl. unfold groups_ok. rewrite length_app.
    match goal with Hb : (16 <? _)%nat = false |- _ => apply Nat.ltb_ge in Hb end.
    split_and!; [lia | exists (k + 2)%nat; lia | intros p Hp; specialize (Hell p Hp); lia].
  - case_match; [|done]. destruct s' as [|d s'']; [done|].
    case_match; [|eauto]. destruct ell; [done|]. destruct s''; simplify_eq/=; eauto 6.
Qed.

Lemma expand_length r ip : expand r = Some ip → groups_ok r.1 r.2 → length ip = 16%nat.
Proof.
  destruct r as [ip0 ell0]. unfold expand, groups_ok. simpl.
  intros H (? & ? & Hell). destruct (Nat.ltb_spec (length ip0) 16).
  - apply fmap_Some in H as (p & Hp & ->). specialize (Hell p Hp).
    rewrite !length_app, length_take, length_replicate, length_drop. lia.
  - destruct ell0; simplify_eq. lia.
Qed.

Lemma length_parseIPv6 s ip : parseIPv6 s = Some ip → length ip = 16%nat.
Proof.
  assert (Hstart : ∀ ell, (∀ p, ell = Some p → p = 0%nat) → groups_ok [] ell).
  { intros ell Hell. split_and!; simpl; [lia | by exists 0%nat | intros p Hp; rewrite (Hell p Hp); lia]. }
  unfold parseIPv6. intros H.
  repeat case_match; simplify_eq; [done|..];
    apply bind_Some in H as (r & Hr & He); eapply expand_length; try done;
    eapply groups_inv; try done; apply Hstart; naive_solver.
Qed.

Lemma length_ParseIP s ip : ParseIP s = Some ip → length ip = 16%nat.
Proof.
  unfold ParseIP. intros H. repeat case_match; simplify_eq; [|by eapply length_parseIPv6].
  apply fmap_Some in H as (q & Hq & ->).
  by rewrite length_app, (length_parseIPv4Fields _ _ Hq).
Qed.
