(* ===== verification/NetUrl.v ===== *)
(** The part of Go's net/url the program uses: [url.Parse], as far as the scheme and the
    host of its result and its errors go (Go 1.25.0, the version go.mod names).  A
    byte-level parser, with what the accepted http and https URLs look like. *)
From stdpp Require Import prelude strings list.
From Stdlib Require Import Ascii.
From S2P Require Import Prelude GoStd NetIP.

Local Open Scope Z_scope.

(** * Bytes *)

Definition in_range (lo hi : Z) (c : ascii) : bool := (lo <=? byte_val c) && (byte_val c <=? hi).

Definition is_letter (c : ascii) : bool := in_range 97 122 c || in_range 65 90 c.
Definition is_digit (c : ascii) : bool := in_range 48 57 c.
Definition one_of (s : string) (c : ascii) : bool := bool_decide (c ∈ bytes_of s).

(** [stringContainsCTLByte], on one byte. *)
Definition is_ctl (c : ascii) : bool := (byte_val c <? 32) || (byte_val c =? 127).

(** [strings.Cut] at one byte. *)
Fixpoint Cut (sep : ascii) (l : list ascii) : list ascii * list ascii :=
  match l with
  | [] => ([], [])
  | c :: l => if is_byte sep c then ([], l) else let '(a, b) := Cut sep l in (c :: a, b)
  end.

(** [strings.CutPrefix], when the prefix is there. *)
Fixpoint strip (pre l : list ascii) : option (list ascii) :=
  match pre, l with
  | [], _ => Some l
  | c :: pre, d :: l => if is_byte c d then strip pre l else None
  | _ :: _, [] => None
  end.

(** The bytes before and after the last occurrence. *)
Definition CutLast (sep : ascii) (l : list ascii) : option (list ascii * list ascii) :=
  if bool_decide (sep ∈ l) then
    let '(a, b) := Cut sep (reverse l) in Some (reverse b, reverse a)
  else None.

(** [strings.Index] of "%25". *)
Fixpoint index_zone (l : list ascii) : option nat :=
  match l with
  | "%"%char :: "2"%char :: "5"%char :: _ => Some 0%nat
  | _ :: l => S <$> index_zone l
  | [] => None
  end.

(** * Escaping *)

Inductive encoding := encodePath | encodeHost | encodeZone | encodeUserPassword | encodeFragment.

(** [shouldEscape] in the modes [encodeHost] and [encodeZone], the only ones [unescape]
    consults it in. *)
Definition shouldEscape_host (c : ascii) : bool :=
  negb (is_letter c || is_digit c || one_of "!$&'()*+,;=:[]<>-_.~" c || (byte_val c =? 34)).

Definition host_mode (mode : encoding) : bool :=
  match mode with encodeHost | encodeZone => true | _ => false end.

(** An escape "%xy" that the mode does not admit. *)
Definition bad_escape (mode : encoding) (x y : Z) : bool :=
  let is25 := (x =? 2) && (y =? 5) in
  match mode with
  | encodeHost => (x <? 8) && negb is25
  | encodeZone => negb is25 && negb (x * 16 + y =? 32) && shouldEscape_host (byte_of (x * 16 + y))
  | _ => false
  end.

Fixpoint unescape (mode : encoding) (l : list ascii) : option (list ascii) :=
  match l with
  | [] => Some []
  | "%"%char :: l =>
      match l with
      | a :: b :: l =>
          match hex_val a, hex_val b with
          | Some x, Some y =>
              if bad_escape mode x y then None
              else cons (byte_of (x * 16 + y)) <$> unescape mode l
          | _, _ => None
          end
      | _ => None
      end
  | c :: l =>
      if host_mode mode && (byte_val c <? 128) && shouldEscape_host c then None
      else cons c <$> unescape mode l
  end.

(** * The parser *)

(** [getScheme]: the scheme and what follows its colon; no scheme when a byte cannot
    belong to one; an error when the URL starts with the colon. *)
Fixpoint scheme_loop (raw pre l : list ascii) : option (list ascii * list ascii) :=
  match l with
  | [] => Some ([], raw)
  | c :: l =>
      if is_letter c then scheme_loop raw (c :: pre) l
      else if is_digit c || one_of "+-." c then
        match pre with [] => Some ([], raw) | _ => scheme_loop raw (c :: pre) l end
      else if is_byte ":"%char c then
        match pre with [] => None | _ => Some (reverse pre, l) end
      else Some ([], raw)
  end.

Definition getScheme (raw : list ascii) : option (list ascii * list ascii) := scheme_loop raw [] raw.

Definition validOptionalPort (port : list ascii) : bool :=
  match port with
  | [] => true
  | c :: ds => is_byte ":"%char c && forallb is_digit ds
  end.

Definition parseHost (host : list ascii) : option (list ascii) :=
  match host with
  | "["%char :: _ =>
      match CutLast "]"%char host with
      | None => None
      | Some (before, colonPort) =>
          if negb (validOptionalPort colonPort) then None
          else match index_zone before with
          | Some zone =>
              h1 ← unescape encodeHost (take zone before);
              h2 ← unescape encodeZone (drop zone before);
              h3 ← unescape encodeHost ("]"%char :: colonPort);
              Some (h1 ++ h2 ++ h3)
          | None => unescape encodeHost host
          end
      end
  | _ =>
      match CutLast ":"%char host with
      | Some (_, port) => if forallb is_digit port then unescape encodeHost host else None
      | None => unescape encodeHost host
      end
  end.

Definition userinfo_byte (c : ascii) : bool :=
  is_letter c || is_digit c || one_of "-._:~!$&'()*+,;=%@" c.

(** The user and password must unescape; neither is kept. *)
Definition valid_user (userinfo : list ascii) : bool :=
  forallb userinfo_byte userinfo
  && (let '(name, password) := Cut ":"%char userinfo in
      bool_decide (is_Some (unescape encodeUserPassword name))
      && bool_decide (is_Some (unescape encodeUserPassword password))).

Definition parseAuthority (authority : list ascii) : option (list ascii) :=
  match CutLast "@"%char authority with
  | None => parseHost authority
  | Some (userinfo, h) =>
      host ← parseHost h;
      if valid_user userinfo then Some host else None
  end.

(** The authority of [rest] and its path: everything up to the next "/" after "//". *)
Definition split_authority (scheme rest : list ascii) : option (list ascii) * list ascii :=
  match strip (bytes_of "//") rest with
  | Some authority =>
      if bool_decide (scheme ≠ []) || bool_decide (strip (bytes_of "/") authority = None) then
        (Some (Cut "/"%char authority).1, drop (length (Cut "/"%char authority).1) authority)
      else (None, rest)
  | None => (None, rest)
  end.

(** [parse] with [viaRequest] false.  The query is cut off whether or not [ForceQuery]
    is set, and not looked at. *)
Definition parse (raw : list ascii) : option (list ascii * list ascii) :=
  if existsb is_ctl raw then None
  else if bool_decide (raw = ["*"%char]) then Some ([], [])
  else
    '(scheme, rest) ← getScheme raw;
    let scheme := lower_bytes scheme in
    let rest := (Cut "?"%char rest).1 in
    if bool_decide (strip (bytes_of "/") rest = None) && bool_decide (scheme ≠ []) then Some (scheme, [])
    else if bool_decide (strip (bytes_of "/") rest = None)
            && bool_decide (":"%char ∈ (Cut "/"%char rest).1) then None
    else
      let '(authority, path) := split_authority scheme rest in
      host ← match authority with Some a => parseAuthority a | None => Some [] end;
      _ ← unescape encodePath path;
      Some (scheme, host).

(** [url.Parse]: the scheme and the host of a URL that parses.  The fragment has to
    unescape. *)
Definition Parse (raw : string) : option (string * string) :=
  let '(u, frag) := Cut "#"%char (bytes_of raw) in
  '(scheme, host) ← parse u;
  _ ← unescape encodeFragment frag;
  Some (string_of scheme, string_of host).

(** * Self-tests *)

Example Parse_ex : Parse <$>
  ["https://Example.com:8080/a%20b?q=1#f"; "HTTP://u:p@h/"; "http://[::1]:80/x"; "javascript:alert(1)";
   "//host/p"; "/p"; "a:b:c"; ":x"; "1a:b"; "http://"; "http://h:x/"; "http://a b/"; "http://h/%zz";
   "http://[fe80::1%25en0]/"; "http:///p"; "https://u@/p"; "*"; "http://h?x"; "http://h%41/"]
  = [Some ("https", "Example.com:8080"); Some ("http", "h"); Some ("http", "[::1]:80");
     Some ("javascript", ""); Some ("", "host"); Some ("", ""); Some ("a", ""); None; None;
     Some ("http", ""); None; None; None; Some ("http", "[fe80::1%en0]"); Some ("http", "");
     Some ("https", ""); Some ("", ""); Some ("http", "h"); None].
Proof. vm_compute. reflexivity. Qed.

(** * Cutting *)

Lemma is_byte_true c d : is_byte c d = true ↔ d = c.
Proof. apply bool_decide_eq_true. Qed.

(** What a suffix cut off at [sep] may be. *)
Definition cut_tail (sep : ascii) (t : list ascii) : Prop := t = [] ∨ ∃ b, t = sep :: b.

Lemma Cut_spec sep l : ∃ t, l = (Cut sep l).1 ++ t ∧ cut_tail sep t ∧ sep ∉ (Cut sep l).1.
Proof.
  induction l as [|c l (t & E & Ht & Hn)]; simpl.
  - exists []. split_and!; [done|by left|]. apply not_elem_of_nil.
  - destruct (is_byte sep c) eqn:Hc.
    + apply is_byte_true in Hc as ->. exists (sep :: l). split_and!; [done|right; by eexists|].
      apply not_elem_of_nil.
    + destruct (Cut sep l) as [a b]. simpl in *. exists t. split_and!; [by f_equal|done|].
      rewrite not_elem_of_cons. split; [|done]. intros ->. unfold is_byte in Hc.
      by rewrite bool_decide_true in Hc.
Qed.

Lemma Cut_eq sep l a b : Cut sep l = (a, b) → ∃ t, l = a ++ t ∧ cut_tail sep t ∧ sep ∉ a.
Proof. intros E. pose proof (Cut_spec sep l) as H. by rewrite E in H. Qed.

(** * Schemes *)

Definition scheme_byte (c : ascii) : bool := is_letter c || is_digit c || one_of "+-." c.

Lemma scheme_loop_spec raw pre l s rest :
  forallb scheme_byte pre = true → scheme_loop raw pre l = Some (s, rest) →
  s = [] ∨ reverse pre ++ l = s ++ ":"%char :: rest ∧ forallb scheme_byte s = true.
Proof.
  revert pre. induction l as [|c l IH]; intros pre Hpre; simpl; [intros [= <- <-]; by left|].
  assert (Hcons : scheme_byte c = true →
    scheme_loop raw (c :: pre) l = Some (s, rest) →
    s = [] ∨ reverse pre ++ c :: l = s ++ ":"%char :: rest ∧ forallb scheme_byte s = true).
  { intros Hc E. apply IH in E as [->|[E Hs]]; [by left| |simpl; by rewrite Hc].
    right. split; [|done]. by rewrite reverse_cons, <- (assoc_L (++)) in E. }
  unfold scheme_byte in Hcons.
  destruct (is_letter c); [by apply Hcons|]. simpl in Hcons.
  destruct (is_digit c || one_of "+-." c).
  - destruct pre; [intros [= <- <-]; by left|]. by apply Hcons.
  - destruct (is_byte ":"%char c) eqn:Hc; [|intros [= <- <-]; by left].
    apply is_byte_true in Hc as ->. destruct pre as [|d pre]; [done|].
    intros [= <- <-]. right. split; [done|].
    apply forallb_forall. intros x Hx. apply list_elem_of_In in Hx. rewrite elem_of_reverse in Hx.
    rewrite forallb_forall in Hpre. by apply Hpre, list_elem_of_In.
Qed.

(** Outside the two-byte and three-byte encodings it looks for, [ToLower] goes byte by
    byte. *)
Lemma lower_ascii_cons c l : byte_val c < 128 → lower_bytes (c :: l) = fold_byte c :: lower_bytes l.
Proof.
  intros Hc. assert (H196 : byte_val c ≠ 196) by lia. assert (H226 : byte_val c ≠ 226) by lia. clear Hc.
  cbn [lower_bytes]. unfold fold_byte. destruct (byte_val c) as [|p|p]; [done| |done].
  do 8 (destruct p as [p|p|]; try done); lia.
Qed.

(** Scheme bytes are ASCII: lowering them folds them one by one. *)
Lemma lower_scheme l : forallb scheme_byte l = true → lower_bytes l = fold_byte <$> l.
Proof.
  assert (Hlt : ∀ c, scheme_byte c = true → byte_val c < 128).
  { intros c. destruct c as [[] [] [] [] [] [] [] []]; vm_compute; done. }
  induction l as [|c l IH]; [done|]. cbn [forallb]. intros [Hc Hl]%andb_true_iff.
  specialize (Hlt c Hc). rewrite fmap_cons, <- (IH Hl). by apply lower_ascii_cons.
Qed.

(** * What a web URL looks like

    An http or https URL with a host: scheme, "://", a non-empty authority up to the
    first of "/", "?" and "#"; and no control byte before the fragment. *)
Definition web_url (raw : string) : Prop :=
  ∃ scheme authority tail,
    bytes_of raw = scheme ++ bytes_of "://" ++ authority ++ tail
    ∧ (EqualFold (string_of scheme) "http" = true ∨ EqualFold (string_of scheme) "https" = true)
    ∧ authority ≠ [] ∧ (∀ c, c ∈ authority → c ∉ bytes_of "/?#")
    ∧ (tail = [] ∨ ∃ c t, tail = c :: t ∧ c ∈ bytes_of "/?#")
    ∧ (∀ c, c ∈ (Cut "#"%char (bytes_of raw)).1 → is_ctl c = false).


Lemma strip_Some pre l t : strip pre l = Some t ↔ l = pre ++ t.
Proof.
  revert l. induction pre as [|c pre IH]; intros l; simpl; [naive_solver|].
  destruct l as [|d l]; [naive_solver|]. destruct (is_byte c d) eqn:Hc.
  - apply is_byte_true in Hc as ->. rewrite IH. naive_solver.
  - split; [done|]. intros [= -> ->]. unfold is_byte in Hc. by rewrite bool_decide_true in Hc.
Qed.

Lemma parseAuthority_nil : parseAuthority [] = Some [].
Proof. done. Qed.

(** A host is only reported for the authority of a URL with "//". *)
Lemma parse_host raw s h :
  parse raw = Some (s, h) → h ≠ [] → s ≠ [] →
  existsb is_ctl raw = false
  ∧ ∃ sc a t, raw = sc ++ bytes_of "://" ++ a ++ t ∧ forallb scheme_byte sc = true
      ∧ s = lower_bytes sc ∧ a ≠ [] ∧ ("/"%char ∉ a) ∧ ("?"%char ∉ a)
      ∧ (t = [] ∨ ∃ c t', t = c :: t' ∧ c ∈ bytes_of "/?").
Proof.
  unfold parse. intros E Hh Hs. destruct (existsb is_ctl raw); [done|]. split; [done|].
  case_bool_decide; [by simplify_eq|].
  destruct (getScheme raw) as [[sc rest]|] eqn:Hsc; [|done]. simpl in E.
  apply scheme_loop_spec in Hsc; [|done].
  destruct (Cut_spec "?"%char rest) as (tq & Hrest & Htq & Hnq).
  set (r := (Cut "?"%char rest).1) in *.
  destruct (_ && bool_decide (lower_bytes sc ≠ [])); [congruence|].
  destruct (_ && _); [done|]. unfold split_authority in E.
  destruct (strip (bytes_of "//") r) as [authority|] eqn:Hr.
  2: { simpl in E. destruct (unescape _ _); simpl in E; congruence. }
  destruct (_ || _).
  2: { simpl in E. destruct (unescape _ _); simpl in E; congruence. }
  destruct (Cut_spec "/"%char authority) as (t & Hauth & Ht & Hns).
  set (a := (Cut "/"%char authority).1) in *. simpl in E.
  destruct (parseAuthority a) as [h'|] eqn:Ha; [|done]. simpl in E.
  destruct (unescape _ _); simpl in E; [|done]. simplify_eq.
  apply strip_Some in Hr. destruct Hsc as [->|[Hraw Hsb]]; [done|].
  exists sc, a, (t ++ tq). simpl in Hraw. split_and!; try done.
  - rewrite Hraw, Hrest, Hr, Hauth. simpl. by rewrite <- (assoc_L (++)).
  - intros Hn. rewrite Hn, parseAuthority_nil in Ha. congruence.
  - intros Hq. apply Hnq. rewrite Hr, Hauth. apply elem_of_app. right. apply elem_of_app. by left.
  - destruct Ht as [->|[b ->]]; [destruct Htq as [->|[b ->]]; [by left|]|]; right; eexists _, _;
      (split; [reflexivity|]); apply list_elem_of_In; vm_compute; auto.
Qed.

(** An http or https URL that parses with a host is a web URL. *)
Lemma Parse_web_url raw s h :
  Parse raw = Some (s, h) → s = "http" ∨ s = "https" → h ≠ "" → web_url raw.
Proof.
  unfold Parse. intros E Hs Hh. pose proof (Cut_spec "#"%char (bytes_of raw)) as (tf & Hraw & Htf & Hnf).
  destruct (Cut "#"%char (bytes_of raw)) as [u frag] eqn:Hcut. simpl in *.
  destruct (parse u) as [[s' h']|] eqn:Hp; [|done]. simpl in E.
  destruct (unescape _ _); simpl in E; [|done]. simplify_eq.
  apply parse_host in Hp as (Hctl & sc & a & t & -> & Hsb & -> & Ha & Hna & Hqa & Ht);
    [|by intros ->|intros ->; by destruct Hs].
  exists sc, a, (t ++ tf). split_and!; try done.
  - rewrite Hraw, <- !(assoc_L (++)). done.
  - rewrite lower_scheme in Hs by done. unfold EqualFold. rewrite !bool_decide_eq_true, bytes_of_string_of.
    destruct Hs as [Hs|Hs]; apply (f_equal bytes_of) in Hs; rewrite bytes_of_string_of in Hs; rewrite Hs;
      [left|right]; reflexivity.
  - intros c Hc Hin. change (c ∈ ["/"; "?"; "#"]%char) in Hin. revert Hin.
    rewrite !elem_of_cons, elem_of_nil. intros [->|[->|[->|[]]]]; try done.
    apply Hnf. rewrite !elem_of_app. auto.
  - destruct Ht as [->|(c & t' & -> & Hc)]; [destruct Htf as [->|[b ->]]; [by left|]|];
      right; eexists _, _; (split; [reflexivity|]).
    + apply list_elem_of_In. vm_compute. auto.
    + change (c ∈ ["/"; "?"]%char) in Hc. change (c ∈ ["/"; "?"; "#"]%char).
      rewrite !elem_of_cons in *. tauto.
  - intros c Hc. rewrite Hcut in Hc. simpl in Hc.
    destruct (is_ctl c) eqn:Hcc; [|done]. rewrite <- Hctl. symmetry. apply existsb_exists. exists c.
    by rewrite <- list_elem_of_In.
Qed.

(** What the validators of the program ask of a URL. *)
Definition valid_url (raw : string) : Prop :=
  ∃ scheme host, Parse raw = Some (scheme, host)
    ∧ (scheme = "http" ∨ scheme = "https") ∧ host ≠ "".

(** Such a URL is a web URL: it starts with http:// or https:// and a host, and holds no
    control byte before its fragment. *)
Lemma valid_web_url raw : valid_url raw → web_url raw.
Proof. intros (s & h & Hp & Hs & Hh). by eapply Parse_web_url. Qed.

(** * What is accepted

    An https URL with a plain host and a path without escapes parses, to that host. *)
Definition plain_host (c : ascii) : bool := is_letter c || is_digit c || one_of "-." c.
Definition plain_path (c : ascii) : bool := negb (is_ctl c) && negb (one_of "%?#" c).

Lemma unescape_plain mode l :
  (∀ c, c ∈ l → c ≠ "%"%char ∧ (host_mode mode = true → shouldEscape_host c = false)) →
  unescape mode l = Some l.
Proof.
  induction l as [|c l IH]; intros Hl; [done|].
  destruct (Hl c ltac:(left)) as [Hc Hm]. assert (E : unescape mode l = Some l).
  { apply IH. intros d Hd. apply Hl. by right. }
  assert (Hstep : unescape mode (c :: l) =
    if host_mode mode && (byte_val c <? 128) && shouldEscape_host c then None
    else cons c <$> unescape mode l).
  { clear -Hc. destruct c as [[] [] [] [] [] [] [] []]; try reflexivity. by destruct Hc. }
  rewrite Hstep, E. destruct (host_mode mode); [|done]. by rewrite Hm, andb_false_r.
Qed.

Lemma Cut_absent sep l : sep ∉ l → Cut sep l = (l, []).
Proof.
  induction l as [|c l IH]; [done|]. rewrite not_elem_of_cons. intros [Hc Hl]. simpl.
  unfold is_byte. rewrite bool_decide_false by congruence. by rewrite IH.
Qed.

Lemma Cut_app sep a l : sep ∉ a → Cut sep (a ++ sep :: l) = (a, l).
Proof.
  induction a as [|c a IH]; simpl.
  - intros _. unfold is_byte. by rewrite bool_decide_true.
  - rewrite not_elem_of_cons. intros [Hc Hl]. unfold is_byte. rewrite bool_decide_false by congruence.
    by rewrite IH.
Qed.

(** [l] has none of the bytes of [s]. *)
Definition avoids (s : string) (l : list ascii) : Prop := ∀ d, d ∈ bytes_of s → d ∉ l.

Lemma avoids_byte s l d : avoids s l → existsb (is_byte d) (bytes_of s) = true → d ∉ l.
Proof.
  intros Hl [x [Hx Hd]]%existsb_exists. apply is_byte_true in Hd as ->. by apply Hl, list_elem_of_In.
Qed.

Lemma avoids_app s l l' : avoids s l → avoids s l' → avoids s (l ++ l').
Proof. intros Hl Hl' d Hd [?|?]%elem_of_app; [by apply (Hl d)|by apply (Hl' d)]. Qed.

Lemma plain_host_byte c :
  plain_host c = true →
  shouldEscape_host c = false ∧ is_ctl c = false ∧ ∀ d, d ∈ bytes_of "%/?#:@[" → c ≠ d.
Proof.
  intros Hc. split_and!.
  1,2: destruct c as [[] [] [] [] [] [] [] []]; vm_compute in *; done.
  intros d Hd ->. apply list_elem_of_In in Hd. vm_compute in Hd. intuition subst; done.
Qed.

Lemma plain_host_avoids host : forallb plain_host host = true → avoids "%/?#:@[" host.
Proof.
  rewrite forallb_forall. intros Hh d Hd Hin%list_elem_of_In%Hh.
  apply plain_host_byte in Hin as (_ & _ & Hin). by apply (Hin d).
Qed.

Lemma plain_path_avoids path : forallb plain_path path = true → avoids "%?#" path.
Proof.
  rewrite forallb_forall. intros Hh d Hd Hin%list_elem_of_In%Hh.
  unfold plain_path, one_of in Hin. apply andb_true_iff in Hin as [_ Hin].
  apply negb_true_iff, bool_decide_eq_false in Hin. done.
Qed.

Lemma plain_no_ctl host path :
  forallb plain_host host = true → forallb plain_path path = true →
  existsb is_ctl (bytes_of "https://" ++ host ++ path) = false.
Proof.
  rewrite !forallb_forall. intros Hh Hp. rewrite !existsb_app, !orb_false_iff. split_and!; [done| |];
    apply not_true_is_false; intros [x [Hx Hc]]%existsb_exists.
  - apply Hh, plain_host_byte in Hx as (_ & ? & _). congruence.
  - apply Hp in Hx. unfold plain_path in Hx. rewrite Hc in Hx. done.
Qed.

Lemma parseAuthority_plain host :
  host ≠ [] → forallb plain_host host = true → parseAuthority host = Some host.
Proof.
  intros Hne Hh. pose proof (plain_host_avoids host Hh) as Hav. rewrite forallb_forall in Hh.
  assert (Hno : ∀ d, existsb (is_byte d) (bytes_of "%/?#:@[") = true → d ∉ host) by eauto using avoids_byte.
  assert (Hu : unescape encodeHost host = Some host).
  { apply unescape_plain. intros c Hc. split; [intros ->; by apply (Hno "%"%char)|].
    intros _. apply plain_host_byte, Hh, list_elem_of_In, Hc. }
  unfold parseAuthority, CutLast. rewrite bool_decide_false by (by apply Hno).
  unfold parseHost, CutLast. rewrite (bool_decide_false (":"%char ∈ host)) by (by apply Hno).
  rewrite Hu. destruct host as [|[[] [] [] [] [] [] [] []] host]; try done.
  exfalso. apply (Hno "["%char); [done|]. by left.
Qed.

Lemma cut_plain host path :
  forallb plain_host host = true → path = [] ∨ head path = Some "/"%char →
  (Cut "/"%char (host ++ path)).1 = host.
Proof.
  intros Hh Hp. pose proof (plain_host_avoids host Hh) as Hav.
  assert (Hs : "/"%char ∉ host) by (by eapply avoids_byte).
  destruct path as [|c path]; [by rewrite app_nil_r, Cut_absent|].
  destruct Hp as [?|[= ->]]; [done|]. by rewrite Cut_app.
Qed.

Lemma Parse_plain host path :
  host ≠ [] → forallb plain_host host = true →
  path = [] ∨ head path = Some "/"%char → forallb plain_path path = true →
  Parse (string_of (bytes_of "https://" ++ host ++ path)) = Some ("https", string_of host).
Proof.
  intros Hne Hh Hp Hpp. unfold Parse. rewrite bytes_of_string_of.
  pose proof (plain_host_avoids host Hh) as Hah. pose proof (plain_path_avoids path Hpp) as Hap.
  assert (Hno : ∀ d, existsb (is_byte d) (bytes_of "%?#") = true → d ∉ host ++ path).
  { intros d Hd [?|?]%elem_of_app; [|by eapply (avoids_byte _ path)].
    eapply (avoids_byte _ host); [exact Hah| |done]. simpl in *. rewrite !orb_true_iff in *. tauto. }
  rewrite Cut_absent by (intros [Hx%list_elem_of_In|?]%elem_of_app;
    [vm_compute in Hx; by repeat destruct Hx as [Hx|Hx] | by apply (Hno "#"%char)]).
  assert (Hparse : parse (bytes_of "https://" ++ host ++ path) = Some (bytes_of "https", host)).
  { unfold parse. rewrite plain_no_ctl by done. rewrite bool_decide_false by done.
    change (getScheme (bytes_of "https://" ++ host ++ path))
      with (Some (bytes_of "https", bytes_of "//" ++ host ++ path)). simpl mbind. cbv beta iota.
    rewrite (Cut_absent "?"%char (host ++ path)) by (by apply Hno). simpl.
    rewrite cut_plain, drop_app_length by done.
    rewrite parseAuthority_plain by done. simpl.
    rewrite unescape_plain; [done|]. intros c Hc. split; [intros ->|done].
    apply (Hno "%"%char); [done|]. apply elem_of_app. by right. }
  by rewrite Hparse.
Qed.
