(* ===== verification/Domain.v ===== *)
(** Package domain: the entities, the sentinel errors and the pure rules on them
    (internal/domain). *)
From stdpp Require Import prelude strings list.
From Stdlib Require Import Ascii.
From S2P Require Import Prelude GoStd Sha256.

Local Open Scope Z_scope.

(** A [uuid.UUID] is a 16-byte array: the number it writes big-endian. *)
Abbreviation UUID := N (only parsing).
Definition uuid_Nil : UUID := 0%N.

(** * Errors (errors.go) *)

(** The package-level sentinels. *)
Inductive sentinel :=
  | ErrNotFound
  | ErrConflict
  | ErrValidation
  | ErrUnauthorized
  | ErrGone
  | ErrCodeExhausted.

#[export] Instance sentinel_eq_dec : EqDecision sentinel.
Proof. solve_decision. Defined.

(** The error values that reach the program: a sentinel, an error of a library
    the program tests for ([pgx.ErrNoRows], [redis.Nil], a [pgconn.PgError] and
    its SQLSTATE), any other error, and [fmt.Errorf] with one %w. *)
Inductive error :=
  | ESentinel (s : sentinel)
  | ENoRows
  | ERedisNil
  | EPg (sqlstate msg : string)
  | EOther (msg : string)
  | EWrap (pre : string) (e : error) (post : string).

#[export] Instance error_eq_dec : EqDecision error.
Proof. solve_decision. Defined.

Definition sentinel_msg (s : sentinel) : string :=
  match s with
  | ErrNotFound => "resource not found"
  | ErrConflict => "resource conflict"
  | ErrValidation => "validation failed"
  | ErrUnauthorized => "unauthorized"
  | ErrGone => "resource gone"
  | ErrCodeExhausted => "could not allocate unique shortcode"
  end.

(** [err.Error()]. *)
Fixpoint Error (e : error) : string :=
  match e with
  | ESentinel s => sentinel_msg s
  | ENoRows => "no rows in result set"
  | ERedisNil => "redis: nil"
  | EPg code msg => "ERROR: " +:+ msg +:+ " (SQLSTATE " +:+ code +:+ ")"
  | EOther msg => msg
  | EWrap pre e post => pre +:+ Error e +:+ post
  end.

(** [errors.Is(err, s)] for a sentinel [s]: it walks the %w chain. *)
Fixpoint Is (e : error) (s : sentinel) : bool :=
  match e with
  | ESentinel s' => bool_decide (s' = s)
  | EWrap _ e _ => Is e s
  | _ => false
  end.

Fixpoint IsNoRows (e : error) : bool :=
  match e with
  | ENoRows => true
  | EWrap _ e _ => IsNoRows e
  | _ => false
  end.

(** [fmt.Errorf("what: %w", e)] and [fmt.Errorf("%w: what", domain.ErrValidation)]. *)
Definition errorf (what : string) (e : error) : error := EWrap (what +:+ ": ") e "".
Definition invalid (what : string) : error := EWrap "" (ESentinel ErrValidation) (": " +:+ what).

(** An error chain ends in one sentinel at most. *)
Lemma Is_unique e s s' : Is e s = true → Is e s' = true → s = s'.
Proof. induction e; simpl; intros; bool_to_prop; try done; [congruence | auto]. Qed.

(** The sentinel an error chain ends in. *)
Fixpoint sentinel_of (e : error) : option sentinel :=
  match e with
  | ESentinel s => Some s
  | EWrap _ e _ => sentinel_of e
  | _ => None
  end.

Lemma Is_sentinel_of e s : Is e s = bool_decide (sentinel_of e = Some s).
Proof. induction e; simpl; try done. apply bool_decide_ext. naive_solver. Qed.

(** * Tenant (tenant.go) *)

Module Tenant.
Record t := Mk { ID : UUID; Name : string; CreatedAt : Time; UpdatedAt : Time }.
End Tenant.

(** * Link (link.go) *)

Definition RedirectFound : Z := 302.
Definition RedirectPermanent : Z := 301.

Module Link.
Record t := Mk {
  ID : UUID;
  TenantID : UUID;
  Code : string;
  TargetURL : string;
  RedirectType : Z;
  ExpiresAt : option Time;
  MaxClicks : option Z;
  ClickCount : Z;
  CreatedAt : Time;
  UpdatedAt : Time;
  DeletedAt : option Time;
}.

#[export] Instance t_eq_dec : EqDecision t.
Proof. solve_decision. Defined.

(** [!now.Before( *l.ExpiresAt)]: the instant of expiry is already expired. *)
Definition IsExpired (l : t) (now : Time) : bool :=
  match ExpiresAt l with
  | Some e => negb (now <? e)
  | None => false
  end.

Definition IsExhausted (l : t) : bool :=
  match MaxClicks l with
  | Some m => m <=? ClickCount l
  | None => false
  end.

Definition live (l : t) : bool :=
  match DeletedAt l with None => true | Some _ => false end.

Definition IsActive (l : t) (now : Time) : bool :=
  live l && negb (IsExpired l now) && negb (IsExhausted l).

(** A link that is not active never becomes active again by the mere passing of
    time or by receiving clicks. *)
Lemma IsExpired_mono l now now' : now ≤ now' → IsExpired l now = true → IsExpired l now' = true.
Proof.
  unfold IsExpired. case_match; [|done]. intros ? H1.
  apply negb_true_iff in H1. apply negb_true_iff. apply Z.ltb_ge in H1. apply Z.ltb_ge. lia.
Qed.
End Link.

(** * API keys (apikey.go) *)

Definition KeyPrefix : string := "sk_live_".
Definition prefixStoredLen : Z := len KeyPrefix + 8.

Module APIKey.
Record t := Mk {
  ID : UUID;
  TenantID : UUID;
  Name : string;
  Prefix : string;
  Hash : string;
  CreatedAt : Time;
  LastUsedAt : option Time;
  RevokedAt : option Time;
}.

Definition Revoked (k : t) : bool :=
  match RevokedAt k with Some _ => true | None => false end.
End APIKey.

Module GeneratedKey.
Record t := Mk { Plaintext : string; Prefix : string; Hash : string }.
End GeneratedKey.

Definition HashAPIKey (plaintext : string) : string := hex_encode (sha256 (bytes_of plaintext)).

(** The key minted from the 24 random bytes [buf]. *)
Definition keyFromBytes (buf : list ascii) : GeneratedKey.t :=
  let secret := base64_encode buf in
  let plaintext := KeyPrefix +:+ secret in
  GeneratedKey.Mk plaintext (str_take (Z.to_nat prefixStoredLen) plaintext) (HashAPIKey plaintext).

Definition PrefixOf (plaintext : string) : string :=
  if len plaintext <? prefixStoredLen then plaintext
  else str_take (Z.to_nat prefixStoredLen) plaintext.

Definition ValidKeyFormat (token : string) : bool :=
  HasPrefix token KeyPrefix && (prefixStoredLen <? len token).

(** [subtle.ConstantTimeCompare(a, b) == 1]: equal lengths and no differing byte. *)
Definition ConstantTimeHashEqual (a b : string) : bool :=
  (len a =? len b)
  && (foldl Z.lor 0 (zip_with (λ x y, Z.lxor (byte_val x) (byte_val y)) (bytes_of a) (bytes_of b)) =? 0).

(** * Analytics values (analytics.go, click.go) *)

Abbreviation Bucket := string (only parsing).
Definition BucketHour : Bucket := "hour".
Definition BucketDay : Bucket := "day".

Definition Bucket_Valid (b : Bucket) : bool :=
  String.eqb b BucketHour || String.eqb b BucketDay.

Module TimePoint.
Record t := Mk { time : Time; Count : Z }.
End TimePoint.

Module LabelCount.
Record t := Mk { Label : string; Count : Z }.
End LabelCount.

Module LinkStats.
Record t := Mk {
  LinkID : UUID;
  From : Time;
  To : Time;
  bucket : Bucket;
  TotalClicks : Z;
  Series : list TimePoint.t;
  TopReferrers : list LabelCount.t;
  TopCountries : list LabelCount.t;
  Devices : list LabelCount.t;
}.
End LinkStats.

Module TenantOverview.
Record t := Mk { TotalLinks : Z; TotalClicks : Z; TopLinks : list LabelCount.t }.
End TenantOverview.

Module Click.
Record t := Mk {
  LinkID : UUID;
  TenantID : UUID;
  OccurredAt : Time;
  Referrer : string;
  UserAgent : string;
  Browser : string;
  OS : string;
  Device : string;
  Country : string;
  IPHash : string;
}.
End Click.

(** * Events and webhooks (event.go) *)

Definition WebhookSecretPrefix : string := "whsec_".

Abbreviation EventType := string (only parsing).
Definition EventLinkCreated : EventType := "link.created".
Definition EventLinkClicked : EventType := "link.clicked".

Definition EventType_Valid (t : EventType) : bool :=
  String.eqb t EventLinkCreated || String.eqb t EventLinkClicked.

(** The values the program puts in an event's [map[string]any]. *)
Inductive any :=
  | AStr (s : string)
  | AInt (z : Z)
  | ATime (t : Time).

#[export] Instance any_eq_dec : EqDecision any.
Proof. solve_decision. Defined.

Module Event.
Record t := Mk {
  ID : UUID;
  Type_ : EventType;
  TenantID : UUID;
  OccurredAt : Time;
  Data : list (string * any);
}.

#[export] Instance t_eq_dec : EqDecision t.
Proof. solve_decision. Defined.
End Event.

Module Webhook.
Record t := Mk {
  ID : UUID;
  TenantID : UUID;
  URL : string;
  Secret : string;
  Events : list EventType;
  Active : bool;
  FailureCount : Z;
  DisabledAt : option Time;
  CreatedAt : Time;
}.

#[export] Instance t_eq_dec : EqDecision t.
Proof. solve_decision. Defined.

Definition SubscribesTo (w : t) (ev : EventType) : bool :=
  existsb (λ e, String.eqb e ev) (Events w).
End Webhook.

(** * The shape of generated keys *)

Lemma length_base64_24 buf : length buf = 24%nat → String.length (base64_encode buf) = 32%nat.
Proof. intros H. by rewrite (length_base64_encode 8). Qed.

Lemma lor_fold_zero l acc : foldl Z.lor acc l = 0 ↔ acc = 0 ∧ Forall (λ z, z = 0) l.
Proof.
  revert acc. induction l as [|z l IH]; intros acc; simpl.
  - split; [by intros -> | by intros [-> _]].
  - rewrite IH, Z.lor_eq_0_iff, Forall_cons. tauto.
Qed.

Lemma byte_val_inj a b : byte_val a = byte_val b → a = b.
Proof.
  unfold byte_val. intros H. apply N2Z.inj in H.
  by rewrite <- (ascii_N_embedding a), H, ascii_N_embedding.
Qed.

Lemma xor_bytes_zero a b : Z.lxor (byte_val a) (byte_val b) = 0 ↔ a = b.
Proof. rewrite Z.lxor_eq_0_iff. split; [apply byte_val_inj | by intros ->]. Qed.

(** The loop without early exit decides equality. *)
Lemma ConstantTimeHashEqual_eq a b : ConstantTimeHashEqual a b = true ↔ a = b.
Proof.
  unfold ConstantTimeHashEqual, len, bytes_of.
  rewrite andb_true_iff, !Z.eqb_eq, lor_fold_zero, Nat2Z.inj_iff.
  revert b. induction a as [|x a IH]; intros [|y b]; simpl; try naive_solver.
  rewrite Forall_cons, xor_bytes_zero. specialize (IH b). naive_solver.
Qed.
