(* ===== verification/Wire.v ===== *)
(** What the program writes as JSON: how an id and a time are written, and the webhook
    event (internal/domain/event.go), whose encoding is the payload that is signed and
    posted.  The cache entry is in LinkCache.v. *)
From stdpp Require Import prelude gmap strings list sorting.
From Stdlib Require Import Ascii.
From S2P Require Import Prelude GoStd Rfc3339 Json Domain.

Local Open Scope Z_scope.

(** google/uuid prints an id in ASCII so that it parses back.  [local_offset t] is the
    time zone of the process at the instant [t], in minutes east of UTC: a [time.Time]
    read from the clock or from the database is written in it. *)
Class Codec := {
  uuid_String : UUID → string;
  uuid_Parse : string → option UUID;
  local_offset : Time → Z;
}.

Class CodecLaws `{Codec} : Prop := {
  uuid_roundtrip u : uuid_Parse (uuid_String u) = Some u;
  uuid_text u : ValidString (uuid_String u) = true;
}.

(** Whether a member written under one name is read under another is a computation. *)
Ltac decide_names :=
  repeat match goal with
  | |- context [names ?a ?b] => let r := eval vm_compute in (names a b) in change (names a b) with r; cbv iota
  end.

Section wire.
Context `{Codec}.

(** A time, unless it has no RFC 3339 form. *)
Definition time_tree (t : Time) : option tree := TText <$> time_MarshalText t (local_offset t).

Definition field (name : string) (t : tree) : list ascii * tree := (bytes_of name, t).

(** A field with [omitempty]: a nil pointer is left out. *)
Definition omitempty {A} (name : string) (enc : A → option tree) (p : option A) : option (list (list ascii * tree)) :=
  match p with None => Some [] | Some a => t ← enc a; Some [field name t] end.

(** * Events *)

Definition any_tree (a : any) : option tree :=
  match a with
  | AStr s => Some (TText (bytes_of s))
  | AInt z => Some (TInt z)
  | ATime t => time_tree t
  end.

(** The order of the keys of a map. *)
Definition key_le (a b : string * any) : Prop := String.leb a.1 b.1 = true.

#[global] Instance key_le_dec a b : Decision (key_le a b).
Proof. unfold key_le. apply _. Defined.

(** A [map[string]any], its keys in order. *)
Definition map_tree (m : list (string * any)) : option tree :=
  TObject <$> mapM (λ p, field p.1 <$> any_tree p.2) (merge_sort key_le m).

(** The struct: the tenant has the tag [json:-]. *)
Definition event_tree (e : Event.t) : option tree :=
  at_ ← time_tree (Event.OccurredAt e);
  data ← map_tree (Event.Data e);
  Some (TObject [field "id" (TText (bytes_of (uuid_String (Event.ID e))));
                 field "type" (TText (bytes_of (Event.Type_ e)));
                 field "occurred_at" at_;
                 field "data" data]).

(** [json.Marshal] of an event. *)
Definition event_Marshal (e : Event.t) : option string := string_of ∘ encode <$> event_tree e.

(** * What a subscriber reads *)

(** The value of a member of [data], as its type decodes it. *)
Definition reads_as (a : any) (raw : string) : Prop :=
  match a with
  | AStr s => json_string raw = Some s
  | AInt z => json_int raw = Some z
  | ATime t => json_time raw = Some t
  end.

(** Strings are UTF-8, integers fit. *)
Definition plain_any (a : any) : Prop :=
  match a with AStr s => ValidString s = true | AInt z => in_int64 z = true | ATime _ => True end.

Lemma any_reads a t :
  any_tree a = Some t → plain_any a → nesting t = 0%nat ∧ reads_as a (string_of (encode t)).
Proof.
  destruct a as [s|z|x]; cbn [any_tree plain_any reads_as]; unfold json_string, json_int, json_time.
  - intros [= <-] Hs. split; [done|]. rewrite Unmarshal_encode by (apply nests_two; cbn [nesting]; lia). by apply to_string_valid.
  - intros [= <-] Hz. split; [done|]. rewrite Unmarshal_encode by (apply nests_two; cbn [nesting]; lia). by rewrite to_int_int, Hz.
  - unfold time_tree. destruct (time_MarshalText x (local_offset x)) as [l|] eqn:Hl; [|done].
    cbn [fmap option_fmap option_map]. intros [= <-] _. split; [done|].
    rewrite Unmarshal_encode by (apply nests_two; cbn [nesting]; lia). by eapply to_time_text.
Qed.

Lemma literal_name k : ValidString k = true → string_of (sanitize (bytes_of k)) = k.
Proof. intros Hk. rewrite sanitize_valid by done. apply string_of_bytes_of. Qed.

Lemma map_tree_reads m t :
  map_tree m = Some t → NoDup (m.*1) → Forall (λ p, ValidString p.1 = true ∧ plain_any p.2) m →
  (nesting t <= 1)%nat
  ∧ ∃ d, json_fields (string_of (encode t)) = Some d
         ∧ ∀ k a, (k, a) ∈ m → ∃ raw, d !! k = Some raw ∧ reads_as a raw.
Proof.
  unfold map_tree. intros Ht Hnd Hm. pose proof (merge_sort_Permutation key_le m) as Hp.
  rewrite <-Hp in Hnd. rewrite <-Hp in Hm. setoid_rewrite <-Hp. clear Hp. revert Ht Hnd Hm.
  generalize (merge_sort key_le m). clear m. intros m Ht Hnd Hm.
  destruct (mapM _ m) as [ms|] eqn:Hms; [|done]. injection Ht as <-. apply mapM_Some_1 in Hms.
  assert (Hkeys : (λ p : list ascii * tree, string_of (sanitize p.1)) <$> ms = m.*1).
  { clear Hnd. induction Hms as [|[k a] q m ms Hq Hms IH]; [done|]. apply Forall_cons in Hm as [[Hk _] Hm].
    cbn [fst snd] in *. destruct (any_tree a); [|done]. injection Hq as <-. cbn [fmap list_fmap fst field].
    unfold field. cbn [fst]. rewrite literal_name by done. f_equal. by apply IH. }
  assert (Hflat : Forall (λ q, nesting q.2 = 0%nat) ms).
  { clear Hnd Hkeys. induction Hms as [|[k a] q m ms Hq Hms IH]; [done|]. apply Forall_cons in Hm as [[_ Ha] Hm].
    cbn [fst snd] in *. destruct (any_tree a) as [x|] eqn:Hx; [|done]. injection Hq as <-.
    constructor; [|by apply IH]. by apply (any_reads a x). }
  assert (Hnest : (nesting (TObject ms) <= 1)%nat).
  { cbn [nesting]. apply le_n_S, list_max_le, Forall_map. eapply Forall_impl; [done|]. intros q Hq. simpl in Hq |- *. lia. }
  split; [done|]. rewrite json_fields_encode by (apply nests_two; lia). eexists. split; [done|]. intros k a Hka.
  rewrite <-Hkeys in Hnd. apply list_elem_of_lookup in Hka as [i Hi].
  destruct (Forall2_lookup_l _ _ _ _ _ Hms Hi) as (q & Hqi & Hq). cbn [fst snd] in Hq.
  rewrite Forall_lookup in Hm. destruct (Hm i (k, a) Hi) as [Hk Ha]. cbn [fst snd] in *.
  destruct (any_tree a) as [x|] eqn:Hx; [|done]. injection Hq as <-.
  exists (string_of (encode x)). split; [|by apply any_reads].
  pose proof (add_raw_elem ms ∅ (field k x) Hnd (list_elem_of_lookup_2 _ _ _ Hqi)) as Hl.
  cbn [field fst snd] in Hl. unfold field in Hl. cbn [fst snd] in Hl. by rewrite literal_name in Hl.
Qed.

(** C36: The payload tells the event.  A subscriber that decodes the body posted to it
    gets the id, the type and the instant of the event, and under each key of the data
    the value the program put there, whatever the texts contain; the body has these four
    fields only, nothing of the tenant or of the webhook. *)
Theorem payload_tells_event `{!CodecLaws} e p :
  event_Marshal e = Some p → ValidString (Event.Type_ e) = true →
  NoDup ((Event.Data e).*1) → Forall (λ q, ValidString q.1 = true ∧ plain_any q.2) (Event.Data e) →
  ∃ id ty at_ data d,
    json_fields p = Some (<["data" := data]> (<["occurred_at" := at_]> (<["type" := ty]> {[ "id" := id ]})))
    ∧ json_string id = Some (uuid_String (Event.ID e)) ∧ json_string ty = Some (Event.Type_ e)
    ∧ json_time at_ = Some (Event.OccurredAt e)
    ∧ json_fields data = Some d ∧ ∀ k a, (k, a) ∈ Event.Data e → ∃ raw, d !! k = Some raw ∧ reads_as a raw.
Proof.
  unfold event_Marshal, event_tree. intros He Hty Hnd Hdata.
  destruct (time_tree (Event.OccurredAt e)) as [at_|] eqn:Hat; [|done].
  destruct (map_tree (Event.Data e)) as [data|] eqn:Hd; [|done].
  destruct (map_tree_reads _ _ Hd Hnd Hdata) as (Hn & d & Hfields & Hreads).
  destruct (any_reads (ATime (Event.OccurredAt e)) at_ Hat I) as [Hna Hra].
  change (Some (string_of (encode (TObject [field "id" (TText (bytes_of (uuid_String (Event.ID e))));
    field "type" (TText (bytes_of (Event.Type_ e))); field "occurred_at" at_; field "data" data]))) = Some p) in He.
  apply (inj Some) in He as <-. eexists _, _, _, _, d. split.
  { rewrite json_fields_encode; [reflexivity|]. apply nests_two. unfold field. simpl. lia. }
  pose proof (any_reads (AStr (uuid_String (Event.ID e))) _ eq_refl (uuid_text _)) as [_ Hi].
  pose proof (any_reads (AStr (Event.Type_ e)) _ eq_refl Hty) as [_ Ht].
  split_and!; done.
Qed.
End wire.
