(* ===== verification/Enrich.v ===== *)
(** Click enrichment (internal/analytics: useragent.go, ip.go, geoip.go, event.go):
    the pure functions the pipeline's workers apply to a captured redirect. *)
From stdpp Require Import prelude strings list.
From Stdlib Require Import Ascii.
From S2P Require Import Prelude GoStd Sha256 NetIP Domain.

Local Open Scope Z_scope.

(** * User agents (useragent.go) *)

Module UserAgent.
Record t := Mk { Browser : string; OS : string; Device : string }.

#[export] Instance t_eq_dec : EqDecision t.
Proof. solve_decision. Defined.
End UserAgent.

Definition DeviceDesktop : string := "desktop".
Definition DeviceMobile : string := "mobile".
Definition DeviceTablet : string := "tablet".
Definition DeviceBot : string := "bot".
Definition Unknown : string := "unknown".

Definition isBot (ua : string) : bool :=
  existsb (Contains ua)
    ["bot"; "crawler"; "spider"; "slurp"; "curl"; "wget"; "python-requests"; "headlesschrome"].

Definition detectBrowser (ua : string) : string :=
  if Contains ua "edg" then "Edge"
  else if Contains ua "opr/" || Contains ua "opera" then "Opera"
  else if Contains ua "firefox" then "Firefox"
  else if Contains ua "chrome" || Contains ua "crios" then "Chrome"
  else if Contains ua "safari" then "Safari"
  else Unknown.

Definition detectOS (ua : string) : string :=
  if Contains ua "windows" then "Windows"
  else if Contains ua "android" then "Android"
  else if Contains ua "iphone" || Contains ua "ipad" || Contains ua "ios" then "iOS"
  else if Contains ua "mac os x" || Contains ua "macintosh" then "macOS"
  else if Contains ua "linux" then "Linux"
  else Unknown.

Definition detectDevice (ua : string) : string :=
  if Contains ua "ipad" || Contains ua "tablet" then DeviceTablet
  else if Contains ua "mobi" || Contains ua "iphone" || Contains ua "android" then DeviceMobile
  else DeviceDesktop.

Definition ParseUserAgent (raw : string) : UserAgent.t :=
  if String.eqb (TrimSpace raw) "" then UserAgent.Mk Unknown Unknown Unknown
  else
    let lower := ToLower raw in
    if isBot lower then UserAgent.Mk "bot" (detectOS lower) DeviceBot
    else UserAgent.Mk (detectBrowser lower) (detectOS lower) (detectDevice lower).

(** The cases of useragent_test.go. *)
Example ParseUserAgent_tests :
  ParseUserAgent <$>
    ["Mozilla/5.0 (Windows NT 10.0; Win64; x64) AppleWebKit/537.36 (KHTML, like Gecko) Chrome/120.0 Safari/537.36";
     "Mozilla/5.0 (iPhone; CPU iPhone OS 17_0 like Mac OS X) AppleWebKit/605.1 (KHTML, like Gecko) Version/17.0 Mobile/15E148 Safari/604.1";
     "Mozilla/5.0 (Linux; Android 14; Pixel 8) AppleWebKit/537.36 (KHTML, like Gecko) Chrome/120.0 Mobile Safari/537.36";
     "Mozilla/5.0 (iPad; CPU OS 17_0 like Mac OS X) AppleWebKit/605.1 Version/17.0 Safari/604.1";
     "Mozilla/5.0 (compatible; Googlebot/2.1; +http://www.google.com/bot.html)";
     "curl/8.4.0"; ""]
  = [UserAgent.Mk "Chrome" "Windows" "desktop"; UserAgent.Mk "Safari" "iOS" "mobile";
     UserAgent.Mk "Chrome" "Android" "mobile"; UserAgent.Mk "Safari" "iOS" "tablet";
     UserAgent.Mk "bot" "unknown" "bot"; UserAgent.Mk "bot" "unknown" "bot";
     UserAgent.Mk "unknown" "unknown" "unknown"].
Proof. vm_compute. reflexivity. Qed.

(** * IP anonymisation (ip.go) *)

(** [masked := make(net.IP, n); copy(masked, ip); masked[i] = 0] for [from <= i]. *)
Definition mask_from (from : nat) (ip : IP) : IP :=
  take from ip ++ replicate (length ip - from) 0.

Definition AnonymizeIP (raw : string) : option IP :=
  match ParseIP raw with
  | None => None
  | Some ip =>
      match To4 ip with
      | Some v4 => Some (mask_from 3 v4)
      | None => Some (mask_from 6 ip)
      end
  end.

Definition HashIP (raw salt : string) : string :=
  match AnonymizeIP raw with
  | None => ""
  | Some masked => hex_encode (sha256 (bytes_of salt ++ (byte_of <$> masked)))
  end.

Example AnonymizeIP_tests :
  AnonymizeIP <$> ["203.0.113.42"; "10.1.2.0"; "2001:db8:1234:5678:9abc:def0:1234:5678"; "not-an-ip"]
  = [Some [203; 0; 113; 0]; Some [10; 1; 2; 0];
     Some ([32; 1; 13; 184; 18; 52] ++ replicate 10 0); None].
Proof. vm_compute. reflexivity. Qed.

(** * Enrichment (geoip.go, event.go) *)

(** A [GeoResolver]: [None] is an error of the backend. *)
Class GeoResolver := Country : IP → option string.

Definition NoopResolver : GeoResolver := λ _, Some "".

Module ClickEvent.
Record t := Mk {
  LinkID : UUID;
  TenantID : UUID;
  Code : string;
  OccurredAt : Time;
  Referrer : string;
  UserAgent : string;
  IP : string;
}.

#[export] Instance t_eq_dec : EqDecision t.
Proof. solve_decision. Defined.
End ClickEvent.

Definition enrich (e : ClickEvent.t) (geo : GeoResolver) (salt : string) : Click.t :=
  let ua := ParseUserAgent (ClickEvent.UserAgent e) in
  let country :=
    match ParseIP (ClickEvent.IP e) with
    | Some ip => match geo ip with Some c => c | None => "" end
    | None => ""
    end in
  {| Click.LinkID := ClickEvent.LinkID e;
     Click.TenantID := ClickEvent.TenantID e;
     Click.OccurredAt := ClickEvent.OccurredAt e;
     Click.Referrer := ClickEvent.Referrer e;
     Click.UserAgent := ClickEvent.UserAgent e;
     Click.Browser := UserAgent.Browser ua;
     Click.OS := UserAgent.OS ua;
     Click.Device := UserAgent.Device ua;
     Click.Country := country;
     Click.IPHash := HashIP (ClickEvent.IP e) salt |}.

(** * Properties *)

(** The network part of an address: what anonymisation keeps. *)
Definition network (ip : IP) : bool * IP :=
  match To4 ip with
  | Some v4 => (true, take 3 v4)
  | None => (false, take 6 ip)
  end.

Lemma length_To4 ip v4 : length ip = 16%nat → To4 ip = Some v4 → length v4 = 4%nat.
Proof. unfold To4. intros. case_match; simplify_eq. rewrite length_drop. lia. Qed.

(** Masking keeps the length and the first [from] bytes, and nothing else. *)
Lemma mask_from_spec from ip i :
  (i < length ip)%nat →
  mask_from from ip !! i = if decide (i < from)%nat then ip !! i else Some 0.
Proof.
  intros Hi. unfold mask_from. case_decide.
  - rewrite lookup_app_l by (rewrite length_take; lia). by rewrite lookup_take_lt.
  - rewrite lookup_app_r by (rewrite length_take; lia).
    apply lookup_replicate_2. rewrite length_take. lia.
Qed.

Lemma AnonymizeIP_network raw raw' ip ip' :
  ParseIP raw = Some ip → ParseIP raw' = Some ip' → network ip = network ip' →
  AnonymizeIP raw = AnonymizeIP raw'.
Proof.
  intros Hp Hp'. unfold AnonymizeIP, network. rewrite Hp, Hp'.
  pose proof (length_ParseIP _ _ Hp) as Hl. pose proof (length_ParseIP _ _ Hp') as Hl'.
  destruct (To4 ip) as [v|] eqn:E, (To4 ip') as [v'|] eqn:E'; intros ?; simplify_eq; f_equal;
    unfold mask_from.
  - apply length_To4 in E; [|done]. apply length_To4 in E'; [|done]. congruence.
  - congruence.
Qed.

(** [HashIP] and so the stored click reveal an address only up to its
    /24 (IPv4) or /48 (IPv6) network. *)
Theorem HashIP_network raw raw' salt ip ip' :
  ParseIP raw = Some ip → ParseIP raw' = Some ip' → network ip = network ip' →
  HashIP raw salt = HashIP raw' salt.
Proof.
  intros ?? Hn. unfold HashIP. by rewrite (AnonymizeIP_network raw raw' ip ip').
Qed.

Lemma HashIP_network_witness :
  HashIP "203.0.113.42" "salt" = HashIP "203.0.113.99" "salt".
Proof.
  apply (HashIP_network _ _ _ (v4InV6Prefix ++ [203; 0; 113; 42]) (v4InV6Prefix ++ [203; 0; 113; 99]));
    vm_compute; reflexivity.
Defined.
