(* ===== verification/World.v ===== *)
(** The world the program acts on and the monad it acts in.

    A [World] holds everything an operation can read or write: the Postgres
    tables, the Redis keyspace, the analytics pipeline, the webhook dispatcher
    and the counters.  What the outside decides (clock readings, generated ids,
    random bytes, which backend call fails and whether its effect happened
    first, the order of a Go map range, the answers of webhook endpoints) is an
    [Oracle], indexed by the number of effects performed so far; every theorem
    holds for every oracle.  [M A] is a computation that returns a value, an
    error or a panic, and always a world: effects done before an error stay. *)
From stdpp Require Import prelude gmap strings list.
From Stdlib Require Import Ascii.
From S2P Require Import Prelude GoStd Domain Enrich.

Local Open Scope Z_scope.

(** * State *)

(** The tables of migrations/, by primary key; [clicks] in insertion order. *)
Module DB.
Record t := Mk {
  tenants : gmap UUID Tenant.t;
  api_keys : gmap UUID APIKey.t;
  links : gmap UUID Link.t;
  clicks : list Click.t;
  webhooks : gmap UUID Webhook.t;
}.

Definition with_tenants (f : gmap UUID Tenant.t → gmap UUID Tenant.t) (d : t) : t :=
  Mk (f (tenants d)) (api_keys d) (links d) (clicks d) (webhooks d).
Definition with_api_keys (f : gmap UUID APIKey.t → gmap UUID APIKey.t) (d : t) : t :=
  Mk (tenants d) (f (api_keys d)) (links d) (clicks d) (webhooks d).
Definition with_links (f : gmap UUID Link.t → gmap UUID Link.t) (d : t) : t :=
  Mk (tenants d) (api_keys d) (f (links d)) (clicks d) (webhooks d).
Definition with_clicks (f : list Click.t → list Click.t) (d : t) : t :=
  Mk (tenants d) (api_keys d) (links d) (f (clicks d)) (webhooks d).
Definition with_webhooks (f : gmap UUID Webhook.t → gmap UUID Webhook.t) (d : t) : t :=
  Mk (tenants d) (api_keys d) (links d) (clicks d) (f (webhooks d)).

Definition empty : t := Mk ∅ ∅ ∅ [] ∅.
End DB.

(** Redis: string keys with an optional expiry instant, and sorted sets (members
    with their scores, lowest first) with theirs. *)
Module Redis.
Record t := Mk {
  strs : gmap string (string * option Time);
  zsets : gmap string (list (Z * string) * option Time);
}.

Definition with_strs (f : gmap string (string * option Time) → gmap string (string * option Time))
    (r : t) : t := Mk (f (strs r)) (zsets r).
Definition with_zsets (f : gmap string (list (Z * string) * option Time) →
    gmap string (list (Z * string) * option Time)) (r : t) : t := Mk (strs r) (f (zsets r)).

Definition empty : t := Mk ∅ ∅.

(** A key past its expiry instant is gone. *)
Definition visible {A} (now : Time) (e : A * option Time) : option A :=
  match e.2 with
  | Some x => if now <? x then Some e.1 else None
  | None => Some e.1
  end.

Definition get (now : Time) (k : string) (r : t) : option string := strs r !! k ≫= visible now.
Definition zget (now : Time) (k : string) (r : t) : option (list (Z * string)) :=
  zsets r !! k ≫= visible now.
End Redis.

(** A goroutine that loops over a channel until the quit channel is closed and
    then drains it. *)
Inductive phase := Running | Draining | Exited.

#[export] Instance phase_eq_dec : EqDecision phase.
Proof. solve_decision. Defined.

(** [analytics.Pipeline]: the buffered channel, the workers with their local
    batches, and the counters.  [checked] are the producers between the two
    selects of Enqueue. *)
Module Pipeline.
Record t := Mk {
  input : list ClickEvent.t;
  quit : bool;
  workers : list (phase * list Click.t);
  checked : list ClickEvent.t;
  enqueued : Z;
  dropped : Z;
  flushed : Z;
}.
End Pipeline.

(** A request of the HTTP client, with the headers the program sets.  Those the transport
    adds, and the Referer of a redirected request, are not in it. *)
Module HttpRequest.
Record t := Mk { Method : string; URL : string; Header : gmap string string; Body : string }.
End HttpRequest.

(** [webhook.job], and [webhook.Dispatcher]: its two channels, the goroutines,
    the retry timers pending, the attempts made so far and the requests sent for them, in
    order. *)
Module Job.
Record t := Mk { webhook : Webhook.t; event : Event.t; payload : string; attempt : Z }.
End Job.

Module Dispatcher.
Record t := Mk {
  events : list Event.t;
  jobs : list Job.t;
  quit : bool;
  resolver : phase;
  senders : list phase;
  timers : list (Time * Job.t);
  posts : list Job.t;
  sent : list (Job.t * HttpRequest.t);
  dropped : Z;
}.
End Dispatcher.

(** The Prometheus counters the layers bump. *)
Module Metrics.
Record t := Mk {
  cacheHits : Z;
  cacheMisses : Z;
  redirects : gmap string Z;
  analyticsEnqueued : Z;
  analyticsDropped : Z;
  analyticsFlushed : Z;
  analyticsQueueDepth : Z;
  (** by method, route and status: the requests, and the latencies observed *)
  httpRequests : gmap (string * string * string) Z;
  httpDuration : gmap (string * string * string) (list Duration);
}.
End Metrics.

(** The levels of slog. *)
Inductive Level := LevelDebug | LevelInfo | LevelWarn | LevelError.

(** One line of the request log: its level and its attributes. *)
Module AccessLine.
Record t := Mk {
  level : Level;
  method : string;
  path : string;
  status : Z;
  latency_ms : Z;
  bytes : Z;
  client_ip : string;
  request_id : string;
  tenant_id : option string;
}.
End AccessLine.

Record World := MkWorld {
  w_step : nat;
  w_db : DB.t;
  w_redis : Redis.t;
  w_pipe : Pipeline.t;
  w_disp : Dispatcher.t;
  w_metrics : Metrics.t;
  (** the request log, in order *)
  w_access : list AccessLine.t;
}.

Definition set_step (n : nat) (w : World) : World :=
  MkWorld n (w_db w) (w_redis w) (w_pipe w) (w_disp w) (w_metrics w) (w_access w).
Definition upd_db (f : DB.t → DB.t) (w : World) : World :=
  MkWorld (w_step w) (f (w_db w)) (w_redis w) (w_pipe w) (w_disp w) (w_metrics w) (w_access w).
Definition upd_redis (f : Redis.t → Redis.t) (w : World) : World :=
  MkWorld (w_step w) (w_db w) (f (w_redis w)) (w_pipe w) (w_disp w) (w_metrics w) (w_access w).
Definition upd_pipe (f : Pipeline.t → Pipeline.t) (w : World) : World :=
  MkWorld (w_step w) (w_db w) (w_redis w) (f (w_pipe w)) (w_disp w) (w_metrics w) (w_access w).
Definition upd_disp (f : Dispatcher.t → Dispatcher.t) (w : World) : World :=
  MkWorld (w_step w) (w_db w) (w_redis w) (w_pipe w) (f (w_disp w)) (w_metrics w) (w_access w).
Definition upd_metrics (f : Metrics.t → Metrics.t) (w : World) : World :=
  MkWorld (w_step w) (w_db w) (w_redis w) (w_pipe w) (w_disp w) (f (w_metrics w)) (w_access w).
Definition upd_access (f : list AccessLine.t → list AccessLine.t) (w : World) : World :=
  MkWorld (w_step w) (w_db w) (w_redis w) (w_pipe w) (w_disp w) (w_metrics w) (f (w_access w)).

(** * The outside world *)

(** Where the Location header of an answer leads: nowhere when there is none, to the URL
    it resolves to against that of the request, or to none when it does not parse. *)
Inductive location := NoLocation | LocatedAt (url : string) | BadLocation (header : string).

(** The answer of an endpoint to a request: a transport error, or a status code and a
    location. *)
Inductive http_result := HttpError (msg : string) | HttpStatus (code : Z) (loc : location).

Class Oracle := {
  (** [time.Now()] and SQL [now()] *)
  o_now : nat → Time;
  (** [uuid.New()] and SQL [gen_random_uuid()] *)
  o_uuid : nat → UUID;
  (** a failing backend call: its message, and whether the effect happened *)
  o_fault : nat → option (string * bool);
  (** [crypto/rand.Read] of k bytes, and [rand.Int64N] below n *)
  o_rand : nat → nat → list ascii;
  o_rand_length n k : length (o_rand n k) = k;
  o_int64n : nat → Z → Z;
  o_int64n_range n k : 0 < k → 0 <= o_int64n n k < k;
  (** the order of a [range] over a Go map *)
  o_range : nat → list UUID → list UUID;
  o_range_perm n l : o_range n l ≡ₚ l;
  (** the instant a TIMESTAMPTZ column keeps for an instant *)
  o_timestamptz : Time → Time;
  o_timestamptz_le t : o_timestamptz t <= t;
  (** the endpoint's answer to a request *)
  o_http : nat → HttpRequest.t → http_result;
}.

(** * The monad *)

Inductive res (A : Type) :=
  | Ok (a : A)
  | Err (e : error)
  | Panic (msg : string).
Arguments Ok {A} a.
Arguments Err {A} e.
Arguments Panic {A} msg.

Definition M (A : Type) : Type := World → res A * World.

#[export] Instance M_ret : MRet M := λ A a w, (Ok a, w).
#[export] Instance M_bind : MBind M := λ A B f m w,
  match m w with
  | (Ok a, w') => f a w'
  | (Err e, w') => (Err e, w')
  | (Panic p, w') => (Panic p, w')
  end.

Definition fail {A} (e : error) : M A := λ w, (Err e, w).
Definition panic {A} (msg : string) : M A := λ w, (Panic msg, w).

(** [if err != nil] on a call whose error the caller inspects. *)
Definition attempt {A} (m : M A) : M (A + error) := λ w,
  match m w with
  | (Ok a, w') => (Ok (inl a), w')
  | (Err e, w') => (Ok (inr e), w')
  | (Panic p, w') => (Panic p, w')
  end.

Definition gets {A} (f : World → A) : M A := λ w, (Ok (f w), w).
Definition modify (f : World → World) : M () := λ w, (Ok (), f w).

(** [if err := check; err != nil { return err }] for a pure check. *)
Definition check (c : option error) : M () :=
  match c with Some e => fail e | None => mret () end.

Section effects.
Context `{O : Oracle}.

(** Count an effect and learn its number. *)
Definition tick : M nat := λ w, (Ok (w_step w), set_step (S (w_step w)) w).

Definition now : M Time := n ← tick; mret (o_now n).

(** One call to a backend, with its effect [body] run as the [n]-th effect.  A
    failing call returns an error, after its effect or instead of it. *)
Definition backend {A} (body : nat → M A) : M A := λ w,
  let n := w_step w in
  let w1 := set_step (S n) w in
  match o_fault n with
  | None => body n w1
  | Some (msg, applied) => (Err (EOther msg), if applied : bool then (body n w1).2 else w1)
  end.

(** [rand.Read] of a fresh buffer. *)
Definition rand_Read (k : nat) : M (list ascii) := backend (λ n, mret (o_rand n k)).

(** A database transaction: its writes to the tables are published by COMMIT, and
    undone when the body fails.  No other session runs in between. *)
Definition transaction {A} (commit_err : error → error) (m : M A) : M A := λ w,
  match m w with
  | (Ok a, w') =>
      (r ← attempt (backend (λ _, modify (upd_db (λ _, w_db w'))));
       match r with
       | inl _ => mret a
       | inr e => fail (commit_err e)
       end) (upd_db (λ _, w_db w) w')
  | (r, w') => (r, upd_db (λ _, w_db w) w')
  end.

(** The keys of a Go map, in the order [range] visits them. *)
Definition range_keys {V} (m : gmap UUID V) : M (list UUID) :=
  n ← tick; mret (o_range n (map_to_list m).*1).
End effects.

(** * Reasoning *)

(** [m] establishes [Q] of its outcome and final world from [P]. *)
Definition triple {A} (P : World → Prop) (m : M A) (Q : res A → World → Prop) : Prop :=
  ∀ w, P w → Q (m w).1 (m w).2.

(** [m] keeps the invariant [I], whatever its outcome. *)
Definition preserves {A} (I : World → Prop) (m : M A) : Prop := ∀ w, I w → I (m w).2.

(** [m] leaves the part [f] of the world as it is. *)
Definition frames {A B} (f : World → B) (m : M A) : Prop := ∀ w, f (m w).2 = f w.

(** The tables, apart from which the database holds nothing. *)
Abbreviation w_links w := (DB.links (w_db w)).
Abbreviation w_clicks w := (DB.clicks (w_db w)).

Create HintDb preserves.
Create HintDb frames.

Section preserves.
Context (I : World → Prop).

Lemma preserves_ret {A} (a : A) : preserves I (mret a).
Proof. by intros w. Qed.

Lemma preserves_fail {A} e : preserves I (@fail A e).
Proof. by intros w. Qed.

Lemma preserves_panic {A} e : preserves I (@panic A e).
Proof. by intros w. Qed.

Lemma preserves_gets {A} (f : World → A) : preserves I (gets f).
Proof. by intros w. Qed.

Lemma preserves_check c : preserves I (check c).
Proof. intros w Hw. by destruct c. Qed.

Lemma preserves_bind {A B} (m : M A) (k : A → M B) :
  preserves I m → (∀ a, preserves I (k a)) → preserves I (m ≫= k).
Proof.
  intros Hm Hk w Hw. unfold mbind, M_bind. specialize (Hm w Hw).
  destruct (m w) as [[a|e|p] w']; simpl in *; [by apply Hk | done..].
Qed.

(** The rule of sequencing at one world, when the continuation needs to know what
    the first computation returned. *)
Lemma bind_world {A B} (m : M A) (k : A → M B) w :
  I (m w).2 → (∀ a w1, m w = (Ok a, w1) → I (k a w1).2) → I ((m ≫= k) w).2.
Proof.
  intros Hm Hk. unfold mbind, M_bind. destruct (m w) as [[a|e|p] w1]; simpl in *; auto.
Qed.

Lemma preserves_attempt {A} (m : M A) : preserves I m → preserves I (attempt m).
Proof.
  intros Hm w Hw. unfold attempt. specialize (Hm w Hw). by destruct (m w) as [[a|e|p] w'].
Qed.

Lemma preserves_modify f : (∀ w, I w → I (f w)) → preserves I (modify f).
Proof. intros Hf w. apply Hf. Qed.

Context `{O : Oracle} (Hstep : ∀ n w, I w → I (set_step n w)).

Lemma preserves_tick : preserves I tick.
Proof. intros w Hw. by apply Hstep. Qed.

Lemma preserves_now : preserves I now.
Proof. apply preserves_bind; [apply preserves_tick | intros; apply preserves_ret]. Qed.

Lemma preserves_backend {A} (body : nat → M A) :
  (∀ n, preserves I (body n)) → preserves I (backend body).
Proof.
  intros Hb w Hw. unfold backend. specialize (Hstep (S (w_step w)) w Hw).
  destruct (o_fault (w_step w)) as [[msg [|]]|]; simpl; try done; by apply Hb.
Qed.

Lemma preserves_rand_Read k : preserves I (rand_Read k).
Proof. apply preserves_backend. intros; apply preserves_ret. Qed.
End preserves.

#[export] Hint Resolve preserves_ret preserves_fail preserves_panic preserves_gets preserves_check
  preserves_bind preserves_attempt preserves_modify preserves_tick preserves_now
  preserves_backend preserves_rand_Read : preserves.

(** A transaction keeps an invariant of the tables its body keeps. *)
Lemma preserves_transaction `{O : Oracle} (J : DB.t → Prop) ce {A} (m : M A) :
  preserves (λ w, J (w_db w)) m → preserves (λ w, J (w_db w)) (transaction ce m).
Proof.
  intros Hm w Hw. unfold transaction. specialize (Hm w Hw).
  destruct (m w) as [[a|e|p] w']; simpl in *; [|done..].
  unfold mbind, M_bind, attempt, backend, modify.
  by destruct (o_fault _) as [[? [|]]|].
Qed.

#[export] Hint Resolve preserves_transaction : preserves.

(** A transaction keeps what its body keeps of the rest of the world. *)
Lemma preserves_transaction_rest `{O : Oracle} (I : World → Prop) ce {A} (m : M A) :
  (∀ d w, I w → I (upd_db d w)) → (∀ n w, I w → I (set_step n w)) →
  preserves I m → preserves I (transaction ce m).
Proof.
  intros Hdb Hstep Hm w Hw. unfold transaction. specialize (Hm w Hw).
  destruct (m w) as [[a|e|p] w'] eqn:E; simpl in *; [|by apply Hdb..].
  unfold mbind, M_bind, attempt, backend, modify. simpl.
  destruct (o_fault _) as [[? [|]]|]; simpl; auto.
Qed.

(** Split the computation of a goal [preserves I m] down to its statements. *)
Ltac preserve :=
  repeat first
    [ solve [eauto 2 with preserves]
    | match goal with |- ∀ _, _ => intro end
    | simple apply preserves_bind
    | simple apply preserves_attempt
    | simple apply preserves_backend
    | progress case_match
    | simple apply preserves_modify ].

(** ** Computations that only consume effects *)

(** Only the effect counter moves. *)
Definition reads {A} (m : M A) : Prop :=
  ∀ w, ∃ n, (w_step w ≤ n)%nat ∧ (m w).2 = set_step n w.

Create HintDb reads.

Section reads.
Context `{O : Oracle}.

Lemma reads_self {A} (r : World → res A) : reads (λ w, (r w, w)).
Proof. intros w. exists (w_step w). by destruct w. Qed.

Lemma reads_ret {A} (a : A) : reads (mret a).
Proof. apply reads_self. Qed.

Lemma reads_fail {A} e : reads (@fail A e).
Proof. apply reads_self. Qed.

Lemma reads_gets {A} (f : World → A) : reads (gets f).
Proof. apply reads_self. Qed.

Lemma reads_check c : reads (check c).
Proof. destruct c; [apply reads_fail | apply reads_ret]. Qed.

Lemma reads_bind {A B} (m : M A) (k : A → M B) :
  reads m → (∀ a, reads (k a)) → reads (m ≫= k).
Proof.
  intros Hm Hk w. unfold mbind, M_bind. destruct (Hm w) as (n & Hn & E).
  destruct (m w) as [[a|e|p] w1]; simpl in *; subst w1; [|by eauto..].
  destruct (Hk a (set_step n w)) as (n' & Hn' & ->). exists n'. simpl in *. split; [lia | done].
Qed.

Lemma reads_tick : reads tick.
Proof. intros w. exists (S (w_step w)). split; [lia | done]. Qed.

Lemma reads_now : reads now.
Proof. apply reads_bind; [apply reads_tick | intros; apply reads_ret]. Qed.

Lemma reads_attempt {A} (m : M A) : reads m → reads (attempt m).
Proof. intros Hm w. unfold attempt. specialize (Hm w). by destruct (m w) as [[a|e|p] w1]. Qed.

Lemma reads_backend {A} (body : nat → M A) : (∀ n, reads (body n)) → reads (backend body).
Proof.
  intros Hb w. unfold backend.
  assert (Hb' : ∃ n, (w_step w ≤ n)%nat ∧ (body (w_step w) (set_step (S (w_step w)) w)).2 = set_step n w).
  { destruct (Hb (w_step w) (set_step (S (w_step w)) w)) as (n & Hn & ->).
    exists n. simpl in Hn. split; [lia | done]. }
  destruct (o_fault _) as [[msg [|]]|]; simpl; try done.
  exists (S (w_step w)). split; [lia | done].
Qed.
End reads.

#[export] Hint Resolve reads_ret reads_fail reads_gets reads_check reads_tick reads_now : reads.

Lemma reads_out {A} (m : M A) w r w' :
  reads m → m w = (r, w') → ∃ n, (w_step w ≤ n)%nat ∧ w' = set_step n w.
Proof. intros H E. destruct (H w) as (n & ? & Hn). rewrite E in Hn. eauto. Qed.

Ltac reads :=
  repeat first
    [ solve [eauto 2 with reads]
    | match goal with |- ∀ _, _ => intro end
    | simple apply reads_bind
    | simple apply reads_attempt
    | simple apply reads_backend
    | progress case_match ].

(** ** Computations that never panic *)

Definition no_panic {A} (m : M A) : Prop := ∀ w p w', m w ≠ (Panic p, w').

Create HintDb no_panic.

Section no_panic.
Context `{O : Oracle}.

Lemma no_panic_ret {A} (a : A) : no_panic (mret a).
Proof. by intros w p w'. Qed.

Lemma no_panic_fail {A} e : no_panic (@fail A e).
Proof. by intros w p w'. Qed.

Lemma no_panic_gets {A} (f : World → A) : no_panic (gets f).
Proof. by intros w p w'. Qed.

Lemma no_panic_check c : no_panic (check c).
Proof. by destruct c; intros w p w'. Qed.

Lemma no_panic_modify f : no_panic (modify f).
Proof. by intros w p w'. Qed.

Lemma no_panic_tick : no_panic tick.
Proof. by intros w p w'. Qed.

Lemma no_panic_now : no_panic now.
Proof. by intros w p w'. Qed.

Lemma no_panic_bind {A B} (m : M A) (k : A → M B) :
  no_panic m → (∀ a, no_panic (k a)) → no_panic (m ≫= k).
Proof.
  intros Hm Hk w p w'. unfold mbind, M_bind.
  destruct (m w) as [[a|e|p'] w1] eqn:E; [by apply Hk | done | by apply Hm in E].
Qed.

Lemma no_panic_attempt {A} (m : M A) : no_panic m → no_panic (attempt m).
Proof.
  intros Hm w p w'. unfold attempt. destruct (m w) as [[a|e|p'] w1] eqn:E; [done..|by apply Hm in E].
Qed.

Lemma no_panic_backend {A} (body : nat → M A) : (∀ n, no_panic (body n)) → no_panic (backend body).
Proof. intros Hb w p w'. unfold backend. destruct (o_fault _) as [[? ?]|]; [done | apply Hb]. Qed.

Lemma no_panic_transaction {A} ce (m : M A) : no_panic m → no_panic (transaction ce m).
Proof.
  intros Hm w p w'. unfold transaction. destruct (m w) as [[a|e|p'] w1] eqn:E; [|done|by apply Hm in E].
  apply no_panic_bind.
  - apply no_panic_attempt, no_panic_backend. intros. apply no_panic_modify.
  - intros []; [apply no_panic_ret | apply no_panic_fail].
Qed.
End no_panic.

#[export] Hint Resolve no_panic_ret no_panic_fail no_panic_gets no_panic_check no_panic_modify
  no_panic_tick no_panic_now no_panic_transaction : no_panic.

Ltac no_panic :=
  repeat first
    [ solve [eauto 2 with no_panic]
    | match goal with |- ∀ _, _ => intro end
    | simple apply no_panic_bind
    | simple apply no_panic_attempt
    | simple apply no_panic_backend
    | simple apply no_panic_transaction
    | progress case_match ].

(** ** Inversion of a computation that returned *)

Lemma bind_Ok {A B} (m : M A) (k : A → M B) w b w' :
  (m ≫= k) w = (Ok b, w') → ∃ a w1, m w = (Ok a, w1) ∧ k a w1 = (Ok b, w').
Proof. unfold mbind, M_bind. destruct (m w) as [[a|e|p] w1]; intros; simplify_eq; eauto. Qed.

Lemma bind_Err {A B} (m : M A) (k : A → M B) w e w' :
  (m ≫= k) w = (Err e, w') →
  m w = (Err e, w') ∨ ∃ a w1, m w = (Ok a, w1) ∧ k a w1 = (Err e, w').
Proof. unfold mbind, M_bind. destruct (m w) as [[a|e'|p] w1]; intros; simplify_eq; eauto. Qed.

Lemma attempt_Ok {A} (m : M A) w r w' :
  attempt m w = (Ok r, w') →
  match r with inl a => m w = (Ok a, w') | inr e => m w = (Err e, w') end.
Proof. unfold attempt. destruct (m w) as [[a|e|p] w1]; intros; by simplify_eq. Qed.

(** Run the first computation of a sequence. *)
Lemma bind_run {A B} (m : M A) (k : A → M B) w a w1 : m w = (Ok a, w1) → (m ≫= k) w = k a w1.
Proof. intros E. unfold mbind, M_bind. by rewrite E. Qed.

Lemma gets_bind {A B} (f : World → A) (k : A → M B) w : (gets f ≫= k) w = k (f w) w.
Proof. done. Qed.

Lemma modify_bind {B} f (k : () → M B) w : (modify f ≫= k) w = k () (f w).
Proof. done. Qed.

Lemma range_keys_run `{O : Oracle} {V} (m : gmap UUID V) w :
  range_keys m w = (Ok (o_range (w_step w) (map_to_list m).*1), set_step (S (w_step w)) w).
Proof. done. Qed.

(** Sequencing after a call whose error is inspected, as one match. *)
Lemma attempt_bind {A B} (m : M A) (k : A + error → M B) w :
  (attempt m ≫= k) w =
  match m w with
  | (Ok a, w1) => k (inl a) w1
  | (Err e, w1) => k (inr e) w1
  | (Panic p, w1) => (Panic p, w1)
  end.
Proof. unfold mbind, M_bind, attempt. by destruct (m w) as [[a|e|p] w1]. Qed.

(** When neither the call's value nor its error matters. *)
Lemma attempt_then {A B} (m : M A) (k : M B) w :
  no_panic m → (attempt m;; k) w = k (m w).2.
Proof.
  intros Hnp. rewrite attempt_bind. destruct (m w) as [[a|e|p] w1] eqn:E; [done..|].
  by apply Hnp in E.
Qed.

Lemma attempt_Err {A} (m : M A) w e w' : attempt m w ≠ (Err e, w').
Proof. unfold attempt. by destruct (m w) as [[a|e'|p] w1]. Qed.

Section inversion.
Context `{O : Oracle}.

Lemma backend_Ok {A} (body : nat → M A) w a w' :
  backend body w = (Ok a, w') → body (w_step w) (set_step (S (w_step w)) w) = (Ok a, w').
Proof. unfold backend. by destruct (o_fault _) as [[??]|]. Qed.

(** The error of a backend call is the one of a fault, or of its statement. *)
Lemma backend_Err {A} (body : nat → M A) w e w' :
  backend body w = (Err e, w') →
  (∃ msg applied, o_fault (w_step w) = Some (msg, applied) ∧ e = EOther msg ∧
     w' = if applied : bool then (body (w_step w) (set_step (S (w_step w)) w)).2
          else set_step (S (w_step w)) w)
  ∨ body (w_step w) (set_step (S (w_step w)) w) = (Err e, w').
Proof.
  unfold backend. destruct (o_fault _) as [[msg ap]|]; intros; simplify_eq; [left; eauto | by right].
Qed.

Lemma transaction_Ok {A} ce (m : M A) w a w' :
  transaction ce m w = (Ok a, w') → ∃ w1, m w = (Ok a, w1) ∧ w' = set_step (S (w_step w1)) w1.
Proof.
  unfold transaction. destruct (m w) as [[a'|e|p] w1]; [|done..].
  unfold mbind, M_bind, attempt, backend, modify. simpl.
  destruct (o_fault _) as [[msg [|]]|]; intros H; [done..|].
  unfold mret, M_ret in H. simplify_eq. exists w1. by destruct w1.
Qed.

(** A transaction leaves the tables as they were, or as its body left them. *)
Lemma transaction_db {A} ce (m : M A) w :
  w_db (transaction ce m w).2 = w_db w
  ∨ ∃ a w1, m w = (Ok a, w1) ∧ w_db (transaction ce m w).2 = w_db w1.
Proof.
  unfold transaction. destruct (m w) as [[a|e|p] w1] eqn:E; simpl; auto.
  unfold mbind, M_bind, attempt, backend, modify. simpl.
  destruct (o_fault _) as [[msg [|]]|]; simpl; eauto.
Qed.
End inversion.

(** Take a hypothesis [m w = (Ok a, w')] apart, down to its backend calls. *)
Ltac inv_ok H :=
  lazymatch type of H with
  | mbind _ _ _ = (Ok _, _) =>
      let a := fresh "a" in let w := fresh "w" in let H1 := fresh "H" in
      apply bind_Ok in H as (a & w & H1 & H); inv_ok H1; simpl in H; inv_ok H
  | attempt _ _ = (Ok _, _) => apply attempt_Ok in H
  | backend _ _ = (Ok _, _) => apply backend_Ok in H; simpl in H; inv_ok H
  | gets _ _ = (Ok _, _) => unfold gets in H; simplify_eq/=
  | modify _ _ = (Ok _, _) => unfold modify in H; simplify_eq/=
  | mret _ _ = (Ok _, _) => unfold mret, M_ret in H; simplify_eq/=
  | check _ _ = (Ok _, _) => unfold check in H
  | fail _ _ = (Ok _, _) => discriminate H
  | panic _ _ = (Ok _, _) => discriminate H
  | _ => idtac
  end.

Lemma frames_preserves {A B} (f : World → B) (m : M A) :
  frames f m ↔ ∀ b, preserves (λ w, f w = b) m.
Proof.
  split; [intros H b w <-; apply H | intros H w; by apply H].
Qed.
