(* ===== verification/Schema.v ===== *)
(** The schema invariant of the database (migrations/000002 to 000005): what the
    primary keys, foreign keys and unique indexes promise, and the counter
    invariant the repositories keep on top of it.

    [schema_ok] is the invariant every statement of the repositories preserves;
    this file proves the facts on tables those proofs share. *)
From stdpp Require Import prelude gmap strings list.
From S2P Require Import Prelude GoStd Domain World.

Local Open Scope Z_scope.

(** What a TEXT column, or a parameter of a text type, takes: UTF-8 without NUL bytes. *)
Definition pg_text (s : string) : bool :=
  ValidString s && forallb (λ c, negb (byte_val c =? 0)) (bytes_of s).

Lemma pg_text_valid s : pg_text s = true → ValidString s = true.
Proof. unfold pg_text. by intros [? _]%andb_true_iff. Qed.

(** The clicks of a link: the rows whose foreign key it is. *)
Definition clicks_of (id : UUID) (clicks : list Click.t) : list Click.t :=
  filter (λ c, Click.LinkID c = id) clicks.

Definition count_of (id : UUID) (clicks : list Click.t) : Z := Z.of_nat (length (clicks_of id clicks)).

Record schema_ok (d : DB.t) : Prop := {
  (** primary key *)
  ok_key id l : DB.links d !! id = Some l → Link.ID l = id;
  (** links_code_live_idx *)
  ok_code i j li lj :
    DB.links d !! i = Some li → DB.links d !! j = Some lj →
    Link.live li = true → Link.live lj = true → Link.Code li = Link.Code lj → i = j;
  (** links.tenant_id REFERENCES tenants(id) *)
  ok_tenant id l : DB.links d !! id = Some l → is_Some (DB.tenants d !! Link.TenantID l);
  (** clicks.link_id REFERENCES links(id) *)
  ok_click c : c ∈ DB.clicks d → is_Some (DB.links d !! Click.LinkID c);
  (** click_count counts the clicks *)
  ok_count id l :
    DB.links d !! id = Some l → Link.ClickCount l = count_of id (DB.clicks d);
  (** the text columns of links *)
  ok_text id l :
    DB.links d !! id = Some l → pg_text (Link.Code l) = true ∧ pg_text (Link.TargetURL l) = true;
}.

(** The invariant as a predicate of the world. *)
Definition schema (w : World) : Prop := schema_ok (w_db w).

Lemma schema_set_step n w : schema w → schema (set_step n w).
Proof. done. Qed.

#[export] Hint Resolve schema_set_step : preserves.

Lemma schema_empty : schema_ok DB.empty.
Proof. split; intros *; simpl; rewrite ?lookup_empty; try done. by rewrite list_elem_of_In. Qed.

(** * Counting clicks *)

Lemma count_of_app id a b : count_of id (a ++ b) = count_of id a + count_of id b.
Proof. unfold count_of, clicks_of. rewrite filter_app, length_app. lia. Qed.

Lemma count_of_cons id c l :
  count_of id (c :: l) = (if decide (Click.LinkID c = id) then 1 else 0) + count_of id l.
Proof. unfold count_of, clicks_of. rewrite filter_cons. case_decide; simpl; lia. Qed.

Lemma count_of_nonneg id l : 0 <= count_of id l.
Proof. unfold count_of. lia. Qed.

Lemma count_of_zero id l : count_of id l = 0 ↔ ∀ c, c ∈ l → Click.LinkID c ≠ id.
Proof.
  induction l as [|c l IH].
  - split; [intros _ c Hc; by apply not_elem_of_nil in Hc | done].
  - rewrite count_of_cons. pose proof (count_of_nonneg id l). setoid_rewrite elem_of_cons.
    case_decide; split; intros H'.
    + lia.
    + exfalso. by apply (H' c); [left|].
    + intros c' [->|Hc']; [done|]. apply IH; [lia|done].
    + assert (count_of id l = 0); [|lia]. apply IH. auto.
Qed.

Lemma count_of_nonzero id l : count_of id l ≠ 0 → ∃ c, c ∈ l ∧ Click.LinkID c = id.
Proof.
  unfold count_of. destruct (clicks_of id l) as [|c cs] eqn:E; [done|]. intros _.
  assert (Hc : c ∈ clicks_of id l) by (rewrite E; by left). apply list_elem_of_filter in Hc as [??]. eauto.
Qed.

(** Deleting the clicks of other links does not change a count. *)
Lemma count_of_filter id (P : UUID → Prop) `{!∀ c, Decision (P (Click.LinkID c))} l :
  P id → count_of id (filter (λ c, P (Click.LinkID c)) l) = count_of id l.
Proof.
  intros HP. induction l as [|c l IH]; [done|].
  rewrite filter_cons. destruct (decide (P (Click.LinkID c))) as [Hd|Hd];
    rewrite !count_of_cons, IH; [done|].
  case_decide; [|done]. subst. by destruct Hd.
Qed.

(** A click can only belong to an existing link: a new id has no clicks. *)
Lemma fresh_no_clicks d id :
  schema_ok d → DB.links d !! id = None → count_of id (DB.clicks d) = 0.
Proof.
  intros Hok Hid. apply count_of_zero. intros c Hc <-.
  apply (ok_click d Hok) in Hc as [l Hl]. congruence.
Qed.

(** * Updating one row

    A statement that rewrites a row keeps the invariant when it keeps the key,
    the tenant and the count, and makes no live duplicate of the code. *)
Lemma schema_update d id row row' :
  schema_ok d → DB.links d !! id = Some row →
  Link.ID row' = Link.ID row → Link.TenantID row' = Link.TenantID row →
  Link.ClickCount row' = Link.ClickCount row →
  pg_text (Link.Code row') = true ∧ pg_text (Link.TargetURL row') = true →
  (Link.live row' = true → ∀ j lj, DB.links d !! j = Some lj → Link.live lj = true →
     Link.Code lj = Link.Code row' → j = id) →
  schema_ok (DB.with_links <[id := row']> d).
Proof.
  intros Hok Hrow Hid Ht Hc Hx Hcode. split; simpl.
  - intros i l. rewrite lookup_insert. case_decide; intros; simplify_eq.
    + rewrite Hid. by apply (ok_key d Hok).
    + by apply (ok_key d Hok).
  - intros i j li lj. rewrite !lookup_insert. repeat case_decide; intros; simplify_eq; try done.
    + symmetry. eapply Hcode; eauto.
    + eapply Hcode; eauto.
    + eapply (ok_code d Hok); eauto.
  - intros i l. rewrite lookup_insert. case_decide; intros; simplify_eq.
    + rewrite Ht. by eapply (ok_tenant d Hok).
    + by apply (ok_tenant d Hok i).
  - intros c Hin. apply (ok_click d Hok) in Hin as [l Hl].
    rewrite lookup_insert. case_decide; eauto.
  - intros i l. rewrite lookup_insert. case_decide; intros; simplify_eq.
    + rewrite Hc. by apply (ok_count d Hok).
    + by apply (ok_count d Hok).
  - intros i l. rewrite lookup_insert. case_decide; intros; simplify_eq; [done|]. by apply (ok_text d Hok i).
Qed.

(** Inserting a new row with no clicks yet. *)
Lemma schema_insert d id row :
  schema_ok d → DB.links d !! id = None →
  Link.ID row = id → is_Some (DB.tenants d !! Link.TenantID row) → Link.ClickCount row = 0 →
  pg_text (Link.Code row) = true ∧ pg_text (Link.TargetURL row) = true →
  (∀ j lj, DB.links d !! j = Some lj → Link.live lj = true → Link.Code lj ≠ Link.Code row) →
  schema_ok (DB.with_links <[id := row]> d).
Proof.
  intros Hok Hnone Hid Ht Hc Hx Hcode. split; simpl.
  - intros i l. rewrite lookup_insert. case_decide; intros; simplify_eq; [done|].
    by apply (ok_key d Hok).
  - intros i j li lj. rewrite !lookup_insert. repeat case_decide; intros; simplify_eq; try done.
    + exfalso. by eapply (Hcode j lj).
    + exfalso. by eapply (Hcode i li).
    + eapply (ok_code d Hok); eauto.
  - intros i l. rewrite lookup_insert. case_decide; intros; simplify_eq; [done|].
    by apply (ok_tenant d Hok i).
  - intros c Hin. apply (ok_click d Hok) in Hin as [l Hl].
    rewrite lookup_insert. case_decide; eauto.
  - intros i l. rewrite lookup_insert. case_decide; intros; simplify_eq.
    + rewrite Hc. symmetry. by apply fresh_no_clicks.
    + by apply (ok_count d Hok).
  - intros i l. rewrite lookup_insert. case_decide; intros; simplify_eq; [done|]. by apply (ok_text d Hok i).
Qed.

(** Deleting rows, with the clicks that reference them. *)
Lemma schema_delete d (dead : gmap UUID Link.t) :
  schema_ok d →
  schema_ok (DB.with_clicks (filter (λ c, dead !! Click.LinkID c = None))
               (DB.with_links (λ links, links ∖ dead) d)).
Proof.
  intros Hok. split; simpl.
  - intros id l [H _]%lookup_difference_Some. by apply (ok_key d Hok).
  - intros i j li lj [Hi _]%lookup_difference_Some [Hj _]%lookup_difference_Some.
    by eapply (ok_code d Hok).
  - intros id l [H _]%lookup_difference_Some. by apply (ok_tenant d Hok id).
  - intros c [Hd Hin]%list_elem_of_filter. apply (ok_click d Hok) in Hin as [l Hl].
    exists l. by apply lookup_difference_Some.
  - intros id l [H Hd]%lookup_difference_Some. rewrite (ok_count d Hok id l H).
    symmetry. by apply (count_of_filter id (λ i, dead !! i = None)).
  - intros id l [H _]%lookup_difference_Some. by apply (ok_text d Hok id).
Qed.
