(* ===== verification/LinkRepo.v ===== *)
(** The links table and LinkRepository (internal/repository/link.go,
    repository.go; migrations/000003_links.up.sql).

    Each SQL statement is a function on the table, run as one backend call; the
    constraints the statements rely on (the primary key, the partial unique
    index on live codes, the foreign key on tenants, ON DELETE CASCADE) are the
    ones of the migration.  A text parameter that a client controls is checked to be
    UTF-8, as the server does before it looks at a constraint; the other text
    parameters of the repositories are constants and hex digests. *)
From stdpp Require Import prelude gmap strings list sorting.
From S2P Require Import Prelude GoStd Domain World Schema.

Local Open Scope Z_scope.

(** * SQL values and constraints *)

(** [a < b] of a nullable column: NULL is not true. *)
Definition null_lt (a : option Time) (b : Time) : bool :=
  match a with Some x => x <? b | None => false end.

Definition unique_violation : error := EPg "23505" "duplicate key value violates unique constraint".
Definition fk_violation : error := EPg "23503" "insert or update on table violates foreign key constraint".

Definition invalid_text : error := EPg "22021" "invalid byte sequence for encoding".

(** [errors.As(err, &pgErr) && pgErr.Code == "23505"]. *)
Fixpoint isUniqueViolation (e : error) : bool :=
  match e with
  | EPg code _ => String.eqb code "23505"
  | EWrap _ e _ => isUniqueViolation e
  | _ => false
  end.

(** Would a live row with this code, other than row [self], violate
    links_code_live_idx? *)
Definition code_taken (self : option UUID) (code : string) (links : gmap UUID Link.t) : bool :=
  bool_decide (map_Exists (λ id l, Link.Code l = code ∧ Link.live l = true ∧ Some id ≠ self) links).

(** The first row of a SELECT of the rows satisfying [f]. *)
Definition select_row (f : Link.t → bool) (links : gmap UUID Link.t) : option Link.t :=
  snd <$> head (filter (λ p, f p.2 = true) (map_to_list links)).

(** The rows of a SELECT, in table order. *)
Definition select_rows (f : Link.t → bool) (links : gmap UUID Link.t) : list Link.t :=
  filter (λ l, f l = true) (map_to_list links).*2.

(** ORDER BY created_at DESC. *)
Definition newer (a b : Link.t) : Prop := Link.CreatedAt b ≤ Link.CreatedAt a.

#[export] Instance newer_dec : RelDecision newer.
Proof. intros a b. unfold newer. apply _. Defined.

#[export] Instance newer_total : Total newer.
Proof. intros a b. unfold newer. lia. Qed.

#[export] Instance newer_transitive : Transitive newer.
Proof. intros a b c. unfold newer. lia. Qed.

Definition by_id (tenantID id : UUID) (l : Link.t) : bool :=
  bool_decide (Link.ID l = id) && bool_decide (Link.TenantID l = tenantID) && Link.live l.

Definition by_code (code : string) (l : Link.t) : bool :=
  bool_decide (Link.Code l = code) && Link.live l.

Definition of_tenant (tenantID : UUID) (l : Link.t) : bool :=
  bool_decide (Link.TenantID l = tenantID) && Link.live l.

Definition purgeable (tenantID : UUID) (cutoff : Time) (l : Link.t) : bool :=
  bool_decide (Link.TenantID l = tenantID)
  && (null_lt (Link.ExpiresAt l) cutoff || null_lt (Link.DeletedAt l) cutoff).

(** * The statements *)

Section statements.
Context `{O : Oracle}.

(** INSERT INTO links (tenant_id, code, target_url, redirect_type, expires_at,
    max_clicks) VALUES ($1, ..., $6) RETURNING ... *)
Definition insert_row (l : Link.t) (n : nat) : Link.t :=
  {| Link.ID := o_uuid n;
     Link.TenantID := Link.TenantID l;
     Link.Code := Link.Code l;
     Link.TargetURL := Link.TargetURL l;
     Link.RedirectType := Link.RedirectType l;
     Link.ExpiresAt := o_timestamptz <$> Link.ExpiresAt l;
     Link.MaxClicks := Link.MaxClicks l;
     Link.ClickCount := 0;
     Link.CreatedAt := o_now n;
     Link.UpdatedAt := o_now n;
     Link.DeletedAt := None |}.

Definition insert_link (l : Link.t) (n : nat) : M Link.t :=
  d ← gets w_db;
  let row := insert_row l n in
  if negb (pg_text (Link.Code l) && pg_text (Link.TargetURL l)) then fail invalid_text
  else if bool_decide (is_Some (DB.links d !! Link.ID row)) || code_taken None (Link.Code row) (DB.links d)
  then fail unique_violation
  else if bool_decide (DB.tenants d !! Link.TenantID row = None) then fail fk_violation
  else modify (upd_db (DB.with_links <[Link.ID row := row]>));; mret row.

(** UPDATE links SET code = $3, target_url = $4, redirect_type = $5, expires_at =
    $6, max_clicks = $7, updated_at = now() WHERE id = $1 AND tenant_id = $2 AND
    deleted_at IS NULL RETURNING ... *)
Definition update_row (l row : Link.t) (n : nat) : Link.t :=
  {| Link.ID := Link.ID row;
     Link.TenantID := Link.TenantID row;
     Link.Code := Link.Code l;
     Link.TargetURL := Link.TargetURL l;
     Link.RedirectType := Link.RedirectType l;
     Link.ExpiresAt := o_timestamptz <$> Link.ExpiresAt l;
     Link.MaxClicks := Link.MaxClicks l;
     Link.ClickCount := Link.ClickCount row;
     Link.CreatedAt := Link.CreatedAt row;
     Link.UpdatedAt := o_now n;
     Link.DeletedAt := Link.DeletedAt row |}.

Definition update_link (l : Link.t) (n : nat) : M Link.t :=
  d ← gets w_db;
  if negb (pg_text (Link.Code l) && pg_text (Link.TargetURL l)) then fail invalid_text
  else match select_row (by_id (Link.TenantID l) (Link.ID l)) (DB.links d) with
  | None => fail ENoRows
  | Some row =>
      if code_taken (Some (Link.ID row)) (Link.Code l) (DB.links d) then fail unique_violation
      else let row := update_row l row n in
           modify (upd_db (DB.with_links <[Link.ID row := row]>));; mret row
  end.

(** UPDATE links SET deleted_at = now(), updated_at = now() WHERE id = $1 AND
    tenant_id = $2 AND deleted_at IS NULL: the number of rows. *)
Definition delete_row (row : Link.t) (n : nat) : Link.t :=
  {| Link.ID := Link.ID row;
     Link.TenantID := Link.TenantID row;
     Link.Code := Link.Code row;
     Link.TargetURL := Link.TargetURL row;
     Link.RedirectType := Link.RedirectType row;
     Link.ExpiresAt := Link.ExpiresAt row;
     Link.MaxClicks := Link.MaxClicks row;
     Link.ClickCount := Link.ClickCount row;
     Link.CreatedAt := Link.CreatedAt row;
     Link.UpdatedAt := o_now n;
     Link.DeletedAt := Some (o_now n) |}.

Definition soft_delete_link (tenantID id : UUID) (n : nat) : M Z :=
  d ← gets w_db;
  match select_row (by_id tenantID id) (DB.links d) with
  | None => mret 0
  | Some row =>
      let row := delete_row row n in
      modify (upd_db (DB.with_links <[Link.ID row := row]>));; mret 1
  end.

(** DELETE FROM links WHERE tenant_id = $1 AND (expires_at < $2 OR deleted_at <
    $2), with the clicks of the deleted links. *)
Definition purge_links (tenantID : UUID) (cutoff : Time) : M Z :=
  d ← gets w_db;
  let dead := filter (λ p, purgeable tenantID cutoff p.2 = true) (DB.links d) in
  modify (upd_db (λ d,
    DB.with_clicks (filter (λ c, dead !! Click.LinkID c = None))
      (DB.with_links (λ links, links ∖ dead) d)));;
  mret (Z.of_nat (size dead)).
End statements.

(** * Lookups *)

Lemma select_row_Some f links l :
  select_row f links = Some l → ∃ id, links !! id = Some l ∧ f l = true.
Proof.
  unfold select_row. intros ([id l'] & Hh & ->)%fmap_Some. simpl.
  apply head_Some_elem_of in Hh. apply list_elem_of_filter in Hh as [Hf Hin].
  exists id. split; [by apply elem_of_map_to_list | done].
Qed.

Lemma select_row_None f links :
  select_row f links = None ↔ ∀ id l, links !! id = Some l → f l = false.
Proof.
  unfold select_row. rewrite fmap_None, head_None. split.
  - intros Hnil id l Hl. apply not_true_iff_false. intros Hf.
    assert (Hin : (id, l) ∈ filter (λ p : UUID * Link.t, f p.2 = true) (map_to_list links)).
    { apply list_elem_of_filter. split; [done | by apply elem_of_map_to_list]. }
    rewrite Hnil in Hin. by apply not_elem_of_nil in Hin.
  - intros Hall. destruct (filter _ _) as [|[id l] t] eqn:E; [done|]. exfalso.
    assert (Hin : (id, l) ∈ filter (λ p : UUID * Link.t, f p.2 = true) (map_to_list links))
      by (rewrite E; by left).
    apply list_elem_of_filter in Hin as [Hf Hin]. apply elem_of_map_to_list in Hin.
    simpl in Hf. by rewrite (Hall id l Hin) in Hf.
Qed.

Lemma by_id_true t id l :
  by_id t id l = true ↔ Link.ID l = id ∧ Link.TenantID l = t ∧ Link.live l = true.
Proof. unfold by_id. rewrite !andb_true_iff, !bool_decide_eq_true. tauto. Qed.

Lemma by_code_true c l : by_code c l = true ↔ Link.Code l = c ∧ Link.live l = true.
Proof. unfold by_code. by rewrite andb_true_iff, bool_decide_eq_true. Qed.

Lemma of_tenant_true t l : of_tenant t l = true ↔ Link.TenantID l = t ∧ Link.live l = true.
Proof. unfold of_tenant. by rewrite andb_true_iff, bool_decide_eq_true. Qed.

(** The lookups by primary key and by live code, read off the table. *)
Lemma select_by_id d t id l :
  schema_ok d →
  select_row (by_id t id) (DB.links d) = Some l
  ↔ DB.links d !! id = Some l ∧ Link.TenantID l = t ∧ Link.live l = true.
Proof.
  intros Hok. split.
  - intros (i & Hl & (Hi & Ht & Hv)%by_id_true)%select_row_Some.
    pose proof (ok_key d Hok _ _ Hl). split_and!; congruence.
  - intros (Hl & Ht & Hv). destruct (select_row _ _) as [l'|] eqn:E.
    + apply select_row_Some in E as (i & Hl' & (Hi & _)%by_id_true).
      pose proof (ok_key d Hok _ _ Hl'). congruence.
    + pose proof (proj1 (select_row_None _ _) E _ _ Hl) as Hf.
      rewrite (proj2 (by_id_true t id l)) in Hf; [done|].
      split_and!; [by apply (ok_key d Hok) | done..].
Qed.

Lemma select_by_code d c l :
  schema_ok d →
  select_row (by_code c) (DB.links d) = Some l
  ↔ DB.links d !! Link.ID l = Some l ∧ Link.Code l = c ∧ Link.live l = true.
Proof.
  intros Hok. split.
  - intros (i & Hl & (Hc & Hv)%by_code_true)%select_row_Some.
    by rewrite (ok_key d Hok _ _ Hl).
  - intros (Hl & Hc & Hv). destruct (select_row _ _) as [l'|] eqn:E.
    + apply select_row_Some in E as (i & Hl' & (Hc' & Hv')%by_code_true).
      assert (Link.ID l = i) as <- by (eapply (ok_code d Hok); eauto; congruence). congruence.
    + pose proof (proj1 (select_row_None _ _) E _ _ Hl) as Hf.
      by rewrite (proj2 (by_code_true c l)) in Hf.
Qed.

Lemma code_taken_false self code links :
  code_taken self code links = false ↔
  ∀ id l, links !! id = Some l → Link.live l = true → Link.Code l = code → Some id = self.
Proof.
  unfold code_taken. rewrite bool_decide_eq_false, map_Exists_lookup. split.
  - intros H id l Hl Hv Hc. destruct (decide (Some id = self)); [done|].
    exfalso. apply H. by exists id, l.
  - intros H (id & l & Hl & Hc & Hv & Hne). by eapply Hne, H.
Qed.

(** * The statements keep the schema *)

Section preservation.
Context `{O : Oracle}.

Lemma insert_link_schema l n : preserves schema (insert_link l n).
Proof.
  intros w Hw. unfold insert_link, mbind, M_bind, gets, modify. simpl.
  case_match eqn:Ex; [done|]. case_match eqn:E; [done|]. case_match eqn:E'; [done|].
  apply orb_false_iff in E as [E1 E2]. apply bool_decide_eq_false, eq_None_not_Some in E1.
  apply bool_decide_eq_false in E'. apply negb_false_iff, andb_true_iff in Ex. simpl in *.
  apply schema_insert; try done.
  - by apply not_eq_None_Some.
  - intros j lj Hj Hv Hc. by eapply code_taken_false in E2.
Qed.

Lemma update_link_schema l n : preserves schema (update_link l n).
Proof.
  intros w Hw. unfold update_link, mbind, M_bind, gets, modify. simpl.
  case_match eqn:Ex; [done|]. apply negb_false_iff, andb_true_iff in Ex.
  destruct (select_row _ _) as [row|] eqn:E; [|done].
  apply select_by_id in E as (Hrow & Ht & Hv); [|done].
  case_match eqn:Ec; [done|]. simpl. unfold schema. simpl.
  pose proof (ok_key _ Hw _ _ Hrow) as Hk. rewrite Hk.
  eapply schema_update; eauto.
  intros _ j lj Hj Hvj Hcj. eapply code_taken_false in Ec; eauto. congruence.
Qed.

Lemma soft_delete_link_schema t id n : preserves schema (soft_delete_link t id n).
Proof.
  intros w Hw. unfold soft_delete_link, mbind, M_bind, gets, modify. simpl.
  destruct (select_row _ _) as [row|] eqn:E; [|done].
  apply select_by_id in E as (Hrow & Ht & Hv); [|done].
  simpl. unfold schema. simpl. rewrite (ok_key _ Hw _ _ Hrow).
  eapply schema_update; try done. by apply (ok_text _ Hw _ _ Hrow).
Qed.

Lemma purge_links_schema t cutoff : preserves schema (purge_links t cutoff).
Proof. intros w Hw. unfold purge_links, mbind, M_bind, gets, modify. by apply schema_delete. Qed.
End preservation.

#[export] Hint Resolve insert_link_schema update_link_schema soft_delete_link_schema
  purge_links_schema : preserves.

(** * The repository *)

Module LinkRepository.
Section repository.
Context `{O : Oracle}.

Definition Create (l : Link.t) : M Link.t :=
  r ← attempt (backend (insert_link l));
  match r with
  | inl created => mret created
  | inr err =>
      if isUniqueViolation err then fail (ESentinel ErrConflict)
      else fail (errorf "insert link" err)
  end.

(** [QueryRow(...).Scan] of an optional row; [texts] are the text parameters. *)
Definition query_row (texts : list string) (f : Link.t → bool) : M Link.t :=
  backend (λ _, d ← gets w_db;
    if negb (forallb pg_text texts) then fail invalid_text
    else match select_row f (DB.links d) with Some l => mret l | None => fail ENoRows end).

(** The error handling shared by the two single-row reads. *)
Definition one_row (what : string) (q : M Link.t) : M Link.t :=
  r ← attempt q;
  match r with
  | inl l => mret l
  | inr err => if IsNoRows err then fail (ESentinel ErrNotFound) else fail (errorf what err)
  end.

Definition GetByIDForTenant (tenantID id : UUID) : M Link.t :=
  one_row "select link" (query_row [] (by_id tenantID id)).

Definition GetByCode (code : string) : M Link.t :=
  one_row "select link by code" (query_row [code] (by_code code)).

Definition ListByTenant (tenantID : UUID) (limit offset : Z) : M (list Link.t) :=
  r ← attempt (backend (λ _, d ← gets w_db;
    if (limit <? 0) || (offset <? 0) then fail (EPg "2201W" "LIMIT must not be negative")
    else mret (take (Z.to_nat limit) (drop (Z.to_nat offset)
           (merge_sort newer (select_rows (of_tenant tenantID) (DB.links d)))))));
  match r with
  | inl links => mret links
  | inr err => fail (errorf "list links" err)
  end.

Definition Update (l : Link.t) : M Link.t :=
  r ← attempt (backend (update_link l));
  match r with
  | inl updated => mret updated
  | inr err =>
      if IsNoRows err then fail (ESentinel ErrNotFound)
      else if isUniqueViolation err then fail (ESentinel ErrConflict)
      else fail (errorf "update link" err)
  end.

Definition SoftDelete (tenantID id : UUID) : M () :=
  r ← attempt (backend (soft_delete_link tenantID id));
  match r with
  | inl n => if n =? 0 then fail (ESentinel ErrNotFound) else mret ()
  | inr err => fail (errorf "soft delete link" err)
  end.

Definition PurgeExpired (tenantID : UUID) (cutoff : Time) : M Z :=
  r ← attempt (backend (λ _, purge_links tenantID (o_timestamptz cutoff)));
  match r with
  | inl n => mret n
  | inr err => fail (errorf "purge expired links" err)
  end.

Definition ExistsByCode (code : string) : M bool :=
  r ← attempt (backend (λ _, d ← gets w_db;
    if negb (pg_text code) then fail invalid_text else mret (code_taken None code (DB.links d))));
  match r with
  | inl b => mret b
  | inr err => fail (errorf "check code exists" err)
  end.
End repository.
End LinkRepository.

(** Every operation of the repository keeps the schema. *)
Section repository_schema.
Context `{O : Oracle}.
Import LinkRepository.

Lemma Create_schema l : preserves schema (Create l).
Proof. unfold Create. preserve. Qed.

Lemma query_row_schema ts f : preserves schema (query_row ts f).
Proof. unfold query_row. preserve. Qed.

Lemma one_row_schema what q : preserves schema q → preserves schema (one_row what q).
Proof. intros. unfold one_row. preserve. Qed.

Lemma GetByIDForTenant_schema t id : preserves schema (GetByIDForTenant t id).
Proof. apply one_row_schema, query_row_schema. Qed.

Lemma GetByCode_schema c : preserves schema (GetByCode c).
Proof. apply one_row_schema, query_row_schema. Qed.

Lemma ListByTenant_schema t l o : preserves schema (ListByTenant t l o).
Proof. unfold ListByTenant. preserve. Qed.

Lemma Update_schema l : preserves schema (Update l).
Proof. unfold Update. preserve. Qed.

Lemma SoftDelete_schema t id : preserves schema (SoftDelete t id).
Proof. unfold SoftDelete. preserve. Qed.

Lemma PurgeExpired_schema t c : preserves schema (PurgeExpired t c).
Proof. unfold PurgeExpired. preserve. Qed.

Lemma ExistsByCode_schema c : preserves schema (ExistsByCode c).
Proof. unfold ExistsByCode. preserve. Qed.
End repository_schema.

#[export] Hint Resolve Create_schema GetByIDForTenant_schema GetByCode_schema ListByTenant_schema
  Update_schema SoftDelete_schema PurgeExpired_schema ExistsByCode_schema : preserves.

(** * Outcomes of the operations *)

Section outcomes.
Context `{O : Oracle}.
Import LinkRepository.

(** The world after the statement that inserts or rewrites [row]. *)
Definition put_row (row : Link.t) (w : World) : World :=
  upd_db (DB.with_links <[Link.ID row := row]>) (set_step (S (w_step w)) w).

Lemma insert_link_Ok l n w row w' :
  insert_link l n w = (Ok row, w') →
  row = insert_row l n ∧ w' = upd_db (DB.with_links <[Link.ID row := row]>) w
  ∧ w_links w !! Link.ID row = None ∧ code_taken None (Link.Code l) (w_links w) = false
  ∧ is_Some (DB.tenants (w_db w) !! Link.TenantID l).
Proof.
  unfold insert_link. intros H. inv_ok H. case_match; [done|]. case_match eqn:E; [done|]. case_match eqn:E'; [done|].
  inv_ok H. apply orb_false_iff in E as [E1 E2]. apply bool_decide_eq_false, eq_None_not_Some in E1.
  apply bool_decide_eq_false in E'. split_and!; try done. by apply not_eq_None_Some.
Qed.

Lemma insert_link_Err l n w e w' :
  insert_link l n w = (Err e, w') →
  w' = w ∧ (e = unique_violation ∧ (is_Some (w_links w !! o_uuid n)
                                    ∨ code_taken None (Link.Code l) (w_links w) = true)
            ∨ e = fk_violation ∧ DB.tenants (w_db w) !! Link.TenantID l = None
            ∨ e = invalid_text).
Proof.
  unfold insert_link, mbind, M_bind, gets, fail, modify. simpl. case_match eqn:Ex.
  { intros ?. simplify_eq. auto. }
  case_match eqn:E; [|case_match eqn:E'; [|done]]; intros ?; simplify_eq; split; [done| |done|].
  - left. split; [done|]. apply orb_true_iff in E as [E|E]; [|by right].
    left. by apply bool_decide_eq_true in E.
  - right. left. by apply bool_decide_eq_true in E'.
Qed.

Lemma Create_Ok l w row w' :
  Create l w = (Ok row, w') →
  row = insert_row l (w_step w) ∧ w' = put_row row w
  ∧ w_links w !! Link.ID row = None ∧ code_taken None (Link.Code l) (w_links w) = false
  ∧ is_Some (DB.tenants (w_db w) !! Link.TenantID l) ∧ o_fault (w_step w) = None.
Proof.
  unfold Create. intros H. apply bind_Ok in H as (r & w1 & Hr & H).
  destruct r as [row'|err]; [|by case_match]. inv_ok H.
  apply attempt_Ok in Hr. pose proof Hr as Hf. apply backend_Ok in Hr.
  apply insert_link_Ok in Hr as (-> & -> & ? & ? & ?). split_and!; try done.
  revert Hf. unfold backend. by destruct (o_fault _) as [[? ?]|].
Qed.

(** The errors of Create: a conflict, which leaves the table alone, or another
    failure, none of the domain's sentinels. *)
Lemma Create_Err l w e w' :
  Create l w = (Err e, w') →
  (e = ESentinel ErrConflict ∧ w' = set_step (S (w_step w)) w ∧ o_fault (w_step w) = None
   ∧ (is_Some (w_links w !! o_uuid (w_step w)) ∨ code_taken None (Link.Code l) (w_links w) = true))
  ∨ (∃ e', e = errorf "insert link" e' ∧ ∀ s, Is e s = false).
Proof.
  unfold Create. intros H. apply bind_Err in H as [H|(r & w1 & Hr & H)]; [by apply attempt_Err in H|].
  destruct r as [row'|err]; [done|]. apply attempt_Ok in Hr. pose proof Hr as Hf.
  apply backend_Err in Hr as [(msg & ap & ? & -> & ->)|Hr].
  - right. simpl in H. unfold fail in H. simplify_eq. eauto.
  - apply insert_link_Err in Hr as [-> [[-> Hc]|[[-> Hc]| ->]]]; unfold fail in H; simpl in H; simplify_eq.
    + left. split_and!; try done. revert Hf. unfold backend. destruct (o_fault _) as [[? ?]|]; [|done].
      intros; simplify_eq.
    + right. eauto.
    + right. eauto.
Qed.

Lemma query_row_Ok ts f w l w' :
  query_row ts f w = (Ok l, w') →
  select_row f (w_links w) = Some l ∧ w' = set_step (S (w_step w)) w.
Proof.
  unfold query_row. intros H. apply backend_Ok in H. apply bind_Ok in H as (d & w1 & Hd & H).
  unfold gets in Hd. simplify_eq/=. case_match; [done|]. destruct (select_row f _) eqn:E; [|done].
  inv_ok H. done.
Qed.

(** A read does not change the world, whatever its outcome. *)
Lemma query_row_world ts f w : (query_row ts f w).2 = set_step (S (w_step w)) w.
Proof.
  unfold query_row, backend, mbind, M_bind, gets.
  destruct (o_fault _) as [[? [|]]|]; simpl; [| done |]; (case_match; [done|]); by destruct (select_row _ _).
Qed.

Lemma one_row_world what q w : (one_row what q w).2 = (q w).2.
Proof.
  unfold one_row, mbind, M_bind, attempt. destruct (q w) as [[l|e|p] w'] eqn:E; simpl; try done.
  by case_match.
Qed.

Lemma one_row_Ok what q w l w' : one_row what q w = (Ok l, w') → q w = (Ok l, w').
Proof.
  unfold one_row. intros H. apply bind_Ok in H as (r & w1 & Hr & H). apply attempt_Ok in Hr.
  destruct r; [by inv_ok H | by case_match].
Qed.

(** The errors of a read: no such row, a failing call, or a text that is none. *)
Lemma one_row_Err what ts f w e w' :
  one_row what (query_row ts f) w = (Err e, w') →
  e = ESentinel ErrNotFound ∧ select_row f (w_links w) = None
  ∨ (is_Some (o_fault (w_step w)) ∨ forallb pg_text ts = false) ∧ ∀ s, Is e s = false.
Proof.
  unfold one_row. intros H. apply bind_Err in H as [H|(r & w1 & Hr & H)]; [by apply attempt_Err in H|].
  apply attempt_Ok in Hr. destruct r as [|err]; [done|].
  unfold query_row in Hr. apply backend_Err in Hr as [(msg & ap & Hf & -> & _)|Hr].
  - right. simpl in H. unfold fail in H. simplify_eq. eauto.
  - unfold mbind, M_bind, gets in Hr. simpl in Hr. destruct (negb _) eqn:Ht.
    { apply negb_true_iff in Ht. unfold fail in Hr. simplify_eq. simpl in H. unfold fail in H. simplify_eq. eauto. }
    left. destruct (select_row _ _); [done|].
    unfold fail in Hr. simplify_eq. simpl in H. unfold fail in H. by simplify_eq.
Qed.

Lemma GetByIDForTenant_Ok t id w l w' :
  schema w → GetByIDForTenant t id w = (Ok l, w') →
  w_links w !! id = Some l ∧ Link.TenantID l = t ∧ Link.live l = true
  ∧ w' = set_step (S (w_step w)) w.
Proof.
  intros Hs H. apply one_row_Ok, query_row_Ok in H as [H ->].
  apply select_by_id in H as (? & ? & ?); done.
Qed.

Lemma GetByCode_Ok c w l w' :
  schema w → GetByCode c w = (Ok l, w') →
  w_links w !! Link.ID l = Some l ∧ Link.Code l = c ∧ Link.live l = true
  ∧ w' = set_step (S (w_step w)) w.
Proof.
  intros Hs H. apply one_row_Ok, query_row_Ok in H as [H ->].
  apply select_by_code in H as (? & ? & ?); done.
Qed.

Lemma Update_Ok l w row w' :
  schema w → Update l w = (Ok row, w') →
  ∃ old, w_links w !! Link.ID l = Some old ∧ Link.TenantID old = Link.TenantID l
    ∧ Link.live old = true ∧ row = update_row l old (w_step w) ∧ w' = put_row row w
    ∧ code_taken (Some (Link.ID l)) (Link.Code l) (w_links w) = false.
Proof.
  intros Hs. unfold Update. intros H. apply bind_Ok in H as (r & w1 & Hr & H).
  destruct r as [row'|err]; [|by repeat case_match]. inv_ok H.
  apply attempt_Ok, backend_Ok in Hr. unfold update_link in Hr.
  apply bind_Ok in Hr as (d & w2 & Hd & Hr). unfold gets in Hd. simplify_eq/=.
  case_match; [done|]. destruct (select_row _ _) as [old|] eqn:E; [|done].
  apply select_by_id in E as (Ho & Ht & Hv); [|done].
  pose proof (ok_key _ Hs _ _ Ho) as Hk.
  case_match eqn:Ec; [done|]. inv_ok Hr. exists old. rewrite Hk in Ec. done.
Qed.

Lemma SoftDelete_Ok t id w u w' :
  schema w → SoftDelete t id w = (Ok u, w') →
  ∃ old, w_links w !! id = Some old ∧ Link.TenantID old = t ∧ Link.live old = true
    ∧ w' = put_row (delete_row old (w_step w)) w.
Proof.
  intros Hs. unfold SoftDelete. intros H. apply bind_Ok in H as (r & w1 & Hr & H).
  destruct r as [k|err]; [|done]. apply attempt_Ok, backend_Ok in Hr. unfold soft_delete_link in Hr.
  apply bind_Ok in Hr as (d & w2 & Hd & Hr). unfold gets in Hd. simplify_eq/=.
  destruct (select_row _ _) as [old|] eqn:E.
  - apply select_by_id in E as (Ho & Ht & Hv); [|done]. inv_ok Hr. inv_ok H. by exists old.
  - inv_ok Hr.
Qed.
End outcomes.

(** * The world after each operation, whatever its outcome *)

Section worlds.
Context `{O : Oracle}.
Import LinkRepository.

(** A backend call did nothing, or its statement ran. *)
Lemma backend_world {A} (body : nat → M A) w :
  (backend body w).2 = set_step (S (w_step w)) w
  ∨ (backend body w).2 = (body (w_step w) (set_step (S (w_step w)) w)).2.
Proof. unfold backend. destruct (o_fault _) as [[? [|]]|]; auto. Qed.

Lemma attempt_world {A} (m : M A) w : (attempt m w).2 = (m w).2.
Proof. unfold attempt. by destruct (m w) as [[a|e|p] w']. Qed.

(** What follows a backend call handles its error and leaves the world alone. *)
Lemma handled_world {A B} (m : M A) (k : A + error → M B) w :
  (∀ r w', (k r w').2 = w') → ((attempt m ≫= k) w).2 = (m w).2.
Proof.
  intros Hk. unfold mbind, M_bind, attempt. by destruct (m w) as [[a|e|p] w']; rewrite ?Hk.
Qed.

Lemma Create_world l w :
  (Create l w).2 = set_step (S (w_step w)) w
  ∨ (Create l w).2 = put_row (insert_row l (w_step w)) w
    ∧ w_links w !! o_uuid (w_step w) = None ∧ code_taken None (Link.Code l) (w_links w) = false.
Proof.
  unfold Create. rewrite handled_world.
  - destruct (backend_world (insert_link l) w) as [->| ->]; [by left|].
    destruct (insert_link l _ _) as [[row|e|p] w'] eqn:E; simpl.
    + apply insert_link_Ok in E as (-> & -> & ? & ? & _). by right.
    + apply insert_link_Err in E as [-> _]. by left.
    + revert E. unfold insert_link, mbind, M_bind, gets, fail, modify. simpl. by repeat case_match.
  - intros [a|e] w'; [done|]. by case_match.
Qed.

Lemma Update_world l w :
  schema w →
  (Update l w).2 = set_step (S (w_step w)) w
  ∨ ∃ old, w_links w !! Link.ID l = Some old ∧ Link.TenantID old = Link.TenantID l
      ∧ Link.live old = true ∧ (Update l w).2 = put_row (update_row l old (w_step w)) w.
Proof.
  intros Hs. unfold Update. rewrite handled_world.
  - destruct (backend_world (update_link l) w) as [->| ->]; [by left|].
    unfold update_link, mbind, M_bind, gets, modify. simpl. case_match; [by left|].
    destruct (select_row _ _) as [old|] eqn:E; [|by left].
    apply select_by_id in E as (? & ? & ?); [|done]. case_match; [by left|]. right. by exists old.
  - intros [a|e] w'; [done|]. by repeat case_match.
Qed.

Lemma SoftDelete_world t id w :
  schema w →
  (SoftDelete t id w).2 = set_step (S (w_step w)) w
  ∨ ∃ old, w_links w !! id = Some old ∧ Link.TenantID old = t
      ∧ Link.live old = true ∧ (SoftDelete t id w).2 = put_row (delete_row old (w_step w)) w.
Proof.
  intros Hs. unfold SoftDelete. rewrite handled_world.
  - destruct (backend_world (soft_delete_link t id) w) as [->| ->]; [by left|].
    unfold soft_delete_link, mbind, M_bind, gets, modify. simpl.
    destruct (select_row _ _) as [old|] eqn:E; [|by left].
    apply select_by_id in E as (? & ? & ?); [|done]. right. by exists old.
  - intros [a|e] w'; [|done]. by case_match.
Qed.

Lemma GetByIDForTenant_world t id w : (GetByIDForTenant t id w).2 = set_step (S (w_step w)) w.
Proof. unfold GetByIDForTenant. by rewrite one_row_world, query_row_world. Qed.

Lemma GetByCode_world c w : (GetByCode c w).2 = set_step (S (w_step w)) w.
Proof. unfold GetByCode. by rewrite one_row_world, query_row_world. Qed.
End worlds.
