(* ===== verification/ClickRepo.v ===== *)
(** The clicks table and ClickRepository (internal/repository/click.go,
    migrations/000004_clicks.up.sql). *)
From stdpp Require Import prelude gmap strings list sorting.
From S2P Require Import Prelude GoStd Domain Enrich World Schema LinkRepo.

Local Open Scope Z_scope.

(** * GROUP BY and ORDER BY *)

(** GROUP BY key with count( * ): the counts, in no particular order. *)
Definition group_count {K} `{Countable K} (keys : list K) : list (K * Z) :=
  map_to_list (foldr (λ k m, <[k := default 0 (m !! k) + 1]> m) (∅ : gmap K Z) keys).

(** [counts[c.LinkID]++], and the loop over the batch. *)
Definition count_click (m : gmap UUID Z) (c : Click.t) : gmap UUID Z :=
  <[Click.LinkID c := default 0 (m !! Click.LinkID c) + 1]> m.

Definition batch_counts (clicks : list Click.t) : gmap UUID Z := foldl count_click ∅ clicks.

(** The database's bucketing of instants and its collation. *)
Class Collation := {
  date_trunc : Bucket → Time → Time;
  collate : string → string → bool;
  collate_total a b : collate a b || collate b a = true;
  collate_trans a b c : collate a b = true → collate b c = true → collate a c = true;
}.

(** ORDER BY t. *)
Definition earlier (a b : TimePoint.t) : Prop := TimePoint.time a ≤ TimePoint.time b.

#[export] Instance earlier_dec : RelDecision earlier.
Proof. intros a b. unfold earlier. apply _. Defined.

#[export] Instance earlier_total : Total earlier.
Proof. intros a b. unfold earlier. lia. Qed.

#[export] Instance earlier_transitive : Transitive earlier.
Proof. intros a b c. unfold earlier. lia. Qed.

(** ORDER BY n DESC, label. *)
Definition busier `{Collation} (a b : LabelCount.t) : Prop :=
  LabelCount.Count b < LabelCount.Count a
  ∨ LabelCount.Count a = LabelCount.Count b
    ∧ collate (LabelCount.Label a) (LabelCount.Label b) = true.

#[export] Instance busier_dec `{Collation} : RelDecision busier.
Proof. intros a b. unfold busier. apply _. Defined.

#[export] Instance busier_total `{Collation} : Total busier.
Proof.
  intros a b. unfold busier. pose proof (collate_total (LabelCount.Label a) (LabelCount.Label b)) as Ht.
  apply orb_true_iff in Ht.
  destruct (Z.lt_trichotomy (LabelCount.Count a) (LabelCount.Count b)) as [?|[?|?]]; [by auto| |by auto].
  destruct Ht; [left | right]; right; auto.
Qed.

#[export] Instance busier_transitive `{Collation} : Transitive busier.
Proof.
  intros a b c. unfold busier. intros [?|[E1 H1]] [?|[E2 H2]]; try (left; lia).
  right. split; [lia | by eapply collate_trans].
Qed.

(** COALESCE(NULLIF(column, ''), dflt). *)
Definition coalesce (dflt s : string) : string := if String.eqb s "" then dflt else s.

(** WHERE tenant_id = $1 AND link_id = $2 AND occurred_at >= $3 AND occurred_at < $4. *)
Definition in_window (tenantID linkID : UUID) (from to : Time) (c : Click.t) : bool :=
  bool_decide (Click.TenantID c = tenantID) && bool_decide (Click.LinkID c = linkID)
  && (from <=? Click.OccurredAt c) && (Click.OccurredAt c <? to).

Definition window (tenantID linkID : UUID) (from to : Time) (clicks : list Click.t) : list Click.t :=
  filter (λ c, in_window tenantID linkID from to c = true) clicks.

(** * The statements *)

Section statements.
Context `{O : Oracle}.

(** The row a click becomes: occurred_at is a TIMESTAMPTZ. *)
Definition store_click (c : Click.t) : Click.t :=
  {| Click.LinkID := Click.LinkID c;
     Click.TenantID := Click.TenantID c;
     Click.OccurredAt := o_timestamptz (Click.OccurredAt c);
     Click.Referrer := Click.Referrer c;
     Click.UserAgent := Click.UserAgent c;
     Click.Browser := Click.Browser c;
     Click.OS := Click.OS c;
     Click.Device := Click.Device c;
     Click.Country := Click.Country c;
     Click.IPHash := Click.IPHash c |}.

(** The text columns of a click. *)
Definition click_texts (c : Click.t) : list string :=
  [Click.Referrer c; Click.UserAgent c; Click.Browser c; Click.OS c; Click.Device c; Click.Country c; Click.IPHash c].

(** COPY clicks: all rows or none, each read before it is checked against its foreign
    keys. *)
Definition copy_clicks (rows : list Click.t) : M () :=
  d ← gets w_db;
  if negb (forallb (λ c, forallb pg_text (click_texts c)) rows) then fail invalid_text
  else if forallb (λ c, bool_decide (is_Some (DB.links d !! Click.LinkID c))
                   && bool_decide (is_Some (DB.tenants d !! Click.TenantID c))) rows
  then modify (upd_db (DB.with_clicks (λ cs, cs ++ (store_click <$> rows))))
  else fail fk_violation.

Definition count_row (row : Link.t) (n : Z) (now : Time) : Link.t :=
  {| Link.ID := Link.ID row;
     Link.TenantID := Link.TenantID row;
     Link.Code := Link.Code row;
     Link.TargetURL := Link.TargetURL row;
     Link.RedirectType := Link.RedirectType row;
     Link.ExpiresAt := Link.ExpiresAt row;
     Link.MaxClicks := Link.MaxClicks row;
     Link.ClickCount := Link.ClickCount row + n;
     Link.CreatedAt := Link.CreatedAt row;
     Link.UpdatedAt := now;
     Link.DeletedAt := Link.DeletedAt row |}.

(** UPDATE links SET click_count = click_count + $2, updated_at = now() WHERE id =
    $1 RETURNING code, max_clicks, click_count; click_count is a BIGINT. *)
Definition increment_link (id : UUID) (k : Z) (n : nat) : M (string * option Z * Z) :=
  d ← gets w_db;
  match DB.links d !! id with
  | None => fail ENoRows
  | Some row =>
      let row := count_row row k (o_now n) in
      if in_int64 (Link.ClickCount row) then
        modify (upd_db (DB.with_links <[id := row]>));;
        mret (Link.Code row, Link.MaxClicks row, Link.ClickCount row)
      else fail (EPg "22003" "bigint out of range")
  end.
End statements.

(** * The repository *)

Module ClickRepository.
Section repository.
Context `{O : Oracle}.

(** [maxClicks != nil && clickCount >= *maxClicks]. *)
Definition reached (maxClicks : option Z) (clickCount : Z) : bool :=
  match maxClicks with Some m => m <=? clickCount | None => false end.

(** The loop over [counts]. *)
Fixpoint increment (counts : gmap UUID Z) (ids : list UUID) (exhausted : list string)
    : M (list string) :=
  match ids with
  | [] => mret exhausted
  | id :: ids =>
      r ← attempt (backend (increment_link id (default 0 (counts !! id))));
      match r with
      | inr err =>
          if IsNoRows err then increment counts ids exhausted
          else fail (errorf "increment click count" err)
      | inl (code, maxClicks, clickCount) =>
          increment counts ids
            (if reached maxClicks clickCount then exhausted ++ [code] else exhausted)
      end
  end.

(** The statements of the transaction, between BEGIN and COMMIT. *)
Definition record_rows (clicks : list Click.t) : M (list string) :=
  let counts := batch_counts clicks in
  r ← attempt (backend (λ _, copy_clicks clicks));
  match r with
  | inr err => fail (errorf "copy clicks" err)
  | inl _ => ids ← range_keys counts; increment counts ids []
  end.

Definition RecordBatch (clicks : list Click.t) : M (list string) :=
  match clicks with
  | [] => mret []
  | _ =>
      b ← attempt (backend (λ _, mret ()));
      match b with
      | inr err => fail (errorf "begin click batch" err)
      | inl _ =>
          transaction (errorf "commit click batch") (record_rows clicks)
      end
  end.

Section queries.
Context `{Collation}.

(** The query of a SELECT on the clicks, its error wrapped. *)
Definition select {A} (what : string) (q : DB.t → A) : M A :=
  r ← attempt (backend (λ _, gets (λ w, q (w_db w))));
  match r with inl a => mret a | inr err => fail (errorf what err) end.

Definition SeriesForLink (tenantID linkID : UUID) (from to : Time) (bucket : Bucket)
    : M (list TimePoint.t) :=
  select "query click series" (λ d,
    merge_sort earlier
      ((λ p, TimePoint.Mk p.1 p.2) <$>
       group_count ((λ c, date_trunc bucket (Click.OccurredAt c)) <$>
                    window tenantID linkID (o_timestamptz from) (o_timestamptz to) (DB.clicks d)))).

Definition TotalForLink (tenantID linkID : UUID) (from to : Time) : M Z :=
  select "query link total" (λ d,
    Z.of_nat (length (window tenantID linkID (o_timestamptz from) (o_timestamptz to) (DB.clicks d)))).

(** The rows of a label query before LIMIT. *)
Definition label_rows (labels : list string) : list LabelCount.t :=
  merge_sort busier ((λ p, LabelCount.Mk p.1 p.2) <$> group_count labels).

Definition labelQuery (labelExpr : Click.t → string) (tenantID linkID : UUID) (from to : Time)
    (limit : nat) : M (list LabelCount.t) :=
  select "query label counts" (λ d,
    take limit (label_rows (labelExpr <$> window tenantID linkID (o_timestamptz from) (o_timestamptz to) (DB.clicks d)))).

Definition TopReferrers := labelQuery (λ c, coalesce "(direct)" (Click.Referrer c)).
Definition TopCountries := labelQuery (λ c, coalesce "(unknown)" (Click.Country c)).
Definition DeviceBreakdown := labelQuery (λ c, coalesce "unknown" (Click.Device c)).

(** FROM clicks c JOIN links l ON l.id = c.link_id WHERE c.tenant_id = $1: the
    codes of the joined rows. *)
Definition joined_codes (tenantID : UUID) (d : DB.t) : list string :=
  omap (λ c, Link.Code <$> DB.links d !! Click.LinkID c)
    (filter (λ c, Click.TenantID c = tenantID) (DB.clicks d)).

Definition TenantOverview (tenantID : UUID) (topN : nat) : M TenantOverview.t :=
  totals ← select "query tenant totals" (λ d,
    (Z.of_nat (length (select_rows (of_tenant tenantID) (DB.links d))),
     Z.of_nat (length (filter (λ c, Click.TenantID c = tenantID) (DB.clicks d)))));
  top ← select "query top links" (λ d, take topN (label_rows (joined_codes tenantID d)));
  mret (TenantOverview.Mk totals.1 totals.2 top).
End queries.
End repository.
End ClickRepository.

(** * Counting *)

Lemma default_counts_insert (m : gmap UUID Z) i j x :
  default 0 (<[i := x]> m !! j) = if decide (i = j) then x else default 0 (m !! j).
Proof. rewrite lookup_insert. by case_decide. Qed.

(** The map the loop builds holds the number of clicks of each link. *)
Lemma batch_counts_acc clicks m id :
  default 0 (foldl count_click m clicks !! id)
  = default 0 (m !! id) + count_of id clicks.
Proof.
  revert m. induction clicks as [|c l IH]; intros m; simpl; [unfold count_of; simpl; lia|].
  unfold count_click at 2. rewrite IH. unfold count_click. rewrite default_counts_insert, count_of_cons. case_decide; subst; lia.
Qed.

Lemma batch_counts_lookup clicks id : default 0 (batch_counts clicks !! id) = count_of id clicks.
Proof. unfold batch_counts. rewrite batch_counts_acc, lookup_empty. simpl. lia. Qed.

Lemma batch_counts_dom_acc clicks m id :
  is_Some (foldl count_click m clicks !! id)
  ↔ is_Some (m !! id) ∨ ∃ c, c ∈ clicks ∧ Click.LinkID c = id.
Proof.
  revert m. induction clicks as [|c l IH]; intros m; simpl.
  - split; [by left | intros [?|(c & Hc & _)]; [done | by apply not_elem_of_nil in Hc]].
  - rewrite IH. unfold count_click. rewrite lookup_insert_is_Some. setoid_rewrite elem_of_cons. split.
    + intros [[<-|[? ?]]|(c' & ? & ?)]; eauto 6.
    + destruct (decide (Click.LinkID c = id)); [by auto|].
      intros [?|(c' & [->|?] & ?)]; eauto 6.
Qed.

Lemma batch_counts_dom clicks id :
  is_Some (batch_counts clicks !! id) ↔ ∃ c, c ∈ clicks ∧ Click.LinkID c = id.
Proof.
  unfold batch_counts. rewrite batch_counts_dom_acc, lookup_empty.
  split; [intros [[? ?]|?]; done | by right].
Qed.

(** * RecordBatch *)

Section record_batch.
Context `{O : Oracle}.
Import ClickRepository.

(** One increment: the row changes, or the link is gone. *)
Lemma increment_link_Ok id k n w code mx cnt w' :
  increment_link id k n w = (Ok (code, mx, cnt), w') →
  ∃ l, w_links w !! id = Some l ∧ w_db w' = DB.with_links <[id := count_row l k (o_now n)]> (w_db w)
    ∧ code = Link.Code l ∧ mx = Link.MaxClicks l ∧ cnt = Link.ClickCount l + k.
Proof.
  unfold increment_link. intros H. inv_ok H.
  destruct (w_links _ !! id) as [l|]; [|done].
  case_match; [|done]. inv_ok H. by exists l.
Qed.

Lemma increment_link_NoRows id k n w e w' :
  increment_link id k n w = (Err e, w') → IsNoRows e = true →
  w_links w !! id = None ∧ w_db w' = w_db w.
Proof.
  unfold increment_link, mbind, M_bind, gets, fail. simpl.
  destruct (w_links w !! id) as [l|]; [|intros; by simplify_eq].
  case_match; intros; simplify_eq/=; done.
Qed.

(** A database differs from another in its links only. *)
Definition only_links (d d' : DB.t) : Prop := d' = DB.with_links (λ _, DB.links d') d.

Lemma only_links_refl d : only_links d d.
Proof. by destruct d. Qed.

Lemma only_links_with f d d' : only_links (DB.with_links f d) d' → only_links d d'.
Proof. unfold only_links. by destruct d. Qed.

(** What the loop does to the row of [id]. *)
Definition counted (counts : gmap UUID Z) (ids : list UUID) (links links' : gmap UUID Link.t)
    (id : UUID) : Prop :=
  match links !! id with
  | Some l =>
      if decide (id ∈ ids) then ∃ t, links' !! id = Some (count_row l (default 0 (counts !! id)) t)
      else links' !! id = Some l
  | None => links' !! id = None
  end.

Lemma counted_skip counts id0 ids links links' id :
  links !! id0 = None → counted counts ids links links' id → counted counts (id0 :: ids) links links' id.
Proof.
  intros Hn. unfold counted. case_match eqn:E; [|done].
  intros H. case_decide as Hd.
  - rewrite decide_True in *; [done | by right..].
  - rewrite decide_False; [done|]. intros [->|?]%elem_of_cons; [congruence | done].
Qed.

Lemma counted_cons counts id0 l0 t ids links links' id :
  links !! id0 = Some l0 → id0 ∉ ids →
  counted counts ids (<[id0 := count_row l0 (default 0 (counts !! id0)) t]> links) links' id →
  counted counts (id0 :: ids) links links' id.
Proof.
  intros Hl Hni. unfold counted. rewrite lookup_insert. case_decide as E.
  - subst id. rewrite Hl, decide_False by done. intros ->. rewrite decide_True by left. eauto.
  - case_match; [|done]. destruct (decide (id ∈ ids)).
    + rewrite decide_True by (by right). done.
    + rewrite decide_False; [done|]. by intros [?|?]%elem_of_cons.
Qed.

(** The codes reported: those of the counted links that reached their limit. *)
Definition reported (ids : list UUID) (links' : gmap UUID Link.t) (code : string) : Prop :=
  ∃ id l, id ∈ ids ∧ links' !! id = Some l ∧ Link.Code l = code ∧ Link.IsExhausted l = true.

Lemma reported_cons id0 ids links' code :
  reported (id0 :: ids) links' code ↔
  (∃ l, links' !! id0 = Some l ∧ Link.Code l = code ∧ Link.IsExhausted l = true)
  ∨ reported ids links' code.
Proof.
  unfold reported. setoid_rewrite elem_of_cons. split.
  - intros (id & l & [-> | Hin] & H); [left; eauto | right; eauto 6].
  - intros [(l & H)|(id & l & Hin & H)]; [exists id0, l | exists id, l]; auto.
Qed.

Lemma increment_spec counts ids ex w res w' :
  NoDup ids → increment counts ids ex w = (Ok res, w') →
  only_links (w_db w) (w_db w')
  ∧ (∀ id, counted counts ids (w_links w) (w_links w') id)
  ∧ (∀ code, code ∈ res ↔ code ∈ ex ∨ reported ids (w_links w') code).
Proof.
  revert ex w. induction ids as [|id0 ids IH]; intros ex w Hnd H; cbn [increment] in H.
  { inv_ok H. split_and!.
    - apply only_links_refl.
    - intros id. unfold counted. case_match; [|done]. by rewrite decide_False by apply not_elem_of_nil.
    - intros code. split; [by left|]. intros [?|(? & ? & Hin & _)]; [done | by apply not_elem_of_nil in Hin]. }
  apply NoDup_cons in Hnd as [Hni Hnd]. inv_ok H. setoid_rewrite reported_cons.
  destruct a as [[[code mx] cnt]|err].
  - apply backend_Ok, increment_link_Ok in H0 as (l & Hl & Hd & -> & -> & ->).
    set (l' := count_row l (default 0 (counts !! id0)) (o_now (w_step w))) in *.
    apply IH in H as (Hot & Hct & Hres); [|done]. rewrite Hd in *. simpl in *. split_and!.
    + by eapply only_links_with.
    + intros id. eapply counted_cons; eauto.
    + assert (Hl' : w_links w' !! id0 = Some l').
      { specialize (Hct id0). unfold counted in Hct.
        by rewrite lookup_insert_eq, decide_False in Hct by done. }
      intros code. rewrite Hres, Hl'.
      change (reached _ _) with (Link.IsExhausted l').
      destruct (Link.IsExhausted l') eqn:E; rewrite ?elem_of_app, ?list_elem_of_singleton.
      * split; [intros [[? | ->]|?]; [by left | right; left; by exists l' | by auto]|].
        intros [?|[(l'' & ? & <- & _)|?]]; simplify_eq; auto.
      * split; [intros [?|?]; auto|]. intros [?|[(l'' & ? & _ & ?)|?]]; simplify_eq; auto; congruence.
  - case_match; [|done].
    apply backend_Err in H0 as [(? & ? & ? & -> & _)|H0]; [done|].
    eapply increment_link_NoRows in H0 as [Hnone Hd]; [|done]. simpl in *.
    apply IH in H as (Hot & Hct & Hres); [|done]. rewrite Hd in *. split_and!.
    + done.
    + intros id. by apply counted_skip.
    + assert (Hn' : w_links w' !! id0 = None).
      { specialize (Hct id0). unfold counted in Hct. by rewrite Hnone in Hct. }
      intros code. rewrite Hres, Hn'. split; [intros [?|?]; auto|].
      intros [?|[(l'' & ? & _)|?]]; simplify_eq; auto.
Qed.

(** The batch [clicks] durably recorded: the rows appended, every counter moved by
    the clicks of its link, nothing else changed, and [codes] the codes of the
    links of the batch that have reached their limit. *)
Record batch_recorded (clicks : list Click.t) (codes : list string) (d d' : DB.t) : Prop := {
  br_clicks : DB.clicks d' = DB.clicks d ++ (store_click <$> clicks);
  br_rest : DB.tenants d' = DB.tenants d ∧ DB.api_keys d' = DB.api_keys d
            ∧ DB.webhooks d' = DB.webhooks d;
  br_none id : DB.links d !! id = None → DB.links d' !! id = None;
  br_some id l : DB.links d !! id = Some l →
    ∃ l', DB.links d' !! id = Some l'
      ∧ (l' = l ∧ count_of id clicks = 0 ∨ ∃ t, l' = count_row l (count_of id clicks) t);
  br_fk c : c ∈ clicks → is_Some (DB.links d !! Click.LinkID c);
  br_codes code : code ∈ codes ↔
    ∃ c l, c ∈ clicks ∧ DB.links d' !! Click.LinkID c = Some l
      ∧ Link.Code l = code ∧ Link.IsExhausted l = true;
}.

Lemma batch_recorded_nil d : batch_recorded [] [] d d.
Proof.
  split; try done.
  - by rewrite app_nil_r.
  - intros id l Hl. exists l. auto.
  - intros c Hc. by apply not_elem_of_nil in Hc.
  - intros code. split; [by intros ?%not_elem_of_nil | by intros (? & ? & ?%not_elem_of_nil & _)].
Qed.

Lemma count_of_stored id clicks : count_of id (store_click <$> clicks) = count_of id clicks.
Proof.
  induction clicks as [|c l IH]; [done|]. rewrite fmap_cons, !count_of_cons, IH. done.
Qed.

(** The counters stay equal to the number of click rows. *)
Lemma batch_recorded_schema clicks codes d d' :
  batch_recorded clicks codes d d' → schema_ok d → schema_ok d'.
Proof.
  intros [Hc (Ht & _ & _) Hn Hs Hfk _] Hok.
  (* every row of [d'] comes from a row of [d] *)
  assert (Hback : ∀ id l', DB.links d' !! id = Some l' → ∃ l, DB.links d !! id = Some l
    ∧ Link.ID l' = Link.ID l ∧ Link.TenantID l' = Link.TenantID l ∧ Link.Code l' = Link.Code l
    ∧ Link.live l' = Link.live l ∧ Link.ClickCount l' = Link.ClickCount l + count_of id clicks
    ∧ Link.TargetURL l' = Link.TargetURL l).
  { intros id l' Hl'. destruct (DB.links d !! id) as [l|] eqn:Hl; [|by rewrite Hn in Hl'].
    destruct (Hs id l Hl) as (l'' & Hl'' & Hcase). simplify_eq. exists l. split; [done|].
    destruct Hcase as [[-> Hz]|[t ->]]; [|done]. split_and!; [done..|lia|done]. }
  split.
  - intros id l' (l & Hl & -> & _)%Hback. by apply (ok_key d Hok).
  - intros i j li lj (l1 & H1 & _ & _ & -> & -> & _)%Hback (l2 & H2 & _ & _ & -> & -> & _)%Hback.
    by apply (ok_code d Hok).
  - intros id l' (l & Hl & _ & -> & _)%Hback. rewrite Ht. by eapply (ok_tenant d Hok).
  - intros c. rewrite Hc, elem_of_app.
    intros Hin. assert (is_Some (DB.links d !! Click.LinkID c)) as [l Hl].
    { destruct Hin as [?|(c' & -> & ?)%list_elem_of_fmap]; [by apply (ok_click d Hok) | by apply (Hfk c')]. }
    destruct (Hs _ l Hl) as (l' & ? & _). eauto.
  - intros id l' (l & Hl & _ & _ & _ & _ & -> & _)%Hback.
    by rewrite (ok_count d Hok id l Hl), Hc, count_of_app, count_of_stored.
  - intros id l' (l & Hl & _ & _ & -> & _ & _ & ->)%Hback. by apply (ok_text d Hok id).
Qed.

Lemma copy_clicks_Ok rows w u w' :
  copy_clicks rows w = (Ok u, w') →
  w_db w' = DB.with_clicks (λ cs, cs ++ (store_click <$> rows)) (w_db w)
  ∧ ∀ c, c ∈ rows → is_Some (w_links w !! Click.LinkID c).
Proof.
  unfold copy_clicks. intros H. inv_ok H. case_match; [done|]. case_match eqn:E; [|done]. inv_ok H.
  split; [done|]. intros c Hc. rewrite forallb_forall in E.
  specialize (E c (proj1 (list_elem_of_In _ _) Hc)). apply andb_true_iff in E as [E _].
  by apply bool_decide_eq_true in E.
Qed.

Lemma range_keys_Ok {V} (m : gmap UUID V) w ids w' :
  range_keys m w = (Ok ids, w') →
  w_db w' = w_db w ∧ NoDup ids ∧ ∀ id, id ∈ ids ↔ is_Some (m !! id).
Proof.
  unfold range_keys, tick. intros H. inv_ok H. simplify_eq. split; [done|].
  pose proof (o_range_perm (w_step w) (map_to_list m).*1) as Hp. split.
  - rewrite Hp. apply NoDup_fst_map_to_list.
  - intros id. rewrite Hp, list_elem_of_fmap. split.
    + intros ([i v] & -> & Hin). apply elem_of_map_to_list in Hin. by exists v.
    + intros [v Hv]. exists (id, v). by rewrite elem_of_map_to_list.
Qed.

Lemma record_rows_Ok clicks w codes w' :
  record_rows clicks w = (Ok codes, w') → batch_recorded clicks codes (w_db w) (w_db w').
Proof.
  unfold record_rows. intros H. apply bind_Ok in H as (r & w3 & Hr & H). destruct r as [u'|]; [|done].
  apply attempt_Ok, backend_Ok, copy_clicks_Ok in Hr as [Hd Hfk]. simpl in *.
  apply bind_Ok in H as (ids & w4 & Hids & H).
  apply range_keys_Ok in Hids as (Hd4 & Hnd & Hids).
  apply increment_spec in H as (Hot & Hct & Hres); [|done].
  rewrite Hd4, Hd in *. simpl in *.
  assert (Hdom : ∀ id, id ∈ ids ↔ ∃ c, c ∈ clicks ∧ Click.LinkID c = id).
  { intros id. by rewrite Hids, batch_counts_dom. }
  unfold only_links in Hot. split.
  - by rewrite Hot.
  - by rewrite Hot.
  - intros id Hn. specialize (Hct id). unfold counted in Hct. by rewrite Hn in Hct.
  - intros id l Hl. specialize (Hct id). unfold counted in Hct. rewrite Hl in Hct.
    case_decide as Hin.
    + destruct Hct as [t Ht]. rewrite batch_counts_lookup in Ht. eauto.
    + exists l. split; [done|]. left. split; [done|]. apply count_of_zero.
      intros c Hc <-. apply Hin, Hdom. by exists c.
  - done.
  - intros code. rewrite Hres. unfold reported. split.
    + intros [?%not_elem_of_nil|(id & l & (c & Hc & <-)%Hdom & H')]; [done|]. by exists c, l.
    + intros (c & l & Hc & H'). right. exists (Click.LinkID c), l. split; [|done].
      apply Hdom. by exists c.
Qed.

Lemma increment_no_panic counts ids ex : no_panic (increment counts ids ex).
Proof.
  revert ex. induction ids as [|id ids IH]; intros ex; cbn [increment]; [no_panic|].
  unfold increment_link. no_panic; apply IH.
Qed.

Lemma RecordBatch_no_panic clicks : no_panic (RecordBatch clicks).
Proof.
  unfold RecordBatch, record_rows, copy_clicks, range_keys. destruct clicks; no_panic.
  apply increment_no_panic.
Qed.

(** The batch is one transaction: every outcome. *)
Lemma RecordBatch_cases clicks w :
  match RecordBatch clicks w with
  | (Ok codes, w') => batch_recorded clicks codes (w_db w) (w_db w')
  | (Err _, w') =>
      w_db w' = w_db w ∨ ∃ codes, batch_recorded clicks codes (w_db w) (w_db w')
  | (Panic _, _) => False
  end.
Proof.
  destruct clicks as [|c0 cs]; [apply batch_recorded_nil|].
  pose proof (RecordBatch_no_panic (c0 :: cs) w) as Hnp.
  revert Hnp. unfold RecordBatch. remember (c0 :: cs) as clicks. clear Heqclicks.
  unfold mbind, M_bind, attempt at 1 2. unfold backend at 1 2.
  set (w1 := set_step _ w).
  destruct (o_fault (w_step w)) as [[msg [|]]|]; simpl; intros Hnp; [by left..|].
  assert (Hd1 : w_db w1 = w_db w) by done. rewrite <- Hd1. clearbody w1. clear Hd1 w.
  pose proof (transaction_db (errorf "commit click batch") (record_rows clicks) w1) as Hdb.
  destruct (transaction _ _ w1) as [[codes|e|p] w'] eqn:E; simpl in Hdb; [| |by eapply Hnp].
  - apply transaction_Ok in E as (w2 & E & ->). by apply record_rows_Ok in E.
  - destruct Hdb as [?|(codes & w2 & E' & ->)]; [by left|]. right. exists codes.
    by apply record_rows_Ok.
Qed.

Lemma RecordBatch_schema clicks : preserves schema (RecordBatch clicks).
Proof.
  intros w Hw. pose proof (RecordBatch_cases clicks w) as H. unfold schema in *.
  destruct (RecordBatch clicks w) as [[codes|e|p] w']; simpl; [| |done].
  - by eapply batch_recorded_schema.
  - destruct H as [->|[codes H]]; [done|]. by eapply batch_recorded_schema.
Qed.

(** C13: A batch of clicks is one transaction.  RecordBatch never panics; when it
    succeeds, the database is the old one with exactly the batch's rows appended, every
    link's counter moved by the number of its clicks in the batch and nothing else
    changed, and the answer is exactly the codes of the batch's links that have reached
    their limit; when it fails, nothing was written at all, or (a lost answer to COMMIT)
    the whole batch was.  The schema, the counters' agreement with the rows included,
    holds on every outcome. *)
Theorem RecordBatch_atomic clicks w :
  match RecordBatch clicks w with
  | (Ok codes, w') => batch_recorded clicks codes (w_db w) (w_db w')
  | (Err _, w') => w_db w' = w_db w ∨ ∃ codes, batch_recorded clicks codes (w_db w) (w_db w')
  | (Panic _, _) => False
  end
  ∧ (schema w → schema (RecordBatch clicks w).2).
Proof. split; [apply RecordBatch_cases|]. intros Hs. by apply RecordBatch_schema. Qed.

(** ** Batching

    The reference: one click at a time. *)
Fixpoint record_each (clicks : list Click.t) : M (list string) :=
  match clicks with
  | [] => mret []
  | c :: clicks => codes ← RecordBatch [c]; codes' ← record_each clicks; mret (codes ++ codes')
  end.

Lemma count_row_twice l n t m t' : count_row (count_row l n t) m t' = count_row l (n + m) t'.
Proof. unfold count_row. simpl. f_equal. lia. Qed.

Lemma exhausted_more l n t : 0 <= n → Link.IsExhausted l = true → Link.IsExhausted (count_row l n t) = true.
Proof. unfold Link.IsExhausted. simpl. destruct (Link.MaxClicks l); [|done]. rewrite !Z.leb_le. lia. Qed.

(** What a batch makes of a row. *)
Lemma batch_recorded_row clicks codes d d' id l' :
  batch_recorded clicks codes d d' → DB.links d' !! id = Some l' →
  ∃ l, DB.links d !! id = Some l ∧ Link.Code l' = Link.Code l
    ∧ (l' = l ∧ count_of id clicks = 0 ∨ ∃ t, l' = count_row l (count_of id clicks) t).
Proof.
  intros [_ _ Hn Hs _ _] Hl'. destruct (DB.links d !! id) as [l|] eqn:Hl; [|by rewrite Hn in Hl'].
  destruct (Hs id l Hl) as (l2 & Hl2 & Hc). simplify_eq. exists l. split_and!; [done| |done].
  by destruct Hc as [[-> _]|[t ->]].
Qed.

(** Two batches in a row are one. *)
Lemma batch_recorded_app b1 b2 c1 c2 d d1 d2 :
  batch_recorded b1 c1 d d1 → batch_recorded b2 c2 d1 d2 → batch_recorded (b1 ++ b2) (c1 ++ c2) d d2.
Proof.
  intros R1 R2. pose proof R1 as [Hc1 (Ht1 & Hk1 & Hw1) Hn1 Hs1 Hf1 Ho1].
  pose proof R2 as [Hc2 (Ht2 & Hk2 & Hw2) Hn2 Hs2 Hf2 Ho2]. split.
  - by rewrite Hc2, Hc1, fmap_app, (assoc_L (++)).
  - by rewrite Ht2, Hk2, Hw2.
  - auto.
  - intros id l Hl. destruct (Hs1 id l Hl) as (l1 & Hl1 & Hcase1). destruct (Hs2 id l1 Hl1) as (l2 & Hl2 & Hcase2).
    exists l2. split; [done|]. rewrite count_of_app.
    destruct Hcase1 as [[-> Hz1]|[t1 ->]], Hcase2 as [[-> Hz2]|[t2 ->]].
    + left. split; [done|lia].
    + right. exists t2. by rewrite Hz1, Z.add_0_l.
    + right. exists t1. by rewrite Hz2, Z.add_0_r.
    + right. exists t2. by rewrite count_row_twice.
  - intros c [Hc|Hc]%elem_of_app; [auto|]. destruct (Hf2 c Hc) as [l1 Hl1].
    destruct (batch_recorded_row _ _ _ _ _ _ R1 Hl1) as (l & Hl & _). eauto.
  - intros code. rewrite elem_of_app, Ho1, Ho2. split.
    + intros [(c & l1 & Hc & Hl1 & <- & Hx)|(c & l & Hc & Hl & Hx)]; [|exists c, l; rewrite elem_of_app; auto].
      destruct (Hs2 _ _ Hl1) as (l2 & Hl2 & Hcase). exists c, l2. rewrite elem_of_app.
      pose proof (count_of_nonneg (Click.LinkID c) b2).
      destruct Hcase as [[-> _]|[t ->]]; split_and!; auto. by apply exhausted_more.
    + intros (c & l & Hc & Hl & <- & Hx).
      destruct (Z.eq_dec (count_of (Click.LinkID c) b2) 0) as [Hz|(c' & Hc' & E)%count_of_nonzero].
      * assert (Hb1 : c ∈ b1).
        { apply elem_of_app in Hc as [?|Hc]; [done|]. by apply (proj1 (count_of_zero _ _) Hz) in Hc. }
        left. destruct (batch_recorded_row _ _ _ _ _ _ R2 Hl) as (l1 & Hl1 & Hcode & [[-> _]|[t ->]]); [eauto 10|].
        exists c, l1. split_and!; [done..|]. revert Hx. unfold Link.IsExhausted. simpl. by rewrite Hz, Z.add_0_r.
      * right. exists c', l. by rewrite E.
Qed.

Lemma record_each_Ok clicks w codes w' :
  record_each clicks w = (Ok codes, w') → batch_recorded clicks codes (w_db w) (w_db w').
Proof.
  revert w codes. induction clicks as [|c clicks IH]; intros w codes E.
  { unfold record_each in E. inv_ok E. apply batch_recorded_nil. }
  cbn [record_each] in E. apply bind_Ok in E as (c1 & w1 & E1 & E). apply bind_Ok in E as (c2 & w2 & E2 & E).
  inv_ok E. pose proof (RecordBatch_cases [c] w) as R1.
  rewrite (E1 : RecordBatch [c] w = (Ok c1, w1)) in R1.
  exact (batch_recorded_app [c] clicks _ _ _ _ _ R1 (IH _ _ E2)).
Qed.

(** Two rows that differ in their updated_at at most. *)
Definition same_row (a b : option Link.t) : Prop :=
  match a, b with
  | None, None => True
  | Some l, Some l' => ∃ t, l' = count_row l 0 t
  | _, _ => False
  end.

Lemma batch_recorded_det clicks c1 c2 d d1 d2 :
  batch_recorded clicks c1 d d1 → batch_recorded clicks c2 d d2 →
  DB.clicks d2 = DB.clicks d1
  ∧ (∀ id, same_row (DB.links d1 !! id) (DB.links d2 !! id))
  ∧ (∀ code, code ∈ c1 ↔ code ∈ c2).
Proof.
  intros [Hc1 _ Hn1 Hs1 _ Ho1] [Hc2 _ Hn2 Hs2 _ Ho2].
  assert (Hrow : ∀ id, same_row (DB.links d1 !! id) (DB.links d2 !! id)).
  { intros id. destruct (DB.links d !! id) as [l|] eqn:Hl; [|by rewrite Hn1, Hn2].
    destruct (Hs1 id l Hl) as (l1 & -> & H1), (Hs2 id l Hl) as (l2 & -> & H2). simpl.
    destruct H1 as [[-> Hz]|[t1 ->]], H2 as [[-> Hz']|[t2 ->]].
    - exists (Link.UpdatedAt l). unfold count_row. rewrite Z.add_0_r. by destruct l.
    - exists t2. by rewrite Hz.
    - exists (Link.UpdatedAt l). rewrite Hz', count_row_twice. unfold count_row. rewrite Z.add_0_r. by destruct l.
    - exists t2. by rewrite count_row_twice, Z.add_0_r. }
  split_and!; [by rewrite Hc1, Hc2|exact Hrow|].
  assert (Hx : ∀ c l l', DB.links d1 !! Click.LinkID c = Some l → DB.links d2 !! Click.LinkID c = Some l' →
    Link.Code l' = Link.Code l ∧ Link.IsExhausted l' = Link.IsExhausted l).
  { intros c l l' H1 H2. pose proof (Hrow (Click.LinkID c)) as H. rewrite H1, H2 in H. destruct H as [t ->].
    split; [done|]. unfold Link.IsExhausted. simpl. by rewrite Z.add_0_r. }
  intros code. rewrite Ho1, Ho2. split; intros (c & l & Hc & Hl & <- & Hex).
  - pose proof (Hrow (Click.LinkID c)) as H. rewrite Hl in H. destruct (DB.links d2 !! _) as [l'|] eqn:Hl'; [|done].
    destruct (Hx c l l' Hl Hl') as [E1 E2]. exists c, l'. by rewrite E1, E2.
  - pose proof (Hrow (Click.LinkID c)) as H. rewrite Hl in H. destruct (DB.links d1 !! _) as [l'|] eqn:Hl'; [|done].
    destruct (Hx c l' l Hl' Hl) as [E1 E2]. exists c, l'. by rewrite <- E1, <- E2.
Qed.

(** C14: Batching changes nothing but the cost.  A batch written in one transaction and
    its clicks written one at a time, from the same tables, leave the same click rows in
    the same order, the same links with the same counters (up to updated_at), and report
    the same codes as exhausted: where the
    pipeline cuts the stream of clicks does not matter. *)
Theorem batch_is_each clicks w codes w1 codes' w2 :
  RecordBatch clicks w = (Ok codes, w1) → record_each clicks w = (Ok codes', w2) →
  DB.clicks (w_db w2) = DB.clicks (w_db w1)
  ∧ (∀ id, same_row (w_links w1 !! id) (w_links w2 !! id))
  ∧ (∀ code, code ∈ codes ↔ code ∈ codes').
Proof.
  intros E1 E2%record_each_Ok. pose proof (RecordBatch_cases clicks w) as R. rewrite E1 in R.
  by apply (batch_recorded_det clicks _ _ (w_db w)).
Qed.

(** COPY refuses the whole batch. *)
Lemma copy_clicks_invalid rows c w :
  c ∈ rows → forallb pg_text (click_texts c) = false → copy_clicks rows w = (Err invalid_text, w).
Proof.
  intros Hc Hx. unfold copy_clicks. rewrite gets_bind. destruct (forallb (λ c, forallb pg_text _) rows) eqn:E; [|done].
  rewrite forallb_forall in E. specialize (E c (proj1 (list_elem_of_In _ _) Hc)). congruence.
Qed.

(** C15: One click can lose a batch.  A Referer or User-Agent header may hold any bytes,
    and is stored as it came: whenever a single click of a batch has a text column that
    is not UTF-8, or holds a NUL byte, the batch fails and nothing of it is written, the
    clicks of every other visitor and link included. *)
Theorem one_click_loses_batch clicks c w :
  c ∈ clicks → forallb pg_text (click_texts c) = false →
  ∃ e w', RecordBatch clicks w = (Err e, w') ∧ w_db w' = w_db w.
Proof.
  intros Hc Hx. destruct clicks as [|c0 cs]; [by apply not_elem_of_nil in Hc|].
  unfold RecordBatch. remember (c0 :: cs) as clicks eqn:E. clear E c0 cs. rewrite attempt_bind.
  unfold backend at 1. destruct (o_fault (w_step w)) as [[msg ap]|].
  - eexists _, _. split; [reflexivity|]. by destruct ap.
  - simpl. unfold transaction, record_rows. rewrite attempt_bind. unfold backend at 1.
    rewrite (copy_clicks_invalid clicks c _ Hc Hx).
    destruct (o_fault _) as [[msg ap]|]; simpl; eexists _, _; (split; [reflexivity|done]).
Qed.

Lemma increment_redis r counts ids ex :
  preserves (λ w, w_redis w = r) (increment counts ids ex).
Proof.
  revert ex. induction ids as [|id ids IH]; intros ex; cbn [increment]; [preserve|].
  unfold increment_link. preserve; try apply IH; done.
Qed.
End record_batch.
