(* ===== verification/LinkCache.v ===== *)
(** The Redis cache of the redirect path (internal/repository/link_cache.go). *)
From stdpp Require Import prelude gmap strings list.
From Stdlib Require Import Ascii.
From S2P Require Import Prelude GoStd Rfc3339 Json Domain Wire Enrich World.

Local Open Scope Z_scope.

(** ["\x00NEG"]. *)
Definition negativeMarker : string := String "000"%char "NEG".

Definition cacheKey (code : string) : string := "link:" +:+ code.

Module cachedLink.
Record t := Mk {
  ID : string;
  TenantID : string;
  Code : string;
  TargetURL : string;
  RedirectType : Z;
  ExpiresAt : option Time;
  MaxClicks : option Z;
  ClickCount : Z;
}.
End cachedLink.

(** * The entry as JSON *)

Section encoding.
Context `{Codec}.

Definition cached_tree (c : cachedLink.t) : option tree :=
  expires ← omitempty "expires_at" time_tree (cachedLink.ExpiresAt c);
  max ← omitempty "max_clicks" (λ n, Some (TInt n)) (cachedLink.MaxClicks c);
  Some (TObject ([field "id" (TText (bytes_of (cachedLink.ID c)));
                  field "tenant_id" (TText (bytes_of (cachedLink.TenantID c)));
                  field "code" (TText (bytes_of (cachedLink.Code c)));
                  field "target_url" (TText (bytes_of (cachedLink.TargetURL c)));
                  field "redirect_type" (TInt (cachedLink.RedirectType c))]
                 ++ expires ++ max ++ [field "click_count" (TInt (cachedLink.ClickCount c))])).

(** [json.Marshal] of a [cachedLink]. *)
Definition json_Marshal (c : cachedLink.t) : option string := string_of ∘ encode <$> cached_tree c.

(** One member of the object into the struct; an unknown name is ignored. *)
Definition decode_member (c : cachedLink.t) (m : list ascii * list ascii * json) : option cachedLink.t :=
  let '(cachedLink.Mk id tenant code target rt expires max count) := c in
  let '(key, _, v) := m in
  if names "id" key then (λ x, cachedLink.Mk x tenant code target rt expires max count) <$> to_string id v
  else if names "tenant_id" key then (λ x, cachedLink.Mk id x code target rt expires max count) <$> to_string tenant v
  else if names "code" key then (λ x, cachedLink.Mk id tenant x target rt expires max count) <$> to_string code v
  else if names "target_url" key then (λ x, cachedLink.Mk id tenant code x rt expires max count) <$> to_string target v
  else if names "redirect_type" key then (λ x, cachedLink.Mk id tenant code target x expires max count) <$> to_int rt v
  else if names "expires_at" key then
    (λ x, cachedLink.Mk id tenant code target rt x max count) <$> to_pointer (to_time (default zero_time expires)) v
  else if names "max_clicks" key then
    (λ x, cachedLink.Mk id tenant code target rt expires x count) <$> to_pointer (to_int (default 0 max)) v
  else if names "click_count" key then (λ x, cachedLink.Mk id tenant code target rt expires max x) <$> to_int count v
  else Some c.

Definition zero_cached : cachedLink.t := cachedLink.Mk "" "" "" "" 0 None None 0.

Definition to_cached (v : json) : option cachedLink.t :=
  match v with
  | JNull => Some zero_cached
  | JObject ms => foldl (λ acc m, c ← acc; decode_member c m) (Some zero_cached) ms
  | _ => None
  end.

(** [json.Unmarshal] into a [cachedLink]. *)
Definition json_Unmarshal : string → option cachedLink.t := Unmarshal to_cached.

(** ** What is read back *)

Definition utf8_fields (c : cachedLink.t) : Prop :=
  ValidString (cachedLink.ID c) = true ∧ ValidString (cachedLink.TenantID c) = true
  ∧ ValidString (cachedLink.Code c) = true ∧ ValidString (cachedLink.TargetURL c) = true.

(** The integers of the struct fit their types. *)
Definition int_fields (c : cachedLink.t) : bool :=
  in_int64 (cachedLink.RedirectType c) && match cachedLink.MaxClicks c with Some n => in_int64 n | None => true end
  && in_int64 (cachedLink.ClickCount c).

Definition decode_members (c : option cachedLink.t) (ms : list (list ascii * tree)) : option cachedLink.t :=
  foldl (λ acc m, c ← acc; decode_member c m) c (map member_of ms).

Lemma decode_cons c m ms :
  decode_members (Some c) (m :: ms) = decode_members (decode_member c (member_of m)) ms.
Proof. done. Qed.

Lemma decode_None ms : decode_members None ms = None.
Proof. unfold decode_members. by induction (map member_of ms). Qed.

(** What decoding leaves of an integer that may be out of range. *)
Lemma decode_int {A} (f : Z → A) z old :
  f <$> to_int old (json_of (TInt z)) = if in_int64 z then Some (f z) else None.
Proof. rewrite to_int_int. by destruct (in_int64 z). Qed.

(** The members of an entry, decoded in their order. *)
Lemma decode_tree c ms :
  utf8_fields c → cached_tree c = Some (TObject ms) →
  decode_members (Some zero_cached) ms = if int_fields c then Some c else None.
Proof.
  destruct c as [id tenant code target rt expires max count]. intros (H1 & H2 & H3 & H4).
  unfold cached_tree, int_fields. cbn [cachedLink.ID cachedLink.TenantID cachedLink.Code cachedLink.TargetURL
    cachedLink.RedirectType cachedLink.ExpiresAt cachedLink.MaxClicks cachedLink.ClickCount] in *.
  intros Ht. unfold zero_cached.
  assert (Hhead : ∀ rest,
    decode_members (Some zero_cached)
      (field "id" (TText (bytes_of id)) :: field "tenant_id" (TText (bytes_of tenant))
       :: field "code" (TText (bytes_of code)) :: field "target_url" (TText (bytes_of target))
       :: field "redirect_type" (TInt rt) :: rest)
    = if in_int64 rt then decode_members (Some (cachedLink.Mk id tenant code target rt None None 0)) rest else None).
  { intros rest. unfold zero_cached.
    do 4 (rewrite decode_cons; unfold decode_member at 1; cbn [member_of field fst snd]; decide_names;
          rewrite to_string_valid by done; cbn [fmap option_fmap option_map]).
    rewrite decode_cons; unfold decode_member at 1; cbn [member_of field fst snd]; decide_names.
    rewrite decode_int. destruct (in_int64 rt); [done|apply decode_None]. }
  assert (Hcount : ∀ e m, decode_members (Some (cachedLink.Mk id tenant code target rt e m 0)) [field "click_count" (TInt count)]
    = if in_int64 count then Some (cachedLink.Mk id tenant code target rt e m count) else None).
  { intros e m. rewrite decode_cons; unfold decode_member at 1; cbn [member_of field fst snd]; decide_names.
    rewrite decode_int. by destruct (in_int64 count). }
  assert (Hmax : ∀ e ml, omitempty "max_clicks" (λ n, Some (TInt n)) max = Some ml →
    decode_members (Some (cachedLink.Mk id tenant code target rt e None 0)) (ml ++ [field "click_count" (TInt count)])
    = if match max with Some n => in_int64 n | None => true end && in_int64 count
      then Some (cachedLink.Mk id tenant code target rt e max count) else None).
  { intros e ml. destruct max as [n|]; cbn [omitempty mbind option_bind]; intros [= <-]; [|apply Hcount].
    cbn [app]. rewrite decode_cons; unfold decode_member at 1; cbn [member_of field fst snd]; decide_names.
    change (to_pointer (to_int _) (json_of (TInt n))) with (Some <$> to_int 0 (json_of (TInt n))).
    rewrite to_int_int. destruct (in_int64 n); cbn [fmap option_fmap option_map andb]; [apply Hcount|apply decode_None]. }
  destruct (omitempty "expires_at" time_tree expires) as [el|] eqn:He; [|done].
  destruct (omitempty "max_clicks" _ max) as [ml|] eqn:Hm; [|done]. cbn [mbind option_bind] in Ht. injection Ht as <-.
  cbn [app]. rewrite Hhead. destruct (in_int64 rt); cbn [andb]; [|done].
  destruct expires as [t|]; cbn [omitempty] in He; [|injection He as <-; by apply Hmax].
  unfold time_tree in He. destruct (time_MarshalText t (local_offset t)) as [l|] eqn:Htm; [|done].
  cbn [fmap option_fmap option_map mbind option_bind] in He. injection He as <-. cbn [app].
  rewrite decode_cons; unfold decode_member at 1; cbn [member_of field fst snd]; decide_names.
  change (to_pointer (to_time ?o) (json_of (TText l))) with (Some <$> to_time o (json_of (TText l))).
  rewrite (to_time_text _ t (local_offset t) l Htm). cbn [fmap option_fmap option_map]. by apply Hmax.
Qed.

(** An entry is read back as it was written, if its integers fit; a text that is not
    UTF-8 would have changed. *)
Lemma json_read_back c v :
  utf8_fields c → json_Marshal c = Some v → json_Unmarshal v = if int_fields c then Some c else None.
Proof.
  intros Hc. unfold json_Marshal, json_Unmarshal, Unmarshal.
  destruct (cached_tree c) as [t|] eqn:Ht; [|done]. intros [= <-]. cbn [compose]. rewrite bytes_of_string_of.
  assert (∃ ms, t = TObject ms ∧ Forall (λ m, nesting m.2 = 0%nat) ms) as (ms & -> & Hms).
  { revert Ht. unfold cached_tree, time_tree.
    destruct (cachedLink.ExpiresAt c) as [e|], (cachedLink.MaxClicks c) as [m|]; cbn [omitempty];
      try destruct (time_MarshalText e _); intros [= <-]; eexists; (split; [done|]); by repeat constructor. }
  rewrite scan_of_encode; [|cbn [nesting]; apply nests_two, (Nat.le_trans _ 1); [|lia]; apply le_n_S, list_max_le, Forall_map; by eapply Forall_impl; [done|intros ? ->]].
  cbn [mbind option_bind]. by apply decode_tree.
Qed.

Lemma json_roundtrip c v :
  utf8_fields c → int_fields c = true → json_Marshal c = Some v → json_Unmarshal v = Some c.
Proof. intros Hc Hi Hm. by rewrite (json_read_back c v Hc Hm), Hi. Qed.

Lemma json_same c c' v :
  utf8_fields c → json_Marshal c = Some v → json_Unmarshal v = Some c' → c' = c.
Proof. intros Hc Hm. rewrite (json_read_back c v Hc Hm). by destruct (int_fields c); intros [= <-]. Qed.

Lemma json_object c v : json_Marshal c = Some v → v ≠ negativeMarker.
Proof.
  unfold json_Marshal, cached_tree. destruct (omitempty "expires_at" _ _); [|done].
  destruct (omitempty "max_clicks" _ _); [|done]. by intros [= <-].
Qed.
End encoding.

Section conversion.
Context `{Codec}.

Definition fromDomain (l : Link.t) : cachedLink.t :=
  {| cachedLink.ID := uuid_String (Link.ID l);
     cachedLink.TenantID := uuid_String (Link.TenantID l);
     cachedLink.Code := Link.Code l;
     cachedLink.TargetURL := Link.TargetURL l;
     cachedLink.RedirectType := Link.RedirectType l;
     cachedLink.ExpiresAt := Link.ExpiresAt l;
     cachedLink.MaxClicks := Link.MaxClicks l;
     cachedLink.ClickCount := Link.ClickCount l |}.

Definition toDomain (cl : cachedLink.t) : Link.t + error :=
  match uuid_Parse (cachedLink.ID cl) with
  | None => inr (errorf "cache decode id" (EOther "invalid UUID"))
  | Some id =>
      match uuid_Parse (cachedLink.TenantID cl) with
      | None => inr (errorf "cache decode tenant id" (EOther "invalid UUID"))
      | Some tenantID =>
          inl {| Link.ID := id;
                 Link.TenantID := tenantID;
                 Link.Code := cachedLink.Code cl;
                 Link.TargetURL := cachedLink.TargetURL cl;
                 Link.RedirectType := cachedLink.RedirectType cl;
                 Link.ExpiresAt := cachedLink.ExpiresAt cl;
                 Link.MaxClicks := cachedLink.MaxClicks cl;
                 Link.ClickCount := cachedLink.ClickCount cl;
                 Link.CreatedAt := zero_time;
                 Link.UpdatedAt := zero_time;
                 Link.DeletedAt := None |}
      end
  end.

(** The fields a snapshot keeps of a link. *)
Definition snapshot (l : Link.t) : Link.t :=
  {| Link.ID := Link.ID l;
     Link.TenantID := Link.TenantID l;
     Link.Code := Link.Code l;
     Link.TargetURL := Link.TargetURL l;
     Link.RedirectType := Link.RedirectType l;
     Link.ExpiresAt := Link.ExpiresAt l;
     Link.MaxClicks := Link.MaxClicks l;
     Link.ClickCount := Link.ClickCount l;
     Link.CreatedAt := zero_time;
     Link.UpdatedAt := zero_time;
     Link.DeletedAt := None |}.

Lemma utf8_fromDomain `{!CodecLaws} l :
  ValidString (Link.Code l) = true → ValidString (Link.TargetURL l) = true → utf8_fields (fromDomain l).
Proof. intros. by split_and!; try apply uuid_text. Qed.

Lemma toDomain_fromDomain `{!CodecLaws} l : toDomain (fromDomain l) = inl (snapshot l).
Proof. unfold toDomain. simpl. by rewrite !uuid_roundtrip. Qed.
End conversion.

(** * Redis commands *)

Section commands.
Context `{O : Oracle}.

(** The expiry SET leaves on a key: go-redis sends a positive duration in
    milliseconds, one at least; -1 keeps the expiry [old] of the key, and zero or
    another negative duration sets none. *)
Definition redis_px (ttl : Duration) : Duration :=
  Z.max Millisecond (ttl / Millisecond * Millisecond).

Definition redis_expiry (old : option Time) (at_ : Time) (ttl : Duration) : option Time :=
  if 0 <? ttl then Some (at_ + redis_px ttl)
  else if ttl =? -1 then old else None.

Definition redis_GET (key : string) : M string :=
  backend (λ n, r ← gets w_redis;
    match Redis.get (o_now n) key r with Some v => mret v | None => fail ERedisNil end).

Definition redis_SET (key value : string) (ttl : Duration) : M () :=
  backend (λ n, r ← gets w_redis;
    let old := match Redis.get (o_now n) key r with
               | Some _ => Redis.strs r !! key ≫= snd | None => None end in
    modify (upd_redis (Redis.with_strs <[key := (value, redis_expiry old (o_now n) ttl)]>))).

Definition redis_DEL (key : string) : M () :=
  backend (λ _, modify (upd_redis (Redis.with_strs (delete key)))).
End commands.

(** [errors.Is(err, redis.Nil)]. *)
Definition IsRedisNil (e : error) : bool := bool_decide (e = ERedisNil).

(** * The cache *)

Module LinkCache.

(** The fields of the struct: [ttl] and [negTTL]. *)
Record t := Mk { ttl : Duration; negTTL : Duration }.

Section cache.
Context `{O : Oracle} `{Codec} (c : t).

(** [(link, authoritative)]. *)
Definition Get (code : string) : M (option Link.t * bool) :=
  r ← attempt (redis_GET (cacheKey code));
  match r with
  | inr err =>
      if IsRedisNil err then mret (None, false) else fail (errorf "cache get" err)
  | inl val =>
      if String.eqb val negativeMarker then mret (None, true)
      else match json_Unmarshal val with
           | None => fail (errorf "cache decode" (EOther "invalid JSON"))
           | Some cl =>
               match toDomain cl with
               | inr err => fail err
               | inl link => mret (Some link, true)
               end
           end
  end.

Definition Set_ (l : Link.t) : M () :=
  match json_Marshal (fromDomain l) with
  | None => fail (errorf "cache encode" (EOther "json: year outside of range [0,9999]"))
  | Some payload =>
      r ← attempt (redis_SET (cacheKey (Link.Code l)) payload (ttl c));
      match r with inl _ => mret () | inr err => fail (errorf "cache set" err) end
  end.

Definition SetNegative (code : string) : M () :=
  r ← attempt (redis_SET (cacheKey code) negativeMarker (negTTL c));
  match r with inl _ => mret () | inr err => fail (errorf "cache set negative" err) end.

Definition Invalidate (code : string) : M () :=
  r ← attempt (redis_DEL (cacheKey code));
  match r with inl _ => mret () | inr err => fail (errorf "cache invalidate" err) end.
End cache.
End LinkCache.

Lemma cacheKey_inj a b : cacheKey a = cacheKey b → a = b.
Proof. unfold cacheKey. simpl. by intros ?; simplify_eq. Qed.

(** * What each command leaves in the keyspace *)

Section cache_lemmas.
Context `{O : Oracle} `{C : Codec} (c : LinkCache.t).
Import LinkCache.

Lemma redis_px_bounds ttl : Millisecond <= redis_px ttl <= Z.max ttl Millisecond.
Proof.
  unfold redis_px, Millisecond. pose proof (Z.div_mod ttl 1000000).
  pose proof (Z.mod_pos_bound ttl 1000000). lia.
Qed.

(** The commands leave everything but the keyspace alone. *)
Lemma Get_world code w : ∃ n, (Get code w).2 = set_step n w.
Proof.
  unfold Get, mbind, M_bind, attempt, redis_GET, backend.
  destruct (o_fault _) as [[msg ap]|]; simpl.
  - exists (S (w_step w)). destruct ap; unfold mbind, M_bind, gets; simpl; [|done].
    by destruct (Redis.get _ _ _).
  - exists (S (w_step w)). unfold mbind, M_bind, gets. simpl.
    destruct (Redis.get _ _ _); simpl; [|done]. by repeat (case_match; simpl).
Qed.

Lemma redis_SET_db key v ttl d : preserves (λ w, w_db w = d) (redis_SET key v ttl).
Proof. unfold redis_SET. preserve; done. Qed.

Lemma redis_DEL_db key d : preserves (λ w, w_db w = d) (redis_DEL key).
Proof. unfold redis_DEL. preserve; done. Qed.
End cache_lemmas.

(** * What Set stores, Get answers *)

Section stored.
Context `{O : Oracle} `{Codec} `{!CodecLaws} (c : LinkCache.t).

Lemma Set_stores l w w1 :
  LinkCache.Set_ c l w = (Ok tt, w1) → 0 <= LinkCache.ttl c →
  ∃ v, json_Marshal (fromDomain l) = Some v
       ∧ w_redis w1 = Redis.with_strs
           <[cacheKey (Link.Code l) :=
               (v, if 0 <? LinkCache.ttl c then Some (o_now (w_step w) + redis_px (LinkCache.ttl c)) else None)]>
           (w_redis w).
Proof.
  unfold LinkCache.Set_. intros E Httl. destruct (json_Marshal (fromDomain l)) as [v|]; [|done].
  exists v. split; [done|]. apply bind_Ok in E as ([[]|e] & w2 & Hs & E); [|done]. inv_ok E.
  apply attempt_Ok in Hs. unfold redis_SET in Hs. apply backend_Ok in Hs.
  apply bind_Ok in Hs as (rd & w3 & Hg & Hs). unfold gets in Hg. simplify_eq/=.
  unfold modify in Hs. simplify_eq/=. unfold redis_expiry.
  destruct (Z.ltb_spec 0 (LinkCache.ttl c)); [done|].
  by rewrite (proj2 (Z.eqb_neq (LinkCache.ttl c) (-1))) by lia.
Qed.

(** C24: What the cache stores, it answers.  After a successful Set, as long as nothing
    else writes to Redis, a Get that does not fail answers the snapshot of the very
    link until its expiry, the lifetime in milliseconds, and a miss from then on: the
    URL, the cap, the counter and the expiry go through JSON and RFC 3339 unharmed. *)
Theorem cached_link_comes_back l w w1 w2 :
  LinkCache.Set_ c l w = (Ok tt, w1) → 0 <= LinkCache.ttl c →
  ValidString (Link.Code l) = true → ValidString (Link.TargetURL l) = true → int_fields (fromDomain l) = true →
  w_redis w2 = w_redis w1 → o_fault (w_step w2) = None →
  (LinkCache.Get (Link.Code l) w2).1
  = if (0 <? LinkCache.ttl c) && (o_now (w_step w) + redis_px (LinkCache.ttl c) <=? o_now (w_step w2))
    then Ok (None, false) else Ok (Some (snapshot l), true).
Proof.
  intros Hs Httl Hc Hu Hi Hr Hf. destruct (Set_stores l w w1 Hs Httl) as (v & Hm & Hw1). rewrite Hw1 in Hr. clear Hw1.
  assert (Hj := json_roundtrip _ _ (utf8_fromDomain l Hc Hu) Hi Hm).
  assert (Hn := json_object _ _ Hm).
  assert (Hget : Redis.get (o_now (w_step w2)) (cacheKey (Link.Code l)) (w_redis w2)
    = if (0 <? LinkCache.ttl c) && (o_now (w_step w) + redis_px (LinkCache.ttl c) <=? o_now (w_step w2)) then None else Some v).
  { rewrite Hr. unfold Redis.get, Redis.with_strs. simpl. rewrite lookup_insert_eq. simpl. unfold Redis.visible. simpl.
    destruct (0 <? LinkCache.ttl c); [|done]. rewrite Z.ltb_antisym. by destruct (_ <=? _). }
  unfold LinkCache.Get, redis_GET, backend, attempt, mbind, M_bind, gets. rewrite Hf. simpl. rewrite Hget.
  destruct (_ && _); simpl; [done|].
  rewrite (proj2 (String.eqb_neq v negativeMarker) Hn). simpl. rewrite Hj, toDomain_fromDomain. done.
Qed.
End stored.
