(* ===== verification/Shortcode.v ===== *)
(** Package shortcode: base62 codes and custom aliases
    (internal/shortcode/shortcode.go), and the interface the link service uses
    the generator through. *)
From stdpp Require Import prelude gmap strings list.
From Stdlib Require Import Ascii.
From S2P Require Import Prelude GoStd Domain Enrich World.

Local Open Scope Z_scope.

Definition alphabet : string := "0123456789ABCDEFGHIJKLMNOPQRSTUVWXYZabcdefghijklmnopqrstuvwxyz".
Definition base : Z := len alphabet.
Definition maxUnbiased : Z := (256 / 62) * 62.

(** * Generated codes *)

Module Generator.
Record t := Mk { length : Z }.
End Generator.

Definition NewGenerator (length : Z) : Generator.t :=
  Generator.Mk (if length <? 1 then 1 else length).

Definition Length (g : Generator.t) : Z := Generator.length g.

(** The character a random byte gives, none if it is rejected. *)
Definition encode (b : ascii) : option ascii :=
  if maxUnbiased <=? byte_val b then None
  else Some (nth (Z.to_nat (byte_val b mod base)) (bytes_of alphabet) "0"%char).

(** One pass over the buffer: [out] holds the [filled] characters. *)
Fixpoint fill (n : nat) (out : list ascii) (buf : list ascii) : list ascii :=
  match buf with
  | [] => out
  | b :: buf =>
      match encode b with
      | None => fill n out buf
      | Some c =>
          let out := out ++ [c] in
          if (length out =? n)%nat then out else fill n out buf
      end
  end.

Section generate.
Context `{O : Oracle}.

(** The outer loop, [fuel] buffers at most. *)
Fixpoint generate_loop (fuel n : nat) (out : list ascii) : M string :=
  if (n <=? length out)%nat then mret (string_of out)
  else match fuel with
  | 0%nat => panic "out of fuel"
  | S fuel =>
      r ← attempt (rand_Read (2 * n));
      match r with
      | inr err => fail (errorf "read random bytes" err)
      | inl buf => generate_loop fuel n (fill n out buf)
      end
  end.

Definition Generate (fuel : nat) (g : Generator.t) : M string :=
  generate_loop fuel (Z.to_nat (Generator.length g)) [].
End generate.

(** * Aliases *)

Definition alias_char (c : ascii) : bool :=
  let b := byte_val c in
  ((65 <=? b) && (b <=? 90)) || ((97 <=? b) && (b <=? 122)) || ((48 <=? b) && (b <=? 57))
  || (b =? 95) || (b =? 45).

(** [aliasPattern]: ^[A-Za-z0-9_-]{3,64}$. *)
Definition aliasPattern (s : string) : bool :=
  (3 <=? len s) && (len s <=? 64) && forallb alias_char (bytes_of s).

Definition reserved : list string :=
  ["api"; "healthz"; "readyz"; "metrics"; "admin"; "static"; "favicon.ico"; "robots.txt";
   "links"; "webhooks"; "settings"; "assets"; "going-private"].

Definition IsReserved (s : string) : bool := existsb (String.eqb s) reserved.

Definition ValidAlias (s : string) : bool := aliasPattern s && negb (IsReserved s).

Example ValidAlias_tests :
  ValidAlias <$> ["my-link"; "my_link_2"; "abc"; "ab"; "my link"; "my/link"; "my.link"; "api";
                  "metrics"; "links"; "going-private"; ""]
  = [true; true; true; false; false; false; false; false; false; false; false; false].
Proof. vm_compute. reflexivity. Qed.

(** * Properties of the generator *)

Definition code_char (c : ascii) : bool := existsb (λ d, bool_decide (c = d)) (bytes_of alphabet).

Lemma fill_spec n out buf :
  (length out < n)%nat → fill n out buf = take n (out ++ omap encode buf).
Proof.
  revert out. induction buf as [|b buf IH]; intros out Hlt; csimpl.
  - rewrite app_nil_r, take_ge; [done|lia].
  - destruct (encode b) as [c|] eqn:E; csimpl; [|by apply IH].
    destruct (Nat.eqb_spec (length (out ++ [c])) n) as [<-|Hne].
    + change (c :: omap encode buf) with ([c] ++ omap encode buf).
      by rewrite app_assoc, take_app_length.
    + rewrite length_app in Hne. simpl in Hne.
      rewrite IH by (rewrite length_app; simpl; lia). by rewrite <- app_assoc.
Qed.

Lemma encode_code_char b c : encode b = Some c → code_char c = true.
Proof.
  assert (H : match encode b with Some c => code_char c | None => true end = true).
  { destruct b as [[] [] [] [] [] [] [] []]; vm_compute; reflexivity. }
  intros E. by rewrite E in H.
Qed.

Definition all_bytes : list ascii := (λ n, byte_of (Z.of_nat n)) <$> seq 0 256.

(** Every character of the alphabet is the image of exactly four bytes. *)
Lemma encode_four :
  Forall (λ c, length (filter (λ b, encode b = Some c) all_bytes) = 4%nat) (bytes_of alphabet).
Proof. repeat (constructor; [vm_compute; reflexivity|]). constructor. Qed.

Section generate_lemmas.
Context `{O : Oracle}.

(** The bytes of [k] buffers of [2 * n], read from effect [i] on. *)
Definition stream (i k n : nat) : list ascii :=
  mjoin ((λ j, o_rand j (2 * n)) <$> seq i k).

Lemma stream_S i k n : stream i (S k) n = o_rand i (2 * n) ++ stream (S i) k n.
Proof. done. Qed.

Lemma rand_Read_Ok k w buf w' :
  rand_Read k w = (Ok buf, w') → buf = o_rand (w_step w) k ∧ w' = set_step (S (w_step w)) w.
Proof. unfold rand_Read. intros H. inv_ok H. done. Qed.

Lemma set_step_id n m w : set_step n (set_step m w) = set_step n w.
Proof. done. Qed.

Lemma generate_loop_Ok fuel n out w code w' :
  (length out ≤ n)%nat → generate_loop fuel n out w = (Ok code, w') →
  ∃ k, (k ≤ fuel)%nat ∧ w' = set_step (w_step w + k) w
    ∧ code = string_of (take n (out ++ omap encode (stream (w_step w) k n)))
    ∧ String.length code = n.
Proof.
  revert out w. induction fuel as [|fuel IH]; intros out w Hle H; cbn [generate_loop] in H;
    (destruct (Nat.leb_spec n (length out)) as [Hn|Hn];
     [inv_ok H; exists 0%nat; rewrite Nat.add_0_r; split_and!;
        [lia | by destruct w' | simpl; rewrite app_nil_r, take_ge by lia; done
        | rewrite length_string_of; lia] | ]).
  - done.
  - apply bind_Ok in H as (r & w1 & Hr & H). destruct r as [buf|]; [|done].
    apply attempt_Ok, rand_Read_Ok in Hr as [-> ->].
    apply IH in H as (k & Hk & -> & -> & Hlen).
    + exists (S k). split_and!; [lia | rewrite set_step_id; f_equal; simpl; lia | | done].
      rewrite stream_S, omap_app, fill_spec by done. simpl.
      by rewrite take_take_app, app_assoc.
    + rewrite fill_spec by done. rewrite length_take. lia.
Qed.

(** What a successful Generate returns. *)
Lemma Generate_Ok fuel g w code w' :
  Generate fuel g w = (Ok code, w') →
  ∃ k, (k ≤ fuel)%nat ∧ w' = set_step (w_step w + k) w
    ∧ String.length code = Z.to_nat (Generator.length g)
    ∧ bytes_of code = take (Z.to_nat (Generator.length g))
        (omap encode (stream (w_step w) k (Z.to_nat (Generator.length g))))
    ∧ forallb code_char (bytes_of code) = true.
Proof.
  unfold Generate. intros H. apply generate_loop_Ok in H as (k & ? & -> & -> & ?); [|simpl; lia].
  exists k. split_and!; [done.. | by rewrite bytes_of_string_of |].
  rewrite bytes_of_string_of. simpl. apply forallb_forall. intros c Hc%list_elem_of_In.
  apply elem_of_take in Hc. apply list_elem_of_omap in Hc as (b & _ & Hb).
  by eapply encode_code_char.
Qed.

(** The loop ends as soon as the buffers read hold enough accepted bytes. *)
Lemma generate_loop_terminates fuel n out w :
  (length out ≤ n)%nat →
  (n ≤ length (out ++ omap encode (stream (w_step w) fuel n)))%nat →
  (∀ i, (w_step w ≤ i < w_step w + fuel)%nat → o_fault i = None) →
  ∃ code w', generate_loop fuel n out w = (Ok code, w').
Proof.
  revert out w. induction fuel as [|fuel IH]; intros out w Hle Hn Hok; cbn [generate_loop].
  - simpl in Hn. rewrite app_nil_r in Hn. rewrite (proj2 (Nat.leb_le _ _)) by lia. by do 2 eexists.
  - destruct (Nat.leb_spec n (length out)) as [?|Hlt]; [by do 2 eexists|].
    unfold mbind, M_bind, attempt, rand_Read, backend. rewrite Hok by lia. simpl.
    apply IH.
    + rewrite fill_spec by done. rewrite length_take. lia.
    + rewrite fill_spec, length_app, length_take by done.
      rewrite stream_S, omap_app, !length_app in Hn. simpl in *. rewrite !length_app. lia.
    + intros i Hi. apply Hok. simpl in Hi. lia.
Qed.

(** C40: Generated codes.  As soon as the buffers read hold enough unbiased bytes and no
    read fails, Generate returns; the code has the configured length, its characters
    are the images of the first bytes accepted, in order, and every character of the
    base62 alphabet is the image of exactly four of the 256 bytes, so that uniform
    bytes give uniform codes. *)
Theorem Generate_correct fuel g w :
  (Z.to_nat (Generator.length g)
   ≤ length (omap encode (stream (w_step w) fuel (Z.to_nat (Generator.length g)))))%nat →
  (∀ i, (w_step w ≤ i < w_step w + fuel)%nat → o_fault i = None) →
  (∃ code w' k, Generate fuel g w = (Ok code, w')
     ∧ String.length code = Z.to_nat (Generator.length g)
     ∧ bytes_of code = take (Z.to_nat (Generator.length g))
         (omap encode (stream (w_step w) k (Z.to_nat (Generator.length g))))
     ∧ forallb code_char (bytes_of code) = true)
  ∧ ∀ c, c ∈ bytes_of alphabet → length (filter (λ b, encode b = Some c) all_bytes) = 4%nat.
Proof.
  intros Hn Hf. split.
  - destruct (generate_loop_terminates fuel (Z.to_nat (Generator.length g)) [] w)
      as (code & w' & E); [simpl; lia | done..|].
    pose proof E as E'. change (generate_loop fuel _ [] w) with (Generate fuel g w) in E'.
    apply Generate_Ok in E' as (k & _ & _ & ? & ? & ?). by exists code, w', k.
  - pose proof encode_four as H4. rewrite Forall_forall in H4. exact H4.
Qed.
End generate_lemmas.

(** * The interface of the link service *)

(** [service.CodeGenerator]. *)
Class CodeGenerator := generate : M string.

(** What the service relies on: generating consumes effects and nothing else, and
    gives codes of the alphabet. *)
Class CodeGeneratorLaws (G : CodeGenerator) : Prop := {
  generate_reads : reads generate;
  generate_code w code w' :
    generate w = (Ok code, w') → forallb code_char (bytes_of code) = true;
  (** its errors are none of the domain's *)
  generate_err w e w' s : generate w = (Err e, w') → Is e s = false;
}.

#[export] Instance Generator_generates `{O : Oracle} fuel g : CodeGenerator := Generate fuel g.

Lemma generate_loop_reads `{O : Oracle} fuel n out : reads (generate_loop fuel n out).
Proof.
  revert out. induction fuel as [|fuel IH]; intros out; cbn [generate_loop];
    (case_match; [reads|]); [apply reads_self|].
  apply reads_bind; [unfold rand_Read; reads|]. intros [buf|]; [apply IH | reads].
Qed.

Lemma generate_loop_Err `{O : Oracle} fuel n out w e w' s :
  generate_loop fuel n out w = (Err e, w') → Is e s = false.
Proof.
  revert out w. induction fuel as [|fuel IH]; intros out w H; cbn [generate_loop] in H;
    (destruct (_ <=? _)%nat; [done|]); [done|].
  apply bind_Err in H as [H|(r & w1 & Hr & H)]; [by apply attempt_Err in H|].
  destruct r as [buf|e1]; [by eapply IH|]. apply attempt_Ok in Hr. unfold rand_Read in Hr.
  apply backend_Err in Hr as [(msg & ap & _ & -> & _)|Hr]; [|done].
  unfold fail in H. by simplify_eq.
Qed.

#[export] Instance Generator_laws `{O : Oracle} fuel g :
  CodeGeneratorLaws (Generator_generates fuel g).
Proof.
  split.
  - apply generate_loop_reads.
  - intros w code w' H. by apply Generate_Ok in H as (_ & _ & _ & _ & _ & ?).
  - intros w e w' s. apply generate_loop_Err.
Qed.
