(* ===== verification/LinkService.v ===== *)
(** LinkService: link CRUD, code allocation and the demo policy
    (internal/service/link.go). *)
From stdpp Require Import prelude gmap strings list.
From S2P Require Import Prelude GoStd NetUrl Domain World Schema LinkRepo Shortcode.

Local Open Scope Z_scope.

(** * Interfaces *)

(** [LinkEventSink] and [LinkInvalidator]. *)
Abbreviation LinkEventSink := (Link.t → M ()) (only parsing).
Abbreviation LinkInvalidator := (string → M ()) (only parsing).

(** A sink neither fails nor touches the database. *)
Class SinkLaws (sink : LinkEventSink) : Prop := {
  sink_ok l w : (sink l w).1 = Ok ();
  sink_db l w : w_db (sink l w).2 = w_db w;
  sink_redis l w : w_redis (sink l w).2 = w_redis w;
  sink_step l w : (w_step w ≤ w_step (sink l w).2)%nat;
}.

(** An invalidator may fail, but does not touch the database, and does not panic. *)
Class InvalidatorLaws (inv : LinkInvalidator) : Prop := {
  inv_db code w : w_db (inv code w).2 = w_db w;
  inv_step code w : (w_step w ≤ w_step (inv code w).2)%nat;
  inv_no_panic code : no_panic (inv code);
}.

(** * Inputs and validation *)

Module CreateLinkInput.
Record t := Mk {
  TargetURL : string;
  CustomAlias : string;
  RedirectType : Z;
  ExpiresAt : option Time;
  MaxClicks : option Z;
}.
End CreateLinkInput.

Module UpdateLinkInput.
Record t := Mk {
  TargetURL : option string;
  RedirectType : option Z;
  ExpiresAt : option Time;
  ClearExpiresAt : bool;
  MaxClicks : option Z;
  ClearMaxClicks : bool;
}.
End UpdateLinkInput.

Section validation.

Definition validateURL (raw : string) : option error :=
  if String.eqb raw "" then Some (invalid "url is required")
  else match NetUrl.Parse raw with
       | None => Some (invalid "url is not parseable")
       | Some (scheme, host) =>
           if negb (String.eqb scheme "http") && negb (String.eqb scheme "https")
           then Some (invalid "url scheme must be http or https")
           else if String.eqb host "" then Some (invalid "url must include a host")
           else None
       end.

Definition normalizeRedirectType (rt : Z) : Z + error :=
  if (rt =? 0) || (rt =? RedirectFound) then inl RedirectFound
  else if rt =? RedirectPermanent then inl RedirectPermanent
  else inr (invalid "redirect_type must be 301 or 302").

Definition validateMaxClicks (m : option Z) : option error :=
  match m with
  | Some m => if m <? 1 then Some (invalid "max_clicks must be a positive integer") else None
  | None => None
  end.
End validation.

(** * The service *)

Module LinkService.
Record t := Mk {
  gen : CodeGenerator;
  events : option LinkEventSink;
  cache : option LinkInvalidator;
  maxCollision : Z;
  demoTenantID : UUID;
  demoMaxTTL : Duration;
}.

Definition New (gen : CodeGenerator) (events : option LinkEventSink)
    (cache : option LinkInvalidator) (maxCollision : Z) : t :=
  Mk gen events cache (if maxCollision <? 1 then 1 else maxCollision) uuid_Nil 0.

Definition SetDemoPolicy (s : t) (tenantID : UUID) (maxTTL : Duration) : t :=
  Mk (gen s) (events s) (cache s) (maxCollision s) tenantID maxTTL.

Section service.
Context `{O : Oracle} (s : t).

(** Is the tenant under the demo policy? *)
Definition demo_policy (tenantID : UUID) : bool :=
  negb ((demoMaxTTL s <=? 0) || negb (tenantID =? demoTenantID s)%N).

Definition clampDemoExpiry (tenantID : UUID) (requested : option Time) : M (option Time) :=
  if negb (demo_policy tenantID) then mret requested
  else
    t ← now;
    let capAt := t + demoMaxTTL s in
    match requested with
    | Some r => if r <? capAt then mret (Some r) else mret (Some capAt)
    | None => mret (Some capAt)
    end.

Definition validateExpiry (e : option Time) : M () :=
  match e with
  | None => mret ()
  | Some e => t ← now; if t <? e then mret () else fail (invalid "expires_at must be in the future")
  end.

Definition invalidate (code : string) : M () :=
  match cache s with
  | None => mret ()
  | Some inv => attempt (inv code);; mret ()
  end.

Definition emitCreated (l : Link.t) : M () :=
  match events s with
  | None => mret ()
  | Some sink => sink l
  end.

(** [link.Code = code]. *)
Definition with_code (code : string) (l : Link.t) : Link.t :=
  Link.Mk (Link.ID l) (Link.TenantID l) code (Link.TargetURL l) (Link.RedirectType l)
    (Link.ExpiresAt l) (Link.MaxClicks l) (Link.ClickCount l) (Link.CreatedAt l)
    (Link.UpdatedAt l) (Link.DeletedAt l).

(** The loop of [allocateGeneratedCode], [attempts] turns left. *)
Fixpoint allocate (attempts : nat) (link : Link.t) : M Link.t :=
  match attempts with
  | 0%nat => fail (ESentinel ErrCodeExhausted)
  | S attempts =>
      c ← attempt (gen s);
      match c with
      | inr err => fail (errorf "generate shortcode" err)
      | inl code =>
          r ← attempt (LinkRepository.Create (with_code code link));
          match r with
          | inl created => mret created
          | inr err => if Is err ErrConflict then allocate attempts link else fail err
          end
      end
  end.

Definition allocateGeneratedCode (link : Link.t) : M Link.t :=
  allocate (Z.to_nat (maxCollision s)) link.

Definition Create (tenantID : UUID) (inp : CreateLinkInput.t) : M Link.t :=
  check (validateURL (CreateLinkInput.TargetURL inp));;
  match normalizeRedirectType (CreateLinkInput.RedirectType inp) with
  | inr err => fail err
  | inl redirectType =>
      validateExpiry (CreateLinkInput.ExpiresAt inp);;
      check (validateMaxClicks (CreateLinkInput.MaxClicks inp));;
      expiresAt ← clampDemoExpiry tenantID (CreateLinkInput.ExpiresAt inp);
      let link := Link.Mk uuid_Nil tenantID "" (CreateLinkInput.TargetURL inp) redirectType
                    expiresAt (CreateLinkInput.MaxClicks inp) 0 zero_time zero_time None in
      link ← (if negb (String.eqb (CreateLinkInput.CustomAlias inp) "") then
                if negb (ValidAlias (CreateLinkInput.CustomAlias inp)) then
                  fail (invalid "custom alias must be 3-64 URL-safe characters and not reserved")
                else LinkRepository.Create (with_code (CreateLinkInput.CustomAlias inp) link)
              else allocateGeneratedCode link);
      emitCreated link;;
      mret link
  end.

Definition Get (tenantID id : UUID) : M Link.t := LinkRepository.GetByIDForTenant tenantID id.

Definition List (tenantID : UUID) (limit offset : Z) : M (list Link.t) :=
  let limit := if (limit <=? 0) || (100 <? limit) then 50 else limit in
  let offset := if offset <? 0 then 0 else offset in
  LinkRepository.ListByTenant tenantID limit offset.

(** The assignments [link.TargetURL = ...] and so on. *)
Definition set_url (u : string) (l : Link.t) : Link.t :=
  Link.Mk (Link.ID l) (Link.TenantID l) (Link.Code l) u (Link.RedirectType l)
    (Link.ExpiresAt l) (Link.MaxClicks l) (Link.ClickCount l) (Link.CreatedAt l)
    (Link.UpdatedAt l) (Link.DeletedAt l).

Definition set_redirect (rt : Z) (l : Link.t) : Link.t :=
  Link.Mk (Link.ID l) (Link.TenantID l) (Link.Code l) (Link.TargetURL l) rt
    (Link.ExpiresAt l) (Link.MaxClicks l) (Link.ClickCount l) (Link.CreatedAt l)
    (Link.UpdatedAt l) (Link.DeletedAt l).

Definition set_expiry (e : option Time) (l : Link.t) : Link.t :=
  Link.Mk (Link.ID l) (Link.TenantID l) (Link.Code l) (Link.TargetURL l) (Link.RedirectType l)
    e (Link.MaxClicks l) (Link.ClickCount l) (Link.CreatedAt l) (Link.UpdatedAt l) (Link.DeletedAt l).

Definition set_max (m : option Z) (l : Link.t) : Link.t :=
  Link.Mk (Link.ID l) (Link.TenantID l) (Link.Code l) (Link.TargetURL l) (Link.RedirectType l)
    (Link.ExpiresAt l) m (Link.ClickCount l) (Link.CreatedAt l) (Link.UpdatedAt l) (Link.DeletedAt l).

(** The four switches of Update; each may fail. *)
Definition patch_url (inp : UpdateLinkInput.t) (l : Link.t) : M Link.t :=
  match UpdateLinkInput.TargetURL inp with
  | None => mret l
  | Some u => check (validateURL u);; mret (set_url u l)
  end.

Definition patch_redirect (inp : UpdateLinkInput.t) (l : Link.t) : M Link.t :=
  match UpdateLinkInput.RedirectType inp with
  | None => mret l
  | Some rt =>
      match normalizeRedirectType rt with
      | inr err => fail err
      | inl rt => mret (set_redirect rt l)
      end
  end.

Definition patch_expiry (inp : UpdateLinkInput.t) (l : Link.t) : M Link.t :=
  if UpdateLinkInput.ClearExpiresAt inp then mret (set_expiry None l)
  else match UpdateLinkInput.ExpiresAt inp with
       | None => mret l
       | Some e => validateExpiry (Some e);; mret (set_expiry (Some e) l)
       end.

Definition patch_max (inp : UpdateLinkInput.t) (l : Link.t) : M Link.t :=
  if UpdateLinkInput.ClearMaxClicks inp then mret (set_max None l)
  else match UpdateLinkInput.MaxClicks inp with
       | None => mret l
       | Some m => check (validateMaxClicks (Some m));; mret (set_max (Some m) l)
       end.

(** The body of Update between the read and the write: the four switches. *)
Definition patch (inp : UpdateLinkInput.t) (link : Link.t) : M Link.t :=
  link ← patch_url inp link;
  link ← patch_redirect inp link;
  link ← patch_expiry inp link;
  patch_max inp link.

Definition Update (tenantID id : UUID) (inp : UpdateLinkInput.t) : M Link.t :=
  link ← LinkRepository.GetByIDForTenant tenantID id;
  let oldCode := Link.Code link in
  link ← patch inp link;
  e ← clampDemoExpiry tenantID (Link.ExpiresAt link);
  link ← LinkRepository.Update (set_expiry e link);
  invalidate oldCode;;
  (if negb (String.eqb (Link.Code link) oldCode) then invalidate (Link.Code link) else mret ());;
  mret link.

Definition Delete (tenantID id : UUID) : M () :=
  link ← LinkRepository.GetByIDForTenant tenantID id;
  LinkRepository.SoftDelete tenantID id;;
  invalidate (Link.Code link).
End service.
End LinkService.

(** * Validation *)

Section validation_lemmas.

Lemma validateURL_spec raw : validateURL raw = None ↔ raw ≠ "" ∧ valid_url raw.
Proof.
  unfold validateURL, valid_url. destruct (String.eqb_spec raw "") as [->|Hne].
  { split; [done | by intros []]. }
  destruct (NetUrl.Parse raw) as [[sch host]|].
  - destruct (negb _ && negb _) eqn:E; [|destruct (String.eqb_spec host "") as [->|Hh]].
    + apply andb_true_iff in E as [E1 E2]. bool_to_prop. split; [done|].
      intros (_ & s & h & ? & [?|?] & _); congruence.
    + split; [done|]. intros (_ & s & h & ? & _ & ?); congruence.
    + split; [|done]. intros _. split; [done|]. exists sch, host. split_and!; [done | | done].
      apply andb_false_iff in E as [E|E]; bool_to_prop; auto.
  - split; [done|]. intros (_ & s & h & ? & _). done.
Qed.

Lemma validateURL_error raw e : validateURL raw = Some e → Is e ErrValidation = true.
Proof. unfold validateURL. intros. by repeat (case_match; simplify_eq/=). Qed.

Lemma normalizeRedirectType_inl rt rt' :
  normalizeRedirectType rt = inl rt' →
  (rt' = 301 ∨ rt' = 302) ∧ (rt = 0 ∧ rt' = 302 ∨ rt' = rt).
Proof.
  unfold normalizeRedirectType, RedirectFound, RedirectPermanent. intros.
  destruct (Z.eqb_spec rt 0), (Z.eqb_spec rt 302), (Z.eqb_spec rt 301); simplify_eq/=; lia.
Qed.

Lemma normalizeRedirectType_inr rt e : normalizeRedirectType rt = inr e → Is e ErrValidation = true.
Proof. unfold normalizeRedirectType. intros. by repeat (case_match; simplify_eq/=). Qed.

Lemma validateMaxClicks_None m : validateMaxClicks m = None ↔ ∀ x, m = Some x → 1 <= x.
Proof.
  unfold validateMaxClicks. destruct m as [m|]; [|naive_solver].
  destruct (Z.ltb_spec m 1); split; intros; simplify_eq; try done.
  exfalso. assert (1 <= m) by auto. lia.
Qed.
End validation_lemmas.

Lemma check_Ok c w u w' : check c w = (Ok u, w') → c = None ∧ w' = w.
Proof. destruct c; [done|]. unfold check, mret, M_ret. intros. by simplify_eq. Qed.

(** * Create *)

Section create.
Context `{O : Oracle} (s : LinkService.t).
Import LinkService.

Lemma now_Ok w t w' : now w = (Ok t, w') → t = o_now (w_step w) ∧ w' = set_step (S (w_step w)) w.
Proof. unfold now, tick, mbind, M_bind. intros E. inv_ok E. done. Qed.

(** What the clamp returns: the requested expiry, or under the policy one no later
    than the cap and no later than the requested one. *)
Lemma clampDemoExpiry_Ok t r w e w' :
  clampDemoExpiry s t r w = (Ok e, w') →
  (∃ n, (w_step w ≤ n)%nat ∧ w' = set_step n w)
  ∧ (demo_policy s t = false → e = r)
  ∧ (demo_policy s t = true →
     ∃ x, e = Some x ∧ x <= o_now (w_step w) + demoMaxTTL s ∧ ∀ y, r = Some y → x <= y).
Proof.
  intros E. split; [eapply reads_out; [|done]; unfold clampDemoExpiry; reads|].
  revert E. unfold clampDemoExpiry.
  destruct (demo_policy s t); simpl; intros E; [|inv_ok E; done].
  split; [done|]. intros _. apply bind_Ok in E as (a & w1 & [-> ->]%now_Ok & E).
  destruct r as [r|].
  - destruct (Z.ltb_spec r (o_now (w_step w) + demoMaxTTL s)); inv_ok E;
      eexists; split_and!; try done; [lia|intros; simplify_eq; lia..].
  - inv_ok E. eexists. by split_and!.
Qed.

Lemma validateExpiry_Ok e w u w' :
  validateExpiry e w = (Ok u, w') →
  (∃ n, (w_step w ≤ n)%nat ∧ w' = set_step n w)
  ∧ ∀ x, e = Some x → o_now (w_step w) < x.
Proof.
  intros E. split; [eapply reads_out; [|done]; unfold validateExpiry; reads|].
  intros x ->. simpl in E. apply bind_Ok in E as (a & w1 & [-> ->]%now_Ok & E).
  by destruct (Z.ltb_spec (o_now (w_step w)) x).
Qed.

(** The insertion that ends the retry loop: everything before it left the tables
    alone. *)
Lemma allocate_Ok `{!CodeGeneratorLaws (gen s)} n link w l w' :
  allocate s n link w = (Ok l, w') →
  ∃ code k, (w_step w ≤ k)%nat ∧ forallb code_char (bytes_of code) = true
    ∧ LinkRepository.Create (with_code code link) (set_step k w) = (Ok l, w').
Proof.
  revert w. induction n as [|n IH]; intros w E; cbn [allocate] in E; [done|].
  apply bind_Ok in E as (c & w1 & Hc & E). destruct c as [code|]; [|done]. apply attempt_Ok in Hc.
  pose proof (generate_code _ _ _ Hc) as Hcode.
  apply (reads_out _ _ _ _ generate_reads) in Hc as (k & Hk & ->).
  apply bind_Ok in E as (r & w2 & Hr & E). apply attempt_Ok in Hr. destruct r as [l'|err].
  - inv_ok E. by exists code, k.
  - destruct (Is err ErrConflict) eqn:Hconf; [|done].
    apply Create_Err in Hr as [(-> & -> & _)|(e' & -> & He)]; [|by rewrite He in Hconf].
    apply IH in E as (code' & k' & Hk' & Hch & E). simpl in *.
    exists code', k'. split_and!; [lia | done | done].
Qed.

Lemma emitCreated_db l w `{!∀ sink, events s = Some sink → SinkLaws sink} r w' :
  emitCreated s l w = (r, w') → r = Ok () ∧ w_db w' = w_db w.
Proof.
  unfold emitCreated. destruct (events s) as [sink|] eqn:E.
  - intros Hs. assert (SinkLaws sink) by auto.
    pose proof (sink_ok l w) as Ho. pose proof (sink_db l w) as Hd. rewrite Hs in Ho, Hd. done.
  - intros Hs. unfold mret, M_ret in Hs. by simplify_eq.
Qed.

(** A successful Create, taken apart: the row it inserted and when. *)
Lemma Create_inv `{!CodeGeneratorLaws (gen s)} `{!∀ sink, events s = Some sink → SinkLaws sink}
    t inp w l w' :
  Create s t inp w = (Ok l, w') →
  ∃ code rt e k0 k,
    validateURL (CreateLinkInput.TargetURL inp) = None
    ∧ normalizeRedirectType (CreateLinkInput.RedirectType inp) = inl rt
    ∧ validateMaxClicks (CreateLinkInput.MaxClicks inp) = None
    ∧ (∀ x, CreateLinkInput.ExpiresAt inp = Some x → o_now (w_step w) < x)
    ∧ (w_step w ≤ k0 ≤ k)%nat
    ∧ (demo_policy s t = false → e = CreateLinkInput.ExpiresAt inp)
    ∧ (demo_policy s t = true → ∃ x, e = Some x ∧ x <= o_now k0 + demoMaxTTL s
         ∧ ∀ y, CreateLinkInput.ExpiresAt inp = Some y → x <= y)
    ∧ (if String.eqb (CreateLinkInput.CustomAlias inp) ""
       then forallb code_char (bytes_of code) = true
       else code = CreateLinkInput.CustomAlias inp ∧ ValidAlias code = true)
    ∧ LinkRepository.Create
        (Link.Mk uuid_Nil t code (CreateLinkInput.TargetURL inp) rt e (CreateLinkInput.MaxClicks inp)
           0 zero_time zero_time None) (set_step k w) = (Ok l, put_row l (set_step k w))
    ∧ w_db w' = w_db (put_row l (set_step k w)).
Proof.
  unfold Create. intros E.
  apply bind_Ok in E as (u & w1 & [Hurl ->]%check_Ok & E).
  destruct (normalizeRedirectType _) as [rt|] eqn:Hrt; [|done].
  apply bind_Ok in E as (u1 & w2 & [(n1 & Hn1 & ->) Hexp]%validateExpiry_Ok & E).
  apply bind_Ok in E as (u2 & w3 & [Hmax ->]%check_Ok & E).
  apply bind_Ok in E as (e & w4 & [(n2 & Hn2 & ->) [Hnd Hd]]%clampDemoExpiry_Ok & E). simpl in *.
  apply bind_Ok in E as (l' & w5 & Hc & E).
  apply bind_Ok in E as (u3 & w6 & [_ Hdb]%emitCreated_db & E). inv_ok E.
  rewrite !set_step_id in Hc.
  destruct (String.eqb_spec (CreateLinkInput.CustomAlias inp) "") as [Ha|Ha]; simpl in Hc.
  - apply allocate_Ok in Hc as (code & k & Hk & Hch & Hc).
    rewrite set_step_id in Hc. pose proof (Create_Ok _ _ _ _ Hc) as (_ & -> & _).
    exists code, rt, e, n1, k. split_and!; try done; simpl in *; lia.
  - destruct (ValidAlias _) eqn:Hv; [|done]. simpl in Hc.
    pose proof (Create_Ok _ _ _ _ Hc) as (_ & -> & _).
    exists (CreateLinkInput.CustomAlias inp), rt, e, n1, n2. split_and!; try done; simpl in *; lia.
  - done.
Qed.
End create.

(** * What an operation can do to the tables

    Whatever the outcome of an operation, it leaves the tables as they were or
    has written one row. *)

Section effects.
Context `{O : Oracle} (s : LinkService.t).
Context `{!CodeGeneratorLaws (LinkService.gen s)}.
Context `{!∀ sink, LinkService.events s = Some sink → SinkLaws sink}.
Context `{!∀ inv, LinkService.cache s = Some inv → InvalidatorLaws inv}.
Import LinkService.

Lemma invalidate_world code w :
  w_db (invalidate s code w).2 = w_db w ∧ (w_step w ≤ w_step (invalidate s code w).2)%nat
  ∧ (invalidate s code w).1 = Ok ().
Proof.
  unfold invalidate. destruct (cache s) as [inv|] eqn:E; [|done].
  assert (InvalidatorLaws inv) by auto.
  pose proof (inv_db code w) as Hd. pose proof (inv_step code w) as Hst.
  pose proof (inv_no_panic code w) as Hp.
  unfold mbind, M_bind, attempt. destruct (inv code w) as [[a|e|p] w']; simpl in *; [done..|].
  by exfalso; eapply Hp.
Qed.

Lemma emitCreated_world l w :
  w_db (emitCreated s l w).2 = w_db w ∧ (w_step w ≤ w_step (emitCreated s l w).2)%nat
  ∧ (emitCreated s l w).1 = Ok ().
Proof.
  unfold emitCreated. destruct (events s) as [sink|] eqn:E; [|done].
  assert (SinkLaws sink) by auto.
  split_and!; [apply sink_db | apply sink_step | apply sink_ok].
Qed.

(** At most one row was inserted: a new one, [link] under a free code. *)
Definition may_insert (link : Link.t) (w w' : World) : Prop :=
  (w_step w ≤ w_step w')%nat
  ∧ (w_db w' = w_db w
     ∨ ∃ code k, (w_step w ≤ k < w_step w')%nat
         ∧ w_links w !! o_uuid k = None ∧ code_taken None code (w_links w) = false
         ∧ w_db w' = DB.with_links <[o_uuid k := insert_row (with_code code link) k]> (w_db w)).

Lemma may_insert_db link w w1 w' :
  w_db w1 = w_db w → (w_step w ≤ w_step w1)%nat → may_insert link w1 w' → may_insert link w w'.
Proof.
  intros E Hs (Hle & H'). split; [lia|]. rewrite E in H'.
  destruct H' as [?|(code & k & ? & ?)]; [by left|]. right. exists code, k. split; [lia | done].
Qed.

Lemma may_insert_none link w w' : w_db w' = w_db w → (w_step w ≤ w_step w')%nat → may_insert link w w'.
Proof. intros. split; auto. Qed.

Lemma may_insert_after link w w1 w' :
  w_db w' = w_db w1 → (w_step w1 ≤ w_step w')%nat → may_insert link w w1 → may_insert link w w'.
Proof.
  intros E Hs (Hle & H'). split; [lia|]. rewrite E.
  destruct H' as [?|(code & k & ? & ?)]; [by left|]. right. exists code, k. split; [lia | done].
Qed.

Lemma may_insert_Create code link w :
  may_insert link w (LinkRepository.Create (with_code code link) w).2.
Proof.
  destruct (Create_world (with_code code link) w) as [->|(-> & ? & ?)].
  - apply may_insert_none; [done | simpl; lia].
  - split; [simpl; lia|]. right. exists code, (w_step w). split_and!; try done; simpl; lia.
Qed.

Lemma allocate_world n link w : may_insert link w (allocate s n link w).2.
Proof.
  revert w. induction n as [|n IH]; intros w; [by apply may_insert_none|]. cbn [allocate].
  destruct (generate_reads (G:=gen s) w) as (k & Hk & Ek). unfold generate in Ek.
  apply (bind_world (may_insert link w)).
  - rewrite attempt_world, Ek. by apply may_insert_none.
  - intros c w1 Hc. assert (w1 = set_step k w) as ->.
    { rewrite <- Ek, <- (attempt_world _ w). by rewrite Hc. }
    apply may_insert_db with (set_step k w); [done..|].
    destruct c as [code|e]; [|by apply may_insert_none].
    apply (bind_world (may_insert link (set_step k w))).
    + rewrite attempt_world. apply may_insert_Create.
    + intros r w2 Hr. destruct r as [l|e].
      { pose proof (may_insert_Create code link (set_step k w)) as Hc2.
        apply attempt_Ok in Hr. by rewrite Hr in Hc2. }
      pose proof (may_insert_Create code link (set_step k w)) as Hc2.
      destruct (Is e ErrConflict) eqn:Econf.
      * apply attempt_Ok, Create_Err in Hr as [(-> & -> & _)|(e' & -> & He)];
          [|by rewrite He in Econf].
        eapply may_insert_db; [| |apply IH]; [done | simpl; lia].
      * apply attempt_Ok in Hr. by rewrite Hr in Hc2.
Qed.

(** What the validators keep of every stored row: a web URL to redirect to, one of the
    two redirect statuses, and no limit below one click. *)
Record link_wf (l : Link.t) : Prop := {
  wf_url : web_url (Link.TargetURL l);
  wf_type : Link.RedirectType l = 301 ∨ Link.RedirectType l = 302;
  wf_max m : Link.MaxClicks l = Some m → 1 <= m;
}.

(** The row Create asks for, its code left open. *)
Definition create_row (t : UUID) (inp : CreateLinkInput.t) (rt : Z) (e : option Time) : Link.t :=
  Link.Mk uuid_Nil t "" (CreateLinkInput.TargetURL inp) rt e (CreateLinkInput.MaxClicks inp)
    0 zero_time zero_time None.

(** The expiry stored for a requested one, under the policy with a cap read off the
    clock between effects [n] and [m]. *)
Definition expiry_policy (t : UUID) (n m : nat) (requested e : option Time) : Prop :=
  if demo_policy s t then
    ∃ x k, e = Some x ∧ (n ≤ k < m)%nat ∧ x <= o_now k + demoMaxTTL s ∧ ∀ y, requested = Some y → x <= y
  else e = requested.

Lemma expiry_policy_mono t n m n' m' r e :
  (n' ≤ n)%nat → (m ≤ m')%nat → expiry_policy t n m r e → expiry_policy t n' m' r e.
Proof.
  intros ??. unfold expiry_policy. case_match; [|done].
  intros (x & k & ? & ? & ? & ?). exists x, k. split_and!; try done; lia.
Qed.

Lemma clamp_policy t r w e w' :
  clampDemoExpiry s t r w = (Ok e, w') →
  expiry_policy t (w_step w) (w_step w') r e ∧ (w_step w ≤ w_step w')%nat
  ∧ w' = set_step (w_step w') w.
Proof.
  unfold clampDemoExpiry, expiry_policy. destruct (demo_policy s t); simpl; intros E.
  - apply bind_Ok in E as (a & w1 & [-> ->]%now_Ok & E).
    assert (Hx : ∃ x, e = Some x ∧ w' = set_step (S (w_step w)) w
              ∧ x <= o_now (w_step w) + demoMaxTTL s ∧ ∀ y, r = Some y → x <= y).
    { destruct r as [r|].
      - destruct (Z.ltb_spec r (o_now (w_step w) + demoMaxTTL s)); inv_ok E;
          eexists; split_and!; try done; intros; simplify_eq; lia.
      - inv_ok E. eexists. by split_and!. }
    destruct Hx as (x & -> & -> & Hx & Hy). split_and!; simpl; [|lia|done].
    exists x, (w_step w). split_and!; try done; lia.
  - inv_ok E. split_and!; [done | lia | by destruct w'].
Qed.

(** Create, whatever its outcome, inserts at most one row; the row is the one asked
    for, with the expiry of the policy. *)
Lemma create_world t inp w :
  let w' := (Create s t inp w).2 in
  (w_step w ≤ w_step w')%nat
  ∧ (w_db w' = w_db w ∨ ∃ rt e,
      expiry_policy t (w_step w) (w_step w') (CreateLinkInput.ExpiresAt inp) e
      ∧ link_wf (create_row t inp rt e)
      ∧ may_insert (create_row t inp rt e) w w').
Proof.
  cbv zeta. set (I := λ w' : World, (w_step w ≤ w_step w')%nat ∧ (w_db w' = w_db w ∨ ∃ rt e,
    expiry_policy t (w_step w) (w_step w') (CreateLinkInput.ExpiresAt inp) e
    ∧ link_wf (create_row t inp rt e)
    ∧ may_insert (create_row t inp rt e) w w')).
  assert (Hmove : ∀ n, (w_step w ≤ n)%nat → I (set_step n w)) by (intros; split; auto).
  assert (Hself : I w) by (split; auto).
  change (I (Create s t inp w).2). unfold Create.
  apply bind_world; [by destruct (validateURL _)|]. intros u w1 [Hurl ->]%check_Ok.
  destruct (normalizeRedirectType _) as [rt|] eqn:Hrt; [|done].
  apply bind_world.
  { destruct (validateExpiry (CreateLinkInput.ExpiresAt inp) w) as [r w2] eqn:E. simpl.
    apply reads_out in E as (n & ? & ->); [auto | unfold validateExpiry; reads]. }
  intros u1 w2 [(n1 & Hn1 & ->) _]%validateExpiry_Ok.
  apply bind_world; [destruct (validateMaxClicks _); by apply Hmove|]. intros u2 w3 [Hmax ->]%check_Ok.
  assert (Hwf : ∀ e, link_wf (create_row t inp rt e)).
  { intros e. apply validateURL_spec in Hurl as [_ Hurl]. apply normalizeRedirectType_inl in Hrt as [Hrt _].
    split; [by apply valid_web_url|exact Hrt|by apply validateMaxClicks_None]. }
  apply bind_world.
  { match goal with |- I (?m ?w').2 => destruct (m w') as [r w2] eqn:E end. simpl.
    apply reads_out in E as (n & ? & ->); [|unfold clampDemoExpiry; reads].
    rewrite set_step_id. apply Hmove. simpl in *. lia. }
  intros e w4 (Hpol & Hle & E4)%clamp_policy. rewrite set_step_id in E4. simpl in *.
  set (n4 := w_step w4) in *. clearbody n4. subst w4.
  assert (Hins : ∀ w', may_insert (create_row t inp rt e) (set_step n4 w) w' → I w').
  { intros w' [H1' H2']. simpl in *. split; [lia|]. right. exists rt, e. split_and!.
    - eapply expiry_policy_mono; [| |done]; lia.
    - apply Hwf.
    - apply may_insert_db with (set_step n4 w); [done | simpl; lia | done]. }
  match goal with |- I ((?m ≫= _) _).2 => assert (Hm : may_insert (create_row t inp rt e)
    (set_step n4 w) (m (set_step n4 w)).2) end.
  { destruct (negb _); [|apply allocate_world].
    destruct (negb _); [by apply may_insert_none|].
    apply (may_insert_Create _ (create_row t inp rt e)). }
  apply bind_world; [by apply Hins|]. intros l w5 E5. rewrite E5 in Hm. simpl in Hm.
  assert (He : I (emitCreated s l w5).2).
  { destruct (emitCreated_world l w5) as (Hd & Hs & _). apply Hins. by eapply may_insert_after. }
  apply bind_world; [done|]. intros u5 w6 E6. rewrite E6 in He. done.
Qed.

(** ** Update and Delete *)

(** What the switches make of a link. *)
Definition new_redirect (inp : UpdateLinkInput.t) (rt : Z) : Z :=
  match UpdateLinkInput.RedirectType inp with
  | None => rt
  | Some rt => if rt =? 0 then 302 else rt
  end.

Definition new_expiry (inp : UpdateLinkInput.t) (e : option Time) : option Time :=
  if UpdateLinkInput.ClearExpiresAt inp then None
  else match UpdateLinkInput.ExpiresAt inp with Some e => Some e | None => e end.

Definition new_max (inp : UpdateLinkInput.t) (m : option Z) : option Z :=
  if UpdateLinkInput.ClearMaxClicks inp then None
  else match UpdateLinkInput.MaxClicks inp with Some m => Some m | None => m end.

Definition patched (inp : UpdateLinkInput.t) (l : Link.t) : Link.t :=
  set_max (new_max inp (Link.MaxClicks l))
    (set_expiry (new_expiry inp (Link.ExpiresAt l))
      (set_redirect (new_redirect inp (Link.RedirectType l))
        (set_url (default (Link.TargetURL l) (UpdateLinkInput.TargetURL inp)) l))).

(** The inputs an update accepts, its clock read at effect [n]. *)
Definition update_valid (inp : UpdateLinkInput.t) (n : nat) : Prop :=
  (∀ u, UpdateLinkInput.TargetURL inp = Some u → u ≠ "" ∧ valid_url u)
  ∧ (∀ rt, UpdateLinkInput.RedirectType inp = Some rt → rt = 0 ∨ rt = 301 ∨ rt = 302)
  ∧ (∀ e, UpdateLinkInput.ClearExpiresAt inp = false → UpdateLinkInput.ExpiresAt inp = Some e →
       o_now n < e)
  ∧ (∀ m, UpdateLinkInput.ClearMaxClicks inp = false → UpdateLinkInput.MaxClicks inp = Some m →
       1 <= m).

Lemma patch_reads inp l : reads (patch inp l).
Proof.
  unfold patch, patch_url, patch_redirect, patch_expiry, patch_max, validateExpiry. reads.
Qed.

Lemma patch_url_Ok inp l w l' w' :
  patch_url inp l w = (Ok l', w') →
  w' = w ∧ l' = set_url (default (Link.TargetURL l) (UpdateLinkInput.TargetURL inp)) l
  ∧ ∀ u, UpdateLinkInput.TargetURL inp = Some u → u ≠ "" ∧ valid_url u.
Proof.
  unfold patch_url. destruct (UpdateLinkInput.TargetURL inp) as [u|]; intros E.
  - apply bind_Ok in E as (u0 & w0 & [Hu ->]%check_Ok & E). inv_ok E.
    apply validateURL_spec in Hu. split_and!; [done.. | by intros ? [= <-]].
  - inv_ok E. by destruct l'.
Qed.

Lemma patch_redirect_Ok inp l w l' w' :
  patch_redirect inp l w = (Ok l', w') →
  w' = w ∧ l' = set_redirect (new_redirect inp (Link.RedirectType l)) l
  ∧ ∀ rt, UpdateLinkInput.RedirectType inp = Some rt → rt = 0 ∨ rt = 301 ∨ rt = 302.
Proof.
  unfold patch_redirect, new_redirect. destruct (UpdateLinkInput.RedirectType inp) as [rt|]; intros E.
  - destruct (normalizeRedirectType rt) as [rt'|] eqn:Hrt; [|done]. inv_ok E.
    apply normalizeRedirectType_inl in Hrt. split_and!; [done | | intros ? [= <-]; lia].
    f_equal. destruct (Z.eqb_spec rt 0); lia.
  - inv_ok E. by destruct l'.
Qed.

Lemma patch_expiry_Ok inp l w l' w' :
  patch_expiry inp l w = (Ok l', w') →
  l' = set_expiry (new_expiry inp (Link.ExpiresAt l)) l
  ∧ ∀ e, UpdateLinkInput.ClearExpiresAt inp = false → UpdateLinkInput.ExpiresAt inp = Some e →
      o_now (w_step w) < e.
Proof.
  unfold patch_expiry, new_expiry. destruct (UpdateLinkInput.ClearExpiresAt inp); intros E.
  - by inv_ok E.
  - destruct (UpdateLinkInput.ExpiresAt inp) as [e|].
    + apply bind_Ok in E as (u0 & w0 & [_ He]%validateExpiry_Ok & E). inv_ok E.
      split; [done|]. intros ? _ [= <-]. by apply He.
    + inv_ok E. by destruct l'.
Qed.

Lemma patch_max_Ok inp l w l' w' :
  patch_max inp l w = (Ok l', w') →
  l' = set_max (new_max inp (Link.MaxClicks l)) l
  ∧ ∀ m, UpdateLinkInput.ClearMaxClicks inp = false → UpdateLinkInput.MaxClicks inp = Some m → 1 <= m.
Proof.
  unfold patch_max, new_max. destruct (UpdateLinkInput.ClearMaxClicks inp); intros E.
  - by inv_ok E.
  - destruct (UpdateLinkInput.MaxClicks inp) as [m|].
    + apply bind_Ok in E as (u0 & w0 & [Hm ->]%check_Ok & E). inv_ok E.
      split; [done|]. intros ? _ [= <-]. by apply (proj1 (validateMaxClicks_None (Some m)) Hm).
    + inv_ok E. by destruct l'.
Qed.

Lemma patch_Ok inp l w l' w' :
  patch inp l w = (Ok l', w') → l' = patched inp l ∧ update_valid inp (w_step w).
Proof.
  unfold patch. intros E.
  apply bind_Ok in E as (l1 & w1 & (-> & -> & ?)%patch_url_Ok & E).
  apply bind_Ok in E as (l2 & w2 & (-> & -> & ?)%patch_redirect_Ok & E).
  apply bind_Ok in E as (l3 & w3 & (-> & ?)%patch_expiry_Ok & E).
  apply patch_max_Ok in E as [-> ?]. done.
Qed.

(** At most the row of [id] was rewritten, a live row of the tenant, by [f]. *)
Definition may_write (t id : UUID) (f : Link.t → nat → Link.t → Prop) (w w' : World) : Prop :=
  (w_step w ≤ w_step w')%nat
  ∧ (w_db w' = w_db w
     ∨ ∃ old k row, (w_step w ≤ k < w_step w')%nat
         ∧ w_links w !! id = Some old ∧ Link.TenantID old = t ∧ Link.live old = true
         ∧ f old k row ∧ w_db w' = DB.with_links <[id := row]> (w_db w)).

Lemma may_write_none t id f w w' : w_db w' = w_db w → (w_step w ≤ w_step w')%nat → may_write t id f w w'.
Proof. intros. split; auto. Qed.

Lemma may_write_after t id f w w1 w' :
  w_db w' = w_db w1 → (w_step w1 ≤ w_step w')%nat → may_write t id f w w1 → may_write t id f w w'.
Proof.
  intros E Hs (Hle & H'). split; [lia|]. rewrite E.
  destruct H' as [?|(old & k & row & ? & ?)]; [by left|]. right. exists old, k, row. split; [lia | done].
Qed.

(** Update, whatever its outcome: the row becomes the patched one, with the expiry of
    the policy. *)
Definition update_writes (t : UUID) (inp : UpdateLinkInput.t) (n : nat) (old : Link.t) (k : nat)
    (row : Link.t) : Prop :=
  ∃ e m, expiry_policy t n k (new_expiry inp (Link.ExpiresAt old)) e
    ∧ update_valid inp m
    ∧ row = update_row (set_expiry e (patched inp old)) old k.

Lemma update_world t id inp w :
  schema w → may_write t id (update_writes t inp (w_step w)) w (Update s t id inp w).2.
Proof.
  intros Hs. unfold Update.
  apply bind_world.
  { rewrite GetByIDForTenant_world. apply may_write_none; [done | simpl; lia]. }
  intros old w1 (Hold & Ht & Hv & ->)%GetByIDForTenant_Ok; [|done].
  set (w1 := set_step _ w).
  apply bind_world.
  { destruct (patch_reads inp old w1) as (n & Hn & ->). apply may_write_none; [done | simpl in *; lia]. }
  intros l w2 E. pose proof E as (n & Hn & ->)%reads_out; [|apply patch_reads].
  apply patch_Ok in E as [-> Hval]. simpl in Hn.
  apply bind_world.
  { match goal with |- may_write _ _ _ _ (?m ?w').2 => destruct (m w') as [r w3] eqn:E end. simpl.
    apply reads_out in E as (n' & ? & ->); [|unfold clampDemoExpiry; reads].
    simpl in *. apply may_write_none; [done | simpl; lia]. }
  intros e w3 (Hpol & Hle & E3)%clamp_policy. rewrite set_step_id in E3. simpl in *.
  set (k := w_step w3) in *. clearbody k. subst w3. unfold w1. rewrite set_step_id.
  assert (Hsk : schema (set_step k w)) by done.
  assert (Hw : may_write t id (update_writes t inp (w_step w)) w
    (LinkRepository.Update (set_expiry e (patched inp old)) (set_step k w)).2).
  { destruct (Update_world (set_expiry e (patched inp old)) (set_step k w) Hsk)
      as [->|(old' & Hold' & _ & _ & ->)].
    - apply may_write_none; [done | simpl; lia].
    - pose proof (ok_key _ Hs _ _ Hold) as Hk. simpl in Hold'. rewrite Hk, Hold in Hold'. simplify_eq.
      split; [simpl; lia|]. right. exists old', k, (update_row (set_expiry e (patched inp old')) old' k).
      split_and!; try done; [simpl; lia .. |]. exists e, (w_step w1). split_and!; [|done..].
      eapply expiry_policy_mono; [| |done]; lia. }
  apply bind_world; [done|]. intros row w4 E4. rewrite E4 in Hw. simpl in Hw.
  assert (Hinv : ∀ c w5, may_write t id (update_writes t inp (w_step w)) w w5 →
    may_write t id (update_writes t inp (w_step w)) w (invalidate s c w5).2).
  { intros c w5 H5. destruct (invalidate_world c w5) as (? & ? & _). by eapply may_write_after. }
  pose proof (Hinv (Link.Code old) _ Hw) as Hw5.
  apply bind_world; [done|]. intros u w5 E5. rewrite E5 in Hw5.
  apply bind_world; [case_match; [by apply Hinv | done]|]. intros u' w6 E6.
  destruct (negb _); [|by inv_ok E6].
  simpl in Hw5.
  pose proof (Hinv (Link.Code row) _ Hw5) as Hw6. by rewrite E6 in Hw6.
Qed.

Lemma delete_world t id w :
  schema w → may_write t id (λ old k row, row = delete_row old k) w (Delete s t id w).2.
Proof.
  intros Hs. unfold Delete.
  apply bind_world.
  { rewrite GetByIDForTenant_world. apply may_write_none; [done | simpl; lia]. }
  intros old w1 (Hold & Ht & Hv & ->)%GetByIDForTenant_Ok; [|done].
  assert (Hw : may_write t id (λ old k row, row = delete_row old k) w
    (LinkRepository.SoftDelete t id (set_step (S (w_step w)) w)).2).
  { destruct (SoftDelete_world t id (set_step (S (w_step w)) w) Hs) as [->|(old' & Hold' & _ & _ & ->)].
    - apply may_write_none; [done | simpl; lia].
    - simpl in Hold'. rewrite Hold in Hold'. injection Hold' as <-. pose proof (ok_key _ Hs _ _ Hold) as Hk.
      split; [simpl; lia|]. right. exists old, (S (w_step w)), (delete_row old (S (w_step w))).
      split_and!; try done; [simpl; lia ..|]. unfold put_row. simpl. by rewrite Hk. }
  apply bind_world; [done|]. intros u w4 E4. rewrite E4 in Hw. simpl in Hw.
  destruct (invalidate_world (Link.Code old) w4) as (Hd & Hst & _).
  by eapply may_write_after.
Qed.
End effects.

(** * Sequences of calls

    The calls a client can make, and what a sequence of them, from any tenants,
    does to the world. *)

Inductive call :=
  | CCreate (inp : CreateLinkInput.t)
  | CGet (id : UUID)
  | CList (limit offset : Z)
  | CUpdate (id : UUID) (inp : UpdateLinkInput.t)
  | CDelete (id : UUID).

(** What a call of tenant [t] leaves behind. *)
Definition exec `{O : Oracle} (s : LinkService.t) (t : UUID) (c : call) (w : World) : World :=
  match c with
  | CCreate inp => (LinkService.Create s t inp w).2
  | CGet id => (LinkService.Get t id w).2
  | CList limit offset => (LinkService.List t limit offset w).2
  | CUpdate id inp => (LinkService.Update s t id inp w).2
  | CDelete id => (LinkService.Delete s t id w).2
  end.

Definition exec_all `{O : Oracle} (s : LinkService.t) (cs : list (UUID * call)) (w : World) : World :=
  foldl (λ w c, exec s c.1 c.2 w) w cs.

(** Everything in the database but the links of [t]. *)
Definition others (t : UUID) (d : DB.t) : DB.t :=
  DB.with_links (filter (λ p, Link.TenantID p.2 ≠ t)) d.

(** Every link of the tenant expires at most [ttl] after an instant the clock
    showed before now. *)
Definition capped `{O : Oracle} (t : UUID) (ttl : Duration) (w : World) : Prop :=
  ∀ id l, w_links w !! id = Some l → Link.TenantID l = t →
    ∃ e k, Link.ExpiresAt l = Some e ∧ (k < w_step w)%nat ∧ e <= o_now k + ttl.

Section calls.
Context `{O : Oracle} (s : LinkService.t).
Context `{!CodeGeneratorLaws (LinkService.gen s)}.
Context `{!∀ sink, LinkService.events s = Some sink → SinkLaws sink}.
Context `{!∀ inv, LinkService.cache s = Some inv → InvalidatorLaws inv}.

Lemma List_reads t limit offset : reads (LinkService.List (O:=O) t limit offset).
Proof. unfold LinkService.List, LinkRepository.ListByTenant. reads. Qed.

(** The effect of one call on the rows: none, a new row, or a rewritten row. *)
Definition call_effect (t : UUID) (w w' : World) : Prop :=
  (w_step w ≤ w_step w')%nat
  ∧ (w_db w' = w_db w
     ∨ ∃ id row, w_db w' = DB.with_links <[id := row]> (w_db w)
         ∧ Link.TenantID row = t ∧ (∀ old, w_links w !! id = Some old → Link.TenantID old = t)
         ∧ ((∀ old, w_links w !! id = Some old → link_wf old) → link_wf row)
         ∧ (LinkService.demo_policy s t = true →
            (∃ old, w_links w !! id = Some old ∧ Link.ExpiresAt row = Link.ExpiresAt old)
            ∨ ∃ e k, Link.ExpiresAt row = Some e ∧ (k < w_step w')%nat
                ∧ e <= o_now k + LinkService.demoMaxTTL s)).

(** The policy's expiry, once stored. *)
Lemma policy_stored t n m m' r e :
  expiry_policy s t n m r e → (m ≤ m')%nat → LinkService.demo_policy s t = true →
  ∃ x k, o_timestamptz <$> e = Some x ∧ (k < m')%nat ∧ x <= o_now k + LinkService.demoMaxTTL s.
Proof.
  unfold expiry_policy. intros He Hm Hd. rewrite Hd in He.
  destruct He as (x & k & -> & ? & ? & _). exists (o_timestamptz x), k.
  pose proof (o_timestamptz_le x). split_and!; [done | lia..].
Qed.

(** A valid update keeps a row well formed, and so does a deletion. *)
Lemma update_wf inp m e k old :
  update_valid inp m → link_wf old → link_wf (update_row (LinkService.set_expiry e (patched inp old)) old k).
Proof.
  intros (Hu & Hr & _ & Hm) [Wu Wt Wm]. split; simpl.
  - destruct (UpdateLinkInput.TargetURL inp) as [u|]; simpl; [|done]. apply valid_web_url. by apply Hu.
  - unfold new_redirect. destruct (UpdateLinkInput.RedirectType inp) as [rt|]; [|done].
    destruct (Z.eqb_spec rt 0); [by right|]. destruct (Hr rt eq_refl) as [?|?]; [done|done].
  - unfold new_max. destruct (UpdateLinkInput.ClearMaxClicks inp); [done|].
    destruct (UpdateLinkInput.MaxClicks inp) as [x|]; [|apply Wm]. intros y [= <-]. by apply Hm.
Qed.

Lemma exec_effect t c w : schema w → call_effect t w (exec s t c w).
Proof.
  intros Hs. destruct c as [inp|id|limit offset|id inp|id]; simpl.
  - destruct (create_world s t inp w) as [Hle Hc]. split; [done|].
    destruct Hc as [?|(rt & e & Hpol & Hwf & _ & [?|(code & k & Hk & Hnew & Hfree & Hdb)])]; [by left..|].
    right. eexists _, _. split_and!; [done | done | by rewrite Hnew | |].
    { intros _. destruct Hwf as [? ? ?]. by split. }
    intros Hd. right. by eapply policy_stored.
  - unfold LinkService.Get. rewrite GetByIDForTenant_world. split; [simpl; lia | by left].
  - destruct (List_reads t limit offset w) as (n & Hn & ->). split; [done | by left].
  - destruct (update_world s t id inp w Hs) as [Hle Hu]. split; [done|].
    destruct Hu as [?|(old & k & row & Hk & Hold & Ht & _ & (e & m & Hpol & Hval & ->) & Hdb)]; [by left|].
    right. exists id, (update_row (LinkService.set_expiry e (patched inp old)) old k).
    split_and!; [done | done | intros; by simplify_eq | |].
    { intros Hw. eapply update_wf; eauto. }
    intros Hd. right. eapply policy_stored; [done | lia | done].
  - destruct (delete_world s t id w Hs) as [Hle Hu]. split; [done|].
    destruct Hu as [?|(old & k & row & Hk & Hold & Ht & _ & -> & Hdb)]; [by left|].
    right. exists id, (delete_row old k). split_and!; [done | done | intros; by simplify_eq | |].
    { intros Hw. destruct (Hw _ Hold) as [? ? ?]. by split. }
    intros _. left. by exists old.
Qed.

Lemma others_insert t id row d :
  Link.TenantID row = t → (∀ old, DB.links d !! id = Some old → Link.TenantID old = t) →
  others t (DB.with_links <[id := row]> d) = others t d.
Proof.
  intros Hr Ho. unfold others, DB.with_links. simpl. f_equal.
  apply map_eq. intros j. apply option_eq. intros l. rewrite !map_lookup_filter_Some, lookup_insert.
  case_decide as E; simpl; [subst j|tauto]. split; [intros [? ?]; simplify_eq|].
  intros [Hl ?]. by apply Ho in Hl.
Qed.

(** ** The schema *)

Lemma reads_schema {A} (m : M A) : reads m → preserves schema m.
Proof. intros Hm w Hw. by destruct (Hm w) as (n & _ & ->). Qed.

Lemma invalidate_schema code : preserves schema (LinkService.invalidate s code).
Proof. intros w Hw. unfold schema. by destruct (invalidate_world s code w) as (-> & _). Qed.

Lemma emitCreated_schema l : preserves schema (LinkService.emitCreated s l).
Proof. intros w Hw. unfold schema. by destruct (emitCreated_world s l w) as (-> & _). Qed.

Lemma clamp_schema t e : preserves schema (LinkService.clampDemoExpiry s t e).
Proof. apply reads_schema. unfold LinkService.clampDemoExpiry. reads. Qed.

Lemma validateExpiry_schema e : preserves schema (LinkService.validateExpiry e).
Proof. apply reads_schema. unfold LinkService.validateExpiry. reads. Qed.

Lemma patch_schema inp l : preserves schema (LinkService.patch inp l).
Proof. apply reads_schema, patch_reads. Qed.

Lemma generator_schema : preserves schema (LinkService.gen s).
Proof. apply reads_schema, generate_reads. Qed.

Local Hint Resolve invalidate_schema emitCreated_schema clamp_schema validateExpiry_schema
  patch_schema generator_schema : preserves.

Lemma allocate_schema n l : preserves schema (LinkService.allocate s n l).
Proof. induction n as [|n IH]; cbn [LinkService.allocate]; preserve; apply IH. Qed.

Local Hint Resolve allocate_schema : preserves.

Lemma exec_schema t c w : schema w → schema (exec s t c w).
Proof.
  revert w. destruct c as [inp|id|limit offset|id inp|id]; simpl.
  - change (preserves schema (LinkService.Create s t inp)).
    unfold LinkService.Create, LinkService.allocateGeneratedCode. preserve.
  - apply GetByIDForTenant_schema.
  - apply ListByTenant_schema.
  - change (preserves schema (LinkService.Update s t id inp)). unfold LinkService.Update. preserve.
  - change (preserves schema (LinkService.Delete s t id)). unfold LinkService.Delete. preserve.
Qed.

(** ** The rows *)

Definition links_wf (w : World) : Prop := map_Forall (λ _, link_wf) (w_links w).

Lemma exec_wf t c w : schema w → links_wf w → links_wf (exec s t c w).
Proof.
  intros Hs Hw. unfold links_wf.
  destruct (exec_effect t c w Hs) as [_ [->|(id & row & -> & _ & _ & Hwf & _)]]; [done|].
  simpl. apply map_Forall_insert_2; [|done]. apply Hwf. intros old. apply Hw.
Qed.

(** ** The theorems on calls *)

(** Tenant isolation of writes.  Whatever a tenant calls and whatever the outcome
    (an error after a half-done effect included), the database apart from the
    tenant's own links stays as it was: other tenants' links, every click, key,
    tenant and webhook. *)
Theorem calls_isolated t c w :
  schema w → others t (w_db (exec s t c w)) = others t (w_db w).
Proof.
  intros Hs. destruct (exec_effect t c w Hs) as [_ [->|(id & row & -> & Hr & Ho & _)]]; [done|].
  by apply others_insert.
Qed.

(** The schema invariant (unique live codes, keys, foreign keys, the click
    counter) holds after any sequence of calls of any tenants. *)
Theorem calls_keep_schema cs w : schema w → schema (exec_all s cs w).
Proof.
  unfold exec_all. revert w. induction cs as [|[t c] cs IH]; intros w Hw; [done|].
  apply IH. by apply exec_schema.
Qed.

(** C28: The demo policy bounds the playground.  Through any sequence of calls of any
    tenants, every link of the demo tenant keeps an expiry, at most the cap after an
    instant the clock has shown: no call makes a demo link permanent, clearing the
    expiry included. *)
Theorem demo_links_capped cs w :
  schema w → 0 < LinkService.demoMaxTTL s →
  capped (LinkService.demoTenantID s) (LinkService.demoMaxTTL s) w →
  capped (LinkService.demoTenantID s) (LinkService.demoMaxTTL s) (exec_all s cs w).
Proof.
  intros Hs Httl. revert w Hs. unfold exec_all.
  induction cs as [|[t c] cs IH]; intros w Hs Hcap; [done|]. simpl.
  apply IH; [by apply exec_schema|]. intros id l Hl Ht.
  destruct (exec_effect t c w Hs) as [Hle He].
  assert (Hold : ∀ id l, w_links w !! id = Some l → Link.TenantID l = LinkService.demoTenantID s →
    ∃ e k, Link.ExpiresAt l = Some e ∧ (k < w_step (exec s t c w))%nat
      ∧ e <= o_now k + LinkService.demoMaxTTL s).
  { intros i li Hi Hti. destruct (Hcap i li Hi Hti) as (e & k & ? & ? & ?).
    exists e, k. split_and!; [done | lia | done]. }
  destruct He as [E|(id' & row & E & Hrow & Ho & _ & Hexp)]; rewrite E in Hl; [by eapply Hold|].
  simpl in Hl. rewrite lookup_insert in Hl. case_decide; [|by eapply Hold].
  simplify_eq.
  assert (Hpol : LinkService.demo_policy s (Link.TenantID l) = true).
  { unfold LinkService.demo_policy. rewrite Ht, N.eqb_refl, orb_false_r, negb_true_iff, Z.leb_gt.
    lia. }
  destruct (Hexp Hpol) as [(old & Hlo & ->)|?]; [|done].
  eapply Hold; [done|]. rewrite <- Ht. by eapply Ho.
Qed.
End calls.
