(* ===== verification/Concrete.v ===== *)
(** Concrete instances of the parameters: an oracle, a codec and a code
    generator on which the witnesses run the program. *)
From stdpp Require Import prelude gmap strings list countable.
From Stdlib Require Import Ascii.
From S2P Require Import Prelude GoStd Domain Wire World LinkCache Shortcode LinkService.

Local Open Scope Z_scope.

(** * An oracle *)

(** The clock gives effect [n] the instant [n] seconds; every id is new; the [n]-th
    read of random bytes repeats the byte [n]; maps are ranged in order. *)
Program Definition oracle (faults : nat → option (string * bool)) (http : nat → HttpRequest.t → http_result) : Oracle :=
  {| o_now n := Z.of_nat n * Second;
     o_uuid n := N.of_nat (1000 + n);
     o_fault := faults;
     o_rand n k := replicate k (byte_of (Z.of_nat n));
     o_int64n _ _ := 0;
     o_range _ l := l;
     o_timestamptz t := t / 1000 * 1000;
     o_http := http |}.
Next Obligation. intros. apply length_replicate. Qed.
Next Obligation. intros. lia. Qed.
Next Obligation. done. Qed.
Next Obligation. intros _ _ t. simpl. pose proof (Z.mul_div_le t 1000). lia. Qed.

Definition no_fault : nat → option (string * bool) := λ _, None.
Definition all_200 : nat → HttpRequest.t → http_result := λ _ _, HttpStatus 200 NoLocation.

(** The fault-free oracle. *)
Definition calm : Oracle := oracle no_fault all_200.

(** One fault: the call at effect [n] fails, its effect done or not. *)
Definition fault_at (n : nat) (applied : bool) : Oracle :=
  oracle (λ m, if (m =? n)%nat then Some ("connection reset", applied) else None) all_200.

(** * A codec *)

(** A positive as a string of its bits. *)
Fixpoint bits (p : positive) : string :=
  match p with
  | 1%positive => "1"
  | (p~0)%positive => String "0" (bits p)
  | (p~1)%positive => String "1" (bits p)
  end.

Fixpoint unbits (s : string) : option positive :=
  match s with
  | "" => None
  | String "1" "" => Some 1%positive
  | String "0" s => xO <$> unbits s
  | String "1" s => xI <$> unbits s
  | String _ _ => None
  end.

Lemma unbits_bits p : unbits (bits p) = Some p.
Proof.
  induction p as [p IH|p IH|]; simpl; [|by rewrite IH|done].
  rewrite IH. by destruct p.
Qed.

(** Ids in binary, and a process two hours east of UTC. *)
#[export] Instance codec : Codec := {
  uuid_String u := bits (countable.encode u);
  uuid_Parse s := unbits s ≫= countable.decode;
  local_offset _ := 120;
}.

Lemma bits_valid p : ValidString (bits p) = true.
Proof.
  apply ascii_valid. induction p as [p IH|p IH|]; simpl; intros c Hc; apply elem_of_cons in Hc as [->|Hc]; auto; try done.
  by apply not_elem_of_nil in Hc.
Qed.

#[export] Instance codec_laws : CodecLaws.
Proof.
  split.
  - intros u. simpl. rewrite unbits_bits. simpl. apply decode_encode.
  - intros u. apply bits_valid.
Qed.

(** * A code generator *)

(** The generator of the program at length 7, with fuel for two buffers. *)
Definition generator `{O : Oracle} : CodeGenerator := Generator_generates 2 (NewGenerator 7).

#[export] Instance generator_laws `{O : Oracle} : CodeGeneratorLaws generator.
Proof. apply Generator_laws. Qed.

(** * A world *)

Definition tenant1 : UUID := 1%N.
Definition tenant2 : UUID := 2%N.

Definition world0 : World := {|
  w_step := 0%nat;
  w_db := DB.Mk {[ tenant1 := Tenant.Mk tenant1 "acme" 0 0; tenant2 := Tenant.Mk tenant2 "demo" 0 0 ]}
            ∅ ∅ [] ∅;
  w_redis := Redis.empty;
  w_pipe := Pipeline.Mk [] false [] [] 0 0 0;
  w_disp := Dispatcher.Mk [] [] false Running [] [] [] [] 0;
  w_metrics := Metrics.Mk 0 0 ∅ 0 0 0 0 ∅ ∅;
  w_access := [];
|}.

(** The value of a run that succeeded. *)
Definition value {A} (dflt : A) (o : res A * World) : A :=
  match o.1 with Ok a => a | _ => dflt end.
