(* ===== verification/LinkServiceSpec.v ===== *)
(** What LinkService promises: the functional behaviour of each operation. *)
From stdpp Require Import prelude gmap strings list sorting.
From S2P Require Import Prelude GoStd NetUrl Domain World Schema LinkRepo Shortcode LinkService.

Local Open Scope Z_scope.

Section spec.
Context `{O : Oracle} (s : LinkService.t).
Context `{!CodeGeneratorLaws (LinkService.gen s)}.
Context `{!∀ sink, LinkService.events s = Some sink → SinkLaws sink}.
Context `{!∀ inv, LinkService.cache s = Some inv → InvalidatorLaws inv}.

(** ** Create *)

(** The code of a created link: the alias asked for, or a generated one. *)
Definition code_choice (alias code : string) : Prop :=
  if String.eqb alias "" then forallb code_char (bytes_of code) = true
  else code = alias ∧ ValidAlias code = true.

(** A redirect type of 0 is none: the body had no such field. *)
Definition redirect_asked (rt : Z) : Z := if decide (rt = 0) then 302 else rt.

Lemma code_free code links :
  code_taken None code links = false → select_row (by_code code) links = None.
Proof.
  intros Hf. apply select_row_None. intros id l Hl. apply not_true_iff_false.
  intros [Hc Hv]%by_code_true. by pose proof (proj1 (code_taken_false _ _ _) Hf id l Hl Hv Hc).
Qed.

(** C18: A successful Create inserts exactly the link it returns, under an id and a
    code that were free: the tenant's, with the target, the limits and the redirect
    type asked for, 302 when none was, zero clicks, not deleted, and the expiry asked for (under the
    demo policy, one no later than the cap). *)
Theorem Create_correct t inp w l w' :
  LinkService.Create s t inp w = (Ok l, w') →
  w_db w' = DB.with_links <[Link.ID l := l]> (w_db w)
  ∧ w_links w !! Link.ID l = None
  ∧ select_row (by_code (Link.Code l)) (w_links w) = None
  ∧ code_choice (CreateLinkInput.CustomAlias inp) (Link.Code l)
  ∧ Link.TenantID l = t
  ∧ Link.TargetURL l = CreateLinkInput.TargetURL inp ∧ valid_url (Link.TargetURL l)
  ∧ Link.RedirectType l = redirect_asked (CreateLinkInput.RedirectType inp)
  ∧ (Link.RedirectType l = 301 ∨ Link.RedirectType l = 302)
  ∧ Link.MaxClicks l = CreateLinkInput.MaxClicks inp ∧ (∀ m, Link.MaxClicks l = Some m → 1 <= m)
  ∧ Link.ClickCount l = 0 ∧ Link.DeletedAt l = None
  ∧ (∃ e n, Link.ExpiresAt l = o_timestamptz <$> e ∧ (w_step w ≤ n)%nat
       ∧ (if LinkService.demo_policy s t
          then ∃ x, e = Some x ∧ x <= o_now n + LinkService.demoMaxTTL s
                 ∧ ∀ y, CreateLinkInput.ExpiresAt inp = Some y → x <= y
          else e = CreateLinkInput.ExpiresAt inp)).
Proof.
  intros E. apply Create_inv in E as (code & rt & e & k0 & k & Hu & Hrt & Hm & Hexp & Hk & Hnd & Hd & Hc & HC & Hdb);
    [|done..].
  pose proof (Create_Ok _ _ _ _ HC) as (-> & _ & Hnew & Hfree & _ & _).
  apply validateURL_spec in Hu as [_ Hu]. apply normalizeRedirectType_inl in Hrt.
  pose proof (proj1 (validateMaxClicks_None _) Hm) as Hm'.
  rewrite Hdb. unfold code_choice. split_and!; try done.
  - by apply code_free.
  - unfold redirect_asked. simpl. destruct Hrt as [[?|?] [[? ?]|?]]; case_decide; lia.
  - tauto.
  - exists e, k0. split_and!; [done | lia |].
    destruct (LinkService.demo_policy s t); auto.
Qed.

(** The inputs Create refuses, without looking at the database: a URL that does
    not parse to http(s) with a host, a redirect type other than 301 and 302, an
    expiry not in the future, a click limit below one, an alias that is not 3 to 64
    URL-safe characters or is reserved.  The error wraps ErrValidation and no row
    changes. *)
Theorem Create_rejects t inp w :
  ¬ (CreateLinkInput.TargetURL inp ≠ "" ∧ valid_url (CreateLinkInput.TargetURL inp))
  ∨ CreateLinkInput.RedirectType inp ∉ [0; 301; 302]
  ∨ (∃ e, CreateLinkInput.ExpiresAt inp = Some e ∧ e <= o_now (w_step w))
  ∨ (∃ m, CreateLinkInput.MaxClicks inp = Some m ∧ m < 1)
  ∨ CreateLinkInput.CustomAlias inp ≠ "" ∧ ValidAlias (CreateLinkInput.CustomAlias inp) = false →
  ∃ e w', LinkService.Create s t inp w = (Err e, w') ∧ Is e ErrValidation = true
    ∧ w_db w' = w_db w ∧ w_redis w' = w_redis w.
Proof.
  intros Hbad. unfold LinkService.Create, mbind, M_bind.
  destruct (validateURL (CreateLinkInput.TargetURL inp)) as [e|] eqn:Hu; simpl.
  { exists e, w. split_and!; try done. by eapply validateURL_error. }
  apply validateURL_spec in Hu.
  destruct (normalizeRedirectType (CreateLinkInput.RedirectType inp)) as [rt|e] eqn:Hr; simpl.
  2: { exists e, w. split_and!; try done. by eapply normalizeRedirectType_inr. }
  assert (Hr' : CreateLinkInput.RedirectType inp ∈ [0; 301; 302]).
  { apply normalizeRedirectType_inl in Hr. rewrite !elem_of_cons. lia. }
  destruct (LinkService.validateExpiry (CreateLinkInput.ExpiresAt inp) w) as [r w1] eqn:He.
  pose proof He as (n1 & _ & ->)%reads_out; [|unfold LinkService.validateExpiry; reads].
  assert (Hexp : (∃ e, r = Err e ∧ Is e ErrValidation = true)
    ∨ r = Ok () ∧ ∀ x, CreateLinkInput.ExpiresAt inp = Some x → o_now (w_step w) < x).
  { unfold LinkService.validateExpiry in He. destruct (CreateLinkInput.ExpiresAt inp) as [x|].
    - unfold now, tick, mbind, M_bind in He. simpl in He.
      destruct (Z.ltb_spec (o_now (w_step w)) x); unfold mret, M_ret, fail in He; simplify_eq; [|eauto].
      right. split; [done|]. by intros ? [= <-].
    - unfold mret, M_ret in He. simplify_eq. by right. }
  destruct Hexp as [(e & -> & He')|[-> Hexp]]; [by exists e, (set_step n1 w)|].
  destruct (validateMaxClicks (CreateLinkInput.MaxClicks inp)) as [e|] eqn:Hm; simpl.
  { exists e, (set_step n1 w). split_and!; try done.
    revert Hm. unfold validateMaxClicks. intros. by repeat (case_match; simplify_eq/=). }
  pose proof (proj1 (validateMaxClicks_None _) Hm) as Hm'.
  destruct Hbad as [?|[?|[(e & Hx & ?)|[(m & Hx & ?)|[Ha Hv]]]]];
    [done | done | apply Hexp in Hx; lia | apply Hm' in Hx; lia |].
  assert (Hc : ∃ ex n, LinkService.clampDemoExpiry s t (CreateLinkInput.ExpiresAt inp) (set_step n1 w)
    = (Ok ex, set_step n w)).
  { unfold LinkService.clampDemoExpiry, now, tick, mbind, M_bind. simpl.
    destruct (negb _); [by eexists _, n1|].
    destruct (CreateLinkInput.ExpiresAt inp); [case_match|]; by eexists _, _. }
  destruct Hc as (ex & n & ->). rewrite Hv.
  destruct (String.eqb_spec (CreateLinkInput.CustomAlias inp) ""); [done|]. simpl.
  eexists _, (set_step n w). by split_and!.
Qed.

(** The row the insertion at effect [k] would make clashes: its code is taken, or the
    id the database drew exists. *)
Definition clashes (links : gmap UUID Link.t) (c : string * nat) : Prop :=
  code_taken None c.1 links = true ∨ is_Some (links !! o_uuid c.2).

(** The retry budget.  Allocation fails with ErrCodeExhausted only after exactly
    as many generated codes as the budget all clashed, and then nothing was written;
    a collision is never reported as a conflict: every other error is a failure of
    the random source or of the database. *)
Theorem allocate_errors link w e w' :
  LinkService.allocateGeneratedCode s link w = (Err e, w') →
  (e = ESentinel ErrCodeExhausted ∧ w_db w' = w_db w
   ∧ ∃ tries, length tries = Z.to_nat (LinkService.maxCollision s)
       ∧ Forall (clashes (w_links w)) tries)
  ∨ ∀ k, Is e k = false.
Proof.
  unfold LinkService.allocateGeneratedCode. generalize (Z.to_nat (LinkService.maxCollision s)).
  intros n. revert w. induction n as [|n IH]; intros w E; cbn [LinkService.allocate] in E.
  { unfold fail in E. simplify_eq. left. split_and!; [done..|]. by exists []. }
  apply bind_Err in E as [E|(c & w1 & Hc & E)]; [by apply attempt_Err in E|].
  apply attempt_Ok in Hc. destruct c as [code|e1].
  2: { right. intros k. unfold fail in E. simplify_eq. simpl. by eapply (generate_err (G:=LinkService.gen s)). }
  apply (reads_out _ _ _ _ generate_reads) in Hc as (m & Hm & ->).
  apply bind_Err in E as [E|(r & w2 & Hr & E)]; [by apply attempt_Err in E|].
  apply attempt_Ok in Hr. destruct r as [l|e1]; [done|].
  apply Create_Err in Hr as [(-> & -> & _ & Hcl)|(e' & -> & He)].
  - simpl in E. apply IH in E as [(-> & Hdb & tries & Hlen & Hall)|?]; [|by right].
    left. split_and!; [done..|]. exists ((code, m) :: tries). simpl in *. split; [lia|].
    constructor; [|done]. unfold clashes. simpl. tauto.
  - rewrite (He ErrConflict) in E. unfold fail in E. simplify_eq. by right.
Qed.

(** ** Reading *)

(** A page of List: of the tenant's live links in some order from newest to
    oldest, the page from the offset (0 if negative) of the limit asked for if that
    is between 1 and 100, of 50 otherwise. *)
Theorem List_page t limit offset w ls w' :
  LinkService.List t limit offset w = (Ok ls, w') →
  ∃ all size,
    all ≡ₚ filter (λ l, Link.TenantID l = t ∧ Link.live l = true) (map_to_list (w_links w)).*2
    ∧ StronglySorted newer all
    ∧ (1 <= limit <= 100 ∧ size = limit ∨ ¬ 1 <= limit <= 100 ∧ size = 50)
    ∧ ls = take (Z.to_nat size) (drop (Z.to_nat offset) all) ∧ w_db w' = w_db w.
Proof.
  unfold LinkService.List, LinkRepository.ListByTenant. intros E.
  apply bind_Ok in E as (r & w1 & Hr & E). destruct r as [all|]; [|done]. inv_ok E.
  apply attempt_Ok, backend_Ok in Hr. apply bind_Ok in Hr as (d & w2 & Hd & Hr).
  unfold gets in Hd. simplify_eq/=. case_match eqn:Hneg; [done|]. inv_ok Hr.
  exists (merge_sort newer (select_rows (of_tenant t) (w_links w))),
    (if (limit <=? 0) || (100 <? limit) then 50 else limit).
  split_and!; [ | | | | done].
  - rewrite merge_sort_Permutation. unfold select_rows.
    erewrite list_filter_iff; [done|]. intros l. simpl. apply of_tenant_true.
  - apply StronglySorted_merge_sort; apply _.
  - destruct (Z.leb_spec limit 0), (Z.ltb_spec 100 limit); simpl; lia.
  - do 2 f_equal. destruct (Z.ltb_spec offset 0); lia.
Qed.

(** Another tenant's link is indistinguishable from a missing one: reading,
    updating and deleting it all give ErrNotFound and change nothing. *)
Theorem foreign_link_not_found t id inp l w :
  schema w → w_links w !! id = Some l → Link.TenantID l ≠ t → o_fault (w_step w) = None →
  LinkService.Get t id w = (Err (ESentinel ErrNotFound), set_step (S (w_step w)) w)
  ∧ LinkService.Update s t id inp w = (Err (ESentinel ErrNotFound), set_step (S (w_step w)) w)
  ∧ LinkService.Delete s t id w = (Err (ESentinel ErrNotFound), set_step (S (w_step w)) w).
Proof.
  intros Hs Hl Ht Hf.
  assert (HG : LinkRepository.GetByIDForTenant t id w = (Err (ESentinel ErrNotFound), set_step (S (w_step w)) w)).
  { unfold LinkRepository.GetByIDForTenant, LinkRepository.one_row, LinkRepository.query_row.
    unfold mbind, M_bind, attempt, backend. rewrite Hf. simpl.
    destruct (select_row _ _) as [l'|] eqn:E; [|done].
    apply select_by_id in E as (? & ? & _); [|done]. congruence. }
  unfold LinkService.Get, LinkService.Update, LinkService.Delete, mbind, M_bind. by rewrite HG.
Qed.

(** ** Update and Delete *)

(** The row [l] an Update by [inp] makes of [old], from the instant [start] on: the fields
    of a valid patch, the others as they were, and the expiry [e] under the policy. *)
Definition rewrites (t id : UUID) (inp : UpdateLinkInput.t) (start n : nat) (old : Link.t) (e : option Time)
    (l : Link.t) : Prop :=
  update_valid inp (S start)
  ∧ Link.ID l = id ∧ Link.TenantID l = t ∧ Link.Code l = Link.Code old
  ∧ Link.TargetURL l = default (Link.TargetURL old) (UpdateLinkInput.TargetURL inp)
  ∧ Link.RedirectType l = new_redirect inp (Link.RedirectType old)
  ∧ Link.MaxClicks l = new_max inp (Link.MaxClicks old)
  ∧ Link.ExpiresAt l = o_timestamptz <$> e
  ∧ expiry_policy s t start n (new_expiry inp (Link.ExpiresAt old)) e
  ∧ Link.ClickCount l = Link.ClickCount old ∧ Link.CreatedAt l = Link.CreatedAt old
  ∧ Link.DeletedAt l = None.

(** What a successful Update did. *)
Lemma update_spec t id inp w l w' :
  schema w → LinkService.Update s t id inp w = (Ok l, w') →
  ∃ old e n,
    w_links w !! id = Some old ∧ Link.TenantID old = t ∧ Link.live old = true
    ∧ w_db w' = DB.with_links <[id := l]> (w_db w)
    ∧ rewrites t id inp (w_step w) n old e l.
Proof.
  intros Hs E. unfold LinkService.Update in E.
  apply bind_Ok in E as (old & w1 & (Hold & Ht & Hv & ->)%GetByIDForTenant_Ok & E); [|done].
  apply bind_Ok in E as (l1 & w2 & Hp & E).
  pose proof Hp as (n & Hn & ->)%reads_out; [|apply patch_reads].
  apply patch_Ok in Hp as [-> Hvalid]. simpl in Hn, Hvalid.
  apply bind_Ok in E as (e & w3 & (Hpol & Hle & E3)%clamp_policy & E).
  rewrite !set_step_id in E3. simpl in Hpol, Hle. set (k := w_step w3) in *. clearbody k. subst w3.
  apply bind_Ok in E as (l' & w4 & HU & E). apply Update_Ok in HU; [|done].
  destruct HU as (old' & Hold' & _ & _ & -> & -> & _). simpl in Hold'.
  pose proof (ok_key _ Hs _ _ Hold) as Hk. rewrite Hk, Hold in Hold'. injection Hold' as <-.
  apply bind_Ok in E as (u & w5 & H5 & E). apply bind_Ok in E as (u' & w6 & H6 & E). inv_ok E.
  exists old, e, k. unfold rewrites, update_row. simpl. split_and!; try done.
  - destruct (invalidate_world s (Link.Code old) (put_row (update_row
      (LinkService.set_expiry e (patched inp old)) old k) (set_step k w))) as [Hd5 _].
    rewrite H5 in Hd5. simpl in Hd5.
    assert (Hd6 : w_db w' = w_db w5).
    { revert H6. case_match; [|by intros H6; inv_ok H6]. intros H6.
      match type of H6 with LinkService.invalidate _ ?c _ = _ =>
        destruct (invalidate_world s c w5) as [Hd6 _] end. by rewrite H6 in Hd6. }
    by rewrite Hd6, Hd5.
  - eapply expiry_policy_mono; [| |done]; lia.
  - revert Hv. unfold Link.live. by destruct (Link.DeletedAt old).
Qed.

Lemma update_row_kept t id inp w l w' :
  schema w → LinkService.Update s t id inp w = (Ok l, w') →
  ∃ old, w_links w !! id = Some old ∧ Link.live old = true ∧ Link.Code l = Link.Code old
    ∧ Link.live l = true.
Proof.
  intros Hs E. apply update_spec in E as (old & e & n & ? & _ & ? & _ & _ & _ & _ & ? & _ & _ & _ & _ & _ & _ & _ & Hd);
    [|done].
  exists old. split_and!; try done. unfold Link.live. by rewrite Hd.
Qed.

(** What a successful Delete did. *)
Lemma delete_spec t id w u w' :
  schema w → LinkService.Delete s t id w = (Ok u, w') →
  ∃ old n,
    w_links w !! id = Some old ∧ Link.TenantID old = t ∧ Link.live old = true
    ∧ w_db w' = DB.with_links <[id := delete_row old n]> (w_db w)
    ∧ select_row (by_code (Link.Code old)) (w_links w') = None.
Proof.
  intros Hs E. unfold LinkService.Delete in E.
  apply bind_Ok in E as (old & w1 & (Hold & Ht & Hv & ->)%GetByIDForTenant_Ok & E); [|done].
  apply bind_Ok in E as (u1 & w2 & HD & E). apply SoftDelete_Ok in HD as (old' & Hold' & _ & _ & ->); [|done].
  simpl in Hold'. rewrite Hold in Hold'. injection Hold' as <-.
  destruct (invalidate_world s (Link.Code old) (put_row (delete_row old (S (w_step w)))
    (set_step (S (w_step w)) w))) as [Hd _].
  simpl in E. rewrite E in Hd. simpl in Hd. rewrite (ok_key _ Hs _ _ Hold) in Hd.
  exists old, (S (w_step w)). split_and!; try done.
  rewrite Hd. simpl. apply select_row_None. intros j lj. rewrite lookup_insert. case_decide as Hj.
  - intros [= <-]. unfold by_code. simpl. by rewrite andb_false_r.
  - intros Hlj. apply not_true_iff_false. intros [Hc Hvj]%by_code_true.
    apply Hj. by eapply (ok_code _ Hs).
Qed.
Lemma delete_frees t id w u w' old :
  schema w → LinkService.Delete s t id w = (Ok u, w') → w_links w !! id = Some old →
  select_row (by_code (Link.Code old)) (w_links w') = None.
Proof.
  intros Hs E Hold. apply delete_spec in E as (old' & n & Hold' & _ & _ & _ & ?); [|done].
  congruence.
Qed.

(** C26: A successful Update rewrites exactly the row of the tenant's live link, and
    returns it: the fields of the patch where given and valid, the others as they
    were, the code and the click count always as they were, and the expiry under the
    demo policy capped again. *)
Theorem Update_correct t id inp w l w' :
  schema w → LinkService.Update s t id inp w = (Ok l, w') →
  ∃ old e n,
    w_links w !! id = Some old ∧ Link.TenantID old = t ∧ Link.live old = true
    ∧ w_db w' = DB.with_links <[id := l]> (w_db w)
    ∧ rewrites t id inp (w_step w) n old e l.
Proof. apply update_spec. Qed.

(** A successful Delete marks exactly the row of the tenant's live link deleted;
    its code is then free. *)
Theorem Delete_correct t id w u w' :
  schema w → LinkService.Delete s t id w = (Ok u, w') →
  ∃ old n,
    w_links w !! id = Some old ∧ Link.TenantID old = t ∧ Link.live old = true
    ∧ w_db w' = DB.with_links <[id := delete_row old n]> (w_db w)
    ∧ select_row (by_code (Link.Code old)) (w_links w') = None.
Proof. apply delete_spec. Qed.

End spec.
