(* ===== verification/Counters.v ===== *)
(** The Prometheus counters (internal/metrics/metrics.go) and the observer
    interfaces the layers see them through. *)
From stdpp Require Import prelude gmap strings list.
From S2P Require Import Prelude GoStd Domain World.

Local Open Scope Z_scope.

(** [New]: every collector starts empty. *)
Definition NewMetrics : Metrics.t := Metrics.Mk 0 0 ∅ 0 0 0 0 ∅ ∅.

(** [m.redirects.WithLabelValues(result).Inc()]. *)
Definition ObserveRedirect (result : string) : M () :=
  modify (upd_metrics (λ m, Metrics.Mk (Metrics.cacheHits m) (Metrics.cacheMisses m)
    (<[result := default 0 (Metrics.redirects m !! result) + 1]> (Metrics.redirects m))
    (Metrics.analyticsEnqueued m) (Metrics.analyticsDropped m) (Metrics.analyticsFlushed m)
    (Metrics.analyticsQueueDepth m) (Metrics.httpRequests m) (Metrics.httpDuration m))).

Definition ObserveCacheHit : M () :=
  modify (upd_metrics (λ m, Metrics.Mk (Metrics.cacheHits m + 1) (Metrics.cacheMisses m)
    (Metrics.redirects m) (Metrics.analyticsEnqueued m) (Metrics.analyticsDropped m)
    (Metrics.analyticsFlushed m) (Metrics.analyticsQueueDepth m) (Metrics.httpRequests m) (Metrics.httpDuration m))).

Definition ObserveCacheMiss : M () :=
  modify (upd_metrics (λ m, Metrics.Mk (Metrics.cacheHits m) (Metrics.cacheMisses m + 1)
    (Metrics.redirects m) (Metrics.analyticsEnqueued m) (Metrics.analyticsDropped m)
    (Metrics.analyticsFlushed m) (Metrics.analyticsQueueDepth m) (Metrics.httpRequests m) (Metrics.httpDuration m))).

Definition IncEnqueued : M () :=
  modify (upd_metrics (λ m, Metrics.Mk (Metrics.cacheHits m) (Metrics.cacheMisses m)
    (Metrics.redirects m) (Metrics.analyticsEnqueued m + 1) (Metrics.analyticsDropped m)
    (Metrics.analyticsFlushed m) (Metrics.analyticsQueueDepth m) (Metrics.httpRequests m) (Metrics.httpDuration m))).

Definition IncDropped : M () :=
  modify (upd_metrics (λ m, Metrics.Mk (Metrics.cacheHits m) (Metrics.cacheMisses m)
    (Metrics.redirects m) (Metrics.analyticsEnqueued m) (Metrics.analyticsDropped m + 1)
    (Metrics.analyticsFlushed m) (Metrics.analyticsQueueDepth m) (Metrics.httpRequests m) (Metrics.httpDuration m))).

Definition IncFlushed (n : Z) : M () :=
  modify (upd_metrics (λ m, Metrics.Mk (Metrics.cacheHits m) (Metrics.cacheMisses m)
    (Metrics.redirects m) (Metrics.analyticsEnqueued m) (Metrics.analyticsDropped m)
    (Metrics.analyticsFlushed m + n) (Metrics.analyticsQueueDepth m) (Metrics.httpRequests m) (Metrics.httpDuration m))).

Definition SetQueueDepth (n : Z) : M () :=
  modify (upd_metrics (λ m, Metrics.Mk (Metrics.cacheHits m) (Metrics.cacheMisses m)
    (Metrics.redirects m) (Metrics.analyticsEnqueued m) (Metrics.analyticsDropped m)
    (Metrics.analyticsFlushed m) n (Metrics.httpRequests m) (Metrics.httpDuration m))).

(** [ObserveHTTP]: one observation, one request. *)
Definition ObserveHTTP (method route status : string) (dur : Duration) : M () :=
  let l := (method, route, status) in
  modify (upd_metrics (λ m, Metrics.Mk (Metrics.cacheHits m) (Metrics.cacheMisses m)
    (Metrics.redirects m) (Metrics.analyticsEnqueued m) (Metrics.analyticsDropped m)
    (Metrics.analyticsFlushed m) (Metrics.analyticsQueueDepth m)
    (<[l := default 0 (Metrics.httpRequests m !! l) + 1]> (Metrics.httpRequests m))
    (<[l := default [] (Metrics.httpDuration m !! l) ++ [dur]]> (Metrics.httpDuration m)))).

(** An observer call: it bumps counters and does nothing else. *)
Definition observes (m : M ()) : Prop := ∀ w, ∃ f, m w = (Ok (), upd_metrics f w).

(** [service.CacheObserver]. *)
Module CacheObserver.
Record t := Mk { hit : M (); miss : M () }.
Definition laws (o : t) : Prop := observes (hit o) ∧ observes (miss o).
End CacheObserver.

Definition Metrics_CacheObserver : CacheObserver.t := CacheObserver.Mk ObserveCacheHit ObserveCacheMiss.

Lemma Metrics_CacheObserver_laws : CacheObserver.laws Metrics_CacheObserver.
Proof. split; intros w; by eexists. Qed.

(** [analytics.Observer]. *)
Module Observer.
Record t := Mk { enqueued : M (); dropped : M (); flushed : Z → M () }.
Definition laws (o : t) : Prop :=
  observes (enqueued o) ∧ observes (dropped o) ∧ ∀ n, observes (flushed o n).
End Observer.

Definition Metrics_Observer : Observer.t := Observer.Mk IncEnqueued IncDropped IncFlushed.

Lemma Metrics_Observer_laws : Observer.laws Metrics_Observer.
Proof. split_and!; repeat intros ?; by eexists. Qed.

Lemma observes_ret : observes (mret ()).
Proof. intros w. exists id. by destruct w. Qed.
