(* ===== verification/Redirect.v ===== *)
(** The redirect hot path (internal/service/redirect.go): Redis first, Postgres on a
    miss or a cache failure, with backfill.

    The specification is the answer the table alone would give.  [coherent] is the
    invariant under which the cached answers agree with it. *)
From stdpp Require Import prelude gmap strings list.
From S2P Require Import Prelude GoStd Domain Wire World Schema LinkRepo LinkCache Shortcode LinkService Counters.

Local Open Scope Z_scope.

Module RedirectService.
Record t := Mk { cache : LinkCache.t; observer : option CacheObserver.t }.

Section service.
Context `{O : Oracle} `{Codec} (s : t).

Definition observeHit : M () :=
  match observer s with Some o => CacheObserver.hit o | None => mret () end.

Definition observeMiss : M () :=
  match observer s with Some o => CacheObserver.miss o | None => mret () end.

Definition checkActive (link : Link.t) : M Link.t :=
  t ← now; if negb (Link.IsActive link t) then fail (ESentinel ErrGone) else mret link.

Definition fromDB (code : string) : M Link.t :=
  r ← attempt (LinkRepository.GetByCode code);
  match r with
  | inr err =>
      if Is err ErrNotFound then
        attempt (LinkCache.SetNegative (cache s) code);;
        fail (ESentinel ErrNotFound)
      else fail err
  | inl link =>
      attempt (LinkCache.Set_ (cache s) link);;
      checkActive link
  end.

Definition Resolve (code : string) : M Link.t :=
  r ← attempt (LinkCache.Get code);
  match r with
  | inr _ => observeMiss;; fromDB code
  | inl (Some link, true) => observeHit;; checkActive link
  | inl (None, true) => observeHit;; fail (ESentinel ErrNotFound)
  | inl (_, false) => observeMiss;; fromDB code
  end.
End service.
End RedirectService.

(** * Coherence of the cache with the table *)

Section coherence.
Context `{Codec}.

(** [c] answers like the row [l]: the same link, and exhausted when it is. *)
Record same_link (l c : Link.t) : Prop := {
  same_id : Link.ID c = Link.ID l;
  same_tenant : Link.TenantID c = Link.TenantID l;
  same_code : Link.Code c = Link.Code l;
  same_target : Link.TargetURL c = Link.TargetURL l;
  same_redirect : Link.RedirectType c = Link.RedirectType l;
  same_expiry : Link.ExpiresAt c = Link.ExpiresAt l;
  same_exhausted : Link.IsExhausted c = Link.IsExhausted l;
  same_live : Link.live c = Link.live l;
}.

Lemma same_link_refl l : same_link l l.
Proof. by split. Qed.

Lemma same_link_snapshot l : Link.live l = true → same_link l (snapshot l).
Proof. by split. Qed.

Lemma same_link_active l c t : same_link l c → Link.IsActive c t = Link.IsActive l t.
Proof.
  intros [_ _ _ _ _ He Hx Hl]. unfold Link.IsActive, Link.IsExpired. by rewrite He, Hx, Hl.
Qed.

(** The cached value [v] agrees with the row the table has for the code. *)
Definition entry_ok (links : gmap UUID Link.t) (code v : string) : Prop :=
  if decide (v = negativeMarker) then select_row (by_code code) links = None
  else ∀ cl c, json_Unmarshal v = Some cl → toDomain cl = inl c →
         ∃ l, select_row (by_code code) links = Some l ∧ same_link l c.

Definition coherent_redis (links : gmap UUID Link.t) (r : Redis.t) : Prop :=
  ∀ code v x, Redis.strs r !! cacheKey code = Some (v, x) → entry_ok links code v.

Definition coherent (w : World) : Prop := coherent_redis (w_links w) (w_redis w).

Lemma coherent_insert links r code v x :
  entry_ok links code v → coherent_redis links r →
  coherent_redis links (Redis.with_strs <[cacheKey code := (v, x)]> r).
Proof.
  intros He Hr code' v' x'. simpl. rewrite lookup_insert. case_decide as E; [|apply Hr].
  apply cacheKey_inj in E as <-. intros. by simplify_eq.
Qed.

Lemma coherent_delete links r code :
  coherent_redis links r → coherent_redis links (Redis.with_strs (delete (cacheKey code)) r).
Proof.
  intros Hr code' v' x'. simpl. rewrite lookup_delete_Some. intros [_ ?]. by eapply Hr.
Qed.

Lemma entry_negative links code :
  select_row (by_code code) links = None → entry_ok links code negativeMarker.
Proof. intros. unfold entry_ok. by rewrite decide_True. Qed.

Lemma entry_positive `{!CodecLaws} links l v :
  select_row (by_code (Link.Code l)) links = Some l → Link.live l = true →
  pg_text (Link.Code l) = true ∧ pg_text (Link.TargetURL l) = true →
  json_Marshal (fromDomain l) = Some v → entry_ok links (Link.Code l) v.
Proof.
  intros Hl Hv [Hc%pg_text_valid Hu%pg_text_valid] Hm. unfold entry_ok. rewrite decide_False by (by eapply json_object).
  intros cl c Hcl Hd. rewrite (json_same _ _ _ (utf8_fromDomain l Hc Hu) Hm Hcl) in Hd.
  rewrite toDomain_fromDomain in Hd. simplify_eq. exists l. split; [done|]. by apply same_link_snapshot.
Qed.
End coherence.

(** * The outcomes of the cache operations *)

Section cache_outcomes.
Context `{O : Oracle} `{Codec} (c : LinkCache.t).

(** What an answer of the cache says is stored. *)
Lemma Get_Ok code w r w' :
  LinkCache.Get code w = (Ok r, w') →
  match r with
  | (None, true) => ∃ x, Redis.strs (w_redis w) !! cacheKey code = Some (negativeMarker, x)
      ∧ is_Some (Redis.visible (o_now (w_step w)) (negativeMarker, x))
  | (Some l, true) => ∃ v x cl, Redis.strs (w_redis w) !! cacheKey code = Some (v, x)
      ∧ is_Some (Redis.visible (o_now (w_step w)) (v, x))
      ∧ v ≠ negativeMarker ∧ json_Unmarshal v = Some cl ∧ toDomain cl = inl l
  | (l, false) => l = None
  end.
Proof.
  unfold LinkCache.Get. intros E. apply bind_Ok in E as (v & w1 & Hv & E). destruct v as [v|e].
  - apply attempt_Ok in Hv. unfold redis_GET in Hv. apply backend_Ok in Hv.
    apply bind_Ok in Hv as (rd & w2 & Hrd & Hv). unfold gets in Hrd. simplify_eq/=.
    unfold Redis.get in Hv. destruct (Redis.strs _ !! _) as [[v' x]|] eqn:Hl; simpl in Hv; [|done].
    assert (v' = v ∧ is_Some (Redis.visible (o_now (w_step w)) (v, x))) as [-> Hvis].
    { unfold Redis.visible in Hv |- *. simpl in Hv |- *.
      destruct x as [x|]; [destruct (_ <? x)|]; simpl in Hv; try done; inv_ok Hv; eauto. }
    destruct (String.eqb_spec v negativeMarker) as [->|Hne].
    { inv_ok E. eauto. }
    destruct (json_Unmarshal v) as [cl|] eqn:Hj; [|done].
    destruct (toDomain cl) as [l|] eqn:Ht; [|done]. inv_ok E. eauto 10.
  - case_match; [by inv_ok E | done].
Qed.

Lemma redis_SET_world key v ttl w :
  (redis_SET key v ttl w).2 = set_step (S (w_step w)) w
  ∨ ∃ x, (redis_SET key v ttl w).2
         = upd_redis (Redis.with_strs <[key := (v, x)]>) (set_step (S (w_step w)) w)
       ∧ (0 < ttl → is_Some x).
Proof.
  unfold redis_SET. match goal with |- (backend ?b w).2 = _ ∨ _ => destruct (backend_world b w) as [->| ->] end.
  - by left.
  - right. eexists. split; [reflexivity|]. intros Httl. unfold redis_expiry.
    rewrite (proj2 (Z.ltb_lt _ _)) by done. eauto.
Qed.

Lemma redis_DEL_world key w :
  (redis_DEL key w).2 = set_step (S (w_step w)) w
  ∨ (redis_DEL key w).2 = upd_redis (Redis.with_strs (delete key)) (set_step (S (w_step w)) w).
Proof. unfold redis_DEL. destruct (backend_world (λ _, modify (upd_redis (Redis.with_strs (delete key)))) w); auto. Qed.

Lemma Set_world l w :
  (∃ n, (w_step w ≤ n)%nat ∧ (LinkCache.Set_ c l w).2 = set_step n w)
  ∨ ∃ v x, json_Marshal (fromDomain l) = Some v
      ∧ (LinkCache.Set_ c l w).2 = upd_redis (Redis.with_strs <[cacheKey (Link.Code l) := (v, x)]>)
          (set_step (S (w_step w)) w)
      ∧ (0 < LinkCache.ttl c → is_Some x).
Proof.
  unfold LinkCache.Set_. destruct (json_Marshal (fromDomain l)) as [v|].
  - rewrite handled_world by (by intros []). destruct (redis_SET_world (cacheKey (Link.Code l)) v (LinkCache.ttl c) w)
      as [->|(x & -> & ?)]; [left|right; eauto 10]. exists (S (w_step w)). split; [lia|done].
  - left. exists (w_step w). split; [done|]. by destruct w.
Qed.

Lemma SetNegative_world code w :
  (LinkCache.SetNegative c code w).2 = set_step (S (w_step w)) w
  ∨ ∃ x, (LinkCache.SetNegative c code w).2 = upd_redis (Redis.with_strs
       <[cacheKey code := (negativeMarker, x)]>) (set_step (S (w_step w)) w)
     ∧ (0 < LinkCache.negTTL c → is_Some x).
Proof. unfold LinkCache.SetNegative. rewrite handled_world by (by intros []). apply redis_SET_world. Qed.

Lemma Invalidate_world code w :
  (LinkCache.Invalidate code w).2 = set_step (S (w_step w)) w
  ∨ (LinkCache.Invalidate code w).2
    = upd_redis (Redis.with_strs (delete (cacheKey code))) (set_step (S (w_step w)) w).
Proof. unfold LinkCache.Invalidate. rewrite handled_world by (by intros []). apply redis_DEL_world. Qed.

Lemma Invalidate_Ok code w u w' :
  LinkCache.Invalidate code w = (Ok u, w') →
  w' = upd_redis (Redis.with_strs (delete (cacheKey code))) (set_step (S (w_step w)) w).
Proof.
  unfold LinkCache.Invalidate. intros E. apply bind_Ok in E as (r & w1 & Hr & E).
  destruct r as [[]|]; [|done]. inv_ok E. apply attempt_Ok in Hr. unfold redis_DEL in Hr.
  apply backend_Ok in Hr. unfold modify in Hr. by simplify_eq.
Qed.

(** The cache as an invalidator of the link service. *)
Lemma Invalidate_no_panic code : no_panic (LinkCache.Invalidate code).
Proof. unfold LinkCache.Invalidate, redis_DEL. no_panic. Qed.

Lemma Set_no_panic l : no_panic (LinkCache.Set_ c l).
Proof. unfold LinkCache.Set_, redis_SET. destruct (json_Marshal _); no_panic. Qed.

Lemma SetNegative_no_panic code : no_panic (LinkCache.SetNegative c code).
Proof. unfold LinkCache.SetNegative, redis_SET. no_panic. Qed.

Lemma Get_no_panic code : no_panic (LinkCache.Get code).
Proof. unfold LinkCache.Get, redis_GET. no_panic. Qed.
End cache_outcomes.

(** The link service's view of the cache. *)
#[export] Instance LinkCache_invalidates `{O : Oracle} : InvalidatorLaws LinkCache.Invalidate.
Proof.
  split.
  - intros code w. by destruct (Invalidate_world code w) as [->| ->].
  - intros code w. destruct (Invalidate_world code w) as [->| ->]; simpl; lia.
  - apply Invalidate_no_panic.
Qed.

(** * Resolve *)

Section resolve.
Context `{O : Oracle} `{Codec} `{!CodecLaws} (s : RedirectService.t).
Context (Hobs : ∀ o, RedirectService.observer s = Some o → CacheObserver.laws o).
Import RedirectService.

Lemma observeHit_spec : observes (observeHit s).
Proof.
  unfold observeHit. destruct (observer s) as [o|] eqn:E; [|apply observes_ret].
  by apply (Hobs o).
Qed.

Lemma observeMiss_spec : observes (observeMiss s).
Proof.
  unfold observeMiss. destruct (observer s) as [o|] eqn:E; [|apply observes_ret].
  by apply (Hobs o).
Qed.

(** The answer the row of [code] deserves: the outcome [r] of a resolution whose
    clock readings come at effect [n] or later. *)
Definition answers (code : string) (row : option Link.t) (n : nat) (r : res Link.t) : Prop :=
  match r with
  | Ok l' => ∃ l k, row = Some l ∧ same_link l l' ∧ (n ≤ k)%nat ∧ Link.IsActive l (o_now k) = true
  | Err e =>
      e = ESentinel ErrNotFound ∧ row = None
      ∨ (∃ l k, row = Some l ∧ e = ESentinel ErrGone ∧ (n ≤ k)%nat ∧ Link.IsActive l (o_now k) = false)
      ∨ (is_Some (o_fault (S n)) ∨ pg_text code = false) ∧ ∀ x, Is e x = false
  | Panic _ => False
  end.

Lemma checkActive_world c w : (checkActive c w).2 = set_step (S (w_step w)) w.
Proof. unfold checkActive, now, tick, mbind, M_bind. simpl. by case_match. Qed.

Lemma checkActive_spec code l c row w n :
  row = Some l → same_link l c → (n ≤ w_step w)%nat →
  answers code row n (checkActive c w).1 ∧ (checkActive c w).2 = set_step (S (w_step w)) w.
Proof.
  intros Hrow Hs Hn. unfold checkActive, now, tick, mbind, M_bind. simpl.
  rewrite (same_link_active _ _ _ Hs).
  destruct (Link.IsActive l (o_now (w_step w))) eqn:E; simpl; (split; [|done]).
  - by exists l, (w_step w).
  - right. left. by exists l, (w_step w).
Qed.

(** What a resolution of [code] does to the state: the tables stay, and it may store an
    entry for the code, one that agrees with the table and, when the lifetimes are
    positive, expires. *)
Definition writes_entry (code : string) (w w' : World) : Prop :=
  w_db w' = w_db w
  ∧ (Redis.strs (w_redis w') = Redis.strs (w_redis w)
     ∨ ∃ v x, Redis.strs (w_redis w') = <[cacheKey code := (v, x)]> (Redis.strs (w_redis w))
         ∧ entry_ok (w_links w) code v
         ∧ (0 < LinkCache.ttl (cache s) → 0 < LinkCache.negTTL (cache s) → is_Some x)).

Lemma writes_entry_coherent code w w' : writes_entry code w w' → coherent w → coherent w'.
Proof.
  intros [Hd Hr] Hc. unfold coherent, coherent_redis in *. rewrite Hd.
  destruct Hr as [->|(v & x & -> & He & _)]; [done|].
  by apply (coherent_insert _ (w_redis w)).
Qed.

Lemma fromDB_spec code w n :
  schema w → w_step w = S n →
  let o := fromDB s code w in
  answers code (select_row (by_code code) (w_links w)) n o.1 ∧ writes_entry code w o.2.
Proof.
  intros Hs Hn. cbv zeta. unfold fromDB. rewrite attempt_bind.
  pose proof (GetByCode_world code w) as Hw.
  destruct (LinkRepository.GetByCode code w) as [[l|e|p] w1] eqn:E; simpl in Hw; subst w1.
  - apply GetByCode_Ok in E as (Hl & Hcode & Hv & _); [|done].
    assert (Hrow : select_row (by_code code) (w_links w) = Some l) by by apply select_by_code.
    rewrite attempt_then by apply Set_no_panic.
    set (w1 := (LinkCache.Set_ _ _ _).2).
    assert (Hw1 : writes_entry code w w1 ∧ (n ≤ w_step w1)%nat).
    { unfold w1. destruct (Set_world (cache s) l (set_step (S (w_step w)) w)) as [(k & Hk & ->)|(v & x & Hm & -> & Hx)];
        (split; [split; [done|]|simpl in *; lia]); [by left|]. right. exists v, x. rewrite Hcode. split_and!; [done| |auto].
      rewrite <- Hcode. apply entry_positive; [by rewrite Hcode | done | | done].
      by apply (ok_text _ Hs _ _ Hl). }
    destruct Hw1 as [Hw1 Hs1]. clearbody w1.
    destruct (checkActive_spec code l l _ w1 n Hrow (same_link_refl l) Hs1) as [Ha ->].
    split; done.
  - apply one_row_Err in E as [[-> Hnone]|[Hf Hall]].
    + simpl.
      rewrite attempt_then by apply SetNegative_no_panic.
      unfold fail. simpl. split; [by left|].
      destruct (SetNegative_world (cache s) code (set_step (S (w_step w)) w)) as [->|(x & -> & Hx)];
        (split; [done|]); [by left|]. right. eexists _, x. split_and!; [done| |auto].
      by apply entry_negative.
    + rewrite (Hall ErrNotFound). simpl. split; [|split; [done|by left]].
      right. right. simpl in Hf. rewrite andb_true_r in Hf. by rewrite <- Hn.
  - exfalso. revert E. unfold LinkRepository.GetByCode, LinkRepository.one_row, LinkRepository.query_row.
    unfold mbind, M_bind, attempt, backend, gets, fail. simpl. by repeat case_match.
Qed.

(** The resolution leaves the pipeline alone. *)
Lemma Resolve_pipe code w : w_pipe (Resolve s code w).2 = w_pipe w.
Proof.
  assert (Hobs_pipe : ∀ m, observes m → preserves (λ w', w_pipe w' = w_pipe w) m).
  { intros m Hm w1 Hw1. by destruct (Hm w1) as [f ->]. }
  assert (Hp : preserves (λ w', w_pipe w' = w_pipe w) (Resolve s code)); [|by apply Hp].
  pose proof (Hobs_pipe _ observeHit_spec). pose proof (Hobs_pipe _ observeMiss_spec).
  unfold Resolve, fromDB, checkActive, LinkCache.Get, redis_GET, LinkCache.SetNegative, LinkCache.Set_, redis_SET,
    LinkRepository.GetByCode, LinkRepository.one_row, LinkRepository.query_row.
  preserve; done.
Qed.

(** Bumping counters and numbering effects keep the state the redirect path needs. *)
Lemma observed_then {A} (m : M ()) (k : M A) w :
  observes m → ∃ f, (m;; k) w = k (upd_metrics f w).
Proof. intros Hm. destruct (Hm w) as [f E]. exists f. unfold mbind, M_bind. by rewrite E. Qed.

(** The entry of the code alone matters, and only if Redis still shows it. *)
Definition shown_ok (code : string) (w : World) : Prop :=
  ∀ v x, Redis.strs (w_redis w) !! cacheKey code = Some (v, x) →
    is_Some (Redis.visible (o_now (w_step w)) (v, x)) → entry_ok (w_links w) code v.

Lemma coherent_shown code w : coherent w → shown_ok code w.
Proof. intros Hc v x Hv _. by eapply Hc. Qed.

Lemma Resolve_writes code w :
  schema w →
  let o := Resolve s code w in
  (shown_ok code w → answers code (select_row (by_code code) (w_links w)) (w_step w) o.1) ∧ writes_entry code w o.2.
Proof.
  intros Hs. cbv zeta. unfold Resolve. rewrite attempt_bind.
  destruct (Get_world code w) as [n Hw].
  assert (Hn : n = S (w_step w)).
  { revert Hw. unfold LinkCache.Get, redis_GET. rewrite handled_world.
    - match goal with |- (backend ?b w).2 = _ → _ => destruct (backend_world b w) as [->| ->] end.
      + by intros [=].
      + unfold mbind, M_bind, gets. simpl. destruct (Redis.get _ _ _); by intros [=].
    - intros [v|e] w'; by repeat case_match. }
  subst n. set (n := w_step w) in *.
  assert (Hmiss : let o := (observeMiss s;; fromDB s code) (set_step (S n) w) in
    answers code (select_row (by_code code) (w_links w)) n o.1 ∧ writes_entry code w o.2).
  { cbv zeta. destruct (observed_then (observeMiss s) (fromDB s code) (set_step (S n) w) observeMiss_spec)
      as [f ->]. by apply (fromDB_spec code (upd_metrics f (set_step (S n) w)) n). }
  destruct (LinkCache.Get code w) as [[[l b]|e|p] w1] eqn:E; simpl in Hw; subst w1;
    [|by destruct Hmiss|by apply Get_no_panic in E].
  apply Get_Ok in E. destruct l as [c|], b; [| done | | by destruct Hmiss].
  - destruct E as (v & x & cl & Hv & Hvis & Hne & Hj & Ht).
    destruct (observed_then (observeHit s) (checkActive c) (set_step (S n) w) observeHit_spec) as [f ->].
    split; [|rewrite checkActive_world; split; [done|by left]].
    intros Hok. specialize (Hok v x Hv Hvis). unfold entry_ok in Hok.
    rewrite decide_False in Hok by done. destruct (Hok cl c Hj Ht) as (l & Hrow & Hl).
    by destruct (checkActive_spec code l c _ (upd_metrics f (set_step (S n) w)) n Hrow Hl) as [Ha _]; [simpl; lia|].
  - destruct E as (x & Hv & Hvis).
    destruct (observed_then (observeHit s) (@fail Link.t (ESentinel ErrNotFound)) (set_step (S n) w)
      observeHit_spec) as [f ->].
    split; [|split; [done|by left]]. intros Hok. specialize (Hok _ x Hv Hvis). unfold entry_ok in Hok.
    rewrite decide_True in Hok by done. by left.
Qed.

Lemma Resolve_spec code w :
  schema w → coherent w →
  let o := Resolve s code w in
  answers code (select_row (by_code code) (w_links w)) (w_step w) o.1
  ∧ w_db o.2 = w_db w ∧ coherent o.2.
Proof.
  intros Hs Hc. destruct (Resolve_writes code w Hs) as [Ha Hw].
  split; [by apply Ha, coherent_shown|]. split; [apply Hw|by eapply writes_entry_coherent].
Qed.

(** A code that is no text to the database is no unknown code: unless it is cached, the
    query fails, and the error is none of the domain's. *)
Theorem undecodable_code_fails code w :
  pg_text code = false → Redis.strs (w_redis w) !! cacheKey code = None →
  ∃ e, (Resolve s code w).1 = Err e ∧ ∀ x, Is e x = false.
Proof.
  intros Hx Hn. unfold Resolve. rewrite attempt_bind. destruct (Get_world code w) as [n Hw].
  assert (Hmiss : ∃ e, ((observeMiss s;; fromDB s code) (set_step n w)).1 = Err e ∧ ∀ x, Is e x = false).
  { destruct (observed_then (observeMiss s) (fromDB s code) (set_step n w) observeMiss_spec) as [f ->].
    unfold fromDB. rewrite attempt_bind. unfold LinkRepository.GetByCode, LinkRepository.one_row, LinkRepository.query_row.
    rewrite attempt_bind. unfold backend. rewrite !gets_bind. simpl. rewrite Hx. simpl.
    destruct (o_fault _) as [[msg [|]]|]; simpl; eauto. }
  destruct (LinkCache.Get code w) as [[[l b]|e|p] w1] eqn:E; simpl in Hw; subst w1;
    [|done|by apply Get_no_panic in E].
  apply Get_Ok in E. destruct l as [c|], b; [|done| |exact Hmiss].
  - destruct E as (v & x & cl & Hv & _). congruence.
  - destruct E as (x & Hv & _). congruence.
Qed.

(** C23: Refinement of the table by the cached hot path.  With a coherent cache, and
    whatever fails, Resolve answers as the table does: the live row of the code, if
    it is active at a clock reading of the call; ErrGone if it is expired or
    exhausted; ErrNotFound if there is none; another error only when the database
    call, the second effect, fails, or when the code is not text to the database.  It changes no table, and keeps the cache
    coherent. *)
Theorem Resolve_refines code w :
  schema w → coherent w →
  let o := Resolve s code w in
  answers code (select_row (by_code code) (w_links w)) (w_step w) o.1
  ∧ w_db o.2 = w_db w ∧ coherent o.2.
Proof. apply Resolve_spec. Qed.
End resolve.
