(* ===== verification/Coherence.v ===== *)
(** Which operations keep the redirect cache coherent with the table, what a client
    sees after them, and the executions in which the cache goes stale. *)
From stdpp Require Import prelude gmap strings list.
From S2P Require Import Prelude GoStd Domain Wire World Schema LinkRepo LinkCache Shortcode.
From S2P Require Import LinkService Concrete LinkServiceSpec Counters Redirect.

Local Open Scope Z_scope.

(** * When a change of the table keeps the cache coherent *)

Section change.
Context `{Codec}.

(** The rows of a code before and after a change answer alike. *)
Definition answers_alike (r r' : option Link.t) : Prop :=
  match r, r' with
  | None, None => True
  | Some l, Some l' => same_link l' l
  | _, _ => False
  end.

Lemma same_link_trans a b c : same_link a b → same_link b c → same_link a c.
Proof. intros [] []. split; congruence. Qed.

Lemma entry_ok_change links links' code v :
  answers_alike (select_row (by_code code) links) (select_row (by_code code) links') →
  entry_ok links code v → entry_ok links' code v.
Proof.
  unfold entry_ok, answers_alike. destruct (decide _).
  - intros Ha Hn. rewrite Hn in Ha. by destruct (select_row _ links').
  - intros Ha Hv cl c Hcl Hc. destruct (Hv cl c Hcl Hc) as (l & Hl & Hs). rewrite Hl in Ha.
    destruct (select_row (by_code code) links') as [l'|]; [|done].
    exists l'. split; [done|]. by eapply same_link_trans.
Qed.

(** A code whose row changed must have no entry; the others may keep theirs. *)
Lemma coherent_change links links' r :
  coherent_redis links r →
  (∀ code, Redis.strs r !! cacheKey code = None
     ∨ answers_alike (select_row (by_code code) links) (select_row (by_code code) links')) →
  coherent_redis links' r.
Proof.
  intros Hr Hc code v x Hv. destruct (Hc code) as [Hn|Ha]; [congruence|].
  eapply entry_ok_change; eauto.
Qed.

(** Rewriting a live row without changing its code touches the row of its code only. *)
Lemma select_code_update d id old row c :
  schema_ok d → schema_ok (DB.with_links <[id := row]> d) →
  DB.links d !! id = Some old → Link.live old = true → Link.Code row = Link.Code old →
  c ≠ Link.Code old →
  select_row (by_code c) (<[id := row]> (DB.links d)) = select_row (by_code c) (DB.links d).
Proof.
  intros Hs Hs' Hold Hv Hcode Hne.
  apply option_eq. intros l.
  rewrite (select_by_code d c l Hs), (select_by_code (DB.with_links <[id := row]> d) c l Hs'). simpl.
  pose proof (ok_key _ Hs id old Hold) as Hk.
  pose proof (ok_key _ Hs' id row) as Hk'. simpl in Hk'. rewrite lookup_insert_eq in Hk'.
  specialize (Hk' eq_refl). rewrite lookup_insert.
  split; intros (Hl & Hc & Hlv).
  - case_decide; [|done]. exfalso. by simplify_eq.
  - case_decide as E; [|done]. exfalso. subst id. rewrite E in Hold. simplify_eq.
Qed.

(** The row the table has for the code of a live row. *)
Lemma select_code_self d id row :
  schema_ok d → DB.links d !! id = Some row → Link.live row = true →
  select_row (by_code (Link.Code row)) (DB.links d) = Some row.
Proof.
  intros Hs Hrow Hv. apply select_by_code; [done|]. split_and!; [|done..].
  by rewrite (ok_key _ Hs _ _ Hrow).
Qed.
End change.

(** * Mutations *)

Section mutations.
Context `{O : Oracle} `{Codec} `{!CodecLaws} (s : LinkService.t).
Context `{!CodeGeneratorLaws (LinkService.gen s)}.
Context (Hsink : ∀ sink, LinkService.events s = Some sink → SinkLaws sink).
Context (Hcache : LinkService.cache s = Some LinkCache.Invalidate).

#[local] Instance cache_laws inv : LinkService.cache s = Some inv → InvalidatorLaws inv.
Proof. rewrite Hcache. intros [= <-]. apply _. Qed.

(** An invalidation whose command did not fail empties the entry. *)
Lemma invalidate_removes code w :
  o_fault (w_step w) = None →
  (LinkService.invalidate s code w)
  = (Ok (), upd_redis (Redis.with_strs (delete (cacheKey code))) (set_step (S (w_step w)) w)).
Proof.
  intros Hf. unfold LinkService.invalidate. rewrite Hcache, attempt_then by apply Invalidate_no_panic.
  unfold LinkCache.Invalidate. rewrite handled_world by (by intros []).
  unfold redis_DEL, backend. by rewrite Hf.
Qed.

(** The world a successful Update ends in: its write, then the DEL of the code. *)
Lemma Update_end t id inp w l w' :
  schema w → LinkService.Update s t id inp w = (Ok l, w') →
  ∃ w1, w_db w1 = DB.with_links <[id := l]> (w_db w) ∧ w_redis w1 = w_redis w
    ∧ LinkService.invalidate s (Link.Code l) w1 = (Ok (), w').
Proof.
  intros Hs E. unfold LinkService.Update in E.
  apply bind_Ok in E as (old & w1 & (Hold & Ht & Hv & ->)%GetByIDForTenant_Ok & E); [|done].
  apply bind_Ok in E as (l1 & w2 & Hp & E).
  pose proof Hp as (n & Hn & ->)%reads_out; [|apply patch_reads].
  apply patch_Ok in Hp as [-> _].
  apply bind_Ok in E as (e & w3 & (_ & _ & E3)%clamp_policy & E).
  set (k := w_step w3) in *. clearbody k. subst w3.
  apply bind_Ok in E as (l' & w4 & HU & E). apply Update_Ok in HU; [|done].
  destruct HU as (old' & Hold' & _ & _ & -> & -> & _). simpl in Hold'.
  pose proof (ok_key _ Hs _ _ Hold) as Hk. rewrite Hk, Hold in Hold'. injection Hold' as <-.
  apply bind_Ok in E as (u & w5 & H5 & E). apply bind_Ok in E as (u' & w6 & H6 & E).
  simpl in H6. rewrite String.eqb_refl in H6. simpl in H6. inv_ok H6. inv_ok E.
  eexists. split_and!; [| |by destruct u; exact H5]; by rewrite ?Hk.
Qed.

Lemma Delete_end t id w u w' :
  schema w → LinkService.Delete s t id w = (Ok u, w') →
  ∃ old n w1, w_links w !! id = Some old ∧ Link.live old = true
    ∧ w_db w1 = DB.with_links <[id := delete_row old n]> (w_db w) ∧ w_redis w1 = w_redis w
    ∧ LinkService.invalidate s (Link.Code old) w1 = (Ok (), w').
Proof.
  intros Hs E. unfold LinkService.Delete in E.
  apply bind_Ok in E as (old & w1 & (Hold & Ht & Hv & ->)%GetByIDForTenant_Ok & E); [|done].
  apply bind_Ok in E as (u1 & w2 & HD & E). apply SoftDelete_Ok in HD as (old' & Hold' & _ & _ & ->); [|done].
  simpl in Hold'. rewrite Hold in Hold'. injection Hold' as <-.
  exists old, (S (w_step w)). eexists. split_and!; [done | done | | |by destruct u; exact E]; [|done].
  simpl. by rewrite (ok_key _ Hs _ _ Hold).
Qed.

(** After the DEL of the code of a rewritten row, the cache is coherent again. *)
Lemma coherent_after id old row w w1 :
  schema w → coherent w → schema w1 → w_links w !! id = Some old → Link.live old = true →
  Link.Code row = Link.Code old →
  w_db w1 = DB.with_links <[id := row]> (w_db w) → w_redis w1 = w_redis w →
  coherent (upd_redis (Redis.with_strs (delete (cacheKey (Link.Code old)))) w1).
Proof.
  intros Hs Hc Hs1 Hold Hv Hcode Hd Hr. unfold coherent, schema in *. simpl. rewrite Hd, Hr in *. simpl.
  eapply coherent_change; [by apply coherent_delete|].
  intros c. simpl. destruct (decide (c = Link.Code old)) as [->|Hne].
  - left. by rewrite lookup_delete_eq.
  - right. rewrite (select_code_update _ id old row) by done.
    unfold answers_alike. case_match; [apply same_link_refl | done].
Qed.

(** The last effect of the operation, which is the DEL of the cache, worked. *)
Definition del_worked (w' : World) : Prop := o_fault (pred (w_step w')) = None.

Lemma invalidate_step code w u w' :
  LinkService.invalidate s code w = (Ok u, w') → w_step w' = S (w_step w).
Proof.
  unfold LinkService.invalidate. rewrite Hcache, attempt_then by apply Invalidate_no_panic.
  unfold mret, M_ret. intros [= _ <-]. by destruct (Invalidate_world code w) as [->| ->].
Qed.

(** C25: An update that succeeded, its invalidation included, leaves the cache
    coherent, and a resolution that follows serves the updated link: its target,
    redirect type and limits, never the old ones. *)
Theorem Update_visible t id inp w l w' (rs : RedirectService.t) l' w'' :
  (∀ o, RedirectService.observer rs = Some o → CacheObserver.laws o) →
  schema w → coherent w →
  LinkService.Update s t id inp w = (Ok l, w') → del_worked w' →
  RedirectService.Resolve rs (Link.Code l) w' = (Ok l', w'') →
  coherent w' ∧ same_link l l'.
Proof.
  intros Hobs Hs Hc E Hdel HR.
  assert (Hs' : schema w').
  { pose proof (exec_schema s t (CUpdate id inp) w Hs) as Hs'. simpl in Hs'. by rewrite E in Hs'. }
  pose proof (update_row_kept s _ _ _ _ _ _ Hs E) as (old & Hold & Hv & Hcode & Hlive).
  apply Update_end in E as (w1 & Hd & Hr & HI); [|done].
  pose proof (invalidate_step _ _ _ _ HI) as Hstep. unfold del_worked in Hdel. rewrite Hstep in Hdel.
  rewrite (invalidate_removes _ _ Hdel) in HI. injection HI as <-.
  assert (Hc' : coherent (upd_redis (Redis.with_strs (delete (cacheKey (Link.Code l))))
                            (set_step (S (w_step w1)) w1))).
  { rewrite Hcode. by apply (coherent_after id old l w). }
  split; [done|].
  pose proof (Resolve_spec rs Hobs (Link.Code l) _ Hs' Hc') as [Ha _]. rewrite HR in Ha. simpl in Ha.
  destruct Ha as (l0 & k & Hrow & Hsame & _).
  rewrite (select_code_self (w_db w1) id l) in Hrow; [by simplify_eq | done | | done].
  rewrite Hd. simpl. by rewrite lookup_insert_eq.
Qed.

(** After a delete that succeeded, its invalidation included, the cache is
    coherent and the code no longer resolves: ErrNotFound, unless the database call
    fails. *)
Theorem Delete_visible t id w u w' (rs : RedirectService.t) old :
  (∀ o, RedirectService.observer rs = Some o → CacheObserver.laws o) →
  schema w → coherent w → w_links w !! id = Some old →
  LinkService.Delete s t id w = (Ok u, w') → del_worked w' →
  coherent w'
  ∧ ∃ e, (RedirectService.Resolve rs (Link.Code old) w').1 = Err e
      ∧ (e = ESentinel ErrNotFound ∨ is_Some (o_fault (S (w_step w')))).
Proof.
  intros Hobs Hs Hc Hold E Hdel.
  assert (Hs' : schema w').
  { pose proof (exec_schema s t (CDelete id) w Hs) as Hs'. simpl in Hs'. by rewrite E in Hs'. }
  pose proof (delete_frees s _ _ _ _ _ _ Hs E Hold) as Hfree.
  apply Delete_end in E as (old' & n & w1 & Hold' & Hv & Hd & Hr & HI); [|done].
  rewrite Hold in Hold'. injection Hold' as <-.
  pose proof (invalidate_step _ _ _ _ HI) as Hstep. unfold del_worked in Hdel. rewrite Hstep in Hdel.
  rewrite (invalidate_removes _ _ Hdel) in HI. injection HI as <-.
  assert (Hc' : coherent (upd_redis (Redis.with_strs (delete (cacheKey (Link.Code old))))
                            (set_step (S (w_step w1)) w1))).
  { by apply (coherent_after id old (delete_row old n) w). }
  split; [done|].
  pose proof (Resolve_spec rs Hobs (Link.Code old) _ Hs' Hc') as [Ha _].
  rewrite Hfree in Ha. revert Ha.
  destruct (RedirectService.Resolve _ _ _) as [[l'|e|p] w2]; simpl; [by intros (? & ? & ? & _)| |done].
  intros [[-> _]|[(? & ? & ? & _)|[[Hf|Hx] _]]]; [by eauto | done | by eauto|].
  by rewrite (proj1 (ok_text _ Hs _ _ Hold)) in Hx.
Qed.
End mutations.

(** * Executions in which the cache goes stale *)

Section stale.
#[local] Existing Instance calm.

Definition svc : LinkService.t :=
  LinkService.New generator None (Some LinkCache.Invalidate) 5.
Definition resolver : RedirectService.t :=
  RedirectService.Mk (LinkCache.Mk Hour (30 * Second)) (Some Metrics_CacheObserver).

Definition promo : CreateLinkInput.t := CreateLinkInput.Mk "https://old.example" "promo" 302 None None.
Definition retarget : UpdateLinkInput.t :=
  UpdateLinkInput.Mk (Some "https://new.example") None None false None false.

(** The target a resolution answers with. *)
Definition target_of (o : res Link.t * World) : option string :=
  match o.1 with Ok l => Some (Link.TargetURL l) | _ => None end.

(** The world with the link "promo" of tenant 1. *)
Definition with_promo : World := (LinkService.Create svc tenant1 promo world0).2.
Definition promo_id : UUID := 1000%N.

(** A link that was just created is hidden by the negative entry of an earlier miss:
    Create invalidates nothing. *)
Definition missed_then_created : World :=
  (LinkService.Create svc tenant1 promo (RedirectService.Resolve resolver "promo" world0).2).2.

(** A reader loaded the row before an update and backfills after it: the steps of
    [fromDB] around a whole [Update]. *)
Definition backfill_race : World :=
  let r := LinkRepository.GetByCode "promo" with_promo in
  let u := LinkService.Update svc tenant1 promo_id retarget r.2 in
  match r.1 with
  | Ok link => (LinkCache.Set_ (RedirectService.cache resolver) link u.2).2
  | _ => u.2
  end.

Example promo_row :
  Link.TargetURL <$> select_row (by_code "promo") (w_links with_promo) = Some "https://old.example".
Proof. vm_compute. reflexivity. Qed.

(** A stale target can be served: a resolution that read the row before an update
    and backfills after the update's invalidation leaves the old target in the cache,
    and the next resolution serves it although the update has returned. *)
Theorem backfill_race_serves_stale :
  (∃ l w', LinkService.Update svc tenant1 promo_id retarget with_promo = (Ok l, w'))
  ∧ Link.TargetURL <$> select_row (by_code "promo") (w_links backfill_race) = Some "https://new.example"
  ∧ target_of (RedirectService.Resolve resolver "promo" backfill_race) = Some "https://old.example".
Proof. split; [eexists _, _|split]; vm_compute; reflexivity. Qed.

(** A created link can be unreachable: Create does not drop the negative entry an
    earlier miss left, and the code keeps answering ErrNotFound. *)
Theorem created_link_hidden :
  Link.TargetURL <$> select_row (by_code "promo") (w_links missed_then_created) = Some "https://old.example"
  ∧ (RedirectService.Resolve resolver "promo" missed_then_created).1 = Err (ESentinel ErrNotFound).
Proof. split; vm_compute; reflexivity. Qed.
End stale.
