(* ===== verification/KeyRepo.v ===== *)
(** The tenants and api_keys tables with their repositories
    (internal/repository/tenant.go, apikey.go; migrations/000002_tenants_apikeys). *)
From stdpp Require Import prelude gmap strings list sorting.
From S2P Require Import Prelude GoStd Domain World Schema LinkRepo.

Local Open Scope Z_scope.

(** * Rows *)

(** The first row of a SELECT on a table with primary key. *)
Definition first_row {A} (f : A → bool) (rows : gmap UUID A) : option A :=
  snd <$> head (filter (λ p, f p.2 = true) (map_to_list rows)).

Lemma first_row_Some {A} (f : A → bool) rows a :
  first_row f rows = Some a → ∃ id, rows !! id = Some a ∧ f a = true.
Proof.
  unfold first_row. intros ([id a'] & Hh & ->)%fmap_Some. simpl.
  apply head_Some_elem_of in Hh. apply list_elem_of_filter in Hh as [Hf Hin].
  exists id. split; [by apply elem_of_map_to_list | done].
Qed.

Lemma first_row_None {A} (f : A → bool) rows :
  first_row f rows = None ↔ ∀ id a, rows !! id = Some a → f a = false.
Proof.
  unfold first_row. rewrite fmap_None, head_None. split.
  - intros Hnil id a Ha. apply not_true_iff_false. intros Hf.
    assert (Hin : (id, a) ∈ filter (λ p : UUID * A, f p.2 = true) (map_to_list rows)).
    { apply list_elem_of_filter. split; [done | by apply elem_of_map_to_list]. }
    rewrite Hnil in Hin. by apply not_elem_of_nil in Hin.
  - intros Hall. destruct (filter _ _) as [|[id a] t] eqn:E; [done|]. exfalso.
    assert (Hin : (id, a) ∈ filter (λ p : UUID * A, f p.2 = true) (map_to_list rows))
      by (rewrite E; by left).
    apply list_elem_of_filter in Hin as [Hf Hin]. apply elem_of_map_to_list in Hin.
    simpl in Hf. by rewrite (Hall id a Hin) in Hf.
Qed.

(** A row at most satisfies [f], so the SELECT finds it. *)
Lemma first_row_unique {A} (f : A → bool) (rows : gmap UUID A) id a :
  (∀ i j x y, rows !! i = Some x → rows !! j = Some y → f x = true → f y = true → i = j) →
  rows !! id = Some a → f a = true → first_row f rows = Some a.
Proof.
  intros Hu Ha Hf. destruct (first_row f rows) as [b|] eqn:E.
  - apply first_row_Some in E as (j & Hb & Hfb).
    assert (id = j) as <- by eauto. congruence.
  - pose proof (proj1 (first_row_None _ _) E _ _ Ha). congruence.
Qed.

(** ORDER BY created_at. *)
Definition older_tenant (a b : Tenant.t) : Prop := Tenant.CreatedAt a ≤ Tenant.CreatedAt b.
Definition older_key (a b : APIKey.t) : Prop := APIKey.CreatedAt a ≤ APIKey.CreatedAt b.

#[export] Instance older_tenant_dec : RelDecision older_tenant.
Proof. intros a b. unfold older_tenant. apply _. Defined.

#[export] Instance older_key_dec : RelDecision older_key.
Proof. intros a b. unfold older_key. apply _. Defined.

(** The constraints on the keys: primary key, key_hash unique, tenant_id a tenant. *)
Record keys_ok (d : DB.t) : Prop := {
  key_id id k : DB.api_keys d !! id = Some k → APIKey.ID k = id;
  key_hash i j ki kj :
    DB.api_keys d !! i = Some ki → DB.api_keys d !! j = Some kj →
    APIKey.Hash ki = APIKey.Hash kj → i = j;
  key_tenant id k : DB.api_keys d !! id = Some k → is_Some (DB.tenants d !! APIKey.TenantID k);
}.

(** * Statements *)

Section statements.
Context `{O : Oracle}.

(** INSERT INTO tenants (name) VALUES ($1) RETURNING ... *)
Definition insert_tenant (name : string) (n : nat) : M Tenant.t :=
  d ← gets w_db;
  let row := Tenant.Mk (o_uuid n) name (o_now n) (o_now n) in
  if bool_decide (is_Some (DB.tenants d !! Tenant.ID row)) then fail unique_violation
  else modify (upd_db (DB.with_tenants <[Tenant.ID row := row]>));; mret row.

(** INSERT INTO api_keys (tenant_id, name, prefix, key_hash) VALUES ($1, ..., $4)
    RETURNING ... *)
Definition insert_key (tenantID : UUID) (name prefix hash : string) (n : nat) : M APIKey.t :=
  d ← gets w_db;
  let row := APIKey.Mk (o_uuid n) tenantID name prefix hash (o_now n) None None in
  if bool_decide (is_Some (DB.api_keys d !! APIKey.ID row))
     || bool_decide (map_Exists (λ _ k, APIKey.Hash k = hash) (DB.api_keys d))
  then fail unique_violation
  else if bool_decide (DB.tenants d !! tenantID = None) then fail fk_violation
  else modify (upd_db (DB.with_api_keys <[APIKey.ID row := row]>));; mret row.

(** UPDATE api_keys SET last_used_at = now() WHERE id = $1 *)
Definition touched (n : nat) (k : APIKey.t) : APIKey.t :=
  APIKey.Mk (APIKey.ID k) (APIKey.TenantID k) (APIKey.Name k) (APIKey.Prefix k) (APIKey.Hash k)
    (APIKey.CreatedAt k) (Some (o_now n)) (APIKey.RevokedAt k).

Definition touch_key (id : UUID) (n : nat) : M () :=
  modify (upd_db (DB.with_api_keys (alter (touched n) id))).

(** [QueryRow(...).Scan]: no row is [pgx.ErrNoRows]. *)
Definition scan_row {A} (q : DB.t → option A) : M A :=
  backend (λ _, d ← gets w_db; match q d with Some a => mret a | None => fail ENoRows end).

(** The two error cases of a single-row read. *)
Definition read_row {A} (what : string) (q : DB.t → option A) : M A :=
  r ← attempt (scan_row q);
  match r with
  | inl a => mret a
  | inr err => if IsNoRows err then fail (ESentinel ErrNotFound) else fail (errorf what err)
  end.
End statements.

Module TenantRepository.
Section repository.
Context `{O : Oracle}.

Definition Create (name : string) : M Tenant.t :=
  r ← attempt (backend (insert_tenant name));
  match r with inl t => mret t | inr err => fail (errorf "insert tenant" err) end.

Definition GetByID (id : UUID) : M Tenant.t :=
  read_row "select tenant" (λ d, DB.tenants d !! id).

(** ORDER BY created_at LIMIT 1. *)
Definition by_name (name : string) (d : DB.t) : option Tenant.t :=
  head (merge_sort older_tenant (filter (λ t, Tenant.Name t = name) (map_to_list (DB.tenants d)).*2)).

Definition FindByName (name : string) : M Tenant.t :=
  read_row "select tenant by name" (by_name name).
End repository.
End TenantRepository.

Module APIKeyRepository.
Section repository.
Context `{O : Oracle}.

Definition Create (tenantID : UUID) (name prefix hash : string) : M APIKey.t :=
  r ← attempt (backend (insert_key tenantID name prefix hash));
  match r with inl k => mret k | inr err => fail (errorf "insert api key" err) end.

Definition by_hash (hash : string) (d : DB.t) : option APIKey.t :=
  first_row (λ k, bool_decide (APIKey.Hash k = hash)) (DB.api_keys d).

Definition GetByHash (hash : string) : M APIKey.t := read_row "select api key" (by_hash hash).

Definition ListByTenant (tenantID : UUID) : M (list APIKey.t) :=
  r ← attempt (backend (λ _, d ← gets w_db;
    mret (merge_sort older_key
      (filter (λ k, APIKey.TenantID k = tenantID) (map_to_list (DB.api_keys d)).*2))));
  match r with inl ks => mret ks | inr err => fail (errorf "list api keys" err) end.

Definition GetByIDForTenant (tenantID id : UUID) : M APIKey.t :=
  read_row "select api key for tenant" (λ d,
    first_row (λ k, bool_decide (APIKey.ID k = id) && bool_decide (APIKey.TenantID k = tenantID))
      (DB.api_keys d)).

Definition TouchLastUsed (id : UUID) : M () :=
  r ← attempt (backend (touch_key id));
  match r with inl _ => mret () | inr err => fail (errorf "touch api key" err) end.
End repository.
End APIKeyRepository.

(** * Outcomes *)

Section outcomes.
Context `{O : Oracle}.

(** A read that no fault hits, in full. *)
Lemma read_row_ok {A} what (q : DB.t → option A) w :
  o_fault (w_step w) = None →
  read_row what q w =
  (match q (w_db w) with Some a => Ok a | None => Err (ESentinel ErrNotFound) end, set_step (S (w_step w)) w).
Proof.
  intros Hf. unfold read_row, scan_row. rewrite attempt_bind. unfold backend. rewrite Hf.
  unfold mbind, M_bind, gets. simpl. by destruct (q (w_db w)).
Qed.

(** A read that fails for another reason was hit by a fault, and its error is none of
    the domain's. *)
Lemma read_row_world {A} what (q : DB.t → option A) w :
  (read_row what q w).2 = set_step (S (w_step w)) w.
Proof.
  unfold read_row. rewrite handled_world.
  - unfold scan_row. match goal with |- (backend ?b w).2 = _ => destruct (backend_world b w) as [->| ->] end;
      [done|]. unfold mbind, M_bind, gets. simpl. by destruct (q _).
  - intros [a|e] w'; [done|]. by case_match.
Qed.

Lemma read_row_Ok {A} what (q : DB.t → option A) w a w' :
  read_row what q w = (Ok a, w') → q (w_db w) = Some a ∧ w' = set_step (S (w_step w)) w.
Proof.
  intros E. pose proof (read_row_world what q w) as Hw. rewrite E in Hw. simpl in Hw. split; [|done].
  clear Hw. unfold read_row, scan_row in E. rewrite attempt_bind in E. unfold backend in E.
  destruct (o_fault _) as [[msg ap]|]; [done|].
  unfold mbind, M_bind, gets in E. simpl in E. destruct (q (w_db w)); simpl in E; [|done].
  unfold mret, M_ret in E. by simplify_eq.
Qed.

Lemma read_row_Err {A} what (q : DB.t → option A) w e w' :
  read_row what q w = (Err e, w') →
  e = ESentinel ErrNotFound ∧ q (w_db w) = None ∨ ∀ s, Is e s = false.
Proof.
  unfold read_row, scan_row. rewrite attempt_bind. unfold backend.
  destruct (o_fault _) as [[msg ap]|].
  - intros E. right. simpl in E. unfold fail in E. by simplify_eq.
  - unfold mbind, M_bind, gets. simpl. destruct (q (w_db w)) eqn:Eq; simpl; unfold fail, mret, M_ret;
      intros; simplify_eq. by left.
Qed.

Lemma read_row_no_panic {A} what (q : DB.t → option A) : no_panic (read_row what q).
Proof. unfold read_row, scan_row. no_panic. Qed.

Lemma insert_tenant_Ok name n w t w' :
  insert_tenant name n w = (Ok t, w') →
  t = Tenant.Mk (o_uuid n) name (o_now n) (o_now n) ∧ DB.tenants (w_db w) !! o_uuid n = None
  ∧ w' = upd_db (DB.with_tenants <[o_uuid n := t]>) w.
Proof.
  unfold insert_tenant. intros E. inv_ok E. case_bool_decide as Hn; [done|]. inv_ok E.
  simpl in Hn. rewrite <- eq_None_not_Some in Hn. done.
Qed.

Lemma insert_key_Ok t name prefix hash n w k w' :
  insert_key t name prefix hash n w = (Ok k, w') →
  k = APIKey.Mk (o_uuid n) t name prefix hash (o_now n) None None
  ∧ DB.api_keys (w_db w) !! o_uuid n = None
  ∧ (∀ id k', DB.api_keys (w_db w) !! id = Some k' → APIKey.Hash k' ≠ hash)
  ∧ is_Some (DB.tenants (w_db w) !! t)
  ∧ w' = upd_db (DB.with_api_keys <[o_uuid n := k]>) w.
Proof.
  unfold insert_key. intros E. inv_ok E. destruct (_ || _) eqn:Hc; [done|].
  apply orb_false_iff in Hc as [Hn Hh]. bool_to_prop. case_bool_decide as Ht; [done|]. inv_ok E.
  simpl in Hn. rewrite <- eq_None_not_Some in Hn. split_and!; try done.
  - intros id k' Hk' Heq. apply Hh. by exists id, k'.
  - by apply not_eq_None_Some.
Qed.

Lemma TenantCreate_Ok name w t w' :
  TenantRepository.Create name w = (Ok t, w') →
  t = Tenant.Mk (o_uuid (w_step w)) name (o_now (w_step w)) (o_now (w_step w))
  ∧ DB.tenants (w_db w) !! Tenant.ID t = None
  ∧ w' = upd_db (DB.with_tenants <[Tenant.ID t := t]>) (set_step (S (w_step w)) w).
Proof.
  unfold TenantRepository.Create. intros E. apply bind_Ok in E as (r & w1 & Hr & E).
  destruct r as [t'|]; [|done]. inv_ok E. apply attempt_Ok, backend_Ok, insert_tenant_Ok in Hr.
  destruct Hr as (-> & ? & ->). done.
Qed.

Lemma KeyCreate_Ok t name prefix hash w k w' :
  APIKeyRepository.Create t name prefix hash w = (Ok k, w') →
  APIKey.TenantID k = t ∧ APIKey.Hash k = hash ∧ APIKey.Prefix k = prefix ∧ APIKey.Revoked k = false
  ∧ APIKey.ID k = o_uuid (w_step w) ∧ DB.api_keys (w_db w) !! APIKey.ID k = None
  ∧ (∀ id k', DB.api_keys (w_db w) !! id = Some k' → APIKey.Hash k' ≠ hash)
  ∧ is_Some (DB.tenants (w_db w) !! t)
  ∧ w' = upd_db (DB.with_api_keys <[APIKey.ID k := k]>) (set_step (S (w_step w)) w).
Proof.
  unfold APIKeyRepository.Create. intros E. apply bind_Ok in E as (r & w1 & Hr & E).
  destruct r as [k'|]; [|done]. inv_ok E. apply attempt_Ok, backend_Ok, insert_key_Ok in Hr.
  destruct Hr as (-> & ? & ? & ? & ->). done.
Qed.

(** The key of a hash, read off the table. *)
Lemma by_hash_spec d hash k :
  keys_ok d → APIKeyRepository.by_hash hash d = Some k
              ↔ DB.api_keys d !! APIKey.ID k = Some k ∧ APIKey.Hash k = hash.
Proof.
  intros Hok. unfold APIKeyRepository.by_hash. split.
  - intros (id & Hk & Hh)%first_row_Some. bool_to_prop.
    by rewrite (key_id d Hok _ _ Hk).
  - intros [Hk Hh]. eapply first_row_unique; [|done|by apply bool_decide_eq_true].
    intros i j x y Hx Hy ??. bool_to_prop. eapply (key_hash d Hok); eauto. congruence.
Qed.

Lemma keys_ok_insert d k :
  keys_ok d → DB.api_keys d !! APIKey.ID k = None →
  (∀ id k', DB.api_keys d !! id = Some k' → APIKey.Hash k' ≠ APIKey.Hash k) →
  is_Some (DB.tenants d !! APIKey.TenantID k) →
  keys_ok (DB.with_api_keys <[APIKey.ID k := k]> d).
Proof.
  intros Hok Hn Hh Ht. split; simpl.
  - intros id k'. rewrite lookup_insert. case_decide; [congruence|]. apply (key_id d Hok).
  - intros i j ki kj. rewrite !lookup_insert. repeat case_decide; intros; simplify_eq; try done.
    + exfalso. by eapply Hh.
    + exfalso. by eapply Hh.
    + by eapply (key_hash d Hok).
  - intros id k'. rewrite lookup_insert. case_decide; [congruence|]. apply (key_tenant d Hok).
Qed.
End outcomes.
