(* ===== verification/Auth.v ===== *)
(** API keys at work: minting a key (internal/domain/apikey.go), authenticating a
    bearer token (internal/service/auth.go) and seeding the demo tenant
    (internal/seed/seed.go). *)
From stdpp Require Import prelude gmap strings list sorting.
From Stdlib Require Import Ascii.
From S2P Require Import Prelude GoStd Sha256 Domain World Schema LinkRepo Concrete KeyRepo Shortcode.

Local Open Scope Z_scope.

(** [GenerateAPIKey]. *)
Definition GenerateAPIKey `{O : Oracle} : M GeneratedKey.t :=
  r ← attempt (rand_Read 24);
  match r with
  | inr err => fail (errorf "generate api key" err)
  | inl buf => mret (keyFromBytes buf)
  end.

Module AuthService.
Section service.
Context `{O : Oracle}.

(** The goroutine a successful authentication starts: it runs at any later time, and
    its error is only logged. *)
Definition touch (id : UUID) : M () := attempt (APIKeyRepository.TouchLastUsed id);; mret ().

(** The key, and the goroutine started. *)
Definition Authenticate (token : string) : M (APIKey.t * M ()) :=
  if negb (ValidKeyFormat token) then fail (ESentinel ErrUnauthorized)
  else
    let hash := HashAPIKey token in
    r ← attempt (APIKeyRepository.GetByHash hash);
    match r with
    | inr err => if Is err ErrNotFound then fail (ESentinel ErrUnauthorized) else fail err
    | inl key =>
        if APIKey.Revoked key then fail (ESentinel ErrUnauthorized)
        else mret (key, touch (APIKey.ID key))
    end.
End service.
End AuthService.

Module Seed.
Definition DemoTenantName : string := "Demo Tenant".
Definition DemoAPIKey : string := "sk_live_demo-seed-key".

Section seed.
Context `{O : Oracle}.

(** The tenant, found or created. *)
Definition demo_tenant : M Tenant.t :=
  r ← attempt (TenantRepository.FindByName DemoTenantName);
  match r with
  | inl tenant => mret tenant
  | inr err =>
      if Is err ErrNotFound then TenantRepository.Create DemoTenantName else fail err
  end.

Definition Demo : M Tenant.t :=
  tenant ← demo_tenant;
  let hash := HashAPIKey DemoAPIKey in
  r ← attempt (APIKeyRepository.GetByHash hash);
  match r with
  | inl _ => mret tenant
  | inr err =>
      if Is err ErrNotFound then
        APIKeyRepository.Create (Tenant.ID tenant) "demo-seed" (PrefixOf DemoAPIKey) hash;;
        mret tenant
      else fail err
  end.
End seed.
End Seed.

(** * Keys *)

Section keys.
Context `{O : Oracle}.

Lemma str_take_app_length (a b : string) n :
  (String.length a ≤ n)%nat → str_take n (a +:+ b) = a +:+ str_take (n - String.length a) b.
Proof.
  revert n. induction a as [|c a IH]; intros n Hn; simpl in *; [by rewrite Nat.sub_0_r|].
  destruct n as [|n]; [lia|]. change (String c (a +:+ b)) with (String c (a +:+ b)).
  simpl. rewrite IH by lia. done.
Qed.

(** The format of every minted key. *)
Lemma keyFromBytes_format buf :
  length buf = 24%nat →
  let g := keyFromBytes buf in
  String.length (GeneratedKey.Plaintext g) = 40%nat
  ∧ ValidKeyFormat (GeneratedKey.Plaintext g) = true
  ∧ String.length (GeneratedKey.Prefix g) = 16%nat
  ∧ GeneratedKey.Prefix g = PrefixOf (GeneratedKey.Plaintext g)
  ∧ GeneratedKey.Hash g = HashAPIKey (GeneratedKey.Plaintext g).
Proof.
  intros Hb. cbv zeta. unfold keyFromBytes. cbn [GeneratedKey.Plaintext GeneratedKey.Prefix GeneratedKey.Hash].
  pose proof (length_base64_24 buf Hb) as Hl.
  assert (Hlen : String.length (KeyPrefix +:+ base64_encode buf) = 40%nat).
  { rewrite length_str_app, Hl. done. }
  unfold PrefixOf, ValidKeyFormat, len. rewrite Hlen, length_str_take, Hlen.
  split_and!; try done.
  apply andb_true_iff. split; [|done]. apply HasPrefix_spec. by eexists.
Qed.

Lemma GenerateAPIKey_Ok w g w' :
  GenerateAPIKey w = (Ok g, w') →
  ∃ buf, length buf = 24%nat ∧ g = keyFromBytes buf ∧ w' = set_step (S (w_step w)) w.
Proof.
  unfold GenerateAPIKey. intros E. apply bind_Ok in E as (r & w1 & Hr & E).
  destruct r as [buf|]; [|done]. inv_ok E. apply attempt_Ok, rand_Read_Ok in Hr as [-> ->].
  exists (o_rand (w_step w) 24). split_and!; [apply o_rand_length | done..].
Qed.

(** What the token's row, if any, entitles it to. *)
Definition credential (token : string) (d : DB.t) : option APIKey.t :=
  if ValidKeyFormat token then
    match APIKeyRepository.by_hash (HashAPIKey token) d with
    | Some k => if APIKey.Revoked k then None else Some k
    | None => None
    end
  else None.

Lemma credential_spec token d k :
  keys_ok d →
  credential token d = Some k ↔
  ValidKeyFormat token = true ∧ DB.api_keys d !! APIKey.ID k = Some k
  ∧ APIKey.Hash k = HashAPIKey token ∧ APIKey.Revoked k = false.
Proof.
  intros Hok. unfold credential. destruct (ValidKeyFormat token); [|split; [done | by intros [? _]]].
  destruct (APIKeyRepository.by_hash _ d) as [k'|] eqn:E.
  - pose proof (proj1 (by_hash_spec _ _ _ Hok) E) as [Hk' Hh'].
    destruct (APIKey.Revoked k') eqn:Hr; split; try done.
    + intros (_ & Hk & Hh & Hr'). assert (Some k' = Some k) by (rewrite <- E; by apply by_hash_spec).
      simplify_eq. congruence.
    + intros [= ->]. done.
    + intros (_ & Hk & Hh & _). rewrite <- E. by apply by_hash_spec.
  - split; [done|]. intros (_ & Hk & Hh & _).
    rewrite (proj2 (by_hash_spec _ _ _ Hok) (conj Hk Hh)) in E. done.
Qed.

(** What Authenticate returns, in full, when the lookup is not hit by a fault. *)
Lemma Authenticate_eq token w :
  o_fault (w_step w) = None →
  (AuthService.Authenticate token w).1 =
    match credential token (w_db w) with
    | Some k => Ok (k, AuthService.touch (APIKey.ID k))
    | None => Err (ESentinel ErrUnauthorized)
    end
  ∧ w_db (AuthService.Authenticate token w).2 = w_db w.
Proof.
  intros Hf. unfold AuthService.Authenticate, credential. destruct (ValidKeyFormat token); [|done].
  simpl. rewrite attempt_bind. unfold APIKeyRepository.GetByHash. rewrite read_row_ok by done.
  destruct (APIKeyRepository.by_hash _ _) as [k|]; [|done]. simpl. by destruct (APIKey.Revoked k).
Qed.

(** authentication.  Unless the database call fails, a token is accepted exactly
    when it has the format of a key and a key that is not revoked is stored under its
    hash, and the answer is that key; a malformed, unknown or revoked token gives one
    and the same error, ErrUnauthorized.  Nothing is written before the answer. *)
Theorem Authenticate_correct token w :
  keys_ok (w_db w) → o_fault (w_step w) = None →
  let o := AuthService.Authenticate token w in
  (∀ k t, o.1 = Ok (k, t) ↔
     t = AuthService.touch (APIKey.ID k)
     ∧ ValidKeyFormat token = true ∧ DB.api_keys (w_db w) !! APIKey.ID k = Some k
     ∧ APIKey.Hash k = HashAPIKey token ∧ APIKey.Revoked k = false)
  ∧ ((¬ ∃ k, ValidKeyFormat token = true ∧ DB.api_keys (w_db w) !! APIKey.ID k = Some k
        ∧ APIKey.Hash k = HashAPIKey token ∧ APIKey.Revoked k = false) →
     o.1 = Err (ESentinel ErrUnauthorized))
  ∧ w_db o.2 = w_db w.
Proof.
  intros Hok Hf. cbv zeta. destruct (Authenticate_eq token w Hf) as [-> ->].
  split_and!; [| |done].
  - intros k t. rewrite <- (credential_spec token (w_db w) k Hok).
    destruct (credential token (w_db w)) as [k'|]; split.
    + intros [= -> <-]. done.
    + intros [-> [= ->]]. done.
    + done.
    + by intros [_ ?].
  - intros Hno. destruct (credential token (w_db w)) as [k|] eqn:E; [|done].
    exfalso. apply Hno. exists k. by apply credential_spec.
Qed.

(** A minted key works.  When GenerateAPIKey and the insertion of its hash and
    prefix succeed, its plaintext authenticates in the resulting database as the
    stored key, of the tenant it was created for; the table holds the hash and the
    first 16 characters only. *)
Theorem minted_key_authenticates t name w g w1 k w2 :
  keys_ok (w_db w) → GenerateAPIKey w = (Ok g, w1) →
  APIKeyRepository.Create t name (GeneratedKey.Prefix g) (GeneratedKey.Hash g) w1 = (Ok k, w2) →
  o_fault (w_step w2) = None →
  (AuthService.Authenticate (GeneratedKey.Plaintext g) w2).1 = Ok (k, AuthService.touch (APIKey.ID k))
  ∧ APIKey.TenantID k = t ∧ APIKey.Prefix k = str_take 16 (GeneratedKey.Plaintext g)
  ∧ APIKey.Hash k = HashAPIKey (GeneratedKey.Plaintext g) ∧ keys_ok (w_db w2).
Proof.
  intros Hok (buf & Hb & -> & ->)%GenerateAPIKey_Ok
    (Ht & Hh & Hp & Hr & _ & Hn & Hu & Hten & ->)%KeyCreate_Ok Hf.
  destruct (keyFromBytes_format buf Hb) as (Hl & Hv & _ & Hpre & Hhash).
  assert (Hok2 : keys_ok (DB.with_api_keys <[APIKey.ID k := k]> (w_db w))).
  { apply keys_ok_insert; [done | done | by rewrite Hh | by rewrite Ht]. }
  destruct (Authenticate_eq (GeneratedKey.Plaintext (keyFromBytes buf)) _ Hf) as [-> _].
  rewrite (proj2 (credential_spec _ _ k Hok2)).
  - by split_and!.
  - simpl. rewrite lookup_insert_eq. by split_and!.
Qed.
End keys.

(** * Seeding *)

Section seeding.
Context `{O : Oracle}.
Import Seed.

Lemma head_Some_in {A} (l : list A) a : head l = Some a → a ∈ l.
Proof. apply head_Some_elem_of. Qed.

Lemma by_name_Some name d t :
  TenantRepository.by_name name d = Some t → Tenant.Name t = name ∧ ∃ id, DB.tenants d !! id = Some t.
Proof.
  unfold TenantRepository.by_name. intros Ht%head_Some_in.
  rewrite merge_sort_Permutation in Ht. apply list_elem_of_filter in Ht as [Hn Ht].
  split; [done|]. apply list_elem_of_fmap in Ht as ([id t'] & -> & Ht).
  exists id. by apply elem_of_map_to_list in Ht.
Qed.

Lemma by_name_None name d :
  TenantRepository.by_name name d = None → ∀ id t, DB.tenants d !! id = Some t → Tenant.Name t ≠ name.
Proof.
  unfold TenantRepository.by_name. rewrite head_None. intros E id t Ht Hn.
  assert (Hin : t ∈ merge_sort older_tenant (filter (λ t, Tenant.Name t = name) (map_to_list (DB.tenants d)).*2)).
  { rewrite merge_sort_Permutation. apply list_elem_of_filter. split; [done|].
    apply list_elem_of_fmap. exists (id, t). by rewrite elem_of_map_to_list. }
  rewrite E in Hin. by apply not_elem_of_nil in Hin.
Qed.

(** The only tenant of its name is the one found. *)
Lemma by_name_insert name d t :
  TenantRepository.by_name name d = None → Tenant.Name t = name →
  TenantRepository.by_name name (DB.with_tenants <[Tenant.ID t := t]> d) = Some t.
Proof.
  intros Hnone Hn. destruct (TenantRepository.by_name name (DB.with_tenants _ d)) as [t'|] eqn:E.
  - apply by_name_Some in E as (Hn' & id & Ht'). simpl in Ht'. rewrite lookup_insert in Ht'.
    case_decide; [done|]. by apply (by_name_None _ _ Hnone) in Ht'.
  - exfalso. eapply (by_name_None _ _ E (Tenant.ID t) t); [|done]. simpl. by rewrite lookup_insert_eq.
Qed.

Lemma keys_ok_with_tenant d t :
  keys_ok d → keys_ok (DB.with_tenants <[Tenant.ID t := t]> d).
Proof.
  intros Hok. split; simpl; [apply (key_id d Hok) | apply (key_hash d Hok) |].
  intros id k Hk%(key_tenant d Hok). rewrite lookup_insert. by case_decide.
Qed.

(** The first half of a successful run: the tenant is the one of its name now, and the
    keys are as they were. *)
Lemma demo_tenant_Ok w t w' :
  demo_tenant w = (Ok t, w') →
  TenantRepository.by_name DemoTenantName (w_db w') = Some t
  ∧ DB.api_keys (w_db w') = DB.api_keys (w_db w)
  ∧ (keys_ok (w_db w) → keys_ok (w_db w')).
Proof.
  unfold demo_tenant. intros Ht. apply bind_Ok in Ht as (r & w2 & Hr & Ht). apply attempt_Ok in Hr.
  destruct r as [t1|err].
  - inv_ok Ht. by apply read_row_Ok in Hr as [? ->].
  - pose proof Hr as Hw. apply (f_equal snd) in Hw. simpl in Hw.
    unfold TenantRepository.FindByName in Hw. rewrite read_row_world in Hw. subst w2.
    destruct (Is err ErrNotFound) eqn:He; [|done].
    apply read_row_Err in Hr as [[_ Hnone]|Hall]; [|by rewrite Hall in He].
    apply TenantCreate_Ok in Ht as (Ht0 & _ & ->). split_and!; [|done|apply keys_ok_with_tenant].
    apply by_name_insert; [done|]. by rewrite Ht0.
Qed.

(** The second half: the key was stored, or is stored now for the tenant. *)
Lemma Demo_key w t w' :
  Demo w = (Ok t, w') →
  ∃ w1, demo_tenant w = (Ok t, w1)
    ∧ (is_Some (APIKeyRepository.by_hash (HashAPIKey DemoAPIKey) (w_db w1)) ∧ w_db w' = w_db w1
       ∨ ∃ k n, APIKeyRepository.Create (Tenant.ID t) "demo-seed" (PrefixOf DemoAPIKey)
              (HashAPIKey DemoAPIKey) (set_step n w1) = (Ok k, w')).
Proof.
  unfold Demo. intros E. apply bind_Ok in E as (t0 & w1 & Ht & E).
  apply bind_Ok in E as (r & w2 & Hr & E). apply attempt_Ok in Hr. destruct r as [k|err].
  - inv_ok E. apply read_row_Ok in Hr as [Hk ->]. eauto 10.
  - destruct (Is err ErrNotFound); [|done].
    pose proof Hr as Hw. apply (f_equal snd) in Hw. simpl in Hw.
    unfold APIKeyRepository.GetByHash in Hw. rewrite read_row_world in Hw. subst w2.
    apply bind_Ok in E as (k & w3 & Hk & E). inv_ok E. eauto 10.
Qed.

(** What a successful run leaves: the tenant is the one of its name, and the key is
    stored. *)
Lemma Demo_Ok w t w' :
  Demo w = (Ok t, w') →
  TenantRepository.by_name DemoTenantName (w_db w') = Some t
  ∧ is_Some (APIKeyRepository.by_hash (HashAPIKey DemoAPIKey) (w_db w')).
Proof.
  intros (w1 & (Hn & _ & _)%demo_tenant_Ok & [[Hk Hd]|(k & n & Hk)])%Demo_key;
    generalize dependent (HashAPIKey DemoAPIKey); intros hash Hk.
  - by rewrite Hd.
  - apply KeyCreate_Ok in Hk as (_ & Hh & _ & _ & _ & _ & _ & _ & ->). simpl. split; [done|].
    unfold APIKeyRepository.by_hash. destruct (first_row _ _) eqn:Ef; [by eexists|].
    pose proof (proj1 (first_row_None _ _) Ef (APIKey.ID k) k) as Hf. simpl in Hf.
    rewrite lookup_insert_eq in Hf. specialize (Hf eq_refl).
    bool_to_prop. by destruct Hf.
Qed.

(** Seeding is idempotent.  Once Demo has succeeded, running it again, without a
    fault, returns the same tenant and changes nothing. *)
Theorem Demo_idempotent w t w1 :
  Demo w = (Ok t, w1) → o_fault (w_step w1) = None → o_fault (S (w_step w1)) = None →
  (Demo w1).1 = Ok t ∧ w_db (Demo w1).2 = w_db w1.
Proof.
  intros (Hname & k & Hk)%Demo_Ok Hf1 Hf2.
  assert (Ht : demo_tenant w1 = (Ok t, set_step (S (w_step w1)) w1)).
  { unfold demo_tenant. rewrite attempt_bind. unfold TenantRepository.FindByName.
    by rewrite read_row_ok, Hname. }
  unfold Demo. rewrite (bind_run _ _ _ _ _ Ht), attempt_bind. unfold APIKeyRepository.GetByHash.
  generalize dependent (HashAPIKey DemoAPIKey). intros hash Hk.
  rewrite read_row_ok by done. change (w_db (set_step (S (w_step w1)) w1)) with (w_db w1). by rewrite Hk.
Qed.

(** The seeded key works.  After Demo has succeeded on a database that had no key
    of that hash, the well-known key authenticates as the demo tenant. *)
Theorem Demo_authenticates w t w1 :
  keys_ok (w_db w) → Demo w = (Ok t, w1) → o_fault (w_step w1) = None →
  (∀ id k, DB.api_keys (w_db w) !! id = Some k → APIKey.Hash k ≠ HashAPIKey DemoAPIKey) →
  ∃ k, (AuthService.Authenticate DemoAPIKey w1).1 = Ok (k, AuthService.touch (APIKey.ID k))
    ∧ APIKey.TenantID k = Tenant.ID t ∧ Tenant.Name t = DemoTenantName.
Proof.
  intros Hok (w2 & (Hn & Hkeys & Hok2)%demo_tenant_Ok & HD)%Demo_key Hf Hno.
  specialize (Hok2 Hok). apply by_name_Some in Hn as [Hn _].
  destruct HD as [[[k Hk] _]|(k & n & Hk)].
  - exfalso. apply (by_hash_spec _ _ _ Hok2) in Hk as [Hk Hh]. rewrite Hkeys in Hk. by eapply Hno.
  - apply KeyCreate_Ok in Hk as (Ht & Hh & _ & Hr & _ & Hnew & Hu & Hten & ->).
    exists k. split_and!; [|done..].
    destruct (Authenticate_eq DemoAPIKey _ Hf) as [-> _].
    assert (Hok3 : keys_ok (DB.with_api_keys <[APIKey.ID k := k]> (w_db w2))).
    { apply keys_ok_insert; [done | done | by rewrite Hh | by rewrite Ht]. }
    rewrite (proj2 (credential_spec _ _ k Hok3)); [done|].
    cbn [DB.api_keys DB.with_api_keys]. rewrite lookup_insert_eq.
    split_and!; [vm_compute; reflexivity | reflexivity | exact Hh | exact Hr].
Qed.
End seeding.
