(* ===== verification/WebhookRepo.v ===== *)
(** The webhooks table and its repository (internal/repository/webhook.go;
    migrations/000005_webhooks.up.sql). *)
From stdpp Require Import prelude gmap strings list sorting.
From S2P Require Import Prelude GoStd NetUrl Domain World Schema LinkRepo KeyRepo.

Local Open Scope Z_scope.

(** failure_count is an INT. *)
Definition in_int32 (z : Z) : bool := (- 2 ^ 31 <=? z) && (z <=? 2 ^ 31 - 1).

(** ORDER BY created_at DESC. *)
Definition newer_hook (a b : Webhook.t) : Prop := Webhook.CreatedAt b ≤ Webhook.CreatedAt a.

#[export] Instance newer_hook_dec : RelDecision newer_hook.
Proof. intros a b. unfold newer_hook. apply _. Defined.

(** WHERE tenant_id = $1 AND active AND $2 = ANY(events). *)
Definition listening (tenantID : UUID) (ev : EventType) (w : Webhook.t) : bool :=
  bool_decide (Webhook.TenantID w = tenantID) && Webhook.Active w && Webhook.SubscribesTo w ev.

Section statements.
Context `{O : Oracle}.

(** INSERT INTO webhooks (tenant_id, url, secret, events) VALUES ($1, ..., $4)
    RETURNING ... *)
Definition hook_row (h : Webhook.t) (n : nat) : Webhook.t :=
  {| Webhook.ID := o_uuid n;
     Webhook.TenantID := Webhook.TenantID h;
     Webhook.URL := Webhook.URL h;
     Webhook.Secret := Webhook.Secret h;
     Webhook.Events := Webhook.Events h;
     Webhook.Active := true;
     Webhook.FailureCount := 0;
     Webhook.DisabledAt := None;
     Webhook.CreatedAt := o_now n |}.

Definition insert_webhook (h : Webhook.t) (n : nat) : M Webhook.t :=
  d ← gets w_db;
  let row := hook_row h n in
  if negb (pg_text (Webhook.URL h)) then fail invalid_text
  else if bool_decide (is_Some (DB.webhooks d !! Webhook.ID row)) then fail unique_violation
  else if bool_decide (DB.tenants d !! Webhook.TenantID row = None) then fail fk_violation
  else modify (upd_db (DB.with_webhooks <[Webhook.ID row := row]>));; mret row.

(** DELETE FROM webhooks WHERE id = $1 AND tenant_id = $2: the number of rows. *)
Definition delete_webhook (tenantID id : UUID) : M Z :=
  d ← gets w_db;
  match DB.webhooks d !! id with
  | Some h =>
      if bool_decide (Webhook.TenantID h = tenantID)
      then modify (upd_db (DB.with_webhooks (delete id)));; mret 1
      else mret 0
  | None => mret 0
  end.

(** UPDATE webhooks SET failure_count = 0 WHERE id = $1. *)
Definition success_row (h : Webhook.t) : Webhook.t :=
  Webhook.Mk (Webhook.ID h) (Webhook.TenantID h) (Webhook.URL h) (Webhook.Secret h)
    (Webhook.Events h) (Webhook.Active h) 0 (Webhook.DisabledAt h) (Webhook.CreatedAt h).

(** UPDATE webhooks SET failure_count = failure_count + 1, active = (failure_count + 1
    < $2), disabled_at = CASE WHEN failure_count + 1 >= $2 THEN now() ELSE disabled_at
    END: every right-hand side reads the old row. *)
Definition failure_row (threshold : Z) (now : Time) (h : Webhook.t) : Webhook.t :=
  Webhook.Mk (Webhook.ID h) (Webhook.TenantID h) (Webhook.URL h) (Webhook.Secret h)
    (Webhook.Events h)
    (Webhook.FailureCount h + 1 <? threshold)
    (Webhook.FailureCount h + 1)
    (if threshold <=? Webhook.FailureCount h + 1 then Some now else Webhook.DisabledAt h)
    (Webhook.CreatedAt h).

Definition record_failure (id : UUID) (threshold : Z) (n : nat) : M bool :=
  d ← gets w_db;
  match DB.webhooks d !! id with
  | None => fail ENoRows
  | Some h =>
      let row := failure_row threshold (o_now n) h in
      if in_int32 (Webhook.FailureCount row) then
        modify (upd_db (DB.with_webhooks <[id := row]>));; mret (Webhook.Active row)
      else fail (EPg "22003" "integer out of range")
  end.
End statements.

Module WebhookRepository.
Section repository.
Context `{O : Oracle}.

Definition Create (h : Webhook.t) : M Webhook.t :=
  r ← attempt (backend (insert_webhook h));
  match r with inl h => mret h | inr err => fail (errorf "insert webhook" err) end.

Definition ListByTenant (tenantID : UUID) : M (list Webhook.t) :=
  r ← attempt (backend (λ _, d ← gets w_db;
    mret (merge_sort newer_hook
      (filter (λ h, Webhook.TenantID h = tenantID) (map_to_list (DB.webhooks d)).*2))));
  match r with inl hs => mret hs | inr err => fail (errorf "list webhooks" err) end.

Definition GetByIDForTenant (tenantID id : UUID) : M Webhook.t :=
  read_row "select webhook" (λ d,
    first_row (λ h, bool_decide (Webhook.ID h = id) && bool_decide (Webhook.TenantID h = tenantID))
      (DB.webhooks d)).

Definition DeleteForTenant (tenantID id : UUID) : M () :=
  r ← attempt (backend (λ _, delete_webhook tenantID id));
  match r with
  | inr err => fail (errorf "delete webhook" err)
  | inl n => if n =? 0 then fail (ESentinel ErrNotFound) else mret ()
  end.

Definition ListActiveForEvent (tenantID : UUID) (ev : EventType) : M (list Webhook.t) :=
  r ← attempt (backend (λ _, d ← gets w_db;
    mret (filter (λ h, listening tenantID ev h = true) (map_to_list (DB.webhooks d)).*2)));
  match r with inl hs => mret hs | inr err => fail (errorf "list active webhooks" err) end.

Definition RecordSuccess (id : UUID) : M () :=
  r ← attempt (backend (λ _, modify (upd_db (DB.with_webhooks (alter success_row id)))));
  match r with inl _ => mret () | inr err => fail (errorf "record webhook success" err) end.

(** [(disabled, err)]. *)
Definition RecordFailure (id : UUID) (disableThreshold : Z) : M bool :=
  r ← attempt (backend (record_failure id disableThreshold));
  match r with
  | inl active => mret (negb active)
  | inr err =>
      if IsNoRows err then fail (ESentinel ErrNotFound)
      else fail (errorf "record webhook failure" err)
  end.
End repository.
End WebhookRepository.

(** * Properties *)

Section properties.
Context `{O : Oracle}.
Import WebhookRepository.

(** A backend statement no fault hits. *)
Lemma backend_run {A} (body : nat → M A) w :
  o_fault (w_step w) = None → backend body w = body (w_step w) (set_step (S (w_step w)) w).
Proof. unfold backend. by intros ->. Qed.

Lemma elem_of_rows {A} (m : gmap UUID A) a : a ∈ (map_to_list m).*2 ↔ ∃ id, m !! id = Some a.
Proof.
  rewrite list_elem_of_fmap. split.
  - intros ([id a'] & -> & Hm). exists id. by apply elem_of_map_to_list in Hm.
  - intros [id Hid]. exists (id, a). by rewrite elem_of_map_to_list.
Qed.

(** A row is stored under its own id, and its URL was validated. *)
Definition hook_wf (id : UUID) (h : Webhook.t) : Prop := Webhook.ID h = id ∧ valid_url (Webhook.URL h).

Definition webhooks_sound (w : World) : Prop := ∀ id h, DB.webhooks (w_db w) !! id = Some h → hook_wf id h.

(** Rows keyed by their own ids have distinct ids. *)
Lemma NoDup_rows (m : gmap UUID Webhook.t) :
  (∀ id h, m !! id = Some h → hook_wf id h) → NoDup (Webhook.ID <$> (map_to_list m).*2).
Proof.
  intros Hk. rewrite <- list_fmap_compose.
  replace ((Webhook.ID ∘ snd) <$> map_to_list m) with (map_to_list m).*1; [apply NoDup_fst_map_to_list|].
  apply list_fmap_ext. intros i [id h] Hi%list_elem_of_lookup_2. simpl.
  symmetry. by apply Hk, elem_of_map_to_list.
Qed.

(** Every statement of the repository keeps this, and so does every operation; a new row
    comes with a URL that was validated. *)
Lemma sound_insert w id row :
  webhooks_sound w → hook_wf id row →
  webhooks_sound (upd_db (DB.with_webhooks <[id := row]>) w).
Proof.
  intros Hk Hid i h Hi. simpl in Hi. rewrite lookup_insert in Hi.
  case_decide; simplify_eq; [done|by apply Hk].
Qed.

Lemma sound_delete w id : webhooks_sound w → webhooks_sound (upd_db (DB.with_webhooks (delete id)) w).
Proof. intros Hk i h Hi. simpl in Hi. apply lookup_delete_Some in Hi as [_ Hi]. by apply Hk. Qed.

Lemma sound_alter w id : webhooks_sound w → webhooks_sound (upd_db (DB.with_webhooks (alter success_row id)) w).
Proof.
  intros Hk i h Hi. simpl in Hi. destruct (decide (id = i)) as [->|Hne].
  2: rewrite lookup_alter_ne in Hi by done; by apply Hk.
  rewrite lookup_alter_eq in Hi. apply fmap_Some in Hi as (h' & Hh' & ->). by apply (Hk i h').
Qed.

Lemma sound_set_step n w : webhooks_sound w → webhooks_sound (set_step n w).
Proof. done. Qed.

#[local] Hint Resolve sound_set_step : preserves.

Lemma insert_webhook_sound h n :
  valid_url (Webhook.URL h) → preserves webhooks_sound (insert_webhook h n).
Proof. intros Hu w Hk. unfold insert_webhook. rewrite gets_bind. destruct (negb _); [done|]. repeat case_bool_decide; try done. by apply sound_insert. Qed.

Lemma delete_webhook_sound t id : preserves webhooks_sound (delete_webhook t id).
Proof.
  intros w Hk. unfold delete_webhook. rewrite gets_bind. destruct (_ !! id); [|done].
  case_bool_decide; [by apply sound_delete|done].
Qed.

Lemma record_failure_sound id k n : preserves webhooks_sound (record_failure id k n).
Proof.
  intros w Hk. unfold record_failure. rewrite gets_bind. destruct (_ !! id) as [h|] eqn:Hh; [|done].
  simpl. destruct (in_int32 _); [|done]. by apply sound_insert, (Hk _ _ Hh).
Qed.

#[local] Hint Resolve delete_webhook_sound record_failure_sound sound_alter : preserves.

Lemma Create_sound h : valid_url (Webhook.URL h) → preserves webhooks_sound (Create h).
Proof. intros Hu. unfold Create. preserve. by apply insert_webhook_sound. Qed.
Lemma DeleteForTenant_sound t id : preserves webhooks_sound (DeleteForTenant t id).
Proof. unfold DeleteForTenant. preserve. Qed.
Lemma RecordSuccess_sound id : preserves webhooks_sound (RecordSuccess id).
Proof. unfold RecordSuccess. preserve. Qed.
Lemma RecordFailure_sound id k : preserves webhooks_sound (RecordFailure id k).
Proof. unfold RecordFailure. preserve. Qed.

(** A webhook inserted: the row returned is the row stored. *)
Lemma inserted_hook h w row w' :
  Create h w = (Ok row, w') →
  row = hook_row h (w_step w)
  ∧ w' = upd_db (DB.with_webhooks <[Webhook.ID row := row]>) (set_step (S (w_step w)) w).
Proof.
  unfold Create. intros E. apply bind_Ok in E as (r & w1 & Hr & E). destruct r as [h'|]; [|done]. inv_ok E.
  apply attempt_Ok, backend_Ok in Hr. unfold insert_webhook in Hr. inv_ok Hr.
  destruct (negb _); [done|]. case_bool_decide; [done|]. case_bool_decide; [done|]. by inv_ok Hr.
Qed.

Lemma listening_spec t ev h :
  listening t ev h = true ↔ Webhook.TenantID h = t ∧ Webhook.Active h = true ∧ ev ∈ Webhook.Events h.
Proof.
  unfold listening, Webhook.SubscribesTo.
  rewrite !andb_true_iff, bool_decide_eq_true, existsb_exists. setoid_rewrite String.eqb_eq.
  rewrite list_elem_of_In. split; [|naive_solver]. by intros ([? ?] & e & He & ->).
Qed.

(** What is listed listens. *)
Lemma listed_listens t ev w hs w' h :
  ListActiveForEvent t ev w = (Ok hs, w') → h ∈ hs →
  (∃ id, DB.webhooks (w_db w) !! id = Some h) ∧ listening t ev h = true.
Proof.
  unfold ListActiveForEvent. intros E. apply bind_Ok in E as (r & w1 & Hr & E).
  destruct r as [hs'|]; [|done]. inv_ok E. apply attempt_Ok, backend_Ok in Hr. inv_ok Hr.
  by intros [? ?%elem_of_rows]%list_elem_of_filter.
Qed.

(** No webhook is listed twice. *)
Lemma listed_NoDup t ev w hs w' :
  webhooks_sound w → ListActiveForEvent t ev w = (Ok hs, w') → NoDup (Webhook.ID <$> hs).
Proof.
  intros Hk. unfold ListActiveForEvent. intros E. apply bind_Ok in E as (r & w1 & Hr & E).
  destruct r as [hs'|]; [|done]. inv_ok E. apply attempt_Ok, backend_Ok in Hr. inv_ok Hr.
  eapply sublist_NoDup; [by apply NoDup_rows|]. apply fmap_sublist, sublist_filter.
Qed.

(** The subscribers of an event, exactly: the tenant's active webhooks whose event
    list has its type, no webhook twice, and the lookup writes nothing. *)
Theorem ListActiveForEvent_exact t ev w hs w' :
  webhooks_sound w →
  ListActiveForEvent t ev w = (Ok hs, w') →
  (∀ h, h ∈ hs ↔ (∃ id, DB.webhooks (w_db w) !! id = Some h)
     ∧ Webhook.TenantID h = t ∧ Webhook.Active h = true ∧ ev ∈ Webhook.Events h)
  ∧ NoDup (Webhook.ID <$> hs)
  ∧ w_db w' = w_db w.
Proof.
  intros Hk E. pose proof (listed_NoDup _ _ _ _ _ Hk E) as Hnd. revert E.
  unfold ListActiveForEvent. intros E. apply bind_Ok in E as (r & w1 & Hr & E).
  destruct r as [hs'|]; [|done]. inv_ok E. apply attempt_Ok, backend_Ok in Hr. inv_ok Hr.
  split_and!; [|exact Hnd|done].
  intros h. rewrite list_elem_of_filter, elem_of_rows, listening_spec. tauto.
Qed.

(** A failed delivery, exactly, when the call is not hit by a fault: the counter of
    the webhook goes up by one; it is active afterwards if and only if the counter is
    still below the threshold, and is stamped as disabled when it is not; the answer
    says whether it is disabled; other rows stay.  A missing webhook is ErrNotFound. *)
Theorem RecordFailure_correct id threshold w :
  o_fault (w_step w) = None →
  match DB.webhooks (w_db w) !! id with
  | None => (RecordFailure id threshold w).1 = Err (ESentinel ErrNotFound)
            ∧ w_db (RecordFailure id threshold w).2 = w_db w
  | Some h =>
      Webhook.FailureCount h < 2 ^ 31 - 1 → - 2 ^ 31 <= Webhook.FailureCount h →
      ∃ row,
        (RecordFailure id threshold w).1 = Ok (bool_decide (threshold <= Webhook.FailureCount h + 1))
        ∧ w_db (RecordFailure id threshold w).2 = DB.with_webhooks <[id := row]> (w_db w)
        ∧ Webhook.FailureCount row = Webhook.FailureCount h + 1
        ∧ (Webhook.Active row = true ↔ Webhook.FailureCount row < threshold)
        ∧ Webhook.DisabledAt row
          = (if bool_decide (threshold <= Webhook.FailureCount row) then Some (o_now (w_step w))
             else Webhook.DisabledAt h)
        ∧ Webhook.ID row = Webhook.ID h ∧ Webhook.TenantID row = Webhook.TenantID h
        ∧ Webhook.URL row = Webhook.URL h ∧ Webhook.Secret row = Webhook.Secret h
        ∧ Webhook.Events row = Webhook.Events h
  end.
Proof.
  intros Hf. unfold RecordFailure. rewrite attempt_bind, backend_run by done.
  unfold record_failure, mbind, M_bind, gets. simpl.
  destruct (DB.webhooks (w_db w) !! id) as [h|]; [|done]. intros Hmax Hmin.
  assert (Hi : in_int32 (Webhook.FailureCount h + 1) = true).
  { unfold in_int32. apply andb_true_iff. split; apply Z.leb_le; lia. }
  rewrite Hi. exists (failure_row threshold (o_now (w_step w)) h). simpl. split_and!; try done.
  - do 2 f_equal. apply eq_true_iff_eq. rewrite negb_true_iff, Z.ltb_ge, bool_decide_eq_true. done.
  - apply Z.ltb_lt.
  - destruct (Z.leb_spec threshold (Webhook.FailureCount h + 1)); case_bool_decide; done || lia.
Qed.

(** The updates of the deliveries of one webhook, in the order they commit. *)
Inductive delivery := Delivered | Failed (at_ : Time).

Definition record (threshold : Z) (h : Webhook.t) (x : delivery) : Webhook.t :=
  match x with
  | Delivered => success_row h
  | Failed t => failure_row threshold t h
  end.

Lemma failures_count threshold h ts :
  Webhook.FailureCount (foldl (record threshold) h (Failed <$> ts))
  = Webhook.FailureCount h + Z.of_nat (length ts).
Proof.
  revert h. induction ts as [|t ts IH]; intros h; csimpl; [lia|]. rewrite IH. simpl. lia.
Qed.

Lemma failures_active threshold h t ts :
  Webhook.Active (foldl (record threshold) h (Failed <$> (ts ++ [t]))) = true ↔
  Webhook.FailureCount h + Z.of_nat (length ts) + 1 < threshold.
Proof.
  rewrite fmap_app, foldl_app. simpl. rewrite failures_count. apply Z.ltb_lt.
Qed.

(** The dead-letter state.  From a webhook with a clear counter, any number of
    consecutive failed deliveries leaves it active exactly as long as they are fewer
    than the threshold. *)
Theorem dead_letter_threshold threshold h t ts :
  Webhook.FailureCount h = 0 →
  Webhook.Active (foldl (record threshold) h (Failed <$> (t :: ts))) = true
  ↔ Z.of_nat (length (t :: ts)) < threshold.
Proof.
  intros Hc. destruct (exists_last (l:=t :: ts) ltac:(done)) as (l & x & E). rewrite E.
  rewrite failures_active, Hc, length_app. simpl. lia.
Qed.

Lemma dead_letter_threshold_witness :
  let h := Webhook.Mk 1%N 1%N "https://x.example" "s" [EventLinkCreated] true 0 None 0 in
  Webhook.Active (foldl (record 3) h (Failed <$> [1; 2; 3])) = false.
Proof.
  cbv zeta. apply not_true_is_false. rewrite dead_letter_threshold by reflexivity. simpl. lia.
Defined.

(** A dead letter can come back.  A delivery still in flight that succeeds after
    the webhook was disabled clears the counter, and the next failure sets [active]
    again from it: the webhook is active although it is stamped as disabled and no
    one re-enabled it. *)
Theorem dead_letter_resurrected threshold h t1 t2 t3 :
  Webhook.FailureCount h = 0 → threshold = 2 →
  let dead := foldl (record threshold) h [Failed t1; Failed t2] in
  let back := foldl (record threshold) dead [Delivered; Failed t3] in
  Webhook.Active dead = false ∧ Webhook.DisabledAt dead = Some t2
  ∧ Webhook.Active back = true ∧ Webhook.DisabledAt back = Some t2.
Proof. intros Hc ->. simpl. rewrite Hc. done. Qed.

Lemma dead_letter_resurrected_witness :
  let h := Webhook.Mk 1%N 1%N "https://x.example" "s" [EventLinkCreated] true 0 None 0 in
  Webhook.Active (foldl (record 2) (foldl (record 2) h [Failed 1; Failed 2]) [Delivered; Failed 3]) = true.
Proof.
  cbv zeta. refine (proj1 (proj2 (proj2 (dead_letter_resurrected 2 _ 1 2 3 _ _)))); reflexivity.
Defined.
End properties.

#[export] Hint Resolve sound_set_step Create_sound DeleteForTenant_sound RecordSuccess_sound
  RecordFailure_sound : preserves.
