(* ===== verification/Sql.v ===== *)
(** The SQL of the repositories (internal/repository/{link,click,tenant,apikey,webhook}.go;
    migrations/).  The other files state what a statement does as a function on rows;
    here the statements themselves are data, their column lists as they are written, their
    conditions and right-hand sides as expressions with NULL, and the functions are shown
    to be what they mean.  A row is the list of its columns with their values; a result
    row is scanned by position into the fields of a struct.  Order, LIMIT and grouping
    stay with the functions. *)
From stdpp Require Import prelude gmap strings list.
From Stdlib Require Import Ascii.
From S2P Require Import Prelude GoStd NetIP Domain World LinkRepo ClickRepo KeyRepo WebhookRepo.

Local Open Scope Z_scope.

(** * Values and rows *)

Inductive cell :=
  | CNull
  | CUuid (u : UUID)
  | CText (s : string)
  | CInt (z : Z)
  | CBool (b : bool)
  | CTime (t : Time)
  | CTexts (l : list string).

Abbreviation row := (list (string * cell)).

Fixpoint column (c : string) (r : row) : option cell :=
  match r with
  | [] => None
  | (c', v) :: r => if String.eqb c c' then Some v else column c r
  end.

(** A nullable column. *)
Definition nullable {A} (f : A → cell) (o : option A) : cell := match o with Some a => f a | None => CNull end.

(** A column list, as it stands in a statement. *)
Definition columns (s : string) : list string :=
  (λ l, TrimSpace (string_of l)) <$> split_byte ","%char [] (bytes_of s).

(** SELECT or RETURNING a column list. *)
Definition select_list (cols : string) (r : row) : option (list cell) := mapM (λ c, column c r) (columns cols).

(** A result row, scanned. *)
Definition returning {A} (cols : string) (scan : list cell → option A) (r : row) : option A :=
  cells ← select_list cols r; scan cells.

(** ** Scanning *)

Definition to_uuid (c : cell) : option UUID := match c with CUuid u => Some u | _ => None end.
Definition to_text (c : cell) : option string := match c with CText s => Some s | _ => None end.
Definition to_int (c : cell) : option Z := match c with CInt z => Some z | _ => None end.
Definition to_bool (c : cell) : option bool := match c with CBool b => Some b | _ => None end.
Definition to_time (c : cell) : option Time := match c with CTime t => Some t | _ => None end.
Definition to_texts (c : cell) : option (list string) := match c with CTexts l => Some l | _ => None end.

(** A pointer destination: NULL is nil. *)
Definition to_ptr {A} (f : cell → option A) (c : cell) : option (option A) :=
  match c with CNull => Some None | _ => Some <$> f c end.

(** * Expressions *)

Inductive expr :=
  | Param (k : nat)
  | Now
  | Col (c : string)
  | Const (z : Z)
  | Plus (a b : expr)
  | Less (a b : expr)
  | AtLeast (a b : expr)
  | Equal (a b : expr)
  | AnyOf (a b : expr)
  | IsNull (a : expr)
  | And (a b : expr)
  | Or (a b : expr)
  | Case (c a b : expr).

Declare Scope sql_scope.
Delimit Scope sql_scope with sql.
Bind Scope sql_scope with expr.
Infix "==" := Equal (at level 70, no associativity) : sql_scope.
Infix "<" := Less : sql_scope.
Infix ">=" := AtLeast : sql_scope.
Infix "+" := Plus : sql_scope.
Infix "AND" := And (at level 72, left associativity) : sql_scope.
Infix "OR" := Or (at level 74, left associativity) : sql_scope.

(** A strict operator: NULL if an operand is. *)
Definition strict (f : cell → cell → option cell) (a b : cell) : option cell :=
  match a, b with CNull, _ | _, CNull => Some CNull | _, _ => f a b end.

Definition plus (a b : cell) : option cell :=
  match a, b with CInt x, CInt y => Some (CInt (x + y)) | _, _ => None end.

Definition less (a b : cell) : option cell :=
  match a, b with CInt x, CInt y | CTime x, CTime y => Some (CBool (x <? y)) | _, _ => None end.

Definition at_least (a b : cell) : option cell :=
  match a, b with CInt x, CInt y | CTime x, CTime y => Some (CBool (y <=? x)) | _, _ => None end.

Definition equal (a b : cell) : option cell :=
  match a, b with
  | CUuid x, CUuid y => Some (CBool (bool_decide (x = y)))
  | CText x, CText y => Some (CBool (bool_decide (x = y)))
  | CInt x, CInt y => Some (CBool (x =? y))
  | _, _ => None
  end.

(** [a = ANY(b)]. *)
Definition any_of (a b : cell) : option cell :=
  match a, b with CText x, CTexts l => Some (CBool (existsb (λ y, String.eqb y x) l)) | _, _ => None end.

(** Three-valued connectives. *)
Definition and3 (a b : cell) : option cell :=
  match a, b with
  | CBool x, CBool y => Some (CBool (x && y))
  | CBool x, CNull | CNull, CBool x => Some (if x then CNull else CBool false)
  | CNull, CNull => Some CNull
  | _, _ => None
  end.

Definition or3 (a b : cell) : option cell :=
  match a, b with
  | CBool x, CBool y => Some (CBool (x || y))
  | CBool x, CNull | CNull, CBool x => Some (if x then CBool true else CNull)
  | CNull, CNull => Some CNull
  | _, _ => None
  end.

(** The value of an expression in a row, given [now()] and the parameters; [None] is a
    type error or a name that does not exist. *)
Fixpoint eval (now : Time) (ps : list cell) (r : row) (e : expr) : option cell :=
  let binary f a b := x ← eval now ps r a; y ← eval now ps r b; f x y in
  match e with
  | Param k => ps !! pred k
  | Now => Some (CTime now)
  | Col c => column c r
  | Const z => Some (CInt z)
  | Plus a b => binary (strict plus) a b
  | Less a b => binary (strict less) a b
  | AtLeast a b => binary (strict at_least) a b
  | Equal a b => binary (strict equal) a b
  | AnyOf a b => binary (strict any_of) a b
  | IsNull a => x ← eval now ps r a; Some (CBool match x with CNull => true | _ => false end)
  | And a b => binary and3 a b
  | Or a b => binary or3 a b
  | Case c a b => x ← eval now ps r c;
      match x with CBool true => eval now ps r a | _ => eval now ps r b end
  end.

(** * Statements *)

Section statements.
Context `{O : Oracle}.

(** A parameter on its way: an instant is a TIMESTAMPTZ. *)
Definition bind (c : cell) : cell := match c with CTime t => CTime (o_timestamptz t) | _ => c end.

(** WHERE keeps the rows in which the condition is true, neither false nor NULL. *)
Definition kept (now : Time) (ps : list cell) (r : row) (e : expr) : option bool :=
  x ← eval now (bind <$> ps) r e; match x with CBool b => Some b | CNull => Some false | _ => None end.

(** UPDATE ... SET: every right-hand side reads the old row. *)
Definition update_set (set : list (string * expr)) (now : Time) (ps : list cell) (r : row) : option row :=
  new ← mapM (λ a, v ← eval now (bind <$> ps) r a.2; Some (a.1, v)) set;
  Some ((λ f, (f.1, default f.2 (column f.1 new))) <$> r).

(** INSERT INTO t (cols) VALUES ($1, ..., $n), and COPY t (cols): the other columns have
    the defaults of the table. *)
Definition insert_into (table : row) (cols : list string) (ps : list cell) : option row :=
  if Nat.eqb (length cols) (length ps)
  then Some ((λ f, (f.1, default f.2 (column f.1 (zip cols (bind <$> ps))))) <$> table)
  else None.
End statements.

(** * Links *)

Definition linkColumns : string := "id, tenant_id, code, target_url, redirect_type,
	expires_at, max_clicks, click_count, created_at, updated_at, deleted_at".

Definition link_cells (l : Link.t) : row :=
  [("id", CUuid (Link.ID l)); ("tenant_id", CUuid (Link.TenantID l)); ("code", CText (Link.Code l));
   ("target_url", CText (Link.TargetURL l)); ("redirect_type", CInt (Link.RedirectType l));
   ("expires_at", nullable CTime (Link.ExpiresAt l)); ("max_clicks", nullable CInt (Link.MaxClicks l));
   ("click_count", CInt (Link.ClickCount l)); ("created_at", CTime (Link.CreatedAt l));
   ("updated_at", CTime (Link.UpdatedAt l)); ("deleted_at", nullable CTime (Link.DeletedAt l))].

Definition scanLink (cells : list cell) : option Link.t :=
  match cells with
  | [id; tenant; code; url; ty; expires; cap; count; created; updated; deleted] =>
      id ← to_uuid id; tenant ← to_uuid tenant; code ← to_text code; url ← to_text url; ty ← to_int ty;
      expires ← to_ptr to_time expires; cap ← to_ptr to_int cap; count ← to_int count;
      created ← to_time created; updated ← to_time updated; deleted ← to_ptr to_time deleted;
      Some (Link.Mk id tenant code url ty expires cap count created updated deleted)
  | _ => None
  end.

(** The defaults of a new row, as of effect [n]. *)
Definition link_defaults `{O : Oracle} (n : nat) : row :=
  [("id", CUuid (o_uuid n)); ("tenant_id", CNull); ("code", CNull); ("target_url", CNull);
   ("redirect_type", CInt 302); ("expires_at", CNull); ("max_clicks", CNull); ("click_count", CInt 0);
   ("created_at", CTime (o_now n)); ("updated_at", CTime (o_now n)); ("deleted_at", CNull)].

Module LinkSql.
Local Open Scope sql_scope.

Definition insert_columns : string := "tenant_id, code, target_url, redirect_type, expires_at, max_clicks".
Definition insert_params (l : Link.t) : list cell :=
  [CUuid (Link.TenantID l); CText (Link.Code l); CText (Link.TargetURL l); CInt (Link.RedirectType l);
   nullable CTime (Link.ExpiresAt l); nullable CInt (Link.MaxClicks l)].

Definition where_id : expr := Col "id" == Param 1 AND Col "tenant_id" == Param 2 AND IsNull (Col "deleted_at").
Definition where_code : expr := Col "code" == Param 1 AND IsNull (Col "deleted_at").
Definition where_tenant : expr := Col "tenant_id" == Param 1 AND IsNull (Col "deleted_at").
Definition where_purge : expr :=
  Col "tenant_id" == Param 1 AND (Col "expires_at" < Param 2 OR Col "deleted_at" < Param 2).

Definition set_update : list (string * expr) :=
  [("code", Param 3); ("target_url", Param 4); ("redirect_type", Param 5); ("expires_at", Param 6);
   ("max_clicks", Param 7); ("updated_at", Now)].
Definition update_params (l : Link.t) : list cell :=
  [CUuid (Link.ID l); CUuid (Link.TenantID l); CText (Link.Code l); CText (Link.TargetURL l);
   CInt (Link.RedirectType l); nullable CTime (Link.ExpiresAt l); nullable CInt (Link.MaxClicks l)].

Definition set_deleted : list (string * expr) := [("deleted_at", Now); ("updated_at", Now)].
Definition set_counted : list (string * expr) := [("click_count", Col "click_count" + Param 2); ("updated_at", Now)].
End LinkSql.

Section links.
Context `{O : Oracle}.
Import LinkSql.

Ltac nulls := repeat match goal with |- context [nullable _ ?o] => destruct o end.

(** The column list and the destinations of [scanLink] are in the same order. *)
Lemma scanLink_reads l : returning linkColumns scanLink (link_cells l) = Some l.
Proof. destruct l as [? ? ? ? ? [?|] [?|] ? ? ? [?|]]; reflexivity. Qed.

Lemma insert_link_reads l n :
  insert_into (link_defaults n) (columns insert_columns) (insert_params l) ≫= returning linkColumns scanLink
  = Some (insert_row l n).
Proof. unfold insert_row. destruct l as [? ? ? ? ? [?|] [?|] ? ? ? ?]; reflexivity. Qed.

Lemma update_link_reads l old n :
  update_set set_update (o_now n) (update_params l) (link_cells old) = Some (link_cells (update_row l old n)).
Proof. unfold update_row. destruct l as [? ? ? ? ? [?|] [?|] ? ? ? ?]; reflexivity. Qed.

Lemma delete_link_reads old n ps : update_set set_deleted (o_now n) ps (link_cells old) = Some (link_cells (delete_row old n)).
Proof. reflexivity. Qed.

Lemma count_link_reads old id k n :
  update_set set_counted (o_now n) [CUuid id; CInt k] (link_cells old) = Some (link_cells (count_row old k (o_now n))).
Proof. reflexivity. Qed.

Lemma where_id_reads t id l now : kept now [CUuid id; CUuid t] (link_cells l) where_id = Some (by_id t id l).
Proof. unfold by_id, Link.live. destruct l as [? ? ? ? ? ? ? ? ? ? [?|]]; reflexivity. Qed.

Lemma where_code_reads c l now : kept now [CText c] (link_cells l) where_code = Some (by_code c l).
Proof. unfold by_code, Link.live. destruct l as [? ? ? ? ? ? ? ? ? ? [?|]]; reflexivity. Qed.

Lemma where_tenant_reads t l now : kept now [CUuid t] (link_cells l) where_tenant = Some (of_tenant t l).
Proof. unfold of_tenant, Link.live. destruct l as [? ? ? ? ? ? ? ? ? ? [?|]]; reflexivity. Qed.

(** A link without an expiry and not deleted compares NULL with the cutoff, twice. *)
Lemma where_purge_reads t cutoff l now :
  kept now [CUuid t; CTime cutoff] (link_cells l) where_purge = Some (purgeable t (o_timestamptz cutoff) l).
Proof.
  unfold purgeable, null_lt. destruct l as [? u ? ? ? [x|] ? ? ? ? [y|]]; unfold kept; simpl;
    destruct (bool_decide (u = t)); simpl; try reflexivity;
    repeat match goal with |- context [?a <? ?b] => destruct (a <? b) end; reflexivity.
Qed.
End links.

(** * Webhooks *)

Definition webhookColumns : string :=
  "id, tenant_id, url, secret, events, active, failure_count, disabled_at, created_at".

(** The loops over a slice made at its length. *)
Definition toEventTypes (ss : list string) : list EventType :=
  foldl (λ out p, <[p.1 := p.2]> out) (replicate (length ss) "") (imap pair ss).
Definition fromEventTypes (es : list EventType) : list string :=
  foldl (λ out p, <[p.1 := p.2]> out) (replicate (length es) "") (imap pair es).

Definition hook_cells (h : Webhook.t) : row :=
  [("id", CUuid (Webhook.ID h)); ("tenant_id", CUuid (Webhook.TenantID h)); ("url", CText (Webhook.URL h));
   ("secret", CText (Webhook.Secret h)); ("events", CTexts (Webhook.Events h)); ("active", CBool (Webhook.Active h));
   ("failure_count", CInt (Webhook.FailureCount h)); ("disabled_at", nullable CTime (Webhook.DisabledAt h));
   ("created_at", CTime (Webhook.CreatedAt h))].

Definition scanWebhook (cells : list cell) : option Webhook.t :=
  match cells with
  | [id; tenant; url; secret; events; active; count; disabled; created] =>
      id ← to_uuid id; tenant ← to_uuid tenant; url ← to_text url; secret ← to_text secret; events ← to_texts events;
      active ← to_bool active; count ← to_int count; disabled ← to_ptr to_time disabled; created ← to_time created;
      Some (Webhook.Mk id tenant url secret (toEventTypes events) active count disabled created)
  | _ => None
  end.

Definition hook_defaults `{O : Oracle} (n : nat) : row :=
  [("id", CUuid (o_uuid n)); ("tenant_id", CNull); ("url", CNull); ("secret", CNull); ("events", CNull);
   ("active", CBool true); ("failure_count", CInt 0); ("disabled_at", CNull); ("created_at", CTime (o_now n))].

Module WebhookSql.
Local Open Scope sql_scope.

Definition insert_columns : string := "tenant_id, url, secret, events".
Definition insert_params (h : Webhook.t) : list cell :=
  [CUuid (Webhook.TenantID h); CText (Webhook.URL h); CText (Webhook.Secret h); CTexts (fromEventTypes (Webhook.Events h))].

Definition where_id : expr := Col "id" == Param 1 AND Col "tenant_id" == Param 2.
Definition where_listening : expr := Col "tenant_id" == Param 1 AND Col "active" AND AnyOf (Param 2) (Col "events").

Definition set_success : list (string * expr) := [("failure_count", Const 0)].
Definition set_failure : list (string * expr) :=
  [("failure_count", Col "failure_count" + Const 1);
   ("active", Col "failure_count" + Const 1 < Param 2);
   ("disabled_at", Case (Col "failure_count" + Const 1 >= Param 2) Now (Col "disabled_at"))].
End WebhookSql.

Section webhooks.
Context `{O : Oracle}.
Import WebhookSql.

(** Filling a slice in place gives the slice. *)
Lemma fill_slice (ss : list string) :
  foldl (λ out p, <[p.1 := p.2]> out) (replicate (length ss) "") (imap pair ss) = ss.
Proof.
  assert (Hgen : ∀ (front rest : list string),
    foldl (λ out p, <[p.1 := p.2]> out) (front ++ replicate (length rest) "")
      (imap (λ i s, ((length front + i)%nat, s)) rest) = front ++ rest).
  { intros front rest. revert front. induction rest as [|s rest IH]; intros front; simpl; [done|].
    rewrite insert_app_r. simpl.
    specialize (IH (front ++ [s])). rewrite <- !app_assoc in IH. simpl in IH. rewrite <- IH. f_equal.
    apply imap_ext. intros i x _. simpl. rewrite length_app. simpl. f_equal. lia. }
  exact (Hgen [] ss).
Qed.

Lemma toEventTypes_id ss : toEventTypes ss = ss.
Proof. apply fill_slice. Qed.
Lemma fromEventTypes_id es : fromEventTypes es = es.
Proof. apply fill_slice. Qed.

Lemma scanWebhook_reads h : returning webhookColumns scanWebhook (hook_cells h) = Some h.
Proof.
  transitivity (Some (Webhook.Mk (Webhook.ID h) (Webhook.TenantID h) (Webhook.URL h) (Webhook.Secret h)
    (toEventTypes (Webhook.Events h)) (Webhook.Active h) (Webhook.FailureCount h) (Webhook.DisabledAt h) (Webhook.CreatedAt h))).
  { destruct h as [? ? ? ? ? ? ? [?|] ?]; reflexivity. }
  rewrite toEventTypes_id. by destruct h.
Qed.

Lemma insert_hook_reads h n :
  insert_into (hook_defaults n) (columns insert_columns) (insert_params h) = Some (hook_cells (hook_row h n)).
Proof. unfold insert_params. by rewrite fromEventTypes_id. Qed.

Lemma success_reads h now ps : update_set set_success now ps (hook_cells h) = Some (hook_cells (success_row h)).
Proof. reflexivity. Qed.

Lemma failure_reads h id threshold now :
  update_set set_failure now [CUuid id; CInt threshold] (hook_cells h) = Some (hook_cells (failure_row threshold now h)).
Proof.
  unfold failure_row, update_set. destruct h as [? ? ? ? ? ? count disabled ?]. simpl.
  destruct (threshold <=? count + 1); reflexivity.
Qed.

Lemma where_listening_reads t ev h now :
  kept now [CUuid t; CText ev] (hook_cells h) where_listening = Some (listening t ev h).
Proof. reflexivity. Qed.
End webhooks.

(** * Tenants and keys *)

Definition tenant_columns : string := "id, name, created_at, updated_at".

Definition tenant_cells (t : Tenant.t) : row :=
  [("id", CUuid (Tenant.ID t)); ("name", CText (Tenant.Name t)); ("created_at", CTime (Tenant.CreatedAt t));
   ("updated_at", CTime (Tenant.UpdatedAt t))].

(** [Scan(&t.ID, &t.Name, &t.CreatedAt, &t.UpdatedAt)]. *)
Definition scan_tenant (cells : list cell) : option Tenant.t :=
  match cells with
  | [id; name; created; updated] =>
      id ← to_uuid id; name ← to_text name; created ← to_time created; updated ← to_time updated;
      Some (Tenant.Mk id name created updated)
  | _ => None
  end.

Definition key_columns : string := "id, tenant_id, name, prefix, key_hash, created_at, last_used_at, revoked_at".

Definition key_cells (k : APIKey.t) : row :=
  [("id", CUuid (APIKey.ID k)); ("tenant_id", CUuid (APIKey.TenantID k)); ("name", CText (APIKey.Name k));
   ("prefix", CText (APIKey.Prefix k)); ("key_hash", CText (APIKey.Hash k)); ("created_at", CTime (APIKey.CreatedAt k));
   ("last_used_at", nullable CTime (APIKey.LastUsedAt k)); ("revoked_at", nullable CTime (APIKey.RevokedAt k))].

(** [Scan(&k.ID, &k.TenantID, &k.Name, &k.Prefix, &k.Hash, &k.CreatedAt, ...)]. *)
Definition scan_key (cells : list cell) : option APIKey.t :=
  match cells with
  | [id; tenant; name; prefix; hash; created; used; revoked] =>
      id ← to_uuid id; tenant ← to_uuid tenant; name ← to_text name; prefix ← to_text prefix; hash ← to_text hash;
      created ← to_time created; used ← to_ptr to_time used; revoked ← to_ptr to_time revoked;
      Some (APIKey.Mk id tenant name prefix hash created used revoked)
  | _ => None
  end.

Section keys.
Context `{O : Oracle}.

Definition tenant_defaults (n : nat) : row :=
  [("id", CUuid (o_uuid n)); ("name", CNull); ("created_at", CTime (o_now n)); ("updated_at", CTime (o_now n))].

Definition key_defaults (n : nat) : row :=
  [("id", CUuid (o_uuid n)); ("tenant_id", CNull); ("name", CNull); ("prefix", CNull); ("key_hash", CNull);
   ("created_at", CTime (o_now n)); ("last_used_at", CNull); ("revoked_at", CNull)].

Definition key_insert_columns : string := "tenant_id, name, prefix, key_hash".
Definition set_touched : list (string * expr) := [("last_used_at", Now)].

Lemma scan_tenant_reads t : returning tenant_columns scan_tenant (tenant_cells t) = Some t.
Proof. by destruct t. Qed.

Lemma insert_tenant_reads name n :
  insert_into (tenant_defaults n) ["name"] [CText name] = Some (tenant_cells (Tenant.Mk (o_uuid n) name (o_now n) (o_now n))).
Proof. reflexivity. Qed.

Lemma scan_key_reads k : returning key_columns scan_key (key_cells k) = Some k.
Proof. by destruct k as [? ? ? ? ? ? [?|] [?|]]. Qed.

Lemma insert_key_reads t name prefix hash n :
  insert_into (key_defaults n) (columns key_insert_columns) [CUuid t; CText name; CText prefix; CText hash]
  = Some (key_cells (APIKey.Mk (o_uuid n) t name prefix hash (o_now n) None None)).
Proof. reflexivity. Qed.

Lemma touch_key_reads k n ps : update_set set_touched (o_now n) ps (key_cells k) = Some (key_cells (touched n k)).
Proof. reflexivity. Qed.
End keys.

(** * Clicks *)

Definition clickCopyColumns : list string :=
  ["link_id"; "tenant_id"; "occurred_at"; "referrer"; "user_agent"; "browser"; "os"; "device"; "country"; "ip_hash"].

(** The columns but the serial id, which nothing reads. *)
Definition click_cells (c : Click.t) : row :=
  [("link_id", CUuid (Click.LinkID c)); ("tenant_id", CUuid (Click.TenantID c)); ("occurred_at", CTime (Click.OccurredAt c));
   ("referrer", CText (Click.Referrer c)); ("user_agent", CText (Click.UserAgent c)); ("browser", CText (Click.Browser c));
   ("os", CText (Click.OS c)); ("device", CText (Click.Device c)); ("country", CText (Click.Country c));
   ("ip_hash", CText (Click.IPHash c))].

Definition click_defaults : row :=
  [("link_id", CNull); ("tenant_id", CNull); ("occurred_at", CNull); ("referrer", CText ""); ("user_agent", CText "");
   ("browser", CText ""); ("os", CText ""); ("device", CText ""); ("country", CText ""); ("ip_hash", CText "")].

(** [rows[i]] of [RecordBatch]. *)
Definition click_values (c : Click.t) : list cell :=
  [CUuid (Click.LinkID c); CUuid (Click.TenantID c); CTime (Click.OccurredAt c); CText (Click.Referrer c);
   CText (Click.UserAgent c); CText (Click.Browser c); CText (Click.OS c); CText (Click.Device c);
   CText (Click.Country c); CText (Click.IPHash c)].

Module ClickSql.
Local Open Scope sql_scope.

(** The WHERE of a series; the bucket is its fourth parameter. *)
Definition where_window : expr :=
  Col "tenant_id" == Param 1 AND Col "link_id" == Param 2 AND Col "occurred_at" >= Param 3 AND Col "occurred_at" < Param 5.
End ClickSql.

Section clicks.
Context `{O : Oracle}.
Import ClickSql.

Lemma copy_click_reads c : insert_into click_defaults clickCopyColumns (click_values c) = Some (click_cells (store_click c)).
Proof. reflexivity. Qed.

Lemma where_window_reads t id from to bucket c now :
  kept now [CUuid t; CUuid id; CTime from; CText bucket; CTime to] (click_cells c) where_window
  = Some (in_window t id (o_timestamptz from) (o_timestamptz to) c).
Proof. reflexivity. Qed.
End clicks.

(** * The repositories *)

Section repositories.
Context `{O : Oracle}.

(** C16: The statements on links mean what the model of the repository says.  A column list
    names the columns in the order in which [scanLink] takes them, so that every row comes
    back as the link it is; an INSERT, an UPDATE and a soft delete, with the parameters in
    the order in which they are passed, leave the rows [insert_row], [update_row],
    [delete_row] and [count_row] describe; and the conditions, NULL included, select the
    links [by_id], [by_code], [of_tenant] and [purgeable] select. *)
Theorem link_statements (l old : Link.t) (n : nat) :
  returning linkColumns scanLink (link_cells l) = Some l
  ∧ insert_into (link_defaults n) (columns LinkSql.insert_columns) (LinkSql.insert_params l) ≫= returning linkColumns scanLink
    = Some (insert_row l n)
  ∧ update_set LinkSql.set_update (o_now n) (LinkSql.update_params l) (link_cells old)
    = Some (link_cells (update_row l old n))
  ∧ (∀ ps, update_set LinkSql.set_deleted (o_now n) ps (link_cells old) = Some (link_cells (delete_row old n)))
  ∧ (∀ id k, update_set LinkSql.set_counted (o_now n) [CUuid id; CInt k] (link_cells old)
      = Some (link_cells (count_row old k (o_now n))))
  ∧ (∀ t id, kept (o_now n) [CUuid id; CUuid t] (link_cells old) LinkSql.where_id = Some (by_id t id old))
  ∧ (∀ code, kept (o_now n) [CText code] (link_cells old) LinkSql.where_code = Some (by_code code old))
  ∧ (∀ t, kept (o_now n) [CUuid t] (link_cells old) LinkSql.where_tenant = Some (of_tenant t old))
  ∧ (∀ t cutoff, kept (o_now n) [CUuid t; CTime cutoff] (link_cells old) LinkSql.where_purge
      = Some (purgeable t (o_timestamptz cutoff) old)).
Proof.
  split_and!; intros; eauto using scanLink_reads, insert_link_reads, update_link_reads, delete_link_reads,
    count_link_reads, where_id_reads, where_code_reads, where_tenant_reads, where_purge_reads.
Qed.

(** C17: And so do those on webhooks and clicks.  A webhook comes back from a row as it is,
    its event types included; registering one, a success and a failure leave the rows of
    the model; the dispatcher selects the webhooks that listen; a click copied by position
    lands in the columns of its fields, its instant at the precision of the database; and
    the rollups select the clicks of the window. *)
Theorem hook_and_click_statements (h : Webhook.t) (c : Click.t) (n : nat) :
  returning webhookColumns scanWebhook (hook_cells h) = Some h
  ∧ insert_into (hook_defaults n) (columns WebhookSql.insert_columns) (WebhookSql.insert_params h)
    = Some (hook_cells (hook_row h n))
  ∧ (∀ ps, update_set WebhookSql.set_success (o_now n) ps (hook_cells h) = Some (hook_cells (success_row h)))
  ∧ (∀ id threshold, update_set WebhookSql.set_failure (o_now n) [CUuid id; CInt threshold] (hook_cells h)
      = Some (hook_cells (failure_row threshold (o_now n) h)))
  ∧ (∀ t ev, kept (o_now n) [CUuid t; CText ev] (hook_cells h) WebhookSql.where_listening = Some (listening t ev h))
  ∧ insert_into click_defaults clickCopyColumns (click_values c) = Some (click_cells (store_click c))
  ∧ (∀ t id from to bucket,
      kept (o_now n) [CUuid t; CUuid id; CTime from; CText bucket; CTime to] (click_cells c) ClickSql.where_window
      = Some (in_window t id (o_timestamptz from) (o_timestamptz to) c)).
Proof.
  split_and!; intros; eauto using scanWebhook_reads, insert_hook_reads, success_reads, failure_reads,
    where_listening_reads, copy_click_reads, where_window_reads.
Qed.
End repositories.
