(* ===== verification/WebhookService.v ===== *)
(** WebhookService: registering and managing webhooks (internal/service/webhook.go) and
    the signing secrets (internal/domain/event.go). *)
From stdpp Require Import prelude gmap strings list sorting.
From S2P Require Import Prelude GoStd NetUrl Domain World Schema LinkRepo Shortcode LinkService KeyRepo WebhookRepo.

Local Open Scope Z_scope.

(** [GenerateWebhookSecret]. *)
Definition GenerateWebhookSecret `{O : Oracle} : M string :=
  r ← attempt (rand_Read 24);
  match r with
  | inr err => fail (errorf "generate webhook secret" err)
  | inl buf => mret (WebhookSecretPrefix +:+ base64_encode buf)
  end.

Module CreateWebhookInput.
Record t := Mk { URL : string; Events : list EventType }.
End CreateWebhookInput.

Definition validateWebhookURL (raw : string) : option error :=
  if String.eqb raw "" then Some (invalid "url is required")
  else match NetUrl.Parse raw with
       | None => Some (invalid "url is not parseable")
       | Some (scheme, host) =>
           if negb (String.eqb scheme "http") && negb (String.eqb scheme "https")
           then Some (invalid "url scheme must be http or https")
           else if String.eqb host "" then Some (invalid "url must include a host")
           else None
       end.

(** The loop of [validateEvents]. *)
Fixpoint unknown_event (events : list EventType) : option error :=
  match events with
  | [] => None
  | e :: events =>
      if negb (EventType_Valid e) then Some (EWrap "" (ESentinel ErrValidation) (": unknown event type " +:+ e))
      else unknown_event events
  end.

Definition validateEvents (events : list EventType) : option error :=
  match events with
  | [] => Some (invalid "at least one event type is required")
  | _ => unknown_event events
  end.

(** The loop of [dedupeEvents], with the map [seen] and the slice [out]. *)
Fixpoint dedupe (seen : gset string) (out : list EventType) (events : list EventType) : list EventType :=
  match events with
  | [] => out
  | e :: events =>
      if bool_decide (e ∈ seen) then dedupe seen out events
      else dedupe ({[e]} ∪ seen) (out ++ [e]) events
  end.

Definition dedupeEvents (events : list EventType) : list EventType := dedupe ∅ [] events.

Module WebhookService.
Section service.
Context `{O : Oracle}.

Definition Create (tenantID : UUID) (inp : CreateWebhookInput.t) : M Webhook.t :=
  check (validateWebhookURL (CreateWebhookInput.URL inp));;
  check (validateEvents (CreateWebhookInput.Events inp));;
  secret ← GenerateWebhookSecret;
  let h := {| Webhook.ID := uuid_Nil;
              Webhook.TenantID := tenantID;
              Webhook.URL := CreateWebhookInput.URL inp;
              Webhook.Secret := secret;
              Webhook.Events := dedupeEvents (CreateWebhookInput.Events inp);
              Webhook.Active := true;
              Webhook.FailureCount := 0;
              Webhook.DisabledAt := None;
              Webhook.CreatedAt := zero_time |} in
  h ← WebhookRepository.Create h;
  mret (Webhook.Mk (Webhook.ID h) (Webhook.TenantID h) (Webhook.URL h) secret (Webhook.Events h)
          (Webhook.Active h) (Webhook.FailureCount h) (Webhook.DisabledAt h) (Webhook.CreatedAt h)).

Definition List (tenantID : UUID) : M (list Webhook.t) := WebhookRepository.ListByTenant tenantID.

Definition Delete (tenantID id : UUID) : M () := WebhookRepository.DeleteForTenant tenantID id.
End service.
End WebhookService.

(** * Properties *)

Lemma dedupe_spec seen out events :
  (∀ e, e ∈ seen ↔ e ∈ out) → NoDup out →
  NoDup (dedupe seen out events)
  ∧ (∀ e, e ∈ dedupe seen out events ↔ e ∈ out ∨ e ∈ events)
  ∧ out `prefix_of` dedupe seen out events.
Proof.
  revert seen out. induction events as [|x events IH]; intros seen out Hs Hn; simpl.
  { split_and!; [done | | done]. intros e. split; [by left|]. by intros [?|?%not_elem_of_nil]. }
  case_bool_decide as Hx.
  - destruct (IH seen out Hs Hn) as (? & Hin & ?). split_and!; [done | | done].
    intros e. rewrite Hin, elem_of_cons. apply Hs in Hx. split; [tauto|].
    intros [?|[->|?]]; tauto.
  - rewrite Hs in Hx. destruct (IH ({[x]} ∪ seen) (out ++ [x])) as (? & Hin & Hp).
    + intros e. rewrite elem_of_union, elem_of_app, list_elem_of_singleton, Hs, elem_of_singleton. tauto.
    + apply NoDup_app. split_and!; [done | | apply NoDup_singleton].
      intros e He ->%list_elem_of_singleton. done.
    + split_and!; [done | |].
      * intros e. rewrite Hin, elem_of_app, list_elem_of_singleton, elem_of_cons. tauto.
      * etrans; [|done]. by apply prefix_app_r.
Qed.

Lemma validateEvents_None events :
  validateEvents events = None ↔ events ≠ [] ∧ ∀ e, e ∈ events → EventType_Valid e = true.
Proof.
  assert (Hloop : ∀ l, unknown_event l = None ↔ ∀ e, e ∈ l → EventType_Valid e = true).
  { induction l as [|x l IH]; simpl.
    - split; [intros _ e He; by apply not_elem_of_nil in He | done].
    - setoid_rewrite elem_of_cons. destruct (EventType_Valid x) eqn:Ex; simpl.
      + rewrite IH. split; [intros Hl e [->|?]; auto | auto].
      + split; [done|]. intros Hl. specialize (Hl x). rewrite Hl in Ex; [done | by left]. }
  unfold validateEvents. destruct events as [|x l]; [split; [done | by intros [? _]]|].
  rewrite Hloop. split; [done | by intros [_ ?]].
Qed.

Section properties.
Context `{O : Oracle}.

Lemma validateWebhookURL_validateURL raw : validateWebhookURL raw = validateURL raw.
Proof. done. Qed.

(** What a registration stores was validated. *)
Lemma Create_keeps_sound t inp : preserves webhooks_sound (WebhookService.Create t inp).
Proof.
  unfold WebhookService.Create. destruct (validateWebhookURL _) eqn:Hu; [by apply (preserves_fail webhooks_sound)|].
  rewrite validateWebhookURL_validateURL in Hu. apply validateURL_spec in Hu as [_ Hu].
  unfold GenerateWebhookSecret. preserve.
Qed.

(** A registered webhook is the tenant's, active, with a clear counter, an http(s)
    URL with a host, the known event types asked for without repetition, and a fresh
    secret: the prefix and 24 random bytes in base64, the same in the answer and in
    the row.  Only this row is new. *)
Theorem WebhookCreate_correct t inp w h w' :
  WebhookService.Create t inp w = (Ok h, w') →
  w_db w' = DB.with_webhooks <[Webhook.ID h := h]> (w_db w)
  ∧ DB.webhooks (w_db w) !! Webhook.ID h = None
  ∧ Webhook.TenantID h = t ∧ Webhook.URL h = CreateWebhookInput.URL inp ∧ valid_url (Webhook.URL h)
  ∧ Webhook.Active h = true ∧ Webhook.FailureCount h = 0
  ∧ NoDup (Webhook.Events h) ∧ Webhook.Events h ≠ []
  ∧ (∀ e, e ∈ Webhook.Events h ↔ e ∈ CreateWebhookInput.Events inp)
  ∧ (∀ e, e ∈ Webhook.Events h → e = EventLinkCreated ∨ e = EventLinkClicked)
  ∧ Webhook.Secret h = WebhookSecretPrefix +:+ base64_encode (o_rand (w_step w) 24)
  ∧ String.length (Webhook.Secret h) = 38%nat.
Proof.
  unfold WebhookService.Create. intros E.
  apply bind_Ok in E as (u & w1 & [Hurl ->]%check_Ok & E).
  apply bind_Ok in E as (u1 & w2 & [Hev ->]%check_Ok & E).
  apply bind_Ok in E as (secret & w3 & Hsec & E).
  unfold GenerateWebhookSecret in Hsec. apply bind_Ok in Hsec as (r & w4 & Hr & Hsec).
  destruct r as [buf|]; [|done]. apply attempt_Ok, rand_Read_Ok in Hr as [-> ->]. inv_ok Hsec.
  apply bind_Ok in E as (h' & w5 & Hc & E). inv_ok E.
  unfold WebhookRepository.Create in Hc. apply bind_Ok in Hc as (r & w6 & Hr & Hc).
  destruct r as [h''|]; [|done]. inv_ok Hc. apply attempt_Ok, backend_Ok in Hr.
  unfold insert_webhook in Hr. inv_ok Hr. destruct (negb _); [done|]. case_bool_decide as Hnew; [done|].
  case_bool_decide as Hten; [done|]. inv_ok Hr.
  rewrite <- eq_None_not_Some in Hnew. simpl in Hnew.
  rewrite validateWebhookURL_validateURL in Hurl. apply validateURL_spec in Hurl as [_ Hurl].
  apply validateEvents_None in Hev as [Hne Hval].
  destruct (dedupe_spec ∅ [] (CreateWebhookInput.Events inp)) as (Hnd & Hin & _); [set_solver|constructor|].
  assert (Hin' : ∀ e, e ∈ dedupeEvents (CreateWebhookInput.Events inp) ↔ e ∈ CreateWebhookInput.Events inp).
  { intros e. unfold dedupeEvents. rewrite Hin. split; [intros [?%not_elem_of_nil|?]; done | by right]. }
  split_and!; try done.
  - intros Hnil. destruct (CreateWebhookInput.Events inp) as [|e l]; [done|].
    assert (He : e ∈ dedupeEvents (e :: l)) by (apply Hin'; by left).
    rewrite Hnil in He. by apply not_elem_of_nil in He.
  - intros e He%Hin'%Hval. unfold EventType_Valid in He. apply orb_true_iff in He as [He|He];
      apply String.eqb_eq in He; auto.
  - rewrite length_str_app, length_base64_24; [done | apply o_rand_length].
Qed.
End properties.
