(* ===== verification/Stats.v ===== *)
(** StatsService: the analytics rollups (internal/service/stats.go). *)
From stdpp Require Import prelude gmap strings list sorting.
From S2P Require Import Prelude GoStd Domain World Schema LinkRepo ClickRepo Shortcode LinkService.

Local Open Scope Z_scope.

Definition topN : nat := 10.

Module StatsService.
Section service.
Context `{O : Oracle} `{Collation}.

Definition LinkStats (tenantID linkID : UUID) (from to : Time) (bucket : Bucket) : M LinkStats.t :=
  if negb (Bucket_Valid bucket) then fail (ESentinel ErrValidation)
  else if negb (from <? to) then fail (ESentinel ErrValidation)
  else
    LinkRepository.GetByIDForTenant tenantID linkID;;
    series ← ClickRepository.SeriesForLink tenantID linkID from to bucket;
    total ← ClickRepository.TotalForLink tenantID linkID from to;
    referrers ← ClickRepository.TopReferrers tenantID linkID from to topN;
    countries ← ClickRepository.TopCountries tenantID linkID from to topN;
    devices ← ClickRepository.DeviceBreakdown tenantID linkID from to topN;
    mret {| LinkStats.LinkID := linkID;
            LinkStats.From := from;
            LinkStats.To := to;
            LinkStats.bucket := bucket;
            LinkStats.TotalClicks := total;
            LinkStats.Series := series;
            LinkStats.TopReferrers := referrers;
            LinkStats.TopCountries := countries;
            LinkStats.Devices := devices |}.

Definition Overview (tenantID : UUID) : M TenantOverview.t :=
  ClickRepository.TenantOverview tenantID topN.
End service.
End StatsService.

(** * GROUP BY *)

(** The number of occurrences of [k]. *)
Definition occurrences {K} `{EqDecision K} (k : K) (keys : list K) : Z :=
  Z.of_nat (length (filter (λ x, x = k) keys)).

(** The sum of a column. *)
Definition sum (l : list Z) : Z := foldr Z.add 0 l.

Lemma sum_permutation l l' : l ≡ₚ l' → sum l = sum l'.
Proof. induction 1; simpl; lia. Qed.

Section group.
Context {K} `{Countable K}.

Local Abbreviation counts keys :=
  (foldr (λ k m, <[k := default 0 (m !! k) + 1]> m) (∅ : gmap K Z) keys).

Lemma occurrences_cons (x k : K) keys :
  occurrences k (x :: keys) = (if decide (x = k) then 1 else 0) + occurrences k keys.
Proof. unfold occurrences. rewrite filter_cons. case_decide; simpl; lia. Qed.

Lemma counts_default (keys : list K) k : default 0 (counts keys !! k) = occurrences k keys.
Proof.
  induction keys as [|x keys IH]; simpl; [by rewrite lookup_empty|].
  rewrite occurrences_cons. destruct (decide (x = k)) as [->|Hne].
  - rewrite lookup_insert_eq. simpl. lia.
  - rewrite lookup_insert_ne by done. lia.
Qed.

Lemma counts_is_Some (keys : list K) k : is_Some (counts keys !! k) ↔ k ∈ keys.
Proof.
  induction keys as [|x keys IH]; simpl.
  - rewrite lookup_empty. split; [by intros [] | by intros ?%not_elem_of_nil].
  - rewrite lookup_insert_is_Some, IH, elem_of_cons.
    destruct (decide (x = k)); naive_solver.
Qed.

(** A group per key, with its number of occurrences. *)
Lemma elem_of_group_count (keys : list K) (k : K) n :
  (k, n) ∈ group_count keys ↔ k ∈ keys ∧ n = occurrences k keys.
Proof.
  unfold group_count. rewrite elem_of_map_to_list, <- counts_is_Some, <- counts_default. split.
  - intros ->. split; [by eexists | done].
  - intros [[m Hm] ->]. by rewrite Hm.
Qed.

Lemma NoDup_group_count (keys : list K) : NoDup (group_count keys).*1.
Proof. apply NoDup_fst_map_to_list. Qed.

Definition msum (m : gmap K Z) : Z := sum (map_to_list m).*2.

Lemma msum_insert m k v : msum (<[k := v]> m) = v - default 0 (m !! k) + msum m.
Proof.
  assert (Hnew : ∀ (m : gmap K Z) v, m !! k = None → msum (<[k := v]> m) = v + msum m).
  { intros m' v' Hm. unfold msum.
    by rewrite (sum_permutation _ _ (fmap_Permutation snd _ _ (map_to_list_insert m' k v' Hm))). }
  destruct (m !! k) as [x|] eqn:Hm; simpl.
  - rewrite <- (insert_delete_id m k x Hm) at 2. rewrite <- insert_delete_eq.
    rewrite !Hnew by apply lookup_delete_eq. lia.
  - rewrite Hnew by done. lia.
Qed.

(** The groups partition the rows. *)
Lemma sum_group_count (keys : list K) : sum (group_count keys).*2 = Z.of_nat (length keys).
Proof.
  change (msum (counts keys) = Z.of_nat (length keys)).
  induction keys as [|x keys IH]; simpl; [done|]. rewrite msum_insert, IH. lia.
Qed.
End group.

(** * LinkStats *)

Section stats.
Context `{O : Oracle} `{Collation}.
Import StatsService.

(** A query on the clicks that returned. *)
Lemma select_Ok {A} what (q : DB.t → A) w a w' :
  ClickRepository.select what q w = (Ok a, w') → a = q (w_db w) ∧ w_db w' = w_db w.
Proof.
  unfold ClickRepository.select. intros E. apply bind_Ok in E as (r & w1 & Hr & E).
  destruct r as [a'|]; [|done]. inv_ok E. apply attempt_Ok, backend_Ok in Hr.
  unfold gets in Hr. by simplify_eq/=.
Qed.

(** A breakdown: the labels of the window's clicks with their counts, the most
    frequent first, at most ten, and no label left out is more frequent than one
    shown. *)
Definition breakdown (label : Click.t → string) (clicks : list Click.t) (rows : list LabelCount.t) : Prop :=
  ∃ rest,
    StronglySorted busier (rows ++ rest)
    ∧ (length rows ≤ topN)%nat ∧ (rest ≠ [] → length rows = topN)
    ∧ NoDup (LabelCount.Label <$> rows ++ rest)
    ∧ ∀ r, r ∈ rows ++ rest ↔ (∃ c, c ∈ clicks ∧ label c = LabelCount.Label r)
                              ∧ LabelCount.Count r = occurrences (LabelCount.Label r) (label <$> clicks).

Lemma label_rows_breakdown label clicks :
  breakdown label clicks (take topN (ClickRepository.label_rows (label <$> clicks))).
Proof.
  set (all := ClickRepository.label_rows (label <$> clicks)).
  assert (Hperm : all ≡ₚ (λ p, LabelCount.Mk p.1 p.2) <$> group_count (label <$> clicks)).
  { apply merge_sort_Permutation. }
  exists (drop topN all). rewrite take_drop. split_and!.
  - apply StronglySorted_merge_sort; apply _.
  - rewrite length_take. lia.
  - intros Hne. rewrite length_take. destruct (Nat.le_gt_cases (length all) topN) as [Hle|]; [|lia].
    by rewrite drop_ge in Hne.
  - rewrite Hperm, <- list_fmap_compose. apply (NoDup_group_count (label <$> clicks)).
  - intros [l n]. rewrite Hperm, list_elem_of_fmap. split.
    + intros ([k m] & [= -> ->] & [Hk ->]%elem_of_group_count). split; [|done].
      apply list_elem_of_fmap in Hk as (c & -> & Hc). by exists c.
    + simpl. intros [(c & Hc & <-) ->]. eexists (_, _). split; [done|].
      apply elem_of_group_count. split; [|done]. apply list_elem_of_fmap. eauto.
Qed.

(** A series: the buckets of the clicks in time order, each with its number of clicks. *)
Definition series_of (b : Bucket) (clicks : list Click.t) (pts : list TimePoint.t) : Prop :=
  sum (TimePoint.Count <$> pts) = Z.of_nat (length clicks)
  ∧ StronglySorted earlier pts
  ∧ NoDup (TimePoint.time <$> pts)
  ∧ ∀ p, p ∈ pts →
      TimePoint.Count p = occurrences (TimePoint.time p) ((λ c, date_trunc b (Click.OccurredAt c)) <$> clicks)
      ∧ 0 < TimePoint.Count p.

Lemma series_counts b clicks :
  series_of b clicks (merge_sort earlier ((λ p, TimePoint.Mk p.1 p.2) <$>
    group_count ((λ c, date_trunc b (Click.OccurredAt c)) <$> clicks))).
Proof.
  set (pts := merge_sort _ _).
  assert (Hperm : pts ≡ₚ (λ p, TimePoint.Mk p.1 p.2) <$>
    group_count ((λ c, date_trunc b (Click.OccurredAt c)) <$> clicks)) by apply merge_sort_Permutation.
  split_and!.
  - rewrite (sum_permutation _ _ (fmap_Permutation _ _ _ Hperm)), <- list_fmap_compose.
    etrans; [apply (sum_group_count ((λ c, date_trunc b (Click.OccurredAt c)) <$> clicks))|].
    by rewrite length_fmap.
  - apply StronglySorted_merge_sort; apply _.
  - rewrite Hperm, <- list_fmap_compose.
    apply (NoDup_group_count ((λ c, date_trunc b (Click.OccurredAt c)) <$> clicks)).
  - intros p. rewrite Hperm, list_elem_of_fmap.
    intros ([k n] & -> & [Hk ->]%elem_of_group_count). simpl. split; [done|].
    unfold occurrences. apply list_elem_of_split in Hk as (l1 & l2 & ->).
    rewrite filter_app, filter_cons_True, length_app by done. simpl. lia.
Qed.

(** C34: The rollup of a link adds up.  LinkStats answers only for a live link of the
    tenant and a valid bucket and window; its total is the number of the link's clicks
    in [from, to), both instants at the database's precision, the series splits that total by bucket, in time order, without
    repeated or empty buckets, and the breakdowns count labels of the same clicks,
    the ten most frequent first. *)
Theorem LinkStats_correct t id from to b w st w' :
  schema w → StatsService.LinkStats t id from to b w = (Ok st, w') →
  let clicks := window t id (o_timestamptz from) (o_timestamptz to) (w_clicks w) in
  (b = BucketHour ∨ b = BucketDay) ∧ from < to
  ∧ (∃ l, w_links w !! id = Some l ∧ Link.TenantID l = t ∧ Link.live l = true)
  ∧ LinkStats.TotalClicks st = Z.of_nat (length clicks)
  ∧ sum (TimePoint.Count <$> LinkStats.Series st) = LinkStats.TotalClicks st
  ∧ StronglySorted earlier (LinkStats.Series st)
  ∧ NoDup (TimePoint.time <$> LinkStats.Series st)
  ∧ (∀ p, p ∈ LinkStats.Series st →
       TimePoint.Count p = occurrences (TimePoint.time p) ((λ c, date_trunc b (Click.OccurredAt c)) <$> clicks)
       ∧ 0 < TimePoint.Count p)
  ∧ breakdown (λ c, coalesce "(direct)" (Click.Referrer c)) clicks (LinkStats.TopReferrers st)
  ∧ breakdown (λ c, coalesce "(unknown)" (Click.Country c)) clicks (LinkStats.TopCountries st)
  ∧ breakdown (λ c, coalesce "unknown" (Click.Device c)) clicks (LinkStats.Devices st)
  ∧ w_db w' = w_db w.
Proof.
  intros Hs. unfold StatsService.LinkStats. destruct (Bucket_Valid b) eqn:Hb; [|done]. simpl.
  destruct (Z.ltb_spec from to) as [Hw|]; [|done]. simpl. intros E.
  apply bind_Ok in E as (l & w1 & (Hl & Ht & Hv & ->)%GetByIDForTenant_Ok & E); [|done].
  apply bind_Ok in E as (series & w2 & [Hser Hd2]%select_Ok & E).
  apply bind_Ok in E as (total & w3 & [-> Hd3]%select_Ok & E).
  apply bind_Ok in E as (refs & w4 & [-> Hd4]%select_Ok & E).
  apply bind_Ok in E as (ctry & w5 & [-> Hd5]%select_Ok & E).
  apply bind_Ok in E as (devs & w6 & [-> Hd6]%select_Ok & E).
  unfold mret, M_ret in E. injection E as <- <-.
  rewrite Hd6, Hd5, Hd4, Hd3, Hd2. simpl in *. set (clicks := window t id (o_timestamptz from) (o_timestamptz to) (w_clicks w)).
  assert (Hsc : series_of b clicks series) by (rewrite Hser; apply series_counts).
  destruct Hsc as (Hsum & Hsort & Hnd & Hpts).
  split_and!; try apply label_rows_breakdown; try done.
  - unfold Bucket_Valid in Hb. apply orb_true_iff in Hb as [Hb|Hb]; apply String.eqb_eq in Hb; auto.
  - by exists l.
Qed.

(** ** The clicks of a tenant, and of a link of a tenant in an interval *)

Definition tenant_clicks (t : UUID) (d : DB.t) : list Click.t :=
  filter (λ c, Click.TenantID c = t) (DB.clicks d).

Definition link_clicks (t id : UUID) (from to : Time) (d : DB.t) : list Click.t :=
  filter (λ c, Click.TenantID c = t ∧ Click.LinkID c = id ∧ from <= Click.OccurredAt c ∧ Click.OccurredAt c < to)
    (DB.clicks d).

Definition tenant_links (t : UUID) (d : DB.t) : list Link.t :=
  filter (λ l, Link.TenantID l = t ∧ Link.live l = true) (map_to_list (DB.links d)).*2.

(** The code of the link that was clicked. *)
Definition clicked_code (d : DB.t) (c : Click.t) : string := default "" (Link.Code <$> DB.links d !! Click.LinkID c).

Lemma window_link_clicks t id from to d : window t id from to (DB.clicks d) = link_clicks t id from to d.
Proof.
  apply list_filter_iff. intros c. unfold in_window.
  rewrite !andb_true_iff, !bool_decide_eq_true, Z.leb_le, Z.ltb_lt. tauto.
Qed.

Lemma select_tenant_links t d : select_rows (of_tenant t) (DB.links d) = tenant_links t d.
Proof. apply list_filter_iff. intros l. apply of_tenant_true. Qed.

Lemma joined_tenant_clicks t d :
  schema_ok d → ClickRepository.joined_codes t d = clicked_code d <$> tenant_clicks t d.
Proof.
  intros Hs. unfold ClickRepository.joined_codes, tenant_clicks.
  assert (Hin : ∀ c, c ∈ filter (λ c, Click.TenantID c = t) (DB.clicks d) → is_Some (DB.links d !! Click.LinkID c)).
  { intros c [_ Hc]%list_elem_of_filter. by apply (ok_click _ Hs). }
  induction (filter _ (DB.clicks d)) as [|c cs IH]; [done|]. csimpl. unfold clicked_code at 1.
  destruct (Hin c ltac:(by left)) as [l ->]. simpl. f_equal. apply IH. intros c' Hc'. apply Hin. by right.
Qed.
End stats.
