(* ===== verification/Janitor.v ===== *)
(** LinkJanitor: the sweeps that bound the demo tenant (internal/service/janitor.go). *)
From stdpp Require Import prelude gmap strings list.
From S2P Require Import Prelude GoStd Domain World Schema LinkRepo LinkCache Shortcode LinkService.
From S2P Require Import Concrete Counters Redirect Coherence.

Local Open Scope Z_scope.

Module LinkJanitor.
Record t := Mk { tenantID : UUID; interval : Duration; retention : Duration }.

Section janitor.
Context `{O : Oracle} (j : t).

(** An error is logged and dropped. *)
Definition sweep : M () :=
  t ← now;
  let cutoff := t + - retention j in
  attempt (LinkRepository.PurgeExpired (tenantID j) cutoff);; mret ().

(** [Run]: a sweep, then one per tick, [ticks] of them until the context ends. *)
Fixpoint Run (ticks : nat) : M () :=
  sweep;;
  match ticks with
  | 0%nat => mret ()
  | S ticks => Run ticks
  end.
End janitor.
End LinkJanitor.

(** * Properties *)

Section properties.
Context `{O : Oracle} (j : LinkJanitor.t).
Import LinkJanitor.

(** What a purge with cutoff [c] makes of the tables. *)
Definition purged (c : Time) (d : DB.t) : DB.t :=
  let dead := filter (λ p, purgeable (tenantID j) c p.2 = true) (DB.links d) in
  DB.with_clicks (filter (λ c, dead !! Click.LinkID c = None)) (DB.with_links (λ links, links ∖ dead) d).

Lemma PurgeExpired_world c w :
  (LinkRepository.PurgeExpired (tenantID j) c w).2 = set_step (S (w_step w)) w
  ∨ (LinkRepository.PurgeExpired (tenantID j) c w).2
    = upd_db (purged (o_timestamptz c)) (set_step (S (w_step w)) w).
Proof.
  unfold LinkRepository.PurgeExpired. rewrite handled_world by (by intros []).
  match goal with |- (backend ?b w).2 = _ ∨ _ => destruct (backend_world b w) as [->| ->] end;
    [by left | by right].
Qed.

Lemma sweep_world w :
  (sweep j w).1 = Ok ()
  ∧ (w_db (sweep j w).2 = w_db w
     ∨ w_db (sweep j w).2 = purged (o_timestamptz (o_now (w_step w) + - retention j)) (w_db w)).
Proof.
  unfold sweep. rewrite (bind_run _ _ _ _ _ (eq_refl : now w = (Ok (o_now (w_step w)), set_step (S (w_step w)) w))).
  cbv zeta. rewrite attempt_then.
  - split; [done|].
    destruct (PurgeExpired_world (o_now (w_step w) + - retention j) (set_step (S (w_step w)) w)) as [->| ->];
      auto.
  - unfold LinkRepository.PurgeExpired, purge_links. no_panic.
Qed.

(** The link expired, or was deleted, before [t]. *)
Definition dead_before (t : Time) (l : Link.t) : Prop :=
  (∃ e, Link.ExpiresAt l = Some e ∧ e < t) ∨ (∃ d, Link.DeletedAt l = Some d ∧ d < t).

Lemma purgeable_dead c l :
  purgeable (tenantID j) c l = true ↔ Link.TenantID l = tenantID j ∧ dead_before c l.
Proof.
  unfold purgeable, dead_before, null_lt. rewrite andb_true_iff, orb_true_iff, bool_decide_eq_true.
  destruct (Link.ExpiresAt l) as [e|], (Link.DeletedAt l) as [d|]; rewrite ?Z.ltb_lt; naive_solver.
Qed.

Lemma dead_before_mono t t' l : t <= t' → dead_before t l → dead_before t' l.
Proof. intros Ht [(e & ? & ?)|(d & ? & ?)]; [left; exists e|right; exists d]; (split; [done|lia]). Qed.

Lemma dead_inactive t l : dead_before t l → Link.IsActive l t = false.
Proof.
  unfold Link.IsActive, Link.live, Link.IsExpired. intros [(e & -> & He)|(d & -> & _)]; [|done].
  rewrite (proj2 (Z.ltb_ge _ _)) by lia. by rewrite andb_false_r.
Qed.


(** The sweeps keep the schema, however many. *)
Lemma Run_schema ticks : preserves schema (Run j ticks).
Proof.
  assert (Hsw : preserves schema (sweep j)).
  { unfold sweep. preserve. }
  induction ticks as [|n IH]; cbn [Run]; preserve.
Qed.
End properties.

(** * A purge does not touch the cache *)

Section stale_purge.
#[local] Existing Instance calm.

(** A demo link that expires at 10 s, resolved and so cached, then swept after its
    expiry, then created anew under the same alias without an expiry. *)
Definition brief : CreateLinkInput.t :=
  CreateLinkInput.Mk "https://old.example" "promo" 302 (Some (10 * Second)) None.

Definition tick_to (n : nat) (w : World) : World := set_step n w.

Definition recreated : World :=
  let w1 := (LinkService.Create svc tenant1 brief world0).2 in
  let w2 := (RedirectService.Resolve resolver "promo" w1).2 in
  let w3 := (LinkJanitor.sweep (LinkJanitor.Mk tenant1 Hour 0) (tick_to 20 w2)).2 in
  (LinkService.Create svc tenant1 promo w3).2.

(** A purged link can shadow its successor: the sweep leaves the cached entry of
    the expired link, and a new live link under the same alias answers ErrGone. *)
Theorem purge_shadows_successor :
  Link.ExpiresAt <$> select_row (by_code "promo") (w_links recreated) = Some None
  ∧ (RedirectService.Resolve resolver "promo" recreated).1 = Err (ESentinel ErrGone).
Proof. split; vm_compute; reflexivity. Qed.
End stale_purge.
