(* ===== verification/RateLimit.v ===== *)
(** The sliding-window rate limiter (internal/repository/ratelimit.go).

    The Lua script is a function on the sorted set of one key; [Allow] runs it as one
    Redis command.  Its specification is a count over the requests allowed so far,
    which neither the trimming of old entries nor the expiry of the key may change. *)
From stdpp Require Import prelude gmap strings list sorting.
From S2P Require Import Prelude GoStd Domain World Schema LinkRepo Shortcode.

Local Open Scope Z_scope.

(** * Sorted sets *)

Abbreviation zset := (list (Z * string)) (only parsing).

(** Members are ordered by score, then bytewise. *)
Definition zbefore (x y : Z * string) : bool :=
  (x.1 <? y.1) || ((x.1 =? y.1) && String.ltb x.2 y.2).

Fixpoint zinsert (x : Z * string) (z : zset) : zset :=
  match z with
  | [] => [x]
  | y :: z' => if zbefore x y then x :: z else y :: zinsert x z'
  end.

(** ZADD key score member: a member already there moves to its new score. *)
Definition zadd (score : Z) (member : string) (z : zset) : zset :=
  zinsert (score, member) (filter (λ p, p.2 ≠ member) z).

(** ZREMRANGEBYSCORE key lo hi. *)
Definition zremrange (lo hi : Z) (z : zset) : zset := filter (λ p, ¬ (lo ≤ p.1 ∧ p.1 ≤ hi)) z.

(** * The script *)

(** A key of the limiter: its members and its expiry; [None] is no key. *)
Abbreviation bucket := (option (list (Z * string) * option Time)) (only parsing).

(** An empty sorted set is no key. *)
Definition keep_key (z : zset) (x : option Time) : bucket :=
  match z with [] => None | _ => Some (z, x) end.

(** [slidingWindowScript], run at the instant [server] of the Redis clock on the key
    [cur]: {allowed, remaining, retryAfterMillis} and the key afterwards.  PEXPIRE
    with a duration that is not positive deletes the key. *)
Definition slidingWindowScript (server : Time) (now window limit : Z) (member : string) (cur : bucket)
    : (Z * Z * Z) * bucket :=
  let '(z, x) :=
    match cur with
    | Some (z, x) => match Redis.visible server (z, x) with Some z => (z, x) | None => ([], None) end
    | None => ([], None)
    end in
  let z := zremrange 0 (now - window) z in
  let count := Z.of_nat (length z) in
  if count <? limit then
    let z := zadd now member z in
    ((1, limit - count - 1, 0),
     if 0 <? window then Some (z, Some (server + window * Millisecond)) else None)
  else
    let retry :=
      match z with
      | (oldest, _) :: _ => let r := (oldest + window) - now in if r <? 0 then 0 else r
      | [] => window
      end in
    ((0, 0, retry), keep_key z x).

Module RedisRateLimiter.
Section limiter.
Context `{O : Oracle}.

Definition uniqueMember : M string :=
  r ← attempt (rand_Read 8);
  match r with
  | inr err => fail (errorf "rate limit member" err)
  | inl buf => t ← now; mret (Itoa t +:+ "-" +:+ hex_encode buf)
  end.

(** The script as one command on the key. *)
Definition run_script (key : string) (now window limit : Z) (member : string) : M (Z * Z * Z) :=
  backend (λ n, r ← gets w_redis;
    let '(res, cur) := slidingWindowScript (o_now n) now window limit member (Redis.zsets r !! key) in
    modify (upd_redis (Redis.with_zsets (partial_alter (λ _, cur) key)));;
    mret res).

(** [(allowed, remaining, retryAfter, err)]. *)
Definition Allow (key : string) (limit : Z) (window : Duration) : M (bool * Z * Duration) :=
  member ← uniqueMember;
  t ← now;
  r ← attempt (run_script ("ratelimit:" +:+ key) (t / Millisecond) (Z.quot window Millisecond) limit member);
  match r with
  | inr err => fail (errorf "rate limit eval" err)
  | inl (a, remaining, retry) => mret (a =? 1, remaining, retry * Millisecond)
  end.
End limiter.
End RedisRateLimiter.

(** * The specification *)

(** [allowed] holds the instants of the requests allowed so far, the latest first: how
    many are in the window that ends at [t]. *)
Definition recent (window t : Z) (allowed : list Z) : list Z := filter (λ a, t - window < a) allowed.

(** The answer to a request at [t]. *)
Definition decision (limit window t : Z) (allowed : list Z) : Z * Z * Z :=
  let c := Z.of_nat (length (recent window t allowed)) in
  if c <? limit then (1, limit - c - 1, 0)
  else (0, 0, match last (recent window t allowed) with Some oldest => oldest + window - t | None => window end).

(** Requests one after another, each at an instant and with its member; the client
    reads the clock the server runs the script by. *)
Fixpoint serve (limit window : Z) (cur : bucket) (reqs : list (Time * string)) : list (Z * Z * Z) :=
  match reqs with
  | [] => []
  | (s, member) :: reqs =>
      let '(res, cur) := slidingWindowScript s (s / Millisecond) window limit member cur in
      res :: serve limit window cur reqs
  end.

(** A request as it reaches Redis: the instant of the Redis clock its script runs at,
    the reading of the clock it carries, in milliseconds, and its member.  Requests run
    at once may read the clock in one order and run their scripts in another. *)
Module Sent.
Record t := Mk { at_ : Time; clock : Z; member : string }.
End Sent.

Fixpoint serve_sent (limit window : Z) (cur : bucket) (reqs : list Sent.t) : list (Z * Z * Z) :=
  match reqs with
  | [] => []
  | r :: reqs =>
      let '(res, cur) := slidingWindowScript (Sent.at_ r) (Sent.clock r) window limit (Sent.member r) cur in
      res :: serve_sent limit window cur reqs
  end.

(** The requests answered "allowed", in order. *)
Definition granted (reqs : list Sent.t) (answers : list (Z * Z * Z)) : list Sent.t :=
  omap (λ p, if p.2.1.1 =? 1 then Some p.1 else None) (zip reqs answers).

Fixpoint decide_all (limit window : Z) (allowed : list Z) (reqs : list (Time * string)) : list (Z * Z * Z) :=
  match reqs with
  | [] => []
  | (s, _) :: reqs =>
      let t := s / Millisecond in
      decision limit window t allowed
      :: decide_all limit window (if (Z.of_nat (length (recent window t allowed))) <? limit then t :: allowed else allowed) reqs
  end.

(** * Sorted sets, sorted *)

Definition by_score (x y : Z * string) : Prop := x.1 ≤ y.1.

(** A new member with the greatest score goes to the end, in the order of scores. *)
Lemma zinsert_scores x z :
  (∀ y, y ∈ z → y.1 ≤ x.1) → StronglySorted by_score z →
  (zinsert x z).*1 = z.*1 ++ [x.1] ∧ StronglySorted by_score (zinsert x z)
  ∧ (zinsert x z) ≡ₚ x :: z.
Proof.
  induction z as [|y z IH]; simpl; intros Hle Hs; [by repeat constructor|].
  apply StronglySorted_inv in Hs as [Hs Hy].
  assert (Hyx : y.1 ≤ x.1) by (apply Hle; by left).
  destruct (zbefore x y) eqn:Hb.
  - (* only a tie *)
    assert (Heq : x.1 = y.1).
    { unfold zbefore in Hb. apply orb_true_iff in Hb as [Hb|Hb]; [apply Z.ltb_lt in Hb; lia|].
      apply andb_true_iff in Hb as [Hb _]. by apply Z.eqb_eq in Hb. }
    assert (Hall : ∀ p, p ∈ y :: z → p.1 = x.1).
    { intros p Hp. apply Z.le_antisymm; [by apply Hle|]. apply elem_of_cons in Hp as [->|Hp]; [lia|].
      rewrite Forall_forall in Hy. specialize (Hy p Hp). unfold by_score in Hy. lia. }
    split_and!; [ | | done].
    + simpl. rewrite Heq. f_equal. clear -Hall Heq.
      assert (Hz : ∀ p, p ∈ z → p.1 = x.1) by (intros; apply Hall; by right).
      rewrite <- Heq. clear Hall Heq.
      induction z as [|q z IHz]; [done|]. simpl. rewrite (Hz q) by left.
      f_equal. rewrite <- (Hz q) at 1 by left.
      rewrite (Hz q) by left. apply IHz. intros; apply Hz; by right.
    + constructor; [by constructor|]. apply Forall_forall. intros p Hp. unfold by_score.
      rewrite (Hall p Hp). done.
  - destruct IH as (Hf & Hst & Hp); [intros; apply Hle; by right | done |].
    split_and!; csimpl.
    + by rewrite Hf.
    + constructor; [done|]. apply Forall_forall. intros p Hin. rewrite Hp in Hin.
      apply elem_of_cons in Hin as [->|Hin]; [done|]. rewrite Forall_forall in Hy. by apply Hy.
    + by rewrite Hp, Permutation_swap.
Qed.

(** * The script against the specification *)

Section refinement.
Context (limit window : Z) (Hwin : 0 < window).

(** The key [cur] after the requests allowed at [allowed], by members among
    [members], the last run at [last]: the entries not yet trimmed, and an expiry no
    entry in the window can be lost by. *)
Definition tracks (allowed : list Z) (members : list string) (cur : bucket) (last : Z) : Prop :=
  (∀ a, a ∈ allowed → 0 <= a <= last)
  ∧ ∃ c, c <= last - window
    ∧ match cur with
      | None => filter (λ a, c < a) allowed = []
      | Some (z, x) =>
          z.*1 = reverse (filter (λ a, c < a) allowed)
          ∧ StronglySorted by_score z
          ∧ (∀ p, p ∈ z → p.2 ∈ members)
          ∧ ∃ X, x = Some X ∧ ∀ a, a ∈ allowed → (a + window) * Millisecond <= X
      end.

(** The entries a run finds, once trimmed. *)
Definition trimmed (server : Time) (t : Z) (cur : bucket) : zset :=
  zremrange 0 (t - window)
    (match cur with Some (z, x) => default [] (Redis.visible server (z, x)) | None => [] end).

Lemma zremrange_scores lo hi z : (zremrange lo hi z).*1 = filter (λ a, ¬ (lo ≤ a ∧ a ≤ hi)) z.*1.
Proof.
  unfold zremrange. induction z as [|p z IH]; [done|].
  rewrite fmap_cons, !filter_cons. case_decide; csimpl; by rewrite IH.
Qed.

Lemma filter_filter_lt c t (l : list Z) :
  c <= t → (∀ a, a ∈ l → 0 <= a) →
  filter (λ a, ¬ (0 ≤ a ∧ a ≤ t)) (filter (λ a, c < a) l) = filter (λ a, t < a) l.
Proof.
  intros Hc. induction l as [|a l IH]; [done|]. intros Hpos.
  assert (0 <= a) by (apply Hpos; by left).
  rewrite !filter_cons. repeat case_decide; rewrite ?filter_cons; repeat case_decide; try lia;
    rewrite IH; auto; intros; apply Hpos; by right.
Qed.

Lemma filter_none (P : Z → Prop) `{!∀ x, Decision (P x)} l : (∀ x, x ∈ l → ¬ P x) → filter P l = [].
Proof.
  induction l as [|a l IH]; [done|]. intros Hn.
  rewrite filter_cons_False by (apply Hn; by left). apply IH. intros x Hx. apply Hn. by right.
Qed.

Lemma filter_reverse {A} (P : A → Prop) `{!∀ x, Decision (P x)} (l : list A) : filter P (reverse l) = reverse (filter P l).
Proof.
  induction l as [|a l IH]; [done|]. rewrite reverse_cons, filter_app, IH.
  destruct (decide (P a)).
  - by rewrite !filter_cons_True, filter_nil, reverse_cons.
  - by rewrite !filter_cons_False, filter_nil, app_nil_r.
Qed.

Lemma trimmed_tracks allowed members cur last s :
  tracks allowed members cur last → last <= s / Millisecond →
  let t := s / Millisecond in
  (trimmed s t cur).*1 = reverse (recent window t allowed)
  ∧ StronglySorted by_score (trimmed s t cur)
  ∧ ∀ p, p ∈ trimmed s t cur → p.2 ∈ members.
Proof.
  intros (Hpos & c & Hc & Hcur) Hlast. cbv zeta. set (t := s / Millisecond) in *.
  assert (Hgone : filter (λ a, c < a) allowed = [] → reverse (recent window t allowed) = []).
  { intros Hnil. unfold recent. rewrite <- (filter_filter_lt c); [by rewrite Hnil | lia |].
    intros a Ha. by apply Hpos. }
  unfold trimmed. destruct cur as [[z x]|].
  - destruct Hcur as (Hz & Hs & Hm & X & -> & HX). unfold Redis.visible. simpl.
    destruct (Z.ltb_spec s X) as [Hlt|Hge]; simpl.
    + rewrite zremrange_scores, Hz, filter_reverse, filter_filter_lt; [|lia|intros a Ha; by apply Hpos].
      split_and!; [done | |].
      * unfold zremrange. clear -Hs. induction Hs as [|p z Hs IH Hp]; [constructor|].
        rewrite filter_cons. case_decide; [|done]. constructor; [done|].
        rewrite Forall_forall in Hp |- *. intros q [_ Hq]%list_elem_of_filter. by apply Hp.
      * intros p [_ Hp]%list_elem_of_filter. by apply Hm.
    + split_and!; [|constructor|by intros p ?%not_elem_of_nil].
      symmetry. change (zremrange 0 (t - window) []).*1 with (@nil Z). unfold recent.
      rewrite filter_none; [done|]. intros a Hin%HX Ha.
      assert (a + window <= t); [|lia]. unfold t. apply Z.div_le_lower_bound; unfold Millisecond in *; lia.
  - split_and!; [|constructor|by intros p ?%not_elem_of_nil].
    symmetry. by apply Hgone.
Qed.

(** The script by cases: it adds the request, or leaves the trimmed set with the expiry
    the key had. *)
Lemma script_cases s t member cur :
  let z := trimmed s t cur in
  let count := Z.of_nat (length z) in
  ∃ x, slidingWindowScript s t window limit member cur
    = (if count <? limit then
         ((1, limit - count - 1, 0), Some (zadd t member z, Some (s + window * Millisecond)))
       else ((0, 0, match z with (oldest, _) :: _ => let r := (oldest + window) - t in if r <? 0 then 0 else r
                              | [] => window end), keep_key z x))
    ∧ (z ≠ [] → ∃ z0, cur = Some (z0, x)).
Proof.
  cbv zeta. unfold slidingWindowScript, trimmed. rewrite (proj2 (Z.ltb_lt 0 window)) by done.
  destruct cur as [[z x]|]; [destruct (Redis.visible s (z, x)) as [z'|] eqn:E; simpl|].
  - exists x. split; [by destruct x|]. eauto.
  - exists None. by split.
  - exists None. by split.
Qed.

(** The expiry that stays is one no allowed request outlives. *)
Lemma script_run allowed members cur last s member :
  tracks allowed members cur last →
  let t := s / Millisecond in
  let z := trimmed s t cur in
  let count := Z.of_nat (length z) in
  ∃ x, slidingWindowScript s t window limit member cur
    = (if count <? limit then
         ((1, limit - count - 1, 0), Some (zadd t member z, Some (s + window * Millisecond)))
       else ((0, 0, match z with (oldest, _) :: _ => let r := (oldest + window) - t in if r <? 0 then 0 else r
                              | [] => window end), keep_key z x))
    ∧ (z ≠ [] → ∃ X, x = Some X ∧ ∀ a, a ∈ allowed → (a + window) * Millisecond <= X).
Proof.
  intros (_ & c0 & _ & Hcur). cbv zeta.
  destruct (script_cases s (s / Millisecond) member cur) as (x & E & Hx). exists x. split; [exact E|].
  intros Hz. destruct (Hx Hz) as [z0 ->]. by destruct Hcur as (_ & _ & _ & Hcur).
Qed.

Lemma zadd_fresh t member (members : list string) z :
  (∀ p, p ∈ z → p.2 ∈ members) → member ∉ members → zadd t member z = zinsert (t, member) z.
Proof.
  intros Hmem Hfresh. unfold zadd. f_equal. induction z as [|p z IH]; [done|].
  rewrite filter_cons_True; [f_equal; apply IH; intros; apply Hmem; by right|].
  intros E. apply Hfresh. rewrite <- E. apply Hmem. by left.
Qed.

(** One run answers as specified and keeps track. *)
Lemma script_step allowed members cur last s member :
  tracks allowed members cur last → last <= s / Millisecond → 0 <= s → member ∉ members →
  let t := s / Millisecond in
  let c := Z.of_nat (length (recent window t allowed)) in
  let o := slidingWindowScript s t window limit member cur in
  o.1 = decision limit window t allowed
  ∧ tracks (if c <? limit then t :: allowed else allowed) (member :: members) o.2 t.
Proof.
  intros Htr Hlast Hs0 Hfresh.
  destruct (trimmed_tracks _ _ _ _ s Htr Hlast) as (Hz & Hsort & Hmem).
  destruct (script_run _ _ _ _ s member Htr) as (x & E & Hx). cbv zeta in *. rewrite E. clear E.
  set (t := s / Millisecond) in *. pose proof (proj1 Htr) as Hpos.
  assert (Ht0 : 0 <= t) by (apply Z.div_pos; unfold Millisecond; lia).
  set (z := trimmed s t cur) in *.
  assert (Hlen : length z = length (recent window t allowed)).
  { rewrite <- (length_fmap fst), Hz, length_reverse. done. }
  cbv zeta. rewrite Hlen. unfold decision.
  destruct (Z.ltb_spec (Z.of_nat (length (recent window t allowed))) limit) as [Hlt|Hge]; simpl.
  - split; [done|]. split.
    { intros a [->|Ha]%elem_of_cons; [lia|]. apply Hpos in Ha. lia. }
    exists (t - window). split; [lia|].
    assert (Hadd : zadd t member z = zinsert (t, member) z) by by eapply zadd_fresh.
    assert (Hle : ∀ y, y ∈ z → y.1 ≤ (t, member).1).
    { intros y Hy. assert (Hy1 : y.1 ∈ z.*1) by (apply list_elem_of_fmap; eauto).
      rewrite Hz, elem_of_reverse in Hy1. apply list_elem_of_filter in Hy1 as [_ Hy1].
      apply Hpos in Hy1. simpl. lia. }
    destruct (zinsert_scores (t, member) z Hle Hsort) as (Hf & Hss & Hp). rewrite Hadd. split_and!.
    + rewrite Hf, Hz. simpl. rewrite filter_cons_True by lia. by rewrite reverse_cons.
    + done.
    + intros p Hin. rewrite Hp in Hin. apply elem_of_cons in Hin as [->|Hin]; [by left|].
      right. by apply Hmem.
    + eexists. split; [done|]. intros a Ha.
      assert (Hat : a <= t) by (apply elem_of_cons in Ha as [->|Ha]; [lia | apply Hpos in Ha; lia]).
      assert (t * Millisecond <= s) by (unfold t; pose proof (Z.mul_div_le s Millisecond); unfold Millisecond in *; lia).
      unfold Millisecond in *. nia.
  - assert (Hlast' : head z.*1 = list.last (recent window t allowed)) by (by rewrite Hz, head_reverse).
    split.
    + destruct z as [|[o m] z']; simpl in Hlast'.
      * by rewrite <- Hlast'.
      * rewrite <- Hlast'. cbv zeta. rewrite (proj2 (Z.ltb_ge _ _)); [done|].
        assert (Ho : o ∈ recent window t allowed).
        { rewrite <- elem_of_reverse, <- Hz. by left. }
        apply list_elem_of_filter in Ho as [Ho _]. lia.
    + split.
      { intros a Ha. apply Hpos in Ha. lia. }
      exists (t - window). split; [lia|]. unfold keep_key. destruct z as [|p z'] eqn:Ez.
      * simpl in Hz. symmetry in Hz. apply (f_equal reverse) in Hz. by rewrite reverse_involutive in Hz.
      * destruct Hx as (X & -> & HX); [done|]. split_and!; [done | done | | eauto].
        intros q Hq. right. by apply Hmem.
Qed.
End refinement.

(** * Properties *)

Section limiter.
Context (limit window : Z) (Hwin : 0 < window).

(** The instants of the requests, in order and by the clock of both sides, with the
    members they carry. *)
Definition well_timed (last : Z) (reqs : list (Time * string)) : Prop :=
  StronglySorted Z.le (reqs.*1) ∧ (∀ s, s ∈ reqs.*1 → 0 <= s ∧ last <= s / Millisecond).

Lemma serve_decides allowed members cur last reqs :
  tracks window allowed members cur last → well_timed last reqs →
  NoDup reqs.*2 → (∀ m, m ∈ reqs.*2 → m ∉ members) →
  serve limit window cur reqs = decide_all limit window allowed reqs.
Proof.
  revert allowed members cur last. induction reqs as [|[s m] reqs IH]; intros allowed members cur last
    Htr [Hsort Hge] Hnd Hfresh; [done|]. csimpl in *.
  apply StronglySorted_inv in Hsort as [Hsort Hall]. apply NoDup_cons in Hnd as [Hm Hnd].
  destruct (Hge s) as [Hs0 Hls]; [by left|].
  destruct (script_step limit window Hwin _ _ _ _ s m Htr Hls Hs0) as [Hres Htr'].
  { apply Hfresh. by left. }
  destruct (slidingWindowScript s (s / Millisecond) window limit m cur) as [res cur'] eqn:E.
  simpl in Hres, Htr'. rewrite Hres. f_equal. eapply IH; [exact Htr' | | done |].
  - split; [done|]. intros s' Hs'. split; [apply Hge; by right|].
    rewrite Forall_forall in Hall. apply Z.div_le_mono; [done|]. by apply Hall.
  - intros m' Hm' [->|Hin]%elem_of_cons; [done|]. by eapply Hfresh; [right|].
Qed.

(** Every grant came when fewer than [limit] others were in its window. *)
Fixpoint spaced (allowed : list Z) : Prop :=
  match allowed with
  | [] => True
  | t :: allowed => Z.of_nat (length (recent window t allowed)) < limit ∧ spaced allowed
  end.

(** At most [limit] of them are in any window. *)
Lemma spaced_bound allowed t :
  0 <= limit → spaced allowed →
  Z.of_nat (length (filter (λ a, t - window < a ∧ a <= t) allowed)) <= limit.
Proof.
  intros Hl. induction allowed as [|a allowed IH]; simpl; [lia|]. intros [Hc Hsp].
  rewrite filter_cons. case_decide as Ha; [|by apply IH]. simpl.
  assert (Nat.le (length (filter (λ a, t - window < a ∧ a <= t) allowed))
            (length (recent window a allowed))); [|lia].
  unfold recent. clear -Ha. induction allowed as [|b allowed IH]; [done|].
  rewrite !filter_cons. repeat case_decide; simpl; lia.
Qed.

(** C19: The limiter refines its specification.  From an absent key, requests at
    non-decreasing instants with distinct members are each answered as the count of
    the requests allowed in the window that ends then demands: allowed when it is
    below the limit, with what remains after it; denied otherwise, with the time until
    the oldest of them leaves the window.  Trimming and the expiry of the key are never
    visible. *)
Theorem limiter_refines reqs :
  well_timed 0 reqs → NoDup reqs.*2 →
  serve limit window None reqs = decide_all limit window [] reqs.
Proof.
  intros Ht Hnd. apply (serve_decides [] [] None 0); [ | done | done | by intros ? _ ?%not_elem_of_nil].
  split; [by intros a ?%not_elem_of_nil|]. exists (- window). split; [lia | done].
Qed.

End limiter.

(** * The limiter under concurrency *)

Section delayed.
Context (limit window late ahead : Z) (Hwin : 0 < window).

(** The clock a request carries is at most [late] behind the clock of Redis when its
    script runs, and at most [ahead] before it: what it waited, and the difference of
    the two clocks. *)
Definition on_time (r : Sent.t) : Prop :=
  Sent.at_ r / Millisecond - late <= Sent.clock r <= Sent.at_ r / Millisecond + ahead.

(** The millisecond a script ran in. *)
Definition ran (r : Sent.t) : Z := Sent.at_ r / Millisecond.

Definition entry (r : Sent.t) : Z * string := (Sent.clock r, Sent.member r).

(** The length of the windows the limit holds in. *)
Abbreviation kept := (window - late - ahead).

(** A granted request is in the set, under an expiry that outlives it, or ran too long
    before [last]. *)
Definition remembered (cur : bucket) (last : Time) (g : Sent.t) : Prop :=
  ran g <= last / Millisecond - kept
  ∨ ∃ z X, cur = Some (z, Some X) ∧ entry g ∈ z ∧ Sent.at_ g + window * Millisecond <= X.

Record remembers (allowed : list Sent.t) (members : list string) (cur : bucket) (last : Time) : Prop := {
  rm_on_time : Forall on_time allowed;
  rm_before g : g ∈ allowed → Sent.at_ g <= last;
  rm_entries g : g ∈ allowed → remembered cur last g;
  rm_fresh z x q : cur = Some (z, x) → q ∈ z → q.2 ∈ members;
  rm_members g : g ∈ allowed → Sent.member g ∈ members;
  rm_nodup : NoDup (Sent.member <$> allowed);
  rm_expiry z : cur ≠ Some (z, None);
}.

(** The entries the script finds once it has trimmed. *)
Definition found (r : Sent.t) (cur : bucket) : zset := trimmed window (Sent.at_ r) (Sent.clock r) cur.

Lemma found_recent allowed members cur last r g :
  remembers allowed members cur last → on_time r → last <= Sent.at_ r →
  g ∈ allowed → ran r - kept < ran g → entry g ∈ found r cur.
Proof.
  intros Hr Hon Hl Hg Hrec. pose proof (proj1 (Forall_forall _ _) (rm_on_time _ _ _ _ Hr) _ Hg) as Hgon.
  assert (Hdiv : last / Millisecond <= ran r) by (by apply Z.div_le_mono).
  unfold on_time, ran in *.
  destruct (rm_entries _ _ _ _ Hr g Hg) as [Hold|(z & X & -> & Hz & HX)]; [unfold ran in *; lia|].
  unfold found, trimmed, Redis.visible. destruct (Z.lt_ge_cases (Sent.at_ r) X) as [Hlt|Hexp].
  - simpl. rewrite (proj2 (Z.ltb_lt _ _) Hlt). apply list_elem_of_filter. split; [simpl; lia|done].
  - assert (Sent.at_ g / Millisecond + window <= Sent.at_ r / Millisecond); [|lia].
    rewrite <- Z.div_add by done. apply Z.div_le_mono; [done|lia].
Qed.

Lemma entries_nodup (gs : list Sent.t) : NoDup (Sent.member <$> gs) → NoDup (entry <$> gs).
Proof.
  intros Hn. apply (NoDup_fmap_1 snd). rewrite <- list_fmap_compose.
  by rewrite (list_fmap_ext _ Sent.member) by done.
Qed.

(** The set counts every grant of the window. *)
Lemma found_counts allowed members cur last r :
  remembers allowed members cur last → on_time r → last <= Sent.at_ r →
  (length (recent kept (ran r) (ran <$> allowed)) ≤ length (found r cur))%nat.
Proof.
  intros Hr Hon Hl. unfold recent. rewrite filter_fmap, length_fmap, <- (length_fmap entry).
  apply submseteq_length, NoDup_submseteq.
  - apply entries_nodup. eapply sublist_NoDup; [apply (rm_nodup _ _ _ _ Hr)|apply fmap_sublist, sublist_filter].
  - intros q (g & -> & Hg)%list_elem_of_fmap. apply list_elem_of_filter in Hg as [Hrec Hg]. by eapply found_recent.
Qed.

Lemma elem_of_zinsert q x z : q ∈ zinsert x z ↔ q = x ∨ q ∈ z.
Proof.
  induction z as [|y z IH]; simpl; [by rewrite list_elem_of_singleton, elem_of_nil; tauto|].
  destruct (zbefore x y); rewrite !elem_of_cons, ?IH; tauto.
Qed.

(** A run keeps the account. *)
Lemma script_remembers allowed members cur last r :
  remembers allowed members cur last → on_time r → last <= Sent.at_ r → Sent.member r ∉ members →
  let o := slidingWindowScript (Sent.at_ r) (Sent.clock r) window limit (Sent.member r) cur in
  let ok := Z.of_nat (length (found r cur)) <? limit in
  (o.1.1.1 =? 1) = ok
  ∧ remembers (if ok then r :: allowed else allowed) (Sent.member r :: members) o.2 (Sent.at_ r).
Proof.
  intros Hr Hon Hl Hfresh. destruct (script_cases limit window Hwin (Sent.at_ r) (Sent.clock r) (Sent.member r) cur)
    as (x & E & Hx). cbv zeta in *. rewrite E. clear E. fold (found r cur) in *.
  assert (Hmem : ∀ q, q ∈ found r cur → q.2 ∈ members).
  { intros q [_ Hq]%list_elem_of_filter. destruct cur as [[z y]|]; simpl in Hq; [|by apply not_elem_of_nil in Hq].
    eapply (rm_fresh _ _ _ _ Hr z y q); [done|]. unfold Redis.visible in Hq. destruct y as [y|]; [|done].
    simpl in Hq. destruct (Sent.at_ r <? y); [done|by apply not_elem_of_nil in Hq]. }
  assert (Hrec : ∀ g, g ∈ allowed → ran g <= ran r - kept ∨ entry g ∈ found r cur).
  { intros g Hg. destruct (Z.le_gt_cases (ran g) (ran r - kept)) as [?|?]; [by left|right]. by eapply found_recent. }
  destruct (Z.ltb_spec (Z.of_nat (length (found r cur))) limit) as [Hlt|Hge]; (split; [done|]).
  - assert (Hnew : Sent.member r ∉ Sent.member <$> allowed).
    { intros (g & E & Hg)%list_elem_of_fmap. rewrite E in Hfresh. apply Hfresh. by apply (rm_members _ _ _ _ Hr). }
    cbn [snd]. rewrite (zadd_fresh _ _ members) by done. split.
    + constructor; [done|]. apply (rm_on_time _ _ _ _ Hr).
    + intros g [->|Hg]%elem_of_cons; [lia|]. pose proof (rm_before _ _ _ _ Hr g Hg). lia.
    + intros g Hg. assert (Hin : ran g <= ran r - kept ∨ entry g ∈ zinsert (entry r) (found r cur) ∧ Sent.at_ g <= Sent.at_ r).
      { apply elem_of_cons in Hg as [->|Hg]; [right; split; [apply elem_of_zinsert; by left|lia]|].
        destruct (Hrec g Hg) as [?|?]; [by left|right]. split; [apply elem_of_zinsert; by right|].
        pose proof (rm_before _ _ _ _ Hr g Hg). lia. }
      destruct Hin as [?|[? ?]]; [by left|right]. eexists _, _. split_and!; [done|done|lia].
    + intros z x0 q [= <- <-] [->|Hq]%elem_of_zinsert; [by left|right; by apply Hmem].
    + intros g [->|Hg]%elem_of_cons; [by left|right]. by apply (rm_members _ _ _ _ Hr).
    + rewrite fmap_cons. constructor; [done|]. apply (rm_nodup _ _ _ _ Hr).
    + done.
  - unfold keep_key. cbn [snd]. split.
    + apply (rm_on_time _ _ _ _ Hr).
    + intros g Hg. pose proof (rm_before _ _ _ _ Hr g Hg). lia.
    + intros g Hg. destruct (Hrec g Hg) as [?|Hz]; [by left|]. destruct (rm_entries _ _ _ _ Hr g Hg) as [Hold|(z & X & -> & _ & HX)].
      { left. assert (last / Millisecond <= ran r) by (by apply Z.div_le_mono). unfold ran in *. lia. }
      right. destruct (found r (Some (z, Some X))) as [|q z'] eqn:Ez; [by apply not_elem_of_nil in Hz|].
      destruct (Hx ltac:(done)) as [z0 [= <- <-]]. eexists _, _. split_and!; done.
    + intros z x0 q Hc Hq. right. apply Hmem. destruct (found r cur) as [|q' z']; [done|]. injection Hc as <- _. done.
    + intros g Hg. right. by apply (rm_members _ _ _ _ Hr).
    + apply (rm_nodup _ _ _ _ Hr).
    + intros z Hc. destruct (found r cur) as [|q z'] eqn:Ez; [done|]. injection Hc as _ ->.
      destruct (Hx ltac:(done)) as [z0 ->]. by apply (rm_expiry _ _ _ _ Hr z0).
Qed.

(** The grants after the requests, the latest first, are spaced. *)
Lemma serve_spaced allowed members cur last reqs :
  remembers allowed members cur last → spaced limit kept (ran <$> allowed) →
  Forall on_time reqs → StronglySorted Z.le (Sent.at_ <$> reqs) → (∀ r, r ∈ reqs → last <= Sent.at_ r) →
  NoDup (Sent.member <$> reqs) → (∀ r, r ∈ reqs → Sent.member r ∉ members) →
  spaced limit kept (ran <$> (reverse (granted reqs (serve_sent limit window cur reqs)) ++ allowed)).
Proof.
  revert allowed members cur last. induction reqs as [|r reqs IH];
    intros allowed members cur last Hr Hsp Hon Hsort Hl Hnd Hfresh; [done|].
  apply Forall_cons in Hon as [Hon1 Hon]. csimpl in Hsort. apply StronglySorted_inv in Hsort as [Hsort Hall].
  csimpl in Hnd. apply NoDup_cons in Hnd as [Hm Hnd].
  destruct (script_remembers allowed members cur last r Hr Hon1) as [Hok Hr']; [apply Hl; by left|apply Hfresh; by left|].
  cbv zeta in *. simpl serve_sent.
  pose proof (found_counts _ _ _ _ _ Hr Hon1 ltac:(apply Hl; by left)) as Hc.
  destruct (slidingWindowScript _ _ _ _ _ _) as [res cur'] eqn:E. simpl in Hok, Hr'. clear E.
  unfold granted. csimpl. rewrite Hok. fold (granted reqs (serve_sent limit window cur' reqs)).
  assert (Hgo : spaced limit kept (ran <$> (if Z.of_nat (length (found r cur)) <? limit then r :: allowed else allowed))).
  { destruct (Z.ltb_spec (Z.of_nat (length (found r cur))) limit); [|done]. csimpl. split; [lia|done]. }
  specialize (IH _ _ _ _ Hr' Hgo Hon Hsort).
  destruct (Z.of_nat (length (found r cur)) <? limit);
    [rewrite reverse_cons, <- (assoc_L (++))|]; simpl app; (apply IH; [|done|]).
  1,3: rewrite Forall_forall in Hall; intros r' Hr0; apply Hall, list_elem_of_fmap; eauto.
  all: intros r' Hr0 [E|Hin]%elem_of_cons; [|by eapply Hfresh; [right|]];
    apply Hm, list_elem_of_fmap; eauto.
Qed.

(** C20: The guarantee of the limiter.  Take any requests, with distinct members, in the
    order their scripts run, each with a reading of the clock that was at most [late]
    behind the clock of Redis by then, for requests wait between the two, and requests run
    at once can overtake each other; or at most [ahead] before it, for the two clocks can
    differ.  Whatever instant a window ends at, the script allows at most [limit] of them
    in it, where a window is as long as configured but for [late] and [ahead]: with
    punctual requests and one clock, in every window of the configured length. *)
Theorem limiter_bound reqs t :
  0 <= limit → Forall on_time reqs → StronglySorted Z.le (Sent.at_ <$> reqs) → NoDup (Sent.member <$> reqs) →
  Z.of_nat (length (filter (λ r, t - kept < ran r ∧ ran r <= t) (granted reqs (serve_sent limit window None reqs))))
  <= limit.
Proof.
  intros Hl Hon Hsort Hnd.
  assert (Hs : spaced limit kept (ran <$> (reverse (granted reqs (serve_sent limit window None reqs)) ++ []))).
  { eapply (serve_spaced [] [] None (default 0 (Sent.at_ <$> head reqs))); try done.
    - split; try done; try (by intros ? ?%not_elem_of_nil). constructor.
    - intros r Hr. destruct reqs as [|r0 reqs]; [by apply not_elem_of_nil in Hr|]. csimpl in *.
      apply StronglySorted_inv in Hsort as [_ Hall]. apply elem_of_cons in Hr as [->|Hr]; [lia|].
      rewrite Forall_forall in Hall. apply Hall, list_elem_of_fmap. eauto.
    - intros r _. apply not_elem_of_nil. }
  rewrite app_nil_r in Hs. etrans; [|apply (spaced_bound limit kept _ t Hl Hs)].
  rewrite filter_fmap, length_fmap, filter_reverse, length_reverse. done.
Qed.
End delayed.

(** Three requests in one window of a minute, limit two, and one after it. *)
Definition burst : list (Time * string) :=
  [(1 * Second, "a"); (2 * Second, "b"); (3 * Second, "c"); (61 * Second, "d")].

Lemma burst_timed : well_timed 0 burst.
Proof.
  split; [repeat constructor; vm_compute; discriminate|]. intros s Hs. unfold burst in Hs. csimpl in *.
  repeat (apply elem_of_cons in Hs as [->|Hs]; [split; vm_compute; discriminate|]).
  by apply not_elem_of_nil in Hs.
Qed.

Lemma burst_members : NoDup burst.*2.
Proof. unfold burst. csimpl. repeat constructor; set_solver. Qed.

Lemma limiter_refines_witness :
  serve 2 60000 None burst = [(1, 1, 0); (1, 0, 0); (0, 0, 58000); (1, 0, 0)].
Proof.
  rewrite (limiter_refines 2 60000 ltac:(lia) burst burst_timed burst_members).
  vm_compute. reflexivity.
Defined.

(** Three requests that wait for Redis, the second overtaken by the third, and one that
    comes when the first has left the window of its clock, but not that of Redis. *)
Definition delayed : list Sent.t :=
  [Sent.Mk (5 * Second) 0 "a"; Sent.Mk (6 * Second) 4000 "c"; Sent.Mk (7 * Second) 3000 "b";
   Sent.Mk (60 * Second) 60000 "d"].

Lemma limiter_bound_witness :
  map Sent.member (granted delayed (serve_sent 2 60000 None delayed)) = ["a"; "c"; "d"]
  ∧ Z.of_nat (length (filter (λ r, 60000 - (60000 - 5000 - 0) < ran r ∧ ran r <= 60000)
      (granted delayed (serve_sent 2 60000 None delayed)))) <= 2.
Proof.
  split; [vm_compute; reflexivity|]. apply (limiter_bound 2 60000 5000 0 ltac:(lia) delayed 60000).
  - lia.
  - repeat constructor; vm_compute; discriminate.
  - repeat constructor; vm_compute; discriminate.
  - unfold delayed. csimpl. repeat constructor; set_solver.
Defined.
