(* ===== verification/Ingest.v ===== *)
(** The analytics pipeline (internal/analytics/pipeline.go): non-blocking producers, a
    bounded channel, workers that batch, flush and drain.

    Every operation is a computation; the goroutines interleave as the steps of a
    transition relation on the world, one channel operation or flush at a time. *)
From stdpp Require Import prelude gmap strings list.
From S2P Require Import Prelude GoStd Domain Enrich World Schema LinkRepo ClickRepo Counters.

Local Open Scope Z_scope.

#[local] Arguments ClickRepository.RecordBatch : simpl never.

(** [CacheInvalidator] and [BatchHook]. *)
Abbreviation CacheInvalidator := (string → M ()) (only parsing).
Abbreviation BatchHook := (list Click.t → M ()) (only parsing).

(** The configuration and the collaborators of a pipeline. *)
Module PipelineCfg.
Record t := Mk {
  cache : option CacheInvalidator;
  geo : GeoResolver;
  salt : string;
  obs : option Observer.t;
  batchHook : option BatchHook;
  bufferSize : Z;
  nworkers : Z;
  batchSize : Z;
}.
End PipelineCfg.

(** Assignments to the fields of the pipeline. *)
Definition upd_input (f : list ClickEvent.t → list ClickEvent.t) (p : Pipeline.t) : Pipeline.t :=
  Pipeline.Mk (f (Pipeline.input p)) (Pipeline.quit p) (Pipeline.workers p) (Pipeline.checked p)
    (Pipeline.enqueued p) (Pipeline.dropped p) (Pipeline.flushed p).
Definition upd_workers (f : list (phase * list Click.t) → list (phase * list Click.t)) (p : Pipeline.t) : Pipeline.t :=
  Pipeline.Mk (Pipeline.input p) (Pipeline.quit p) (f (Pipeline.workers p)) (Pipeline.checked p)
    (Pipeline.enqueued p) (Pipeline.dropped p) (Pipeline.flushed p).
Definition upd_checked (f : list ClickEvent.t → list ClickEvent.t) (p : Pipeline.t) : Pipeline.t :=
  Pipeline.Mk (Pipeline.input p) (Pipeline.quit p) (Pipeline.workers p) (f (Pipeline.checked p))
    (Pipeline.enqueued p) (Pipeline.dropped p) (Pipeline.flushed p).
Definition add_enqueued (n : Z) (p : Pipeline.t) : Pipeline.t :=
  Pipeline.Mk (Pipeline.input p) (Pipeline.quit p) (Pipeline.workers p) (Pipeline.checked p)
    (Pipeline.enqueued p + n) (Pipeline.dropped p) (Pipeline.flushed p).
Definition add_dropped (n : Z) (p : Pipeline.t) : Pipeline.t :=
  Pipeline.Mk (Pipeline.input p) (Pipeline.quit p) (Pipeline.workers p) (Pipeline.checked p)
    (Pipeline.enqueued p) (Pipeline.dropped p + n) (Pipeline.flushed p).
Definition add_flushed (n : Z) (p : Pipeline.t) : Pipeline.t :=
  Pipeline.Mk (Pipeline.input p) (Pipeline.quit p) (Pipeline.workers p) (Pipeline.checked p)
    (Pipeline.enqueued p) (Pipeline.dropped p) (Pipeline.flushed p + n).
Definition close_quit (p : Pipeline.t) : Pipeline.t :=
  Pipeline.Mk (Pipeline.input p) true (Pipeline.workers p) (Pipeline.checked p)
    (Pipeline.enqueued p) (Pipeline.dropped p) (Pipeline.flushed p).

(** [NewPipeline] and [Start]: the state the goroutines start from. *)
Definition NewPipeline (cfg : PipelineCfg.t) : Pipeline.t :=
  Pipeline.Mk [] false (replicate (Z.to_nat (PipelineCfg.nworkers cfg)) (Running, [])) [] 0 0 0.

Section pipeline.
Context `{O : Oracle} (cfg : PipelineCfg.t).

Definition when_obs (f : Observer.t → M ()) : M () :=
  match PipelineCfg.obs cfg with Some o => f o | None => mret () end.

(** ** Producers *)

(** The first select of Enqueue: has the pipeline been shut down? *)
Definition Enqueue_check : M bool := gets (λ w, negb (Pipeline.quit (w_pipe w))).

(** The second select: send, or drop when the channel is full. *)
Definition Enqueue_send (e : ClickEvent.t) : M bool :=
  p ← gets w_pipe;
  if Z.of_nat (length (Pipeline.input p)) <? PipelineCfg.bufferSize cfg then
    modify (upd_pipe (upd_input (λ q, q ++ [e])));;
    modify (upd_pipe (add_enqueued 1));;
    when_obs Observer.enqueued;;
    mret true
  else
    modify (upd_pipe (add_dropped 1));;
    when_obs Observer.dropped;;
    mret false.

Definition Enqueue (e : ClickEvent.t) : M bool :=
  ok ← Enqueue_check;
  if ok : bool then Enqueue_send e else mret false.

(** ** Workers *)

(** The loop over the exhausted codes. *)
Fixpoint evict (codes : list string) : M () :=
  match codes with
  | [] => mret ()
  | code :: codes =>
      match PipelineCfg.cache cfg with
      | Some inv => attempt (inv code);; mret ()
      | None => mret ()
      end;;
      evict codes
  end.

(** [p.flush(batch)]. *)
Definition flush (batch : list Click.t) : M () :=
  r ← attempt (ClickRepository.RecordBatch batch);
  match r with
  | inr _ => mret ()
  | inl exhausted =>
      modify (upd_pipe (add_flushed (Z.of_nat (length batch))));;
      when_obs (λ o, Observer.flushed o (Z.of_nat (length batch)));;
      match PipelineCfg.batchHook cfg with Some h => h batch | None => mret () end;;
      evict exhausted
  end.

(** The closure [flush] of worker [i]. *)
Definition flush_local (i : nat) : M () :=
  p ← gets w_pipe;
  match Pipeline.workers p !! i with
  | Some (ph, batch) =>
      match batch with
      | [] => mret ()
      | _ => flush batch;; modify (upd_pipe (upd_workers <[i := (ph, [])]>))
      end
  | None => mret ()
  end.

(** [case e := <-p.input] of worker [i]. *)
Definition receive (i : nat) : M () :=
  p ← gets w_pipe;
  match Pipeline.input p, Pipeline.workers p !! i with
  | e :: q, Some (ph, batch) =>
      let batch := batch ++ [enrich e (PipelineCfg.geo cfg) (PipelineCfg.salt cfg)] in
      modify (upd_pipe (λ p, upd_workers <[i := (ph, batch)]> (upd_input (λ _, q) p)));;
      if PipelineCfg.batchSize cfg <=? Z.of_nat (length batch) then flush_local i else mret ()
  | _, _ => mret ()
  end.

(** [case <-p.quit] of worker [i]: it starts draining. *)
Definition start_drain (i : nat) : M () :=
  p ← gets w_pipe;
  match Pipeline.workers p !! i with
  | Some (_, batch) => modify (upd_pipe (upd_workers <[i := (Draining, batch)]>))
  | None => mret ()
  end.

(** The default case of the draining loop: flush what is left and return. *)
Definition finish (i : nat) : M () :=
  flush_local i;;
  p ← gets w_pipe;
  match Pipeline.workers p !! i with
  | Some (_, batch) => modify (upd_pipe (upd_workers <[i := (Exited, batch)]>))
  | None => mret ()
  end.

(** The first half of [Shutdown]. *)
Definition shutdown : M () := modify (upd_pipe close_quit).

Definition QueueDepth : M Z := gets (λ w, Z.of_nat (length (Pipeline.input (w_pipe w)))).

(** ** Interleavings

    What a step did with clicks: accepted one, refused one, or ended with a batch
    written or failed. *)
Inductive act :=
  | Accepted (e : ClickEvent.t)
  | Refused (e : ClickEvent.t)
  | Wrote (batch : list Click.t)
  | Lost (batch : list Click.t)
  | Silent.

(** What [flush batch] comes to. *)
Definition flush_act (batch : list Click.t) (w : World) : act :=
  match batch with
  | [] => Silent
  | _ => match (ClickRepository.RecordBatch batch w).1 with
         | Ok _ => Wrote batch
         | _ => Lost batch
         end
  end.

Definition worker (w : World) (i : nat) : option (phase * list Click.t) := Pipeline.workers (w_pipe w) !! i.

(** Can worker [i] receive, and what does it flush if it does? *)
Definition receive_act (i : nat) (w : World) : act :=
  match Pipeline.input (w_pipe w), worker w i with
  | e :: q, Some (ph, batch) =>
      let batch := batch ++ [enrich e (PipelineCfg.geo cfg) (PipelineCfg.salt cfg)] in
      if PipelineCfg.batchSize cfg <=? Z.of_nat (length batch)
      then flush_act batch (upd_pipe (λ p, upd_workers <[i := (ph, batch)]> (upd_input (λ _, q) p)) w)
      else Silent
  | _, _ => Silent
  end.

Inductive step : World → act → World → Prop :=
  | step_check e w :
      Pipeline.quit (w_pipe w) = false →
      step w Silent (upd_pipe (upd_checked (λ l, e :: l)) w)
  | step_send k e w :
      Pipeline.checked (w_pipe w) !! k = Some e →
      step w (if Z.of_nat (length (Pipeline.input (w_pipe w))) <? PipelineCfg.bufferSize cfg
              then Accepted e else Refused e)
        (Enqueue_send e (upd_pipe (upd_checked (delete k)) w)).2
  | step_receive i ph b w :
      worker w i = Some (ph, b) → ph ≠ Exited → Pipeline.input (w_pipe w) ≠ [] →
      step w (receive_act i w) (receive i w).2
  | step_tick i b w :
      worker w i = Some (Running, b) → step w (flush_act b w) (flush_local i w).2
  | step_quit i b w :
      worker w i = Some (Running, b) → Pipeline.quit (w_pipe w) = true →
      step w Silent (start_drain i w).2
  | step_finish i b w :
      worker w i = Some (Draining, b) → Pipeline.input (w_pipe w) = [] →
      step w (flush_act b w) (finish i w).2
  | step_shutdown w : step w Silent (shutdown w).2.

(** Runs, with the clicks accepted, and the clicks whose batch was written or lost.
    The rest of the program runs between two steps: it reaches the pipeline by
    [Enqueue] and [Shutdown] only. *)
Inductive run : World → list act → World → Prop :=
  | run_nil w : run w [] w
  | run_step w a w1 acts w2 : step w a w1 → run w1 acts w2 → run w (a :: acts) w2
  | run_elsewhere w w1 acts w2 : w_pipe w1 = w_pipe w → run w1 acts w2 → run w acts w2.
End pipeline.

Definition accepted (acts : list act) : list ClickEvent.t :=
  omap (λ a, match a with Accepted e => Some e | _ => None end) acts.
Definition written (acts : list act) : list Click.t :=
  mjoin (omap (λ a, match a with Wrote b => Some b | _ => None end) acts).
Definition lost (acts : list act) : list Click.t :=
  mjoin (omap (λ a, match a with Lost b => Some b | _ => None end) acts).

(** * What a flush does *)

(** The collaborators return, and leave the pipeline alone; the observer and the hook
    leave the tables alone too. *)
Record cfg_laws (cfg : PipelineCfg.t) : Prop := {
  law_obs o : PipelineCfg.obs cfg = Some o → Observer.laws o;
  law_hook h b w : PipelineCfg.batchHook cfg = Some h →
    (h b w).1 = Ok () ∧ w_pipe (h b w).2 = w_pipe w ∧ w_db (h b w).2 = w_db w;
  law_cache inv code : PipelineCfg.cache cfg = Some inv → no_panic (inv code);
  law_cache_pipe inv code w : PipelineCfg.cache cfg = Some inv → w_pipe (inv code w).2 = w_pipe w;
  law_cache_db inv code w : PipelineCfg.cache cfg = Some inv → w_db (inv code w).2 = w_db w;
}.

Section flush_lemmas.
Context `{O : Oracle} (cfg : PipelineCfg.t) (L : cfg_laws cfg).

(** The statements of a batch touch the tables only. *)
Lemma RecordBatch_frame {B} (f : World → B) batch w :
  (∀ n w, f (set_step n w) = f w) → (∀ g w, f (upd_db g w) = f w) →
  f (ClickRepository.RecordBatch batch w).2 = f w.
Proof.
  intros Hn Hd. revert w. apply (frames_preserves f). intros p.
  assert (Hstep : ∀ n w, f w = p → f (set_step n w) = p) by (intros; by rewrite Hn).
  assert (Hdb : ∀ g w, f w = p → f (upd_db g w) = p) by (intros; by rewrite Hd).
  assert (Hinc : ∀ counts ids ex, preserves (λ w, f w = p) (ClickRepository.increment counts ids ex)).
  { intros counts ids. induction ids as [|id ids IH]; intros ex; cbn [ClickRepository.increment]; [preserve|].
    unfold increment_link. preserve; auto; apply IH. }
  unfold ClickRepository.RecordBatch. destruct batch; [preserve|].
  apply preserves_bind; [preserve; auto|]. intros [u|e]; [|preserve].
  apply preserves_transaction_rest; [auto..|].
  unfold ClickRepository.record_rows, copy_clicks, range_keys, tick. preserve; auto; apply Hinc.
Qed.

Lemma RecordBatch_pipe batch w : w_pipe (ClickRepository.RecordBatch batch w).2 = w_pipe w.
Proof. by apply RecordBatch_frame. Qed.

(** An observer call, or none: it returns and leaves tables and pipeline alone. *)
Lemma when_obs_spec f w :
  (∀ o, Observer.laws o → observes (f o)) →
  ∃ g, when_obs cfg f w = (Ok (), upd_metrics g w).
Proof.
  intros Hf. unfold when_obs. destruct (PipelineCfg.obs cfg) as [o|] eqn:E.
  - apply (Hf o (law_obs _ L o E)).
  - exists id. by destruct w.
Qed.

Lemma hook_spec b w :
  let r := match PipelineCfg.batchHook cfg with Some h => h b w | None => (Ok (), w) end in
  r.1 = Ok () ∧ w_pipe r.2 = w_pipe w ∧ w_db r.2 = w_db w.
Proof. destruct (PipelineCfg.batchHook cfg) as [h|] eqn:E; [by apply (law_hook _ L)|done]. Qed.

Lemma evict_spec codes w :
  (evict cfg codes w).1 = Ok () ∧ w_pipe (evict cfg codes w).2 = w_pipe w ∧ w_db (evict cfg codes w).2 = w_db w.
Proof.
  revert w. induction codes as [|code codes IH]; intros w; [done|]. cbn [evict].
  destruct (PipelineCfg.cache cfg) as [inv|] eqn:E.
  - assert (Hr : (attempt (inv code);; mret ()) w = (Ok (), (inv code w).2)).
    { rewrite attempt_then; [done|]. by apply (law_cache _ L). }
    rewrite (bind_run _ _ _ _ _ Hr).
    rewrite <- (law_cache_pipe _ L inv code w E), <- (law_cache_db _ L inv code w E). apply IH.
  - apply IH.
Qed.

(** A flush always returns; the counter moves by the batch exactly when it was
    written. *)
Lemma flush_spec batch w :
  (flush cfg batch w).1 = Ok ()
  ∧ w_db (flush cfg batch w).2 = w_db (ClickRepository.RecordBatch batch w).2
  ∧ w_pipe (flush cfg batch w).2 =
      match (ClickRepository.RecordBatch batch w).1 with
      | Ok _ => add_flushed (Z.of_nat (length batch)) (w_pipe w)
      | _ => w_pipe w
      end.
Proof.
  unfold flush. rewrite attempt_bind. pose proof (RecordBatch_pipe batch w) as Hp.
  destruct (ClickRepository.RecordBatch batch w) as [[codes|e|p] w1] eqn:E; simpl in *.
  - unfold mbind at 1 4 7, M_bind at 1 4 7. cbn [modify].
    set (w2 := upd_pipe (add_flushed (Z.of_nat (length batch))) w1).
    destruct (when_obs_spec (λ o, Observer.flushed o (Z.of_nat (length batch))) w2) as [g Hg].
    { intros o (_ & _ & Ho). apply Ho. }
    change ((modify (upd_pipe (add_flushed (Z.of_nat (length batch)))) w1)) with (@Ok unit (), w2).
    cbv beta iota. rewrite (bind_run _ _ _ _ _ Hg).
    set (w3 := upd_metrics g w2). pose proof (hook_spec batch w3) as Hh. cbv zeta in Hh.
    destruct (PipelineCfg.batchHook cfg) as [h|].
    + destruct (h batch w3) as [r w4] eqn:Eh. simpl in Hh. destruct Hh as (-> & Hp4 & Hd4).
      rewrite (bind_run _ _ _ _ _ Eh). destruct (evict_spec codes w4) as (-> & -> & ->).
      rewrite Hp4, Hd4. unfold w3, w2. simpl. by rewrite Hp.
    + rewrite (bind_run (mret ()) _ w3 () w3 eq_refl). destruct (evict_spec codes w3) as (-> & -> & ->).
      unfold w3, w2. simpl. by rewrite Hp.
  - done.
  - by apply RecordBatch_no_panic in E.
Qed.
End flush_lemmas.

(** * The pipeline after each operation *)

Section pipe_lemmas.
Context `{O : Oracle} (cfg : PipelineCfg.t) (L : cfg_laws cfg).

(** The clicks a step wrote or lost. *)
Definition ended (a : act) : list Click.t :=
  match a with Wrote b | Lost b => b | _ => [] end.
Definition wrote (a : act) : list Click.t := match a with Wrote b => b | _ => [] end.

Lemma flush_act_ended b w : ended (flush_act b w) = b.
Proof. unfold flush_act. destruct b; [done|]. by destruct (_.1). Qed.

Lemma insert_self {A} (l : list A) i x : l !! i = Some x → <[i := x]> l = l.
Proof. apply list_insert_id. Qed.

(** A worker's flush empties its batch and counts it if it was written. *)
Lemma flush_local_spec i ph b w :
  worker w i = Some (ph, b) →
  (flush_local cfg i w).1 = Ok ()
  ∧ w_pipe (flush_local cfg i w).2
    = upd_workers <[i := (ph, [])]>
        (add_flushed (Z.of_nat (length (wrote (flush_act b w)))) (w_pipe w)).
Proof.
  unfold worker. intros Hw. unfold flush_local.
  rewrite gets_bind, Hw.
  destruct b as [|c b].
  - split; [done|]. simpl. unfold upd_workers, add_flushed. simpl.
    rewrite Z.add_0_r, (insert_self _ _ _ Hw). by destruct (w_pipe w).
  - destruct (flush_spec cfg L (c :: b) w) as (Hr & _ & Hp).
    destruct (flush cfg (c :: b) w) as [r w1] eqn:Ef. simpl in Hr, Hp. subst r.
    rewrite (bind_run _ _ _ _ _ Ef). split; [done|]. simpl. rewrite Hp. unfold flush_act.
    destruct (ClickRepository.RecordBatch (c :: b) w).1; simpl; [done| |];
      unfold add_flushed, upd_workers; simpl; by rewrite Z.add_0_r.
Qed.

(** The pipeline once the first event was taken into a batch. *)
Definition taken (i : nat) (ph : phase) (b : list Click.t) (e : ClickEvent.t) (q : list ClickEvent.t) (p : Pipeline.t) : Pipeline.t :=
  upd_workers <[i := (ph, b ++ [enrich e (PipelineCfg.geo cfg) (PipelineCfg.salt cfg)])]> (upd_input (λ _, q) p).

Lemma receive_spec i ph b e q w :
  worker w i = Some (ph, b) → Pipeline.input (w_pipe w) = e :: q →
  let b1 := b ++ [enrich e (PipelineCfg.geo cfg) (PipelineCfg.salt cfg)] in
  (receive cfg i w).1 = Ok ()
  ∧ w_pipe (receive cfg i w).2
    = if PipelineCfg.batchSize cfg <=? Z.of_nat (length b1)
      then upd_workers <[i := (ph, [])]> (add_flushed (Z.of_nat (length (wrote (receive_act cfg i w))))
             (upd_input (λ _, q) (w_pipe w)))
      else taken i ph b e q (w_pipe w).
Proof.
  intros Hw Hq. cbv zeta. unfold receive.
  rewrite gets_bind. unfold worker in Hw. rewrite Hq, Hw. cbv zeta.
  set (b1 := b ++ _). set (w1 := upd_pipe (taken i ph b e q) w).
  rewrite modify_bind. change (upd_pipe (λ p, upd_workers <[i := (ph, b1)]> (upd_input (λ _, q) p)) w) with w1.
  assert (Hw1 : worker w1 i = Some (ph, b1)).
  { unfold worker, w1. simpl. apply list_lookup_insert_eq. by eapply lookup_lt_Some. }
  destruct (_ <=? _) eqn:Eb; [|done].
  destruct (flush_local_spec i ph b1 w1 Hw1) as [-> ->]. split; [done|].
  assert (Hact : receive_act cfg i w = flush_act b1 w1).
  { unfold receive_act, worker. rewrite Hq, Hw. fold b1. by rewrite Eb. }
  rewrite Hact. unfold w1, taken, upd_workers, upd_input, add_flushed. simpl.
  f_equal. apply list_insert_insert_eq.
Qed.

Lemma finish_spec i ph b w :
  worker w i = Some (ph, b) →
  (finish cfg i w).1 = Ok ()
  ∧ w_pipe (finish cfg i w).2
    = upd_workers <[i := (Exited, [])]>
        (add_flushed (Z.of_nat (length (wrote (flush_act b w)))) (w_pipe w)).
Proof.
  intros Hw. unfold finish. destruct (flush_local_spec i ph b w Hw) as [Hr Hp].
  destruct (flush_local cfg i w) as [r w1] eqn:Ef. simpl in Hr, Hp. subst r.
  rewrite (bind_run _ _ _ _ _ Ef), gets_bind.
  rewrite Hp. simpl. rewrite list_lookup_insert_eq by (by eapply lookup_lt_Some).
  split; [done|]. simpl. rewrite Hp. unfold upd_workers, add_flushed. simpl.
  f_equal. apply list_insert_insert_eq.
Qed.

Lemma start_drain_spec i ph b w :
  worker w i = Some (ph, b) →
  w_pipe (start_drain i w).2 = upd_workers <[i := (Draining, b)]> (w_pipe w).
Proof.
  unfold worker. intros Hw. unfold start_drain.
  rewrite gets_bind. by rewrite Hw.
Qed.

Lemma Enqueue_send_spec e w :
  if Z.of_nat (length (Pipeline.input (w_pipe w))) <? PipelineCfg.bufferSize cfg
  then (Enqueue_send cfg e w).1 = Ok true
       ∧ w_pipe (Enqueue_send cfg e w).2 = add_enqueued 1 (upd_input (λ q, q ++ [e]) (w_pipe w))
  else (Enqueue_send cfg e w).1 = Ok false
       ∧ w_pipe (Enqueue_send cfg e w).2 = add_dropped 1 (w_pipe w).
Proof.
  unfold Enqueue_send. rewrite gets_bind.
  destruct (_ <? _).
  - rewrite !modify_bind.
    match goal with |- context [(when_obs _ _;; _) ?w1] =>
      destruct (when_obs_spec cfg L Observer.enqueued w1) as [g Hg]; [by intros o (? & _)|] end.
    by rewrite (bind_run _ _ _ _ _ Hg).
  - rewrite modify_bind.
    match goal with |- context [(when_obs _ _;; _) ?w1] =>
      destruct (when_obs_spec cfg L Observer.dropped w1) as [g Hg]; [by intros o (_ & ? & _)|] end.
    by rewrite (bind_run _ _ _ _ _ Hg).
Qed.
End pipe_lemmas.

(** * Conservation of clicks *)

Section conservation.
Context `{O : Oracle} (cfg : PipelineCfg.t) (L : cfg_laws cfg).

Local Abbreviation enr := (λ e, enrich e (PipelineCfg.geo cfg) (PipelineCfg.salt cfg)).

(** The clicks in the workers' batches. *)
Definition batches (ws : list (phase * list Click.t)) : list Click.t := mjoin ws.*2.

Lemma batches_new n : batches (replicate n (Running, [])) = [].
Proof. unfold batches. by induction n. Qed.

(** The clicks inside the pipeline. *)
Definition content (p : Pipeline.t) : list Click.t :=
  (enr <$> Pipeline.input p) ++ batches (Pipeline.workers p).

Lemma batches_insert ws i ph b ph' b' :
  ws !! i = Some (ph, b) → batches (<[i := (ph', b')]> ws) ++ b ≡ₚ batches ws ++ b'.
Proof.
  intros Hi. rewrite <- (take_drop_middle ws i _ Hi) at 2.
  assert (Hlt : (i < length ws)%nat) by (by eapply lookup_lt_Some).
  rewrite insert_take_drop by done. unfold batches.
  rewrite !fmap_app, !fmap_cons, !join_app. csimpl. solve_Permutation.
Qed.

Lemma step_conserves w a w' :
  step cfg w a w' →
  content (w_pipe w) ++ (enr <$> accepted [a]) ≡ₚ content (w_pipe w') ++ ended a
  ∧ Pipeline.enqueued (w_pipe w') = Pipeline.enqueued (w_pipe w) + Z.of_nat (length (accepted [a]))
  ∧ Pipeline.flushed (w_pipe w') = Pipeline.flushed (w_pipe w) + Z.of_nat (length (wrote a)).
Proof.
  assert (Hflush : ∀ b w, accepted [flush_act b w] = []).
  { intros b w0. unfold flush_act. destruct b; [done|]. by destruct (_.1). }
  unfold content. destruct 1 as [e w Hq|k e w Hk|i ph b w Hw Hph Hin|i b w Hw|i b w Hw Hq|i b w Hw Hq|w].
  - simpl. rewrite !app_nil_r. split_and!; [done | lia | lia].
  - pose proof (Enqueue_send_spec cfg L e (upd_pipe (upd_checked (delete k)) w)) as Hs. simpl in Hs.
    destruct (_ <? _); destruct Hs as [_ ->]; simpl.
    + rewrite fmap_app, app_nil_r. simpl. split_and!; [solve_Permutation | lia | lia].
    + rewrite !app_nil_r. split_and!; [done | lia | lia].
  - destruct (Pipeline.input (w_pipe w)) as [|e q] eqn:Eq; [done|].
    destruct (receive_spec cfg L i ph b e q w Hw Eq) as [_ ->].
    unfold receive_act. rewrite Eq, Hw. cbv zeta. unfold worker in Hw.
    destruct (_ <=? _).
    + rewrite Hflush. simpl. rewrite app_nil_r. split_and!; [|lia|done].
      rewrite flush_act_ended.
      pose proof (batches_insert _ _ _ _ ph [] Hw) as Hb. rewrite app_nil_r in Hb.
      rewrite <- Hb. solve_Permutation.
    + simpl. rewrite !app_nil_r. split_and!; [|lia|lia].
      pose proof (batches_insert _ _ _ _ ph (b ++ [enr e]) Hw) as Hb.
      apply (Permutation_app_inv_r b). rewrite <- app_assoc, Hb. solve_Permutation.
  - destruct (flush_local_spec cfg L i Running b w Hw) as [_ ->]. rewrite Hflush, flush_act_ended. simpl.
    rewrite app_nil_r. split_and!; [|lia|done].
    pose proof (batches_insert _ _ _ _ Running [] Hw) as Hb. rewrite app_nil_r in Hb.
    rewrite <- Hb. solve_Permutation.
  - rewrite (start_drain_spec i Running b w Hw). simpl. rewrite !app_nil_r. split_and!; [|lia|lia].
    pose proof (batches_insert _ _ _ _ Draining b Hw) as Hb. apply (Permutation_app_inv_r b).
    rewrite <- !app_assoc, Hb. done.
  - destruct (finish_spec cfg L i Draining b w Hw) as [_ ->]. rewrite Hflush, flush_act_ended. simpl.
    rewrite app_nil_r. split_and!; [|lia|done].
    pose proof (batches_insert _ _ _ _ Exited [] Hw) as Hb. rewrite app_nil_r in Hb.
    rewrite <- Hb. solve_Permutation.
  - simpl. rewrite !app_nil_r. split_and!; [done | lia | lia].
Qed.

Lemma accepted_cons a acts : accepted (a :: acts) = accepted [a] ++ accepted acts.
Proof. unfold accepted. by destruct a. Qed.

Lemma ended_split a acts :
  ended a ++ written acts ++ lost acts ≡ₚ written (a :: acts) ++ lost (a :: acts).
Proof. unfold written, lost. destruct a; csimpl; try done; solve_Permutation. Qed.

Lemma run_conserves w acts w' :
  run cfg w acts w' →
  content (w_pipe w) ++ (enr <$> accepted acts) ≡ₚ content (w_pipe w') ++ written acts ++ lost acts
  ∧ Pipeline.enqueued (w_pipe w') = Pipeline.enqueued (w_pipe w) + Z.of_nat (length (accepted acts))
  ∧ Pipeline.flushed (w_pipe w') = Pipeline.flushed (w_pipe w) + Z.of_nat (length (written acts)).
Proof.
  induction 1 as [w|w a w1 acts w2 Hstep _ (Hc & He & Hf)|w w1 acts w2 E _ IH]; [| |by rewrite <- E].
  - simpl. rewrite !app_nil_r. split_and!; [done | lia | lia].
  - apply step_conserves in Hstep as (Hc1 & He1 & Hf1).
    rewrite accepted_cons, fmap_app, length_app, He, He1, Hf, Hf1. split_and!.
    + rewrite app_assoc, Hc1, <- app_assoc, (Permutation_app_comm (ended a)), app_assoc, Hc.
      rewrite <- ended_split. solve_Permutation.
    + lia.
    + assert (length (written (a :: acts)) = length (wrote a) + length (written acts))%nat; [|lia].
      unfold written. destruct a; csimpl; rewrite ?length_app; done.
Qed.

Lemma conserves_new w0 acts w :
  w_pipe w0 = NewPipeline cfg → run cfg w0 acts w →
  enr <$> accepted acts
    ≡ₚ (enr <$> Pipeline.input (w_pipe w)) ++ batches (Pipeline.workers (w_pipe w))
       ++ written acts ++ lost acts.
Proof.
  intros H0 (Hc & _)%run_conserves. unfold content in Hc. rewrite H0 in Hc. simpl in Hc.
  rewrite batches_new in Hc. simpl in Hc. by rewrite <- app_assoc in Hc.
Qed.

(** C4: No click is lost track of.  Through any interleaving of producers, workers,
    ticks and shutdown from the start, the clicks accepted, enriched, are exactly
    those still in the channel, those in a worker's batch, those of the batches
    written and those of the batches whose write failed; the counters agree. *)
Theorem pipeline_conserves w0 acts w :
  w_pipe w0 = NewPipeline cfg → run cfg w0 acts w →
  enr <$> accepted acts
    ≡ₚ (enr <$> Pipeline.input (w_pipe w)) ++ batches (Pipeline.workers (w_pipe w))
       ++ written acts ++ lost acts
  ∧ Pipeline.enqueued (w_pipe w) = Z.of_nat (length (accepted acts))
  ∧ Pipeline.flushed (w_pipe w) = Z.of_nat (length (written acts))
  ∧ Pipeline.enqueued (w_pipe w)
    = Z.of_nat (length (Pipeline.input (w_pipe w))) + Z.of_nat (length (batches (Pipeline.workers (w_pipe w))))
      + Pipeline.flushed (w_pipe w) + Z.of_nat (length (lost acts)).
Proof.
  intros H0 Hrun. pose proof (conserves_new _ _ _ H0 Hrun) as Hc.
  apply run_conserves in Hrun as (_ & He & Hf). rewrite H0 in *. simpl in *. split_and!; [done | lia | lia |].
  apply Permutation_length in Hc. rewrite !length_app, !length_fmap in Hc. lia.
Qed.
End conservation.

(** * Bounds and shutdown *)

Section shutdown.
Context `{O : Oracle} (cfg : PipelineCfg.t) (L : cfg_laws cfg).

(** An invariant of the pipeline's state that every step keeps holds after a run. *)
Lemma run_invariant (I : Pipeline.t → Prop) w acts w' :
  (∀ w a w', step cfg w a w' → I (w_pipe w) → I (w_pipe w')) →
  run cfg w acts w' → I (w_pipe w) → I (w_pipe w').
Proof. intros Hstep. induction 1 as [| |w w1 acts w2 E]; [done|eauto|by rewrite <- E]. Qed.

Lemma run_app w acts w1 acts' w2 :
  run cfg w acts w1 → run cfg w1 acts' w2 → run cfg w (acts ++ acts') w2.
Proof. induction 1; simpl; [done| |]; intros; [eapply run_step|eapply run_elsewhere]; eauto. Qed.

(** What a step makes of the channel, the flag, the producers and the workers. *)
Lemma step_shape w a w' :
  step cfg w a w' →
  let p := w_pipe w in let p' := w_pipe w' in
  (Pipeline.quit p = false ∧ ∃ e, p' = upd_checked (λ l, e :: l) p)
  ∨ (∃ k e n d, Pipeline.checked p !! k = Some e ∧
       (Z.of_nat (length (Pipeline.input p)) < PipelineCfg.bufferSize cfg
        ∧ p' = add_enqueued n (upd_input (λ q, q ++ [e]) (upd_checked (delete k) p))
        ∨ p' = add_dropped d (upd_checked (delete k) p)))
  ∨ (∃ i ph b e q b' n, Pipeline.workers p !! i = Some (ph, b) ∧ ph ≠ Exited
       ∧ Pipeline.input p = e :: q
       ∧ (b' = [] ∨ (length b' = S (length b) ∧ Z.of_nat (length b') < PipelineCfg.batchSize cfg))
       ∧ p' = upd_workers <[i := (ph, b')]> (add_flushed n (upd_input (λ _, q) p)))
  ∨ (∃ i b n, Pipeline.workers p !! i = Some (Running, b)
       ∧ p' = upd_workers <[i := (Running, [])]> (add_flushed n p))
  ∨ (∃ i b, Pipeline.workers p !! i = Some (Running, b) ∧ Pipeline.quit p = true
       ∧ p' = upd_workers <[i := (Draining, b)]> p)
  ∨ (∃ i b n, Pipeline.workers p !! i = Some (Draining, b) ∧ Pipeline.input p = []
       ∧ p' = upd_workers <[i := (Exited, [])]> (add_flushed n p))
  ∨ p' = close_quit p.
Proof.
  cbv zeta. destruct 1 as [e w Hq|k e w Hk|i ph b w Hw Hph Hin|i b w Hw|i b w Hw Hq|i b w Hw Hq|w].
  - left. split; [done|]. by exists e.
  - right. left. pose proof (Enqueue_send_spec cfg L e (upd_pipe (upd_checked (delete k)) w)) as Hs. simpl in Hs.
    destruct (Z.ltb_spec (Z.of_nat (length (Pipeline.input (w_pipe w)))) (PipelineCfg.bufferSize cfg));
      destruct Hs as [_ ->]; exists k, e, 1, 1; auto.
  - right. right. left. destruct (Pipeline.input (w_pipe w)) as [|e q] eqn:Eq; [done|].
    destruct (receive_spec cfg L i ph b e q w Hw Eq) as [_ ->].
    destruct (Z.leb_spec (PipelineCfg.batchSize cfg)
      (Z.of_nat (length (b ++ [enrich e (PipelineCfg.geo cfg) (PipelineCfg.salt cfg)])))).
    + eexists i, ph, b, e, q, [], _. split_and!; try done. by left.
    + exists i, ph, b, e, q, (b ++ [enrich e (PipelineCfg.geo cfg) (PipelineCfg.salt cfg)]), 0.
      split_and!; try done.
      * right. split; [rewrite length_app; simpl; lia | done].
      * unfold taken, upd_workers, add_flushed, upd_input. simpl. by rewrite Z.add_0_r.
  - right. right. right. left. destruct (flush_local_spec cfg L i Running b w Hw) as [_ ->]. by eexists i, b, _.
  - do 4 right. left. exists i, b. split_and!; [done..|]. by apply (start_drain_spec i Running b).
  - do 5 right. left. destruct (finish_spec cfg L i Draining b w Hw) as [_ ->]. by eexists i, b, _.
  - by do 6 right.
Qed.

(** The bounds the configuration sets. *)
Definition bounded (p : Pipeline.t) : Prop :=
  Z.of_nat (length (Pipeline.input p)) <= PipelineCfg.bufferSize cfg
  ∧ Forall (λ x, Z.of_nat (length x.2) < PipelineCfg.batchSize cfg) (Pipeline.workers p).

Lemma run_bounded w0 acts w :
  0 <= PipelineCfg.bufferSize cfg ∧ 1 <= PipelineCfg.batchSize cfg →
  w_pipe w0 = NewPipeline cfg → run cfg w0 acts w → bounded (w_pipe w).
Proof.
  intros [Hbuf Hbatch] H0 Hrun. eapply (run_invariant bounded); [|exact Hrun|].
  - clear -L Hbatch. intros w a w' [(? & e & ->)|[(k & e & n & d & ? & [[? ->]| ->])|
      [(i & ph & b & e & q & b' & n & Hw & ? & Hq & Hb & ->)|[(i & b & n & ? & ->)|
      [(i & b & Hw & ? & ->)|[(i & b & n & ? & ? & ->)| ->]]]]]]%step_shape [Hi Hws]; unfold bounded;
      simpl in *; try done.
    + rewrite length_app. simpl. split; [lia | done].
    + rewrite Hq in Hi. simpl in Hi. split; [lia|]. apply Forall_insert; [done|]. simpl.
      destruct Hb as [->|[_ ?]]; simpl; lia.
    + split; [done|]. apply Forall_insert; [done|]. simpl. lia.
    + split; [done|]. apply Forall_insert; [done|]. simpl. exact (Forall_lookup_1 _ _ _ _ Hws Hw).
    + split; [done|]. apply Forall_insert; [done|]. simpl. lia.
  - rewrite H0. split; [simpl; lia|]. apply Forall_replicate. simpl. lia.
Qed.

(** Memory is bounded.  With a batch size of at least one, the channel never holds
    more than its capacity, and no worker ever keeps a full batch between two steps. *)
Theorem pipeline_bounded w0 acts w :
  0 <= PipelineCfg.bufferSize cfg → 1 <= PipelineCfg.batchSize cfg →
  w_pipe w0 = NewPipeline cfg → run cfg w0 acts w → bounded (w_pipe w).
Proof. eauto using run_bounded. Qed.

(** Until the flag is raised every worker runs; a worker that exited holds nothing. *)
Definition orderly (p : Pipeline.t) : Prop :=
  (Pipeline.quit p = false → Forall (λ x, x.1 = Running) (Pipeline.workers p))
  ∧ Forall (λ x, x.1 = Exited → x.2 = []) (Pipeline.workers p).

Lemma orderly_step w a w' : step cfg w a w' → orderly (w_pipe w) → orderly (w_pipe w').
Proof.
  intros [(? & e & ->)|[(k & e & n & d & ? & [[? ->]| ->])|
    [(i & ph & b & e & q & b' & n & Hw & ? & Hq & Hb & ->)|[(i & b & n & ? & ->)|
    [(i & b & Hw & Hq & ->)|[(i & b & n & Hw & ? & ->)| ->]]]]]]%step_shape [Hrun Hex]; unfold orderly;
    simpl in *; try done.
  - split; [|by apply Forall_insert]. intros Hf. apply Forall_insert; [auto|]. simpl.
    exact (Forall_lookup_1 _ _ _ _ (Hrun Hf) Hw).
  - split; [|by apply Forall_insert]. intros Hf. apply Forall_insert; auto.
  - split; [by rewrite Hq|]. by apply Forall_insert.
  - split; [|by apply Forall_insert]. intros Hf. exfalso.
    by pose proof (Forall_lookup_1 _ _ _ _ (Hrun Hf) Hw).
Qed.

(** After the flag is raised with no producer between its two selects, nothing enters
    the channel, and a worker only exits once it is empty. *)
Definition closed (p : Pipeline.t) : Prop :=
  Pipeline.quit p = true ∧ Pipeline.checked p = []
  ∧ (Pipeline.input p = [] ∨ Forall (λ x, x.1 ≠ Exited) (Pipeline.workers p)).

Lemma closed_step w a w' : step cfg w a w' → closed (w_pipe w) → closed (w_pipe w').
Proof.
  intros [(Hq & e & ->)|[(k & e & n & d & Hk & _)|
    [(i & ph & b & e & q & b' & n & Hw & Hph & Hq & Hb & ->)|[(i & b & n & Hw & ->)|
    [(i & b & Hw & Hq & ->)|[(i & b & n & Hw & Hq & ->)| ->]]]]]]%step_shape (Hc & Hch & Hin); unfold closed;
    simpl in *; try congruence; try done.
  - by rewrite Hch in Hk.
  - split_and!; [done..|]. destruct Hin as [Hin|Hin]; [congruence|]. right. by apply Forall_insert.
  - split_and!; [done..|]. destruct Hin; [by left|]. right. by apply Forall_insert.
  - split_and!; [done..|]. destruct Hin; [by left|]. right. by apply Forall_insert.
  - split_and!; [done..|]. by left.
Qed.

(** All workers have returned: [p.wg.Wait()] is over. *)
Definition finished (p : Pipeline.t) : Prop :=
  Forall (λ x, x.1 = Exited) (Pipeline.workers p) ∧ Pipeline.workers p ≠ [].

Lemma drained p :
  orderly p → closed p → finished p → Pipeline.input p = [] ∧ batches (Pipeline.workers p) = [].
Proof.
  intros [_ Hex] (_ & _ & Hin) [Hfin Hne]. split.
  - destruct Hin as [?|Hnex]; [done|]. exfalso. destruct (Pipeline.workers p) as [|x ws]; [done|].
    apply Forall_cons in Hfin as [Hx _]. by apply Forall_cons in Hnex as [? _].
  - unfold batches. clear Hne Hin. induction (Pipeline.workers p) as [|x ws IH]; [done|].
    apply Forall_cons in Hex as [Hx Hex]. apply Forall_cons in Hfin as [Hx' Hfin].
    csimpl. rewrite (Hx Hx'). simpl. by apply IH.
Qed.

(** The number of workers is fixed. *)
Lemma workers_step n w a w' :
  step cfg w a w' → length (Pipeline.workers (w_pipe w)) = n → length (Pipeline.workers (w_pipe w')) = n.
Proof.
  intros [(? & e & ->)|[(k & e & m & d & ? & [[? ->]| ->])|
    [(i & ph & b & e & q & b' & m & _ & _ & _ & _ & ->)|[(i & b & m & _ & ->)|
    [(i & b & _ & _ & ->)|[(i & b & m & _ & _ & ->)| ->]]]]]]%step_shape <-; simpl; by rewrite ?length_insert.
Qed.

(** A shutdown drains.  If the pipeline is shut down when no producer is between
    its two selects (main.go has stopped the HTTP server before), then once the
    workers have returned nothing is left in the channel or in a batch: every click
    accepted before or after was written, or its batch's write failed. *)
Theorem shutdown_drains w0 acts w1 acts' w2 :
  w_pipe w0 = NewPipeline cfg → run cfg w0 acts w1 →
  Pipeline.quit (w_pipe w1) = false → Pipeline.checked (w_pipe w1) = [] →
  run cfg (shutdown w1).2 acts' w2 → finished (w_pipe w2) →
  Pipeline.input (w_pipe w2) = [] ∧ batches (Pipeline.workers (w_pipe w2)) = []
  ∧ (λ e, enrich e (PipelineCfg.geo cfg) (PipelineCfg.salt cfg)) <$> accepted (acts ++ acts')
      ≡ₚ written (acts ++ acts') ++ lost (acts ++ acts').
Proof.
  intros H0 Hrun Hq Hch Hrun' Hfin.
  assert (Ho1 : orderly (w_pipe w1)).
  { eapply (run_invariant orderly); [apply orderly_step | done |]. rewrite H0. split.
    - intros _. by apply Forall_replicate.
    - by apply Forall_replicate. }
  assert (Hc1 : closed (w_pipe (shutdown w1).2)).
  { split_and!; [done..|]. right. simpl. destruct Ho1 as [Hr _]. specialize (Hr Hq).
    eapply Forall_impl; [exact Hr|]. intros x ->. done. }
  assert (Ho2 : orderly (w_pipe w2)).
  { eapply (run_invariant orderly); [apply orderly_step | exact Hrun' |].
    destruct Ho1 as [_ Hex]. split; [done | exact Hex]. }
  assert (Hc2 : closed (w_pipe w2)).
  { eapply (run_invariant closed); [apply closed_step | exact Hrun' | done]. }
  destruct (drained _ Ho2 Hc2 Hfin) as [Hin Hb].
  split_and!; [done..|].
  assert (Hall : run cfg w0 (acts ++ Silent :: acts') w2).
  { eapply run_app; [done|]. eapply run_step; [apply step_shutdown | done]. }
  pose proof (conserves_new cfg L _ _ _ H0 Hall) as Hc. rewrite Hin, Hb in Hc.
  unfold accepted, written, lost in *. by rewrite !omap_app in *.
Qed.

(** ** Termination *)

Definition weight (ph : phase) : nat := match ph with Running => 2 | Draining => 1 | Exited => 0 end.

(** What is left to do: events to take, and phases to go through. *)
Definition remaining (p : Pipeline.t) : nat :=
  (length (Pipeline.input p) + sum_list_with (λ x, weight x.1) (Pipeline.workers p))%nat.

Lemma sum_insert ws i ph b ph' b' :
  ws !! i = Some (ph, b) →
  (sum_list_with (λ x : phase * list Click.t, weight x.1) (<[i := (ph', b')]> ws) + weight ph
   = sum_list_with (λ x : phase * list Click.t, weight x.1) ws + weight ph')%nat.
Proof.
  intros Hi. rewrite <- (take_drop_middle ws i _ Hi) at 2.
  rewrite insert_take_drop by (by eapply lookup_lt_Some).
  rewrite !sum_list_with_app. simpl. lia.
Qed.

(** With the flag raised and no producer past its first select, no step adds work, and
    one that leaves as much as there was is a tick, or raises the flag again. *)
Lemma remaining_step w a w' :
  step cfg w a w' → closed (w_pipe w) →
  (remaining (w_pipe w') < remaining (w_pipe w))%nat
  ∨ Pipeline.input (w_pipe w') = Pipeline.input (w_pipe w)
    ∧ (Pipeline.workers (w_pipe w')).*1 = (Pipeline.workers (w_pipe w)).*1.
Proof.
  intros [(Hq & e & ->)|[(k & e & n & d & Hk & _)|
    [(i & ph & b & e & q & b' & n & Hw & Hph & Hq & Hb & ->)|[(i & b & n & Hw & ->)|
    [(i & b & Hw & Hq & ->)|[(i & b & n & Hw & Hq & ->)| ->]]]]]]%step_shape (Hc & Hch & _); unfold remaining;
    simpl; [congruence|by rewrite Hch in Hk|left|right|left|left|by right].
  - pose proof (sum_insert _ _ _ _ ph b' Hw). rewrite Hq. simpl. lia.
  - split; [done|]. rewrite list_fmap_insert. simpl. apply list_insert_id. by rewrite list_lookup_fmap, Hw.
  - pose proof (sum_insert _ _ _ _ Draining b Hw). simpl in *. lia.
  - pose proof (sum_insert _ _ _ _ Exited [] Hw). simpl in *. lia.
Qed.

(** A worker that has not returned has a step that leaves less to do. *)
Lemma worker_progress w i ph b :
  Pipeline.quit (w_pipe w) = true → Pipeline.workers (w_pipe w) !! i = Some (ph, b) → ph ≠ Exited →
  ∃ a w1, step cfg w a w1 ∧ (remaining (w_pipe w1) < remaining (w_pipe w))%nat
    ∧ Pipeline.quit (w_pipe w1) = true ∧ accepted [a] = [].
Proof.
  intros Hq Hi Hph.
  assert (Hacc : ∀ b w, accepted [flush_act b w] = []).
  { intros b' w'. unfold flush_act. destruct b'; [done|]. by destruct (_.1). }
  destruct ph; [| |done].
  - eexists _, _. split; [by eapply (step_quit cfg i b w)|].
    rewrite (start_drain_spec i Running b w Hi). unfold remaining. simpl.
    pose proof (sum_insert _ _ _ _ Draining b Hi). simpl in *. split_and!; [lia | done..].
  - destruct (Pipeline.input (w_pipe w)) as [|e q] eqn:Eq.
    + eexists _, _. split; [by eapply (step_finish cfg i b w)|].
      destruct (finish_spec cfg L i Draining b w Hi) as [_ ->]. unfold remaining. simpl. rewrite Eq.
      pose proof (sum_insert _ _ _ _ Exited [] Hi). simpl in *. split_and!; [lia | done | apply Hacc].
    + eexists _, _. split; [eapply (step_receive cfg i Draining b w Hi); [done | by rewrite Eq]|].
      destruct (receive_spec cfg L i Draining b e q w Hi Eq) as [_ ->]. unfold remaining. rewrite Eq.
      assert (Hacc' : accepted [receive_act cfg i w] = []).
      { unfold receive_act. rewrite Eq. unfold worker. rewrite Hi. cbv zeta. by destruct (_ <=? _). }
      destruct (_ <=? _); simpl; (split_and!; [|done|done]).
      * pose proof (sum_insert _ _ _ _ Draining [] Hi). simpl in *. lia.
      * pose proof (sum_insert _ _ _ _ Draining (b ++ [enrich e (PipelineCfg.geo cfg) (PipelineCfg.salt cfg)]) Hi).
        simpl in *. lia.
Qed.

(** C29: A shutdown terminates.  Once the flag is raised with no producer past its first
    select, this stays so; no step adds work; a step that does not take some of it away
    changes neither the channel nor a worker's phase; every worker that has not returned
    can always take some away.  So under any scheduling that keeps running the workers
    they all return, and they can within as many steps as there are buffered events and
    phases left. *)
Theorem shutdown_terminates w :
  closed (w_pipe w) →
  (∀ a w', step cfg w a w' → closed (w_pipe w')
     ∧ ((remaining (w_pipe w') < remaining (w_pipe w))%nat
        ∨ Pipeline.input (w_pipe w') = Pipeline.input (w_pipe w)
          ∧ (Pipeline.workers (w_pipe w')).*1 = (Pipeline.workers (w_pipe w)).*1))
  ∧ (∀ i ph b, Pipeline.workers (w_pipe w) !! i = Some (ph, b) → ph ≠ Exited →
     ∃ a w', step cfg w a w' ∧ (remaining (w_pipe w') < remaining (w_pipe w))%nat)
  ∧ ∃ acts w', run cfg w acts w' ∧ Forall (λ x, x.1 = Exited) (Pipeline.workers (w_pipe w'))
    ∧ (length acts ≤ remaining (w_pipe w))%nat ∧ accepted acts = [].
Proof.
  intros Hcl. pose proof Hcl as (Hq & _). split_and!.
  { intros a w' Hs. eauto using closed_step, remaining_step. }
  { intros i ph b Hi Hph. destruct (worker_progress w i ph b Hq Hi Hph) as (a & w1 & ? & ? & _). eauto. }
  clear Hcl. remember (remaining (w_pipe w)) as n eqn:Hn. revert w Hn Hq.
  induction n as [n IH] using (well_founded_induction lt_wf). intros w -> Hq.
  destruct (decide (Forall (λ x, x.1 = Exited) (Pipeline.workers (w_pipe w)))) as [Hall|Hnot].
  { exists [], w. split_and!; [apply run_nil | done | simpl; lia | done]. }
  apply not_Forall_Exists in Hnot; [|intros ?; apply _].
  apply Exists_exists in Hnot as ([ph b] & Hin & Hph). simpl in Hph.
  apply list_elem_of_lookup in Hin as [i Hi].
  destruct (worker_progress w i ph b Hq Hi Hph) as (a & w1 & Hstep & Hlt & Hq1 & Ha).
  destruct (IH (remaining (w_pipe w1)) Hlt w1 eq_refl Hq1) as (acts & w' & Hrun & Hex & Hlen & Hac).
  exists (a :: acts), w'. split_and!; [by eapply run_step | done | simpl; lia |].
  by rewrite accepted_cons, Ha, Hac.
Qed.
End shutdown.
