(* ===== verification/Delivery.v ===== *)
(** The webhook dispatcher (internal/webhook/dispatcher.go, signer.go): queues, fan-out
    to subscribers, signed deliveries with the redirects its HTTP client follows, retries
    and dead-lettering, shutdown. *)
From stdpp Require Import prelude gmap strings list.
From Stdlib Require Import Ascii.
From S2P Require Import Prelude GoStd Sha256 NetUrl Domain Wire World Schema LinkRepo KeyRepo WebhookRepo.

Local Open Scope Z_scope.

(** * Signatures (signer.go) *)

Definition SignatureHeader : string := "X-Webhook-Signature".
Definition TimestampHeader : string := "X-Webhook-Timestamp".
Definition EventHeader : string := "X-Webhook-Event".
Definition IDHeader : string := "X-Webhook-Id".

Definition Sign (secret payload : string) : string :=
  "sha256=" +:+ hex_encode (hmac_sha256 (bytes_of secret) (bytes_of payload)).

(** [hmac.Equal] is a constant-time comparison. *)
Definition Verify (secret payload signature : string) : bool :=
  ConstantTimeHashEqual (Sign secret payload) signature.

(** * The dispatcher *)

(** [config.WebhookConfig], as the dispatcher uses it. *)
Module WebhookConfig.
Record t := Mk {
  Workers : Z;
  QueueSize : Z;
  MaxRetries : Z;
  BaseBackoff : Duration;
  MaxBackoff : Duration;
  Timeout : Duration;
  DisableAfter : Z;
}.
End WebhookConfig.

(** The threshold [NewDispatcher] settles on. *)
Definition disableThreshold (cfg : WebhookConfig.t) : Z :=
  if WebhookConfig.DisableAfter cfg <? 1 then 10 else WebhookConfig.DisableAfter cfg.

(** [NewDispatcher] and [Start]. *)
Definition NewDispatcher (cfg : WebhookConfig.t) : Dispatcher.t :=
  Dispatcher.Mk [] [] false Running (replicate (Z.to_nat (WebhookConfig.Workers cfg)) Running) [] [] [] 0.

Definition upd_events (f : list Event.t → list Event.t) (d : Dispatcher.t) : Dispatcher.t :=
  Dispatcher.Mk (f (Dispatcher.events d)) (Dispatcher.jobs d) (Dispatcher.quit d) (Dispatcher.resolver d)
    (Dispatcher.senders d) (Dispatcher.timers d) (Dispatcher.posts d) (Dispatcher.sent d) (Dispatcher.dropped d).
Definition upd_jobs (f : list Job.t → list Job.t) (d : Dispatcher.t) : Dispatcher.t :=
  Dispatcher.Mk (Dispatcher.events d) (f (Dispatcher.jobs d)) (Dispatcher.quit d) (Dispatcher.resolver d)
    (Dispatcher.senders d) (Dispatcher.timers d) (Dispatcher.posts d) (Dispatcher.sent d) (Dispatcher.dropped d).
Definition upd_resolver (f : phase → phase) (d : Dispatcher.t) : Dispatcher.t :=
  Dispatcher.Mk (Dispatcher.events d) (Dispatcher.jobs d) (Dispatcher.quit d) (f (Dispatcher.resolver d))
    (Dispatcher.senders d) (Dispatcher.timers d) (Dispatcher.posts d) (Dispatcher.sent d) (Dispatcher.dropped d).
Definition upd_senders (f : list phase → list phase) (d : Dispatcher.t) : Dispatcher.t :=
  Dispatcher.Mk (Dispatcher.events d) (Dispatcher.jobs d) (Dispatcher.quit d) (Dispatcher.resolver d)
    (f (Dispatcher.senders d)) (Dispatcher.timers d) (Dispatcher.posts d) (Dispatcher.sent d) (Dispatcher.dropped d).
Definition upd_timers (f : list (Time * Job.t) → list (Time * Job.t)) (d : Dispatcher.t) : Dispatcher.t :=
  Dispatcher.Mk (Dispatcher.events d) (Dispatcher.jobs d) (Dispatcher.quit d) (Dispatcher.resolver d)
    (Dispatcher.senders d) (f (Dispatcher.timers d)) (Dispatcher.posts d) (Dispatcher.sent d) (Dispatcher.dropped d).
Definition upd_posts (f : list Job.t → list Job.t) (d : Dispatcher.t) : Dispatcher.t :=
  Dispatcher.Mk (Dispatcher.events d) (Dispatcher.jobs d) (Dispatcher.quit d) (Dispatcher.resolver d)
    (Dispatcher.senders d) (Dispatcher.timers d) (f (Dispatcher.posts d)) (Dispatcher.sent d) (Dispatcher.dropped d).
Definition upd_sent (f : list (Job.t * HttpRequest.t) → list (Job.t * HttpRequest.t)) (d : Dispatcher.t) : Dispatcher.t :=
  Dispatcher.Mk (Dispatcher.events d) (Dispatcher.jobs d) (Dispatcher.quit d) (Dispatcher.resolver d)
    (Dispatcher.senders d) (Dispatcher.timers d) (Dispatcher.posts d) (f (Dispatcher.sent d)) (Dispatcher.dropped d).
Definition drop_one (d : Dispatcher.t) : Dispatcher.t :=
  Dispatcher.Mk (Dispatcher.events d) (Dispatcher.jobs d) (Dispatcher.quit d) (Dispatcher.resolver d)
    (Dispatcher.senders d) (Dispatcher.timers d) (Dispatcher.posts d) (Dispatcher.sent d) (Dispatcher.dropped d + 1).
Definition close_dispatch (d : Dispatcher.t) : Dispatcher.t :=
  Dispatcher.Mk (Dispatcher.events d) (Dispatcher.jobs d) true (Dispatcher.resolver d)
    (Dispatcher.senders d) (Dispatcher.timers d) (Dispatcher.posts d) (Dispatcher.sent d) (Dispatcher.dropped d).

Section dispatcher.
Context `{O : Oracle} `{Codec} (cfg : WebhookConfig.t).

(** The stamps a dispatched event gets when they are absent. *)
Definition stamp_id (ev : Event.t) : M Event.t :=
  if (Event.ID ev =? uuid_Nil)%N then
    n ← tick;
    mret (Event.Mk (o_uuid n) (Event.Type_ ev) (Event.TenantID ev) (Event.OccurredAt ev) (Event.Data ev))
  else mret ev.

Definition stamp_time (ev : Event.t) : M Event.t :=
  if Event.OccurredAt ev =? zero_time then
    t ← now;
    mret (Event.Mk (Event.ID ev) (Event.Type_ ev) (Event.TenantID ev) t (Event.Data ev))
  else mret ev.

(** The two selects of [Dispatch]. *)
Definition offer_event (ev : Event.t) : M bool :=
  d ← gets w_disp;
  if Dispatcher.quit d then mret false
  else if Z.of_nat (length (Dispatcher.events d)) <? WebhookConfig.QueueSize cfg then
    modify (upd_disp (upd_events (λ q, q ++ [ev])));; mret true
  else modify (upd_disp drop_one);; mret false.

Definition Dispatch (ev : Event.t) : M bool :=
  ev ← stamp_id ev;
  ev ← stamp_time ev;
  offer_event ev.

Definition enqueueJob (j : Job.t) : M () :=
  d ← gets w_disp;
  if Dispatcher.quit d then mret ()
  else if Z.of_nat (length (Dispatcher.jobs d)) <? WebhookConfig.QueueSize cfg then
    modify (upd_disp (upd_jobs (λ q, q ++ [j])))
  else modify (upd_disp drop_one).

(** The loop over the subscribers. *)
Fixpoint enqueue_all (ev : Event.t) (payload : string) (hooks : list Webhook.t) : M () :=
  match hooks with
  | [] => mret ()
  | h :: hooks => enqueueJob (Job.Mk h ev payload 0);; enqueue_all ev payload hooks
  end.

Definition resolve (ev : Event.t) : M () :=
  r ← attempt (WebhookRepository.ListActiveForEvent (Event.TenantID ev) (Event.Type_ ev));
  match r with
  | inr _ => mret ()
  | inl [] => mret ()
  | inl hooks =>
      match event_Marshal ev with
      | None => mret ()
      | Some payload => enqueue_all ev payload hooks
      end
  end.

(** [rand.Int64N(n)] panics when n is not positive. *)
Definition rand_Int64N (k : Z) : M Z :=
  if k <=? 0 then panic "invalid argument to Int64N" else n ← tick; mret (o_int64n n k).

Definition backoff (attempt : Z) : M Duration :=
  let delay := shl64 (WebhookConfig.BaseBackoff cfg) attempt in
  let delay := if (delay <=? 0) || (WebhookConfig.MaxBackoff cfg <? delay)
               then WebhookConfig.MaxBackoff cfg else delay in
  let half := Z.quot delay 2 in
  r ← rand_Int64N (wrap64 (half + 1));
  mret (half + r).

(** The headers of a delivery, in the order they are set. *)
Definition headers (j : Job.t) : list (string * string) :=
  [("Content-Type", "application/json");
   (SignatureHeader, Sign (Webhook.Secret (Job.webhook j)) (Job.payload j));
   (TimestampHeader, Itoa (Unix (Event.OccurredAt (Job.event j))));
   (EventHeader, Event.Type_ (Job.event j));
   (IDHeader, uuid_String (Event.ID (Job.event j)))].

(** [http.NewRequestWithContext] and the calls of Header.Set: it fails for a URL that
    does not parse. *)
Definition new_request (j : Job.t) : option HttpRequest.t :=
  match NetUrl.Parse (Webhook.URL (Job.webhook j)) with
  | None => None
  | Some _ => Some (HttpRequest.Mk "POST" (Webhook.URL (Job.webhook j))
      (foldl (λ h kv, <[kv.1 := kv.2]> h) ∅ (headers j)) (Job.payload j))
  end.

(** ** http.Client

    [d.client] has a timeout and nothing else: it follows redirects, as net/http does by
    default.  [redirectBehavior]: the method of the next request, and whether it takes the
    body of the first along, which [bytes.NewReader] lets it read again. *)
Definition redirectBehavior (method : string) (code : Z) : option (string * bool) :=
  if (code =? 301) || (code =? 302) || (code =? 303) then
    Some (if String.eqb method "GET" || String.eqb method "HEAD" then method else "GET", false)
  else if (code =? 307) || (code =? 308) then Some (method, true)
  else None.

(** The request a redirect leads to: the headers of the first, but for the one on the body
    when there is none. *)
Definition next_request (first : HttpRequest.t) (method : string) (body : bool) (url : string) : HttpRequest.t :=
  HttpRequest.Mk method url
    (if body then HttpRequest.Header first else delete "Content-Type" (HttpRequest.Header first))
    (if body then HttpRequest.Body first else "").

(** [client.Do]: [req] is sent, and up to [more] requests after it. *)
Fixpoint client_do (more : nat) (j : Job.t) (first req : HttpRequest.t) (body : bool) : M Z :=
  n ← tick;
  modify (upd_disp (upd_sent (λ l, l ++ [(j, req)])));;
  match o_http n req with
  | HttpError msg => fail (EOther msg)
  | HttpStatus code loc =>
      match redirectBehavior (HttpRequest.Method req) code, loc with
      | None, _ | _, NoLocation => mret code
      | Some _, BadLocation h => fail (EOther ("failed to parse Location header " +:+ h))
      | Some (method, b), LocatedAt url =>
          match more with
          | 0%nat => fail (EOther "stopped after 10 redirects")
          | S more => client_do more j first (next_request first method (body && b) url) (body && b)
          end
      end
  end.

Definition client_Do (j : Job.t) (req : HttpRequest.t) : M Z := client_do 9 j req req true.

(** One attempt, made within the deadline set when it starts: the answer to the last
    request decides.  The text of a parse error, which reaches the log only, is the URL
    here. *)
Definition post (j : Job.t) : M () :=
  modify (upd_disp (upd_posts (λ l, l ++ [j])));;
  match new_request j with
  | None => fail (errorf "build webhook request" (EOther (Webhook.URL (Job.webhook j))))
  | Some req =>
      r ← attempt (client_Do j req);
      match r with
      | inr err => fail (errorf "webhook post" err)
      | inl code =>
          if (code <? 200) || (300 <=? code)
          then fail (EOther ("webhook endpoint returned " +:+ Itoa code))
          else mret ()
      end
  end.

Definition retry_of (j : Job.t) : Job.t :=
  Job.Mk (Job.webhook j) (Job.event j) (Job.payload j) (Job.attempt j + 1).

Definition deliver (j : Job.t) : M () :=
  r ← attempt (post j);
  match r with
  | inl _ => attempt (WebhookRepository.RecordSuccess (Webhook.ID (Job.webhook j)));; mret ()
  | inr _ =>
      if Job.attempt j <? WebhookConfig.MaxRetries cfg then
        delay ← backoff (Job.attempt j);
        t ← now;
        modify (upd_disp (upd_timers (λ l, l ++ [(t + delay, retry_of j)])))
      else
        attempt (WebhookRepository.RecordFailure (Webhook.ID (Job.webhook j)) (disableThreshold cfg));;
        mret ()
  end.

(** The first half of [Shutdown]. *)
Definition dispatcher_shutdown : M () := modify (upd_disp close_dispatch).

(** ** The goroutines

    [resolveLoop] takes an event, [sendLoop] a job; a timer fires at or after its
    instant; the flag moves a loop to its draining half, which returns once its
    channel is empty. *)
Definition take_event (ev : Event.t) (q : list Event.t) (w : World) : World :=
  (resolve ev (upd_disp (upd_events (λ _, q)) w)).2.

Definition take_job (j : Job.t) (q : list Job.t) (w : World) : World :=
  (deliver j (upd_disp (upd_jobs (λ _, q)) w)).2.

(** A step is labelled with the events it resolves. *)
Inductive dstep : World → list Event.t → World → Prop :=
  | dstep_dispatch ev w : dstep w [] (Dispatch ev w).2
  | dstep_resolve ev q w :
      Dispatcher.resolver (w_disp w) ≠ Exited → Dispatcher.events (w_disp w) = ev :: q →
      dstep w [ev] (take_event ev q w)
  | dstep_resolver_quit w :
      Dispatcher.resolver (w_disp w) = Running → Dispatcher.quit (w_disp w) = true →
      dstep w [] (upd_disp (upd_resolver (λ _, Draining)) w)
  | dstep_resolver_exit w :
      Dispatcher.resolver (w_disp w) = Draining → Dispatcher.events (w_disp w) = [] →
      dstep w [] (upd_disp (upd_resolver (λ _, Exited)) w)
  | dstep_send i ph j q w :
      Dispatcher.senders (w_disp w) !! i = Some ph → ph ≠ Exited → Dispatcher.jobs (w_disp w) = j :: q →
      dstep w [] (take_job j q w)
  | dstep_sender_quit i w :
      Dispatcher.senders (w_disp w) !! i = Some Running → Dispatcher.quit (w_disp w) = true →
      dstep w [] (upd_disp (upd_senders <[i := Draining]>) w)
  | dstep_sender_exit i w :
      Dispatcher.senders (w_disp w) !! i = Some Draining → Dispatcher.jobs (w_disp w) = [] →
      dstep w [] (upd_disp (upd_senders <[i := Exited]>) w)
  | dstep_timer k t j w :
      Dispatcher.timers (w_disp w) !! k = Some (t, j) → t <= o_now (w_step w) →
      dstep w [] (enqueueJob j (upd_disp (upd_timers (delete k)) w)).2
  | dstep_shutdown w : dstep w [] (dispatcher_shutdown w).2.

(** A run, with the events resolved in it, in order.  The rest of the program runs
    between two steps: it may rewrite the tables, whose webhooks stay sound, and move the
    pipeline, but reaches the dispatcher by [Dispatch] and [Shutdown] only. *)
Inductive drun : World → list Event.t → World → Prop :=
  | drun_refl w : drun w [] w
  | drun_step w evs w1 evs' w2 : dstep w evs w1 → drun w1 evs' w2 → drun w (evs ++ evs') w2
  | drun_elsewhere w w1 evs w2 :
      w_disp w1 = w_disp w → (webhooks_sound w → webhooks_sound w1) → drun w1 evs w2 → drun w evs w2.
End dispatcher.

(** * Signatures *)

(** A signature verifies the payload it was made for under its secret, and no other
    string does. *)
Theorem Verify_Sign secret payload signature :
  Verify secret payload signature = true ↔ signature = Sign secret payload.
Proof. unfold Verify. rewrite ConstantTimeHashEqual_eq. by split. Qed.

(** * Requests *)

(** What a receiver sees of a job: a POST to the webhook's URL whose body is the payload
    and whose headers verify it under the webhook's secret and name the event. *)
Record signed_request `{Codec} (j : Job.t) (req : HttpRequest.t) : Prop := {
  req_method : HttpRequest.Method req = "POST";
  req_url : HttpRequest.URL req = Webhook.URL (Job.webhook j);
  req_body : HttpRequest.Body req = Job.payload j;
  req_type : HttpRequest.Header req !! "Content-Type" = Some "application/json";
  req_signature : ∃ signature, HttpRequest.Header req !! SignatureHeader = Some signature
    ∧ Verify (Webhook.Secret (Job.webhook j)) (HttpRequest.Body req) signature = true;
  req_timestamp : HttpRequest.Header req !! TimestampHeader = Some (Itoa (Unix (Event.OccurredAt (Job.event j))));
  req_event : HttpRequest.Header req !! EventHeader = Some (Event.Type_ (Job.event j));
  req_id : HttpRequest.Header req !! IDHeader = Some (uuid_String (Event.ID (Job.event j)));
}.

Lemma new_request_signed `{Codec} j req : new_request j = Some req → signed_request j req.
Proof.
  unfold new_request. destruct (NetUrl.Parse _); [|done]. intros [= <-].
  split; try done. eexists. split; [reflexivity|].
  unfold Verify. by apply ConstantTimeHashEqual_eq.
Qed.

(** A validated URL always makes a request. *)
Lemma new_request_made `{Codec} j : valid_url (Webhook.URL (Job.webhook j)) → ∃ req, new_request j = Some req.
Proof. intros (s & h & E & _). unfold new_request. rewrite E. eauto. Qed.

(** * Backoff *)

Section backoff.
Context `{O : Oracle} (cfg : WebhookConfig.t).

(** The delay before jitter: doubling from the base, capped, overflow included. *)
Definition capped_delay (attempt : Z) : Duration :=
  let delay := shl64 (WebhookConfig.BaseBackoff cfg) attempt in
  if (delay <=? 0) || (WebhookConfig.MaxBackoff cfg <? delay) then WebhookConfig.MaxBackoff cfg else delay.

Lemma capped_delay_range attempt :
  0 <= WebhookConfig.MaxBackoff cfg <= max_int64 →
  0 <= capped_delay attempt <= WebhookConfig.MaxBackoff cfg.
Proof.
  intros Hmax. unfold capped_delay. destruct (Z.leb_spec (shl64 (WebhookConfig.BaseBackoff cfg) attempt) 0),
    (Z.ltb_spec (WebhookConfig.MaxBackoff cfg) (shl64 (WebhookConfig.BaseBackoff cfg) attempt)); simpl; lia.
Qed.

(** The backoff consumes one effect and stays in the upper half of the capped delay. *)
Lemma backoff_run attempt w :
  0 <= attempt → 0 <= WebhookConfig.MaxBackoff cfg <= max_int64 →
  ∃ d, capped_delay attempt / 2 <= d <= capped_delay attempt
    ∧ backoff cfg attempt w = (Ok d, set_step (S (w_step w)) w).
Proof.
  intros Ha Hmax. unfold backoff. fold (capped_delay attempt).
  pose proof (capped_delay_range attempt Hmax) as Hcap.
  change (if (shl64 _ attempt <=? 0) || _ then _ else _) with (capped_delay attempt).
  cbv zeta. set (d := capped_delay attempt) in *. rewrite Z.quot_div_nonneg by lia.
  assert (Hhalf : 0 <= d / 2 <= d) by (split; [apply Z.div_pos; lia | apply Z.div_le_upper_bound; lia]).
  assert (Hd2 : 2 * (d / 2) <= d) by (apply Z.mul_div_le; lia).
  rewrite wrap64_id by (unfold min_int64, max_int64 in *; lia).
  unfold rand_Int64N. rewrite (proj2 (Z.leb_gt _ _)) by lia.
  pose proof (o_int64n_range (w_step w) (d / 2 + 1) ltac:(lia)) as Hr.
  eexists. split; [|reflexivity]. lia.
Qed.

(** The delay before a retry.  With a cap between 0 and the largest duration, the
    backoff never panics, whatever the attempt and whatever overflows; it lies between
    half of the capped doubling and all of it, so never above the cap; and as long as
    the doubling stays within the cap it is base times two to the attempt. *)
Theorem backoff_bounds attempt w :
  0 <= attempt → 0 <= WebhookConfig.MaxBackoff cfg <= max_int64 →
  ∃ d w', backoff cfg attempt w = (Ok d, w')
    ∧ capped_delay attempt / 2 <= d <= capped_delay attempt
    ∧ capped_delay attempt <= WebhookConfig.MaxBackoff cfg
    ∧ (0 < WebhookConfig.BaseBackoff cfg →
       WebhookConfig.BaseBackoff cfg * 2 ^ attempt <= WebhookConfig.MaxBackoff cfg →
       capped_delay attempt = WebhookConfig.BaseBackoff cfg * 2 ^ attempt).
Proof.
  intros Ha Hmax. destruct (backoff_run attempt w Ha Hmax) as (d & Hr & E).
  exists d, (set_step (S (w_step w)) w). split_and!; [done|lia|lia|by apply capped_delay_range|].
  intros Hb Hle. unfold capped_delay, shl64. rewrite Z.shiftl_mul_pow2 by done.
  rewrite wrap64_id by (unfold min_int64, max_int64 in *; nia).
  assert (0 < WebhookConfig.BaseBackoff cfg * 2 ^ attempt) by (apply Z.mul_pos_pos; lia).
  rewrite (proj2 (Z.leb_gt _ _)), (proj2 (Z.ltb_ge _ _)) by lia. done.
Qed.
End backoff.

(** * The steps of the dispatcher *)

Section steps.
Context `{O : Oracle} `{Codec} (cfg : WebhookConfig.t).

(** What [enqueueJob] does to the dispatcher. *)
Definition offer (d : Dispatcher.t) (j : Job.t) : Dispatcher.t :=
  if Dispatcher.quit d then d
  else if Z.of_nat (length (Dispatcher.jobs d)) <? WebhookConfig.QueueSize cfg
  then upd_jobs (λ q, q ++ [j]) d
  else drop_one d.

Lemma upd_disp_id w : upd_disp (λ d, d) w = w.
Proof. by destruct w. Qed.

Lemma enqueueJob_run j w : enqueueJob cfg j w = (Ok (), upd_disp (λ d, offer d j) w).
Proof.
  unfold enqueueJob. rewrite gets_bind. unfold upd_disp, offer.
  destruct (Dispatcher.quit _); [by destruct w|]. by destruct (_ <? _).
Qed.

Lemma enqueue_all_run ev payload hooks w :
  enqueue_all cfg ev payload hooks w
  = (Ok (), upd_disp (λ d, foldl offer d ((λ h, Job.Mk h ev payload 0) <$> hooks)) w).
Proof.
  revert w. induction hooks as [|h hooks IH]; intros w; [by destruct w|].
  cbn [enqueue_all]. rewrite (bind_run _ _ _ _ _ (enqueueJob_run _ _)), IH. done.
Qed.

Lemma ListActiveForEvent_reads t ev : reads (WebhookRepository.ListActiveForEvent t ev).
Proof. unfold WebhookRepository.ListActiveForEvent. reads. Qed.

Lemma ListActiveForEvent_no_panic t ev : no_panic (WebhookRepository.ListActiveForEvent t ev).
Proof. unfold WebhookRepository.ListActiveForEvent. no_panic. Qed.

(** Resolving an event enqueues one fresh job per hook of some list without
    duplicates, or nothing. *)
Lemma resolve_disp ev w :
  ∃ hooks payload,
    w_disp (resolve cfg ev w).2 = foldl offer (w_disp w) ((λ h, Job.Mk h ev payload 0) <$> hooks)
    ∧ (webhooks_sound w → NoDup (Webhook.ID <$> hooks))
    ∧ ∀ h, h ∈ hooks → event_Marshal ev = Some payload
        ∧ (∃ id, DB.webhooks (w_db w) !! id = Some h)
        ∧ listening (Event.TenantID ev) (Event.Type_ ev) h = true.
Proof.
  assert (Hnone : ∀ w', w_disp w' = w_disp w → ∃ hooks payload,
    w_disp w' = foldl offer (w_disp w) ((λ h, Job.Mk h ev payload 0) <$> hooks)
    ∧ (webhooks_sound w → NoDup (Webhook.ID <$> hooks))
    ∧ ∀ h, h ∈ hooks → event_Marshal ev = Some payload
        ∧ (∃ id, DB.webhooks (w_db w) !! id = Some h)
        ∧ listening (Event.TenantID ev) (Event.Type_ ev) h = true).
  { intros w' E. exists [], "". split_and!; [done|intros; apply NoDup_nil_2|by intros h ?%elem_of_nil]. }
  unfold resolve. rewrite attempt_bind.
  destruct (WebhookRepository.ListActiveForEvent _ _ w) as [[hs|e|p] w1] eqn:E;
    pose proof E as Hout; apply reads_out in E as (n & _ & ->); try (apply ListActiveForEvent_reads);
    [|by apply Hnone..].
  destruct hs as [|h hs]; [by apply Hnone|].
  destruct (event_Marshal ev) as [payload|]; [|by apply Hnone].
  rewrite enqueue_all_run. exists (h :: hs), payload. split_and!; [done|intros; by eapply listed_NoDup|].
  intros h' Hh'. split; [done|]. by eapply listed_listens.
Qed.

Lemma RecordSuccess_disp id w : w_disp (WebhookRepository.RecordSuccess id w).2 = w_disp w.
Proof.
  assert (Hp : preserves (λ w', w_disp w' = w_disp w) (WebhookRepository.RecordSuccess id)).
  { unfold WebhookRepository.RecordSuccess. preserve; done. }
  by apply Hp.
Qed.

Lemma RecordFailure_disp id k w : w_disp (WebhookRepository.RecordFailure id k w).2 = w_disp w.
Proof.
  assert (Hp : preserves (λ w', w_disp w' = w_disp w) (WebhookRepository.RecordFailure id k)).
  { unfold WebhookRepository.RecordFailure, record_failure. preserve; done. }
  by apply Hp.
Qed.

(** What [client_do] sends from its [n]-th effect on, and what it returns. *)
Fixpoint trail (more n : nat) (first req : HttpRequest.t) (body : bool) : list HttpRequest.t * (Z + error) :=
  match o_http n req with
  | HttpError msg => ([req], inr (EOther msg))
  | HttpStatus code loc =>
      match redirectBehavior (HttpRequest.Method req) code, loc with
      | None, _ | _, NoLocation => ([req], inl code)
      | Some _, BadLocation h => ([req], inr (EOther ("failed to parse Location header " +:+ h)))
      | Some (method, b), LocatedAt url =>
          match more with
          | 0%nat => ([req], inr (EOther "stopped after 10 redirects"))
          | S more =>
              let o := trail more (S n) first (next_request first method (body && b) url) (body && b) in
              (req :: o.1, o.2)
          end
      end
  end.

Definition sent_for (j : Job.t) (rs : list HttpRequest.t) : list (Job.t * HttpRequest.t) := (λ r, (j, r)) <$> rs.

Definition sending (j : Job.t) (rs : list HttpRequest.t) (w : World) : World :=
  upd_disp (upd_sent (λ l, l ++ sent_for j rs)) (set_step (w_step w + length rs) w).

Definition outcome {A} (r : A + error) : res A := match r with inl a => Ok a | inr e => Err e end.

Lemma client_do_run more j first req body w :
  let o := trail more (w_step w) first req body in
  client_do more j first req body w = (outcome o.2, sending j o.1 w).
Proof.
  assert (Hone : ∀ r w, upd_disp (upd_sent (λ l, l ++ [(j, r)])) (set_step (S (w_step w)) w) = sending j [r] w).
  { intros r u. unfold sending. simpl. by rewrite Nat.add_1_r. }
  revert req body w. induction more as [|more IH]; intros req body w; cbv zeta; cbn [client_do trail];
    unfold tick; unfold mbind, M_bind; simpl; rewrite Hone;
    (destruct (o_http (w_step w) req) as [msg|code loc]; [done|]);
    (destruct (redirectBehavior _ _) as [[method b]|]; [|done]); destruct loc as [|url|h]; try done.
  rewrite IH. unfold sending. simpl. rewrite Nat.add_1_r. f_equal.
  unfold upd_disp, upd_sent, sent_for. csimpl. rewrite <- (assoc_L (++)). simpl.
  unfold set_step. simpl. f_equal. lia.
Qed.

#[local] Arguments trail : simpl never.

Lemma client_do_keeps (I : World → Prop) more j first req body :
  (∀ f w, I w → I (upd_disp f w)) → (∀ n w, I w → I (set_step n w)) → preserves I (client_do more j first req body).
Proof. intros Hf Hn w Hw. rewrite client_do_run. apply Hf, Hn, Hw. Qed.

(** The requests of an attempt made from the [n]-th effect on, and its outcome. *)
Definition exchange (n : nat) (j : Job.t) : list HttpRequest.t * (Z + error) :=
  match new_request j with
  | None => ([], inr (EOther (Webhook.URL (Job.webhook j))))
  | Some req => trail 9 n req req true
  end.

(** The world after an attempt, which made its requests. *)
Definition attempted (j : Job.t) (w : World) : World :=
  sending j (exchange (w_step w) j).1 (upd_disp (upd_posts (λ l, l ++ [j])) w).

Lemma post_world j w : (post j w).2 = attempted j w.
Proof.
  unfold post, attempted, exchange. rewrite modify_bind. set (w0 := upd_disp _ w).
  destruct (new_request j) as [req|].
  2: { unfold sending, w0. simpl. rewrite Nat.add_0_r. unfold upd_sent, upd_disp, set_step. simpl. by rewrite app_nil_r. }
  rewrite attempt_bind. unfold client_Do. rewrite client_do_run. simpl.
  destruct (trail 9 (w_step w) req req true) as [rs [code|e]]; simpl; [by destruct (_ || _)|done].
Qed.

Lemma client_do_no_panic more j first req body : no_panic (client_do more j first req body).
Proof. intros w s w'. rewrite client_do_run. cbv zeta. by destruct (trail _ _ _ _ _).2. Qed.

Lemma post_no_panic j : no_panic (post j).
Proof. unfold post, client_Do. no_panic. apply client_do_no_panic. Qed.

(** A delivery posts once, and schedules at most the next attempt. *)
Lemma deliver_disp j w :
  ∃ ts, w_disp (deliver cfg j w).2
        = upd_timers (λ l, l ++ ts) (upd_sent (λ l, l ++ sent_for j (exchange (w_step w) j).1)
            (upd_posts (λ l, l ++ [j]) (w_disp w)))
    ∧ (ts = [] ∨ Job.attempt j < WebhookConfig.MaxRetries cfg ∧ ∃ t, ts = [(t, retry_of j)]).
Proof.
  assert (Hnil : ∀ d, upd_timers (λ l, l ++ []) d = d).
  { intros []. unfold upd_timers. simpl. by rewrite app_nil_r. }
  unfold deliver. rewrite attempt_bind.
  pose proof (post_world j w) as Hw. destruct (post j w) as [[u|e|p] w1] eqn:E; simpl in Hw; subst w1.
  - exists []. rewrite Hnil. split; [|by left]. rewrite attempt_then by (unfold WebhookRepository.RecordSuccess; no_panic).
    simpl. by rewrite RecordSuccess_disp.
  - destruct (Z.ltb_spec (Job.attempt j) (WebhookConfig.MaxRetries cfg)).
    + unfold backoff, rand_Int64N. cbv zeta. set (half := Z.quot _ 2).
      destruct (wrap64 (half + 1) <=? 0); [exists []; rewrite Hnil; split; [done | by left]|].
      unfold tick, now, mbind, M_bind. simpl. eexists [_]. split; [done|]. right. eauto.
    + exists []. rewrite Hnil. split; [|by left]. rewrite attempt_then
        by (unfold WebhookRepository.RecordFailure, record_failure; no_panic).
      simpl. by rewrite RecordFailure_disp.
  - by apply post_no_panic in E.
Qed.
End steps.

(** * Fan-out *)

Section fanout.
Context `{O : Oracle} `{Codec} (cfg : WebhookConfig.t).

Definition fresh_jobs (ev : Event.t) (payload : string) (hooks : list Webhook.t) : list Job.t :=
  (λ h, Job.Mk h ev payload 0) <$> hooks.

(** Jobs offered to a dispatcher that runs: what fits is queued in order, the rest is
    counted. *)
Lemma foldl_offer d js :
  Dispatcher.quit d = false → Z.of_nat (length (Dispatcher.jobs d)) <= WebhookConfig.QueueSize cfg →
  let q := take (Z.to_nat (WebhookConfig.QueueSize cfg)) (Dispatcher.jobs d ++ js) in
  foldl (offer cfg) d js
  = Dispatcher.Mk (Dispatcher.events d) q (Dispatcher.quit d) (Dispatcher.resolver d)
      (Dispatcher.senders d) (Dispatcher.timers d) (Dispatcher.posts d) (Dispatcher.sent d)
      (Dispatcher.dropped d + Z.of_nat (length (Dispatcher.jobs d ++ js)) - Z.of_nat (length q)).
Proof.
  revert d. induction js as [|j js IH]; intros d Hq Hlen; simpl.
  - rewrite app_nil_r, take_ge by lia. destruct d; simpl. f_equal. lia.
  - unfold offer at 2. rewrite Hq.
    destruct (Z.ltb_spec (Z.of_nat (length (Dispatcher.jobs d))) (WebhookConfig.QueueSize cfg)) as [Hroom|Hfull].
    + rewrite IH; [|done|unfold upd_jobs; simpl; rewrite length_app; simpl; lia].
      unfold upd_jobs. simpl. by rewrite <- !(assoc_L (++)), Hq.
    + rewrite IH; [|assumption..]. unfold drop_one. simpl.
      assert (Hn : Z.to_nat (WebhookConfig.QueueSize cfg) = length (Dispatcher.jobs d)) by lia.
      rewrite Hn, take_app_length, take_app_length, !length_app, Hq. simpl. f_equal. lia.
Qed.

End fanout.

(** * Deliveries *)

Section deliveries.
Context `{O : Oracle} `{Codec} (cfg : WebhookConfig.t).

#[local] Arguments trail : simpl never.

(** The attempt made from the [n]-th effect on ends with a 2xx answer. *)
Definition delivered (n : nat) (j : Job.t) : bool :=
  match (exchange n j).2 with inl code => (200 <=? code) && (code <? 300) | inr _ => false end.

Lemma post_run j w :
  if delivered (w_step w) j then post j w = (Ok (), attempted j w) else ∃ e, post j w = (Err e, attempted j w).
Proof.
  pose proof (post_world j w) as Hw. unfold delivered, exchange.
  assert (E : (post j w).1 = match new_request j with
    | None => Err (errorf "build webhook request" (EOther (Webhook.URL (Job.webhook j))))
    | Some req => match (trail 9 (w_step w) req req true).2 with
                  | inr err => Err (errorf "webhook post" err)
                  | inl code => if (code <? 200) || (300 <=? code)
                                then Err (EOther ("webhook endpoint returned " +:+ Itoa code)) else Ok ()
                  end
    end).
  { unfold post. rewrite modify_bind. destruct (new_request j) as [req|]; [|done].
    rewrite attempt_bind. unfold client_Do. rewrite client_do_run. simpl.
    destruct (trail 9 (w_step w) req req true) as [rs [code|e]]; simpl; [by destruct (_ || _)|done]. }
  destruct (post j w) as [r w1]. simpl in E, Hw. subst r w1.
  destruct (new_request j) as [req|]; [|by eexists]. destruct (trail _ _ _ _ _).2 as [code|e]; [|by eexists].
  destruct (Z.leb_spec 200 code), (Z.ltb_spec code 200), (Z.ltb_spec code 300), (Z.leb_spec 300 code);
    simpl; try lia; try done; by eexists.
Qed.

(** C22: One delivery, by the endpoint's answer.  It makes one attempt, whose requests are
    the POST and those its redirects lead to.  A 2xx answer to the last of them
    runs RecordSuccess and schedules nothing; a failed attempt before the last
    schedules exactly one retry, of the same webhook, event and payload with the next
    attempt number, due after a delay between half of the capped doubling and all of
    it, and writes nothing; the last failed attempt runs RecordFailure with the
    threshold of the configuration, and schedules nothing. *)
Theorem deliver_correct j w :
  0 <= Job.attempt j → 0 <= WebhookConfig.MaxBackoff cfg <= max_int64 →
  let w1 := attempted j w in
  let w' := (deliver cfg j w).2 in
  if delivered (w_step w) j then
    w' = (WebhookRepository.RecordSuccess (Webhook.ID (Job.webhook j)) w1).2
    ∧ Dispatcher.timers (w_disp w') = Dispatcher.timers (w_disp w)
  else if Job.attempt j <? WebhookConfig.MaxRetries cfg then
    ∃ d, capped_delay cfg (Job.attempt j) / 2 <= d <= capped_delay cfg (Job.attempt j)
      ∧ Dispatcher.timers (w_disp w')
        = Dispatcher.timers (w_disp w) ++ [(o_now (S (w_step w1)) + d, retry_of j)]
      ∧ Dispatcher.posts (w_disp w') = Dispatcher.posts (w_disp w) ++ [j]
      ∧ w_db w' = w_db w
  else
    w' = (WebhookRepository.RecordFailure (Webhook.ID (Job.webhook j)) (disableThreshold cfg) w1).2
    ∧ Dispatcher.timers (w_disp w') = Dispatcher.timers (w_disp w).
Proof.
  intros Ha Hmax. cbv zeta. unfold deliver. rewrite attempt_bind.
  pose proof (post_run j w) as Hpost.
  destruct (delivered _ _); [rewrite Hpost | destruct Hpost as [e ->]].
  - rewrite attempt_then by (unfold WebhookRepository.RecordSuccess; no_panic). simpl.
    by rewrite RecordSuccess_disp.
  - destruct (Job.attempt j <? WebhookConfig.MaxRetries cfg).
    + destruct (backoff_run cfg (Job.attempt j) (attempted j w) Ha Hmax) as (d & Hr & E).
      rewrite (bind_run _ _ _ _ _ E). exists d. split_and!; try done; lia.
    + rewrite attempt_then by (unfold WebhookRepository.RecordFailure, record_failure; no_panic). simpl.
      by rewrite RecordFailure_disp.
Qed.
End deliveries.

(** * Reachable dispatchers *)

Section reachable.
Context `{O : Oracle} `{Codec} (cfg : WebhookConfig.t).

(** The deliveries of one event to one webhook, and those at one attempt. *)
Definition same_delivery (hook ev : UUID) (j : Job.t) : Prop :=
  Webhook.ID (Job.webhook j) = hook ∧ Event.ID (Job.event j) = ev.
#[export] Instance same_delivery_dec hook ev j : Decision (same_delivery hook ev j).
Proof. unfold same_delivery. apply _. Defined.

Definition deliveries (hook ev : UUID) (l : list Job.t) : list Job.t :=
  filter (same_delivery hook ev) l.

Definition at_attempt (hook ev : UUID) (k : Z) (l : list Job.t) : nat :=
  length (filter (λ j, Job.attempt j = k) (deliveries hook ev l)).

(** The jobs waiting: queued, or behind a timer. *)
Definition pending (d : Dispatcher.t) : list Job.t := Dispatcher.jobs d ++ (Dispatcher.timers d).*2.

(** Every retry made or waiting answers for a post of the attempt before it. *)
Definition accounted (d : Dispatcher.t) : Prop :=
  (∀ j, j ∈ Dispatcher.posts d ++ pending d →
     0 <= Job.attempt j <= 0 `max` WebhookConfig.MaxRetries cfg)
  ∧ (∀ hook ev k, 0 <= k →
     (at_attempt hook ev (k + 1) (Dispatcher.posts d ++ pending d)
      ≤ at_attempt hook ev k (Dispatcher.posts d))%nat).

Lemma at_attempt_app hook ev k l l' :
  at_attempt hook ev k (l ++ l') = (at_attempt hook ev k l + at_attempt hook ev k l')%nat.
Proof. unfold at_attempt, deliveries. by rewrite !filter_app, length_app. Qed.

Lemma at_attempt_perm hook ev k l l' : l ≡ₚ l' → at_attempt hook ev k l = at_attempt hook ev k l'.
Proof. intros Hp. unfold at_attempt, deliveries. by rewrite Hp. Qed.

Lemma at_attempt_one hook ev k j :
  at_attempt hook ev k [j] = if decide (same_delivery hook ev j ∧ Job.attempt j = k) then 1%nat else 0%nat.
Proof.
  unfold at_attempt, deliveries. rewrite !filter_cons. destruct (decide (same_delivery hook ev j)).
  - rewrite filter_cons. repeat case_decide; tauto || done.
  - rewrite decide_False by tauto. done.
Qed.

Lemma at_attempt_other hook ev k j : Job.attempt j ≠ k → at_attempt hook ev k [j] = 0%nat.
Proof. intros Hk. rewrite at_attempt_one, decide_False; tauto. Qed.

Lemma at_attempt_retry hook ev k j : at_attempt hook ev (k + 1) [retry_of j] = at_attempt hook ev k [j].
Proof.
  rewrite !at_attempt_one. unfold same_delivery. simpl. apply decide_ext.
  assert (Job.attempt j + 1 = k + 1 ↔ Job.attempt j = k) by lia. tauto.
Qed.

Lemma at_attempt_cons hook ev k j l :
  at_attempt hook ev k (j :: l) = (at_attempt hook ev k [j] + at_attempt hook ev k l)%nat.
Proof. apply (at_attempt_app hook ev k [j]). Qed.

(** Jobs waiting may move about, be dropped, or be joined by first attempts. *)
Lemma accounted_pending d d' new :
  accounted d → Dispatcher.posts d' = Dispatcher.posts d →
  (∀ j, j ∈ new → Job.attempt j = 0) →
  pending d' ⊆+ pending d ++ new → accounted d'.
Proof.
  intros [Ha Hc] Hp Hn Hs. unfold accounted. rewrite Hp. split.
  - intros j [Hj|Hj]%elem_of_app; [apply Ha, elem_of_app; by left|].
    eapply elem_of_submseteq in Hj; [|done]. apply elem_of_app in Hj as [Hj|Hj].
    + apply Ha, elem_of_app. by right.
    + rewrite (Hn j Hj). lia.
  - intros hook ev k Hk. etrans; [|by apply Hc]. rewrite !at_attempt_app.
    apply Nat.add_le_mono_l. apply submseteq_Permutation in Hs as [rest Hs].
    apply (at_attempt_perm hook ev (k + 1)) in Hs. rewrite !at_attempt_app in Hs.
    assert (Hz : at_attempt hook ev (k + 1) new = 0%nat).
    { clear Hs. induction new as [|j new IH]; [done|].
      rewrite at_attempt_cons, IH.
      - rewrite at_attempt_other; [done|]. rewrite Hn by left. lia.
      - intros j' Hj'. apply Hn. by right. }
    lia.
Qed.

Lemma offer_pending d j :
  pending (offer cfg d j) ⊆+ pending d ++ [j] ∧ Dispatcher.posts (offer cfg d j) = Dispatcher.posts d.
Proof.
  unfold offer, pending. destruct (Dispatcher.quit d); [|destruct (_ <? _)]; simpl; split; try done.
  - by apply submseteq_inserts_r.
  - rewrite <- !(assoc_L (++)). apply submseteq_app; [done|]. by rewrite (comm (++)).
  - by apply submseteq_inserts_r.
Qed.

Lemma foldl_offer_pending d js :
  pending (foldl (offer cfg) d js) ⊆+ pending d ++ js
  ∧ Dispatcher.posts (foldl (offer cfg) d js) = Dispatcher.posts d.
Proof.
  revert d. induction js as [|j js IH]; intros d; simpl; [by rewrite app_nil_r|].
  destruct (IH (offer cfg d j)) as [IH1 ->]. destruct (offer_pending d j) as [Hs ->].
  split; [|done]. etrans; [exact IH1|]. change (j :: js) with ([j] ++ js). rewrite (assoc_L (++)).
  by apply submseteq_app.
Qed.

Lemma offer_event_run ev w :
  offer_event cfg ev w =
  if Dispatcher.quit (w_disp w) then (Ok false, w)
  else if Z.of_nat (length (Dispatcher.events (w_disp w))) <? WebhookConfig.QueueSize cfg
  then (Ok true, upd_disp (upd_events (λ q, q ++ [ev])) w)
  else (Ok false, upd_disp drop_one w).
Proof.
  unfold offer_event. rewrite gets_bind. destruct (Dispatcher.quit _); [done|]. by destruct (_ <? _).
Qed.

(** Stamping only consumes effects, and fills only absent stamps. *)
Lemma Dispatch_run ev w :
  ∃ ev' n, Dispatch cfg ev w = offer_event cfg ev' (set_step n w) ∧ (w_step w ≤ n)%nat
    ∧ Event.Type_ ev' = Event.Type_ ev ∧ Event.TenantID ev' = Event.TenantID ev
    ∧ Event.Data ev' = Event.Data ev.
Proof.
  unfold Dispatch, stamp_id, stamp_time, now, tick.
  destruct (_ =? _)%N; unfold mbind, M_bind; simpl; destruct (_ =? _); simpl;
    eexists _, _; (split; [reflexivity || (instantiate (1 := w_step w); by destruct w)|]);
    split_and!; done || lia.
Qed.

Lemma Dispatch_disp ev w :
  let d := w_disp w in let d' := w_disp (Dispatch cfg ev w).2 in
  d' = d ∨ Dispatcher.quit d = false ∧ (d' = drop_one d ∨ ∃ ev', d' = upd_events (λ q, q ++ [ev']) d).
Proof.
  destruct (Dispatch_run ev w) as (ev' & n & -> & _). rewrite offer_event_run. simpl.
  destruct (Dispatcher.quit _); [by left|]. right. destruct (_ <? _); simpl; eauto 10.
Qed.

(** The tables, across the steps. *)
Lemma Dispatch_db ev w : w_db (Dispatch cfg ev w).2 = w_db w.
Proof.
  destruct (Dispatch_run ev w) as (ev' & n & -> & _). rewrite offer_event_run. simpl.
  destruct (Dispatcher.quit _); [done|]. by destruct (_ <? _).
Qed.

Lemma resolve_db ev w : w_db (resolve cfg ev w).2 = w_db w.
Proof.
  unfold resolve. rewrite attempt_bind.
  destruct (WebhookRepository.ListActiveForEvent _ _ w) as [[hs|e|p] w1] eqn:E;
    apply reads_out in E as (n & _ & ->); try (apply ListActiveForEvent_reads); try done.
  destruct hs as [|h hs]; [done|]. destruct (event_Marshal ev) as [payload|]; [|done].
  by rewrite enqueue_all_run.
Qed.

Lemma sound_upd_disp f w : webhooks_sound w → webhooks_sound (upd_disp f w).
Proof. done. Qed.

Lemma deliver_sound j : preserves webhooks_sound (deliver cfg j).
Proof.
  unfold deliver, post, client_Do, backoff, rand_Int64N. preserve; auto using sound_upd_disp, client_do_keeps.
Qed.

(** A job leaves the queue for a post, and possibly one retry. *)
Lemma accounted_deliver d d' j q ts :
  accounted d → Dispatcher.jobs d = j :: q →
  Dispatcher.posts d' = Dispatcher.posts d ++ [j] → Dispatcher.jobs d' = q →
  Dispatcher.timers d' = Dispatcher.timers d ++ ts →
  ts = [] ∨ Job.attempt j < WebhookConfig.MaxRetries cfg ∧ (∃ t, ts = [(t, retry_of j)]) →
  accounted d'.
Proof.
  intros [Ha Hc] Hj Hp' Hj' Ht' Hts.
  assert (Hall : Dispatcher.posts d' ++ pending d' ≡ₚ (Dispatcher.posts d ++ pending d) ++ ts.*2).
  { unfold pending. rewrite Hp', Hj', Ht', Hj, fmap_app. solve_Permutation. }
  assert (Hjb : 0 <= Job.attempt j <= 0 `max` WebhookConfig.MaxRetries cfg).
  { apply Ha. unfold pending. rewrite Hj. apply elem_of_app. right. by left. }
  split.
  - intros x. rewrite Hall. intros [Hx|Hx]%elem_of_app; [by apply Ha|].
    destruct Hts as [->|(Hlt & t & ->)]; [by apply elem_of_nil in Hx|].
    apply list_elem_of_singleton in Hx as ->. simpl. lia.
  - intros hook ev k Hk. rewrite (at_attempt_perm _ _ _ _ _ Hall), Hp', (at_attempt_app _ _ k), at_attempt_app.
    specialize (Hc hook ev k Hk).
    assert (Hr : (at_attempt hook ev (k + 1) ts.*2 ≤ at_attempt hook ev k [j])%nat).
    { destruct Hts as [->|(_ & t & ->)]; [apply Nat.le_0_l|].
      change ([(t, retry_of j)].*2) with [retry_of j]. by rewrite at_attempt_retry. }
    lia.
Qed.

Lemma accounted_step w evs w' : dstep cfg w evs w' → accounted (w_disp w) → accounted (w_disp w').
Proof.
  intros Hst HI. destruct Hst as [ev w|ev q w Hr He|w Hr Hq|w Hr He|i ph j q w Hi Hph Hj|i w Hi Hq|i w Hi Hj|k t j w Hk Ht|w];
    try exact HI.
  - destruct (Dispatch_disp ev w) as [->|(_ & [->|[ev' ->]])]; exact HI.
  - unfold take_event. destruct (resolve_disp cfg ev (upd_disp (upd_events (λ _, q)) w)) as (hs & p & -> & _).
    destruct (foldl_offer_pending (w_disp (upd_disp (upd_events (λ _, q)) w))
      ((λ h, Job.Mk h ev p 0) <$> hs)) as [Hs Hp].
    eapply accounted_pending; [exact HI|exact Hp| |exact Hs].
    intros j (h & -> & _)%list_elem_of_fmap. done.
  - unfold take_job. destruct (deliver_disp cfg j (upd_disp (upd_jobs (λ _, q)) w)) as (ts & -> & Hts).
    by eapply (accounted_deliver (w_disp w)).
  - rewrite enqueueJob_run. simpl.
    destruct (offer_pending (upd_timers (delete k) (w_disp w)) j) as [Hs Hp].
    apply (accounted_pending (w_disp w) _ []); [exact HI|exact Hp|by intros ? ?%elem_of_nil|].
    etrans; [exact Hs|]. rewrite app_nil_r. unfold pending. simpl.
    rewrite (delete_Permutation _ _ _ Hk) at 2. simpl. apply Permutation_submseteq. solve_Permutation.
Qed.

Lemma accounted_reachable w0 evs w :
  accounted (w_disp w0) → drun cfg w0 evs w → accounted (w_disp w).
Proof.
  intros H0 Hr. revert H0.
  induction Hr as [| |w w1 evs w2 E]; [done|eauto using accounted_step|by rewrite <- E].
Qed.

Lemma accounted_new : accounted (NewDispatcher cfg).
Proof. split; [by intros ? ?%elem_of_nil | intros; apply Nat.le_0_l]. Qed.

(** The posts of a delivery at the attempts below [n]. *)
Lemma posts_below d (hook ev : UUID) (n : nat) :
  accounted d →
  (length (filter (λ j, (Job.attempt j < Z.of_nat n)%Z) (deliveries hook ev (Dispatcher.posts d)))
   ≤ n * at_attempt hook ev 0 (Dispatcher.posts d))%nat.
Proof.
  intros [Ha Hc].
  assert (Hk : ∀ k, (at_attempt hook ev (Z.of_nat k) (Dispatcher.posts d)
                     ≤ at_attempt hook ev 0 (Dispatcher.posts d))%nat).
  { induction k as [|k IH]; [done|]. etrans; [|exact IH].
    specialize (Hc hook ev (Z.of_nat k) ltac:(lia)). rewrite at_attempt_app in Hc.
    replace (Z.of_nat (S k)) with (Z.of_nat k + 1) by lia. lia. }
  induction n as [|n IH].
  - rewrite list_filter_none; [done|]. intros j [_ Hj]%list_elem_of_filter.
    specialize (Ha j ltac:(apply elem_of_app; by left)). lia.
  - assert (Hs : ∀ l, length (filter (λ j, Job.attempt j < Z.of_nat (S n)) l)
        = (length (filter (λ j, (Job.attempt j < Z.of_nat n)%Z) l)
           + length (filter (λ j, Job.attempt j = Z.of_nat n) l))%nat).
    { induction l as [|j l IHl]; [done|]. rewrite !filter_cons. repeat case_decide; simpl; lia. }
    rewrite Hs. specialize (Hk n). unfold at_attempt at 1 in Hk. lia.
Qed.

(** ** First attempts

    Each first attempt, made or waiting, answers for a resolution of its event. *)
Definition resolutions (ev : UUID) (evs : list Event.t) : nat := length (filter (λ e, Event.ID e = ev) evs).

Definition answered (evs : list Event.t) (d : Dispatcher.t) : Prop :=
  ∀ hook ev, (at_attempt hook ev 0 (Dispatcher.posts d ++ pending d) ≤ resolutions ev evs)%nat.

Lemma resolutions_app ev l l' : resolutions ev (l ++ l') = (resolutions ev l + resolutions ev l')%nat.
Proof. unfold resolutions. by rewrite filter_app, length_app. Qed.

(** The first attempts a resolution creates for one webhook: one, for one event. *)
Lemma fresh_jobs_count hook id ev payload hooks :
  NoDup (Webhook.ID <$> hooks) →
  (at_attempt hook id 0 ((λ h, Job.Mk h ev payload 0) <$> hooks) ≤ resolutions id [ev])%nat.
Proof.
  intros Hnd. transitivity (if decide (Event.ID ev = id)
    then length (filter (λ i, i = hook) (Webhook.ID <$> hooks)) else 0%nat).
  - clear Hnd. induction hooks as [|h hooks IH]; [by case_decide|].
    csimpl. rewrite at_attempt_cons, at_attempt_one. unfold same_delivery at 1. simpl.
    rewrite filter_cons. repeat case_decide; simpl in *; tauto || lia.
  - unfold resolutions. rewrite filter_cons. case_decide; [|apply Nat.le_0_l]. simpl.
    assert (Hsub : filter (λ i, i = hook) (Webhook.ID <$> hooks) ⊆+ [hook]).
    { apply NoDup_submseteq; [by apply NoDup_filter|]. intros i [-> _]%list_elem_of_filter. by left. }
    by apply submseteq_length in Hsub.
Qed.

(** Jobs may move about, be dropped, or be joined by the fresh ones of a resolution. *)
Lemma answered_pending evs evs' d d' new :
  answered evs d → Dispatcher.posts d' = Dispatcher.posts d →
  pending d' ⊆+ pending d ++ new →
  (∀ hook ev, (at_attempt hook ev 0 new ≤ resolutions ev evs')%nat) →
  answered (evs ++ evs') d'.
Proof.
  intros Ha Hp Hs Hn hook ev. rewrite Hp, resolutions_app, at_attempt_app.
  specialize (Ha hook ev). specialize (Hn hook ev). rewrite at_attempt_app in Ha.
  apply submseteq_Permutation in Hs as [rest Hs].
  apply (at_attempt_perm hook ev 0) in Hs. rewrite !at_attempt_app in Hs. lia.
Qed.

Lemma answered_deliver evs d d' j q ts :
  accounted d → answered evs d → Dispatcher.jobs d = j :: q →
  Dispatcher.posts d' = Dispatcher.posts d ++ [j] → Dispatcher.jobs d' = q →
  Dispatcher.timers d' = Dispatcher.timers d ++ ts →
  ts = [] ∨ Job.attempt j < WebhookConfig.MaxRetries cfg ∧ (∃ t, ts = [(t, retry_of j)]) →
  answered evs d'.
Proof.
  intros [Ha _] HI Hj Hp' Hj' Ht' Hts hook ev. etrans; [|apply (HI hook ev)].
  assert (Hall : Dispatcher.posts d' ++ pending d' ≡ₚ (Dispatcher.posts d ++ pending d) ++ ts.*2).
  { unfold pending. rewrite Hp', Hj', Ht', Hj, fmap_app. solve_Permutation. }
  rewrite (at_attempt_perm _ _ _ _ _ Hall), (at_attempt_app _ _ 0).
  assert (Hz : at_attempt hook ev 0 ts.*2 = 0%nat); [|lia].
  destruct Hts as [->|(_ & t & ->)]; [done|]. apply at_attempt_other. simpl.
  assert (0 <= Job.attempt j); [|lia].
  apply (Ha j). unfold pending. rewrite Hj. apply elem_of_app. right. by left.
Qed.

(** What the resolved events answer for, with the key of the webhooks table. *)
Lemma answered_step w evs0 evs w' :
  dstep cfg w evs w' → webhooks_sound w → accounted (w_disp w) →
  answered evs0 (w_disp w) → answered (evs0 ++ evs) (w_disp w') ∧ webhooks_sound w'.
Proof.
  intros Hst Hkey Hacc HI. destruct Hst as [ev w|ev q w Hr He|w Hr Hq|w Hr He|i ph j q w Hi Hph Hj|i w Hi Hq|i w Hi Hj|k t j w Hk Ht|w];
    rewrite ?app_nil_r; try (split; [exact HI|exact Hkey]).
  - split.
    + destruct (Dispatch_disp ev w) as [->|(_ & [->|[ev' ->]])]; exact HI.
    + unfold webhooks_sound. by rewrite Dispatch_db.
  - split; [|unfold webhooks_sound, take_event; by rewrite resolve_db]. unfold take_event.
    destruct (resolve_disp cfg ev (upd_disp (upd_events (λ _, q)) w)) as (hs & p & -> & Hnd & _).
    destruct (foldl_offer_pending (w_disp (upd_disp (upd_events (λ _, q)) w))
      ((λ h, Job.Mk h ev p 0) <$> hs)) as [Hs Hp].
    eapply answered_pending; [exact HI|exact Hp|exact Hs|].
    intros hook id. apply fresh_jobs_count. by apply Hnd.
  - split; [|by apply deliver_sound]. unfold take_job.
    destruct (deliver_disp cfg j (upd_disp (upd_jobs (λ _, q)) w)) as (ts & -> & Hts).
    by eapply (answered_deliver _ (w_disp w)).
  - rewrite enqueueJob_run. split; [|exact Hkey].
    destruct (offer_pending (upd_timers (delete k) (w_disp w)) j) as [Hs Hp].
    rewrite <- (app_nil_r evs0). apply (answered_pending _ _ (w_disp w) _ []); [exact HI|exact Hp| |done].
    etrans; [exact Hs|]. rewrite app_nil_r. unfold pending. simpl.
    rewrite (delete_Permutation _ _ _ Hk) at 2. simpl. apply Permutation_submseteq. solve_Permutation.
Qed.

Lemma answered_run w evs0 evs w' :
  drun cfg w evs w' → webhooks_sound w → accounted (w_disp w) →
  answered evs0 (w_disp w) → answered (evs0 ++ evs) (w_disp w').
Proof.
  intros Hr. revert evs0. induction Hr as [w|w evs w1 evs' w2 Hs Hr IH|w w1 evs w2 E Hk' Hr IH]; intros evs0 Hk Ha HI.
  3: { apply IH; [by apply Hk'|by rewrite E..]. }
  - by rewrite app_nil_r.
  - rewrite (assoc_L (++)). destruct (answered_step _ _ _ _ Hs Hk Ha HI) as [HI' Hk'].
    apply IH; eauto using accounted_step.
Qed.

(** C21: The number of attempts.  Through any run of the dispatcher from a new one,
    interleaved with the rest of the program, the requests ever posted for one event
    to one webhook are at most one plus the maximum of retries for each time the event
    was resolved, however many of them fail; and no attempt number exceeds the
    maximum. *)
Theorem attempts_bounded w0 evs w hook ev :
  w_disp w0 = NewDispatcher cfg → webhooks_sound w0 → 0 <= WebhookConfig.MaxRetries cfg →
  drun cfg w0 evs w →
  Z.of_nat (length (deliveries hook ev (Dispatcher.posts (w_disp w))))
  <= (WebhookConfig.MaxRetries cfg + 1) * Z.of_nat (resolutions ev evs)
  ∧ ∀ j, j ∈ Dispatcher.posts (w_disp w) → 0 <= Job.attempt j <= WebhookConfig.MaxRetries cfg.
Proof.
  intros H0 Hk Hmax Hr. assert (HI0 : accounted (w_disp w0)) by (rewrite H0; apply accounted_new).
  pose proof (accounted_reachable _ _ _ HI0 Hr) as HI.
  assert (Hj : ∀ j, j ∈ Dispatcher.posts (w_disp w) → 0 <= Job.attempt j <= WebhookConfig.MaxRetries cfg).
  { intros j Hj. destruct HI as [Ha _]. specialize (Ha j ltac:(apply elem_of_app; by left)). lia. }
  split; [|exact Hj].
  assert (Hans : answered evs (w_disp w)).
  { apply (answered_run _ [] _ _ Hr Hk HI0). rewrite H0. intros ??. apply Nat.le_0_l. }
  pose proof (posts_below _ hook ev (Z.to_nat (WebhookConfig.MaxRetries cfg + 1)) HI) as Hb.
  specialize (Hans hook ev). rewrite at_attempt_app in Hans.
  rewrite list_filter_all in Hb; [nia|].
  intros j [_ Hin]%list_elem_of_filter. specialize (Hj j Hin). lia.
Qed.

(** ** Requests

    What the jobs are for: every one that waits or was attempted goes back to the
    resolution of its event, whose subscribers were rows of the table then. *)
Definition job_for (w : World) (j : Job.t) : Prop :=
  Job.event j ∈ Dispatcher.events (w_disp w)
  ∧ event_Marshal (Job.event j) = Some (Job.payload j)
  ∧ (∃ id, DB.webhooks (w_db w) !! id = Some (Job.webhook j))
  ∧ listening (Event.TenantID (Job.event j)) (Event.Type_ (Job.event j)) (Job.webhook j) = true.

Definition all_jobs (P : Job.t → Prop) (d : Dispatcher.t) : Prop :=
  ∀ j, j ∈ Dispatcher.posts d ++ pending d → P j.

(** What holds of the jobs an event is resolved into, and of a retry when it holds of the
    job, holds of every job. *)
Lemma all_jobs_step (P : Job.t → Prop) w evs w' :
  (∀ j, P j → P (retry_of j)) → (∀ j, job_for w j → P j) →
  dstep cfg w evs w' → all_jobs P (w_disp w) → all_jobs P (w_disp w').
Proof.
  intros Hretry Hnew Hst HI.
  assert (Hsub : ∀ d' new, Dispatcher.posts d' = Dispatcher.posts (w_disp w) →
    pending d' ⊆+ pending (w_disp w) ++ new → (∀ j, j ∈ new → P j) → all_jobs P d').
  { intros d' new Hp Hs Hn j. rewrite Hp. intros [Hj|Hj]%elem_of_app; [apply HI, elem_of_app; by left|].
    eapply elem_of_submseteq in Hj; [|done]. apply elem_of_app in Hj as [Hj|Hj]; [|by apply Hn].
    apply HI, elem_of_app. by right. }
  destruct Hst as [ev w|ev q w Hr He|w Hr Hq|w Hr He|i ph j q w Hi Hph Hj|i w Hi Hq|i w Hi Hj|k t j w Hk Ht|w];
    try exact HI.
  - destruct (Dispatch_disp ev w) as [->|(_ & [->|[ev' ->]])]; exact HI.
  - unfold take_event. destruct (resolve_disp cfg ev (upd_disp (upd_events (λ _, q)) w)) as (hs & p & -> & _ & Hhs).
    destruct (foldl_offer_pending (w_disp (upd_disp (upd_events (λ _, q)) w))
      ((λ h, Job.Mk h ev p 0) <$> hs)) as [Hs Hp].
    eapply Hsub; [exact Hp|exact Hs|]. intros j (h & -> & Hh)%list_elem_of_fmap.
    apply Hnew. destruct (Hhs h Hh) as (? & ? & ?). split_and!; try done. simpl. rewrite He. by left.
  - unfold take_job. destruct (deliver_disp cfg j (upd_disp (upd_jobs (λ _, q)) w)) as (ts & -> & Hts).
    assert (Hin : P j) by (apply HI; unfold pending; rewrite Hj; apply elem_of_app; right; by left).
    intros x. unfold pending. simpl. rewrite fmap_app, !elem_of_app, list_elem_of_singleton.
    intros [[Hx| ->]|[Hx|[Hx|Hx]]]; try done; [apply HI; unfold pending; rewrite ?Hj, !elem_of_app, ?elem_of_cons; tauto..|].
    destruct Hts as [->|(_ & t & ->)]; [by apply elem_of_nil in Hx|].
    apply list_elem_of_singleton in Hx as ->. by apply Hretry.
  - rewrite enqueueJob_run. destruct (offer_pending (upd_timers (delete k) (w_disp w)) j) as [Hs Hp].
    apply (Hsub _ []); [exact Hp| |by intros ? ?%elem_of_nil].
    etrans; [exact Hs|]. rewrite app_nil_r. unfold pending. simpl.
    rewrite (delete_Permutation _ _ _ Hk) at 2. simpl. apply Permutation_submseteq. solve_Permutation.
Qed.

(** The answer to [prev] redirected the client to [req]. *)
Definition redirected (j : Job.t) (prev req : HttpRequest.t) : Prop :=
  ∃ first n code url method b keep,
    new_request j = Some first ∧ o_http n prev = HttpStatus code (LocatedAt url)
    ∧ redirectBehavior (HttpRequest.Method prev) code = Some (method, b)
    ∧ req = next_request first method keep url.

(** A request of a delivery: the signed one, or the same by GET without its body, to the
    URL of the webhook or to another. *)
Definition request_for (j : Job.t) (req : HttpRequest.t) : Prop :=
  ∃ first, new_request j = Some first
    ∧ (req = next_request first "POST" true (HttpRequest.URL req)
       ∨ req = next_request first "GET" false (HttpRequest.URL req)).

(** Whatever it was redirected to, a request carries the headers on the event. *)
Lemma request_for_signed j req :
  request_for j req →
  (∃ signature, HttpRequest.Header req !! SignatureHeader = Some signature
     ∧ Verify (Webhook.Secret (Job.webhook j)) (Job.payload j) signature = true)
  ∧ HttpRequest.Header req !! TimestampHeader = Some (Itoa (Unix (Event.OccurredAt (Job.event j))))
  ∧ HttpRequest.Header req !! EventHeader = Some (Event.Type_ (Job.event j))
  ∧ HttpRequest.Header req !! IDHeader = Some (uuid_String (Event.ID (Job.event j)))
  ∧ (HttpRequest.Method req = "POST" ∧ HttpRequest.Body req = Job.payload j
     ∨ HttpRequest.Method req = "GET" ∧ HttpRequest.Body req = "").
Proof.
  intros (first & [? ? Hbody ? (sg & Hs & Hv) ? ? ?]%new_request_signed & [-> | ->]); simpl;
    rewrite ?lookup_delete_ne by done; rewrite Hbody in Hv; split_and!; try done; eauto.
Qed.

Lemma redirected_status j prev req :
  redirected j prev req →
  ∃ n code, o_http n prev = HttpStatus code (LocatedAt (HttpRequest.URL req))
    ∧ (code ∈ [301; 302; 303] ∧ (HttpRequest.Method req = "GET" ∨ HttpRequest.Method req = "HEAD") ∨ code ∈ [307; 308]).
Proof.
  intros (first & n & code & url & method & b & keep & _ & Hr & Hb & ->). exists n, code. split; [done|].
  unfold redirectBehavior in Hb. simpl.
  destruct ((code =? 301) || (code =? 302) || (code =? 303)) eqn:E1; simplify_eq/=.
  - left. rewrite !orb_true_iff, !Z.eqb_eq in E1. split; [set_solver|].
    destruct (String.eqb_spec (HttpRequest.Method prev) "GET"), (String.eqb_spec (HttpRequest.Method prev) "HEAD"); simpl; auto.
  - right. destruct ((code =? 307) || (code =? 308)) eqn:E2; [|done].
    rewrite !orb_true_iff, !Z.eqb_eq in E2. set_solver.
Qed.

Lemma redirectBehavior_method (keep b : bool) code method method' :
  method = (if keep then "POST" else "GET") → redirectBehavior method code = Some (method', b) →
  method' = (if keep && b then "POST" else "GET").
Proof. intros ->. unfold redirectBehavior. destruct keep; simpl; intros E; repeat case_match; by simplify_eq. Qed.

Lemma trail_requests more n j first (keep : bool) url :
  let req := next_request first (if keep then "POST" else "GET") keep url in
  let rs := (trail more n first req keep).1 in
  new_request j = Some first →
  req ∈ rs ∧ (length rs ≤ S more)%nat
  ∧ ∀ r, r ∈ rs → request_for j r ∧ (r = req ∨ ∃ prev, prev ∈ rs ∧ redirected j prev r).
Proof.
  intros req rs Hnew. assert (Hreq : request_for j req).
  { exists first. split; [done|]. unfold req. destruct keep; [by left|by right]. }
  assert (Hend : rs = [req] → req ∈ rs ∧ (length rs ≤ S more)%nat
    ∧ ∀ r, r ∈ rs → request_for j r ∧ (r = req ∨ ∃ prev, prev ∈ rs ∧ redirected j prev r)).
  { intros ->. split; [by left|]. split; [simpl; lia|]. intros r ->%list_elem_of_singleton. by split; [|left]. }
  revert n keep url req rs Hreq Hend. induction more as [|more IH]; intros n keep url req rs Hreq Hend; unfold rs in *; cbn [trail] in *;
    (destruct (o_http n req) as [msg|code loc] eqn:Eh; [by apply Hend|]);
    (destruct (redirectBehavior _ _) as [[method b]|] eqn:Eb; [|by apply Hend]);
    (destruct loc as [|url'|h]; [by apply Hend| |by apply Hend]); [by apply Hend|].
  pose proof (redirectBehavior_method keep b code _ method eq_refl Eb) as ->. set (next := next_request _ _ _ url').
  assert (Hnext : request_for j next).
  { exists first. split; [done|]. unfold next. destruct (keep && b); [by left|by right]. }
  destruct (IH (S n) (keep && b) url') as (Hin & Hlen & Hall); [exact Hnext| |].
  { intros ->. split; [by left|]. split; [simpl; lia|]. intros r ->%list_elem_of_singleton. by split; [|left]. }
  fold next in Hin, Hlen, Hall. cbn [fst]. split; [by left|]. split; [simpl; lia|].
  intros r [->|Hr]%elem_of_cons; [by split; [|left]|]. destruct (Hall r Hr) as [Hfor Hprev]. split; [done|right].
  destruct Hprev as [->|(prev & Hp & Hred)]; [|exists prev; split; [by right|done]].
  exists req. split; [by left|]. by exists first, n, code, url', (if keep && b then "POST" else "GET"), b, (keep && b).
Qed.

(** What was sent answers for what was attempted: each attempt sent its request, each
    request sent is one of its delivery, the first or one that an earlier one was
    redirected to, and there were ten for an attempt at most. *)
Record sent_ok (d : Dispatcher.t) : Prop := {
  sent_attempts j req : j ∈ Dispatcher.posts d → new_request j = Some req → (j, req) ∈ Dispatcher.sent d;
  sent_posts j req : (j, req) ∈ Dispatcher.sent d → j ∈ Dispatcher.posts d ∧ request_for j req;
  sent_chain j req : (j, req) ∈ Dispatcher.sent d →
    new_request j = Some req ∨ ∃ prev, (j, prev) ∈ Dispatcher.sent d ∧ redirected j prev req;
  sent_bound : (length (Dispatcher.sent d) ≤ 10 * length (Dispatcher.posts d))%nat;
}.

Lemma first_is_next req : HttpRequest.Method req = "POST" → req = next_request req "POST" true (HttpRequest.URL req).
Proof. by destruct req; simpl; intros ->. Qed.

(** The requests of one attempt. *)
Definition attempt_of (j : Job.t) (rs : list HttpRequest.t) : Prop :=
  (∀ req, new_request j = Some req → req ∈ rs)
  ∧ (length rs ≤ 10)%nat
  ∧ ∀ r, r ∈ rs → request_for j r ∧ (new_request j = Some r ∨ ∃ prev, prev ∈ rs ∧ redirected j prev r).

Lemma exchange_requests n j : attempt_of j (exchange n j).1.
Proof.
  unfold exchange, attempt_of. destruct (new_request j) as [first|] eqn:E.
  2: { split_and!; [done|simpl; lia|by intros r ?%not_elem_of_nil]. }
  pose proof (first_is_next first (req_method _ _ (new_request_signed _ _ E))) as Hf.
  destruct (trail_requests 9 n j first true (HttpRequest.URL first) E) as (Hin & Hlen & Hall).
  rewrite <- Hf in Hin, Hlen, Hall. split_and!; [by intros req [= <-]|done|].
  intros r Hr. destruct (Hall r Hr) as [? [->|?]]; auto.
Qed.

Lemma offer_sent js d :
  Dispatcher.posts (foldl (offer cfg) d js) = Dispatcher.posts d
  ∧ Dispatcher.sent (foldl (offer cfg) d js) = Dispatcher.sent d.
Proof.
  revert d. induction js as [|j js IH]; intros d; [done|]. simpl. destruct (IH (offer cfg d j)) as [-> ->].
  unfold offer. destruct (Dispatcher.quit d); [done|]. by destruct (_ <? _).
Qed.

Lemma sent_ok_ext d d' :
  Dispatcher.posts d' = Dispatcher.posts d → Dispatcher.sent d' = Dispatcher.sent d → sent_ok d → sent_ok d'.
Proof. intros Ep Es []. split; by rewrite ?Ep, ?Es. Qed.

Lemma sent_ok_attempt d d' j rs :
  attempt_of j rs → Dispatcher.posts d' = Dispatcher.posts d ++ [j] →
  Dispatcher.sent d' = Dispatcher.sent d ++ sent_for j rs → sent_ok d → sent_ok d'.
Proof.
  intros (Hfirst & Hlen & Hall) Ep Es [Ha Hp Hc Hb].
  assert (Hfor : ∀ i r, (i, r) ∈ sent_for j rs ↔ i = j ∧ r ∈ rs).
  { intros i r. unfold sent_for. rewrite list_elem_of_fmap. naive_solver. }
  split; rewrite ?Ep, ?Es.
  - intros i req [Hi| ->%list_elem_of_singleton]%elem_of_app Hr; apply elem_of_app; [left; auto|right].
    apply Hfor. auto.
  - intros i req. rewrite !elem_of_app, Hfor, list_elem_of_singleton. intros [[? ?]%Hp|[-> Hr]]; [auto|].
    split; [by right|]. by apply Hall.
  - intros i req. setoid_rewrite elem_of_app. setoid_rewrite Hfor. intros [[?|(prev & ? & ?)]%Hc|[-> Hr]]; [by left|eauto|].
    destruct (Hall req Hr) as [_ [?|(prev & ? & ?)]]; eauto 10.
  - rewrite !length_app. unfold sent_for. rewrite length_fmap. simpl. lia.
Qed.

Lemma sent_ok_step w evs w' : dstep cfg w evs w' → sent_ok (w_disp w) → sent_ok (w_disp w').
Proof.
  intros Hst HI. destruct Hst as [ev w|ev q w Hr He|w Hr Hq|w Hr He|i ph j q w Hi Hph Hj|i w Hi Hq|i w Hi Hj|k t j w Hk Ht|w];
    try (apply (sent_ok_ext (w_disp w)); [reflexivity..|exact HI]).
  - destruct (Dispatch_disp ev w) as [->|(_ & [->|[ev' ->]])]; apply (sent_ok_ext (w_disp w)); done.
  - unfold take_event. destruct (resolve_disp cfg ev (upd_disp (upd_events (λ _, q)) w)) as (hs & p & -> & _).
    destruct (offer_sent ((λ h, Job.Mk h ev p 0) <$> hs) (w_disp (upd_disp (upd_events (λ _, q)) w))) as [Ep Es].
    by apply (sent_ok_ext (w_disp w)).
  - unfold take_job. destruct (deliver_disp cfg j (upd_disp (upd_jobs (λ _, q)) w)) as (ts & E & _).
    pose proof (exchange_requests (w_step (upd_disp (upd_jobs (λ _, q)) w)) j) as Hrs. rewrite E.
    set (rs := (exchange _ j).1) in *. clearbody rs. by apply (sent_ok_attempt (w_disp w) _ j rs).
  - rewrite enqueueJob_run. simpl.
    destruct (offer_sent [j] (upd_timers (delete k) (w_disp w))) as [Ep Es]. by apply (sent_ok_ext (w_disp w)).
Qed.

Lemma sent_ok_run w0 evs w : w_disp w0 = NewDispatcher cfg → drun cfg w0 evs w → sent_ok (w_disp w).
Proof.
  intros H0 Hr. assert (HI : sent_ok (w_disp w0)).
  { rewrite H0. split; [by intros ? ? ?%not_elem_of_nil..|simpl; lia]. }
  clear H0. induction Hr as [| |w w1 evs w2 E _ _ IH]; [done|eauto using sent_ok_step|]. apply IH. by rewrite E.
Qed.

(** ** Queues *)

Definition within_queues (d : Dispatcher.t) : Prop :=
  Z.of_nat (length (Dispatcher.events d)) <= WebhookConfig.QueueSize cfg
  ∧ Z.of_nat (length (Dispatcher.jobs d)) <= WebhookConfig.QueueSize cfg.

Lemma offer_within d j : within_queues d → within_queues (offer cfg d j).
Proof.
  intros [He Hj]. unfold offer, within_queues. destruct (Dispatcher.quit d); [done|].
  destruct (Z.ltb_spec (Z.of_nat (length (Dispatcher.jobs d))) (WebhookConfig.QueueSize cfg)); simpl; [|done].
  rewrite length_app. simpl. lia.
Qed.

Lemma foldl_offer_within d js : within_queues d → within_queues (foldl (offer cfg) d js).
Proof. revert d. induction js; simpl; auto using offer_within. Qed.

Lemma within_step w evs w' : dstep cfg w evs w' → within_queues (w_disp w) → within_queues (w_disp w').
Proof.
  intros Hst HI. destruct Hst as [ev w|ev q w Hr He|w Hr Hq|w Hr He|i ph j q w Hi Hph Hj|i w Hi Hq|i w Hi Hj|k t j w Hk Ht|w];
    try exact HI.
  - destruct (Dispatch_run ev w) as (ev' & n & -> & _). rewrite offer_event_run. simpl.
    destruct (Dispatcher.quit _); [done|].
    destruct (Z.ltb_spec (Z.of_nat (length (Dispatcher.events (w_disp w)))) (WebhookConfig.QueueSize cfg));
      [|done]. destruct HI. split; [|done]. simpl. rewrite length_app. simpl. lia.
  - unfold take_event. destruct (resolve_disp cfg ev (upd_disp (upd_events (λ _, q)) w)) as (hs & p & -> & _).
    apply foldl_offer_within. destruct HI as [HI ?]. split; [|done]. rewrite He in HI. simpl in *. lia.
  - unfold take_job. destruct (deliver_disp cfg j (upd_disp (upd_jobs (λ _, q)) w)) as (ts & -> & _).
    destruct HI as [? HI]. split; [done|]. rewrite Hj in HI. simpl in *. lia.
  - rewrite enqueueJob_run. by apply offer_within.
Qed.

(** Neither channel of a reachable dispatcher ever holds more than the configured
    queue size. *)
Theorem queues_bounded w0 evs w :
  w_disp w0 = NewDispatcher cfg → 0 <= WebhookConfig.QueueSize cfg →
  drun cfg w0 evs w → within_queues (w_disp w).
Proof.
  intros H0 Hq Hr. assert (HI : within_queues (w_disp w0)) by (rewrite H0; split; done).
  clear H0. induction Hr as [| |w w1 evs w2 E _ _ IH]; [done|eauto using within_step|].
  apply IH. by rewrite E.
Qed.

(** ** Shutdown *)

(** Once [quit] is closed a step neither adds a job nor reopens it, and keeps the jobs
    posted and queued, in order. *)
Lemma step_after_quit w evs w' :
  dstep cfg w evs w' → Dispatcher.quit (w_disp w) = true →
  Dispatcher.quit (w_disp w') = true
  ∧ Dispatcher.dropped (w_disp w') = Dispatcher.dropped (w_disp w)
  ∧ Dispatcher.posts (w_disp w') ++ Dispatcher.jobs (w_disp w')
    = Dispatcher.posts (w_disp w) ++ Dispatcher.jobs (w_disp w).
Proof.
  assert (Hoff : ∀ js d, Dispatcher.quit d = true → foldl (offer cfg) d js = d).
  { induction js as [|j js IH]; intros d Hd; simpl; [done|].
    assert (offer cfg d j = d) as -> by (unfold offer; by rewrite Hd). by apply IH. }
  intros Hst Hq. destruct Hst as [ev w|ev q w Hr He|w Hr _|w Hr He|i ph j q w Hi Hph Hj|i w Hi _|i w Hi Hj|k t j w Hk Ht|w];
    try done.
  - destruct (Dispatch_disp ev w) as [->|(? & _)]; [done|congruence].
  - unfold take_event. destruct (resolve_disp cfg ev (upd_disp (upd_events (λ _, q)) w)) as (hs & p & -> & _).
    by rewrite Hoff.
  - unfold take_job. destruct (deliver_disp cfg j (upd_disp (upd_jobs (λ _, q)) w)) as (ts & -> & _).
    split_and!; [done..|]. simpl. rewrite Hj. by rewrite <- (assoc_L (++)).
  - rewrite enqueueJob_run. simpl. pose proof (Hoff [j] (upd_timers (delete k) (w_disp w)) Hq) as E.
    simpl in E. by rewrite E.
Qed.

(** shutdown.  From the moment [quit] is closed, the requests made are exactly the
    jobs queued at that moment, in their order: a call that resolves an event still
    queued, fires a retry timer or dispatches an event adds none.  So when every sender
    has returned with the queue drained, all those jobs have been posted, and the
    events queued at that moment were discarded without a request and without being
    counted as dropped. *)
Theorem shutdown_posts_queued_jobs w evs w' :
  Dispatcher.quit (w_disp w) = true → drun cfg w evs w' →
  Dispatcher.posts (w_disp w') `prefix_of` Dispatcher.posts (w_disp w) ++ Dispatcher.jobs (w_disp w)
  ∧ (Dispatcher.jobs (w_disp w') = [] →
     Dispatcher.posts (w_disp w') = Dispatcher.posts (w_disp w) ++ Dispatcher.jobs (w_disp w))
  ∧ Dispatcher.dropped (w_disp w') = Dispatcher.dropped (w_disp w).
Proof.
  intros Hq Hr. assert (HI : Dispatcher.dropped (w_disp w') = Dispatcher.dropped (w_disp w)
    ∧ Dispatcher.posts (w_disp w') ++ Dispatcher.jobs (w_disp w')
      = Dispatcher.posts (w_disp w) ++ Dispatcher.jobs (w_disp w)).
  { induction Hr as [|w evs w1 evs' w2 Hs Hr IH|w w1 evs w2 E _ Hr IH]; [done| |by rewrite <- E in *; apply IH].
    destruct (step_after_quit _ _ _ Hs Hq) as (Hq1 & D1 & E1). destruct (IH Hq1) as [D2 E2].
    split; congruence. }
  destruct HI as [HD E]. split_and!; [eexists; by rewrite <- E| |done]. intros Hn.
  by rewrite <- E, Hn, app_nil_r.
Qed.
End reachable.

(** ** The phases of the goroutines

    Until [quit] is closed every goroutine runs.  Afterwards nothing enters the channels,
    and a goroutine only returns once its channel is empty. *)
Section phases.
Context `{O : Oracle} `{Codec} (cfg : WebhookConfig.t).

Definition goroutines_run (d : Dispatcher.t) : Prop :=
  Dispatcher.quit d = false →
  Dispatcher.resolver d = Running ∧ Forall (λ ph, ph = Running) (Dispatcher.senders d).

Definition dispatch_closed (d : Dispatcher.t) : Prop :=
  Dispatcher.quit d = true
  ∧ (Dispatcher.events d = [] ∨ Dispatcher.resolver d ≠ Exited)
  ∧ (Dispatcher.jobs d = [] ∨ Forall (λ ph, ph ≠ Exited) (Dispatcher.senders d)).

Lemma offers_frame d js :
  let d' := foldl (offer cfg) d js in
  Dispatcher.quit d' = Dispatcher.quit d ∧ Dispatcher.resolver d' = Dispatcher.resolver d
  ∧ Dispatcher.senders d' = Dispatcher.senders d ∧ Dispatcher.events d' = Dispatcher.events d
  ∧ (Dispatcher.quit d = true → Dispatcher.jobs d' = Dispatcher.jobs d).
Proof.
  revert d. induction js as [|j js IH]; intros d; simpl; [done|].
  destruct (IH (offer cfg d j)) as (-> & -> & -> & -> & Hj). revert Hj. unfold offer.
  destruct (Dispatcher.quit d) eqn:Hq; simpl; rewrite ?Hq; [done|]. destruct (_ <? _); simpl; by rewrite ?Hq.
Qed.

(** The dispatcher after a step that resolves an event. *)
Lemma take_event_frame ev q w :
  let d' := w_disp (take_event cfg ev q w) in
  Dispatcher.quit d' = Dispatcher.quit (w_disp w) ∧ Dispatcher.resolver d' = Dispatcher.resolver (w_disp w)
  ∧ Dispatcher.senders d' = Dispatcher.senders (w_disp w) ∧ Dispatcher.events d' = q
  ∧ (Dispatcher.quit (w_disp w) = true → Dispatcher.jobs d' = Dispatcher.jobs (w_disp w)).
Proof.
  cbv zeta. unfold take_event.
  destruct (resolve_disp cfg ev (upd_disp (upd_events (λ _, q)) w)) as (hs & p & -> & _).
  apply (offers_frame (w_disp (upd_disp (upd_events (λ _, q)) w))).
Qed.

Lemma phases_step w evs w' :
  dstep cfg w evs w' → goroutines_run (w_disp w) → goroutines_run (w_disp w').
Proof.
  intros Hst HI. destruct Hst as [ev w|ev q w Hr He|w Hr Hq|w Hr He|i ph j q w Hi Hph Hj|i w Hi Hq|i w Hi Hj|k t j w Hk Ht|w];
    unfold goroutines_run in *; simpl; try done; try congruence.
  - destruct (Dispatch_disp cfg ev w) as [->|(Hq & [->|[ev' ->]])]; exact HI.
  - destruct (take_event_frame ev q w) as (-> & -> & -> & _). exact HI.
  - intros Hq. by rewrite (proj1 (HI Hq)) in Hr.
  - unfold take_job. destruct (deliver_disp cfg j (upd_disp (upd_jobs (λ _, q)) w)) as (ts & -> & _). exact HI.
  - intros Hq. destruct (HI Hq) as [_ Hs]. by pose proof (Forall_lookup_1 _ _ _ _ Hs Hi).
  - rewrite enqueueJob_run. destruct (offers_frame (upd_timers (delete k) (w_disp w)) [j]) as (E1 & E2 & E3 & _).
    simpl in *. by rewrite E1, E2, E3.
Qed.

(** The number of senders is fixed. *)
Lemma senders_step n w evs w' :
  dstep cfg w evs w' → length (Dispatcher.senders (w_disp w)) = n → length (Dispatcher.senders (w_disp w')) = n.
Proof.
  intros Hst <-. destruct Hst as [ev w|ev q w Hr He|w Hr Hq|w Hr He|i ph j q w Hi Hph Hj|i w Hi Hq|i w Hi Hj|k t j w Hk Ht|w];
    simpl; try done; try apply length_insert.
  - by destruct (Dispatch_disp cfg ev w) as [->|(_ & [->|[ev' ->]])].
  - by destruct (take_event_frame ev q w) as (_ & _ & -> & _).
  - unfold take_job. by destruct (deliver_disp cfg j (upd_disp (upd_jobs (λ _, q)) w)) as (ts & -> & _).
  - rewrite enqueueJob_run. destruct (offers_frame (upd_timers (delete k) (w_disp w)) [j]) as (_ & _ & E3 & _).
    simpl in *. by rewrite E3.
Qed.

(** Without a sender nothing is ever posted. *)
Lemma idle_step w evs w' :
  dstep cfg w evs w' → Dispatcher.senders (w_disp w) = [] ∧ Dispatcher.posts (w_disp w) = [] →
  Dispatcher.senders (w_disp w') = [] ∧ Dispatcher.posts (w_disp w') = [].
Proof.
  intros Hst [Hs Hp]. split.
  { apply nil_length_inv. by rewrite (senders_step 0 _ _ _ Hst (f_equal length Hs)). }
  destruct Hst as [ev w|ev q w Hr He|w Hr Hq|w Hr He|i ph j q w Hi Hph Hj|i w Hi Hq|i w Hi Hj|k t j w Hk Ht|w];
    simpl; try done.
  - by destruct (Dispatch_disp cfg ev w) as [->|(_ & [->|[ev' ->]])].
  - unfold take_event. destruct (resolve_disp cfg ev (upd_disp (upd_events (λ _, q)) w)) as (hs & p & -> & _).
    by destruct (foldl_offer_pending cfg (w_disp (upd_disp (upd_events (λ _, q)) w)) ((λ h, Job.Mk h ev p 0) <$> hs)) as [_ ->].
  - by rewrite Hs in Hi.
  - rewrite enqueueJob_run. destruct (offer_pending cfg (upd_timers (delete k) (w_disp w)) j) as [_ E].
    exact (eq_trans E Hp).
Qed.

Lemma close_closes d : goroutines_run d → Dispatcher.quit d = false → dispatch_closed (close_dispatch d).
Proof.
  intros HI Hq. destruct (HI Hq) as [Hr Hs]. split_and!; [done|right; simpl; by rewrite Hr|].
  right. eapply Forall_impl; [exact Hs|]. by intros ph ->.
Qed.

Lemma closed_dispatch_step w evs w' :
  dstep cfg w evs w' → dispatch_closed (w_disp w) → dispatch_closed (w_disp w').
Proof.
  intros Hst (Hq & He & Hj). destruct Hst as [ev w|ev q w Hr Hev|w Hr _|w Hr Hev|i ph j q w Hi Hph Hjs|i w Hi _|i w Hi Hjs|k t j w Hk Ht|w].
  - destruct (Dispatch_disp cfg ev w) as [->|(? & _)]; [done|congruence].
  - unfold dispatch_closed. destruct (take_event_frame ev q w) as (-> & -> & -> & -> & Hjobs).
    rewrite Hjobs by done. auto.
  - split_and!; [done|by right|done].
  - split_and!; [done|by left|done].
  - unfold take_job. destruct (deliver_disp cfg j (upd_disp (upd_jobs (λ _, q)) w)) as (ts & -> & _).
    split_and!; [done|done|]. simpl. destruct Hj as [Hj|Hj]; [congruence|by right].
  - split_and!; [done|done|]. destruct Hj as [|Hj]; [by left|right]. simpl. by apply Forall_insert.
  - split_and!; [done|done|by left].
  - rewrite enqueueJob_run. unfold dispatch_closed.
    destruct (offers_frame (upd_timers (delete k) (w_disp w)) [j]) as (E1 & E2 & E3 & E4 & E5).
    simpl in *. rewrite E1, E2, E3, E4, E5 by done. done.
  - done.
Qed.
End phases.

(** * Termination *)

Section termination.
Context `{O : Oracle} `{Codec} (cfg : WebhookConfig.t).

Definition phase_weight (ph : phase) : nat := match ph with Running => 2 | Draining => 1 | Exited => 0 end.

(** What is left to do: a delivery may leave a timer behind, a timer fires once. *)
Definition disp_work (d : Dispatcher.t) : nat :=
  (length (Dispatcher.events d) + 2 * length (Dispatcher.jobs d) + length (Dispatcher.timers d)
   + phase_weight (Dispatcher.resolver d) + sum_list_with phase_weight (Dispatcher.senders d))%nat.

Lemma offers_after_quit d js : Dispatcher.quit d = true → foldl (offer cfg) d js = d.
Proof.
  intros Hq. induction js as [|j js IH]; [done|]. simpl.
  assert (offer cfg d j = d) as -> by (unfold offer; by rewrite Hq). done.
Qed.

Lemma sum_phases l i ph ph' :
  l !! i = Some ph →
  (sum_list_with phase_weight (<[i := ph']> l) + phase_weight ph
   = sum_list_with phase_weight l + phase_weight ph')%nat.
Proof.
  intros Hi. rewrite <- (take_drop_middle l i ph Hi) at 2.
  rewrite insert_take_drop by (by eapply lookup_lt_Some). rewrite !sum_list_with_app. simpl. lia.
Qed.

(** The effect on the work of the steps that take something. *)
Lemma take_event_work ev q w :
  Dispatcher.quit (w_disp w) = true → Dispatcher.events (w_disp w) = ev :: q →
  Dispatcher.quit (w_disp (take_event cfg ev q w)) = true
  ∧ (disp_work (w_disp (take_event cfg ev q w)) < disp_work (w_disp w))%nat.
Proof.
  intros Hq He. unfold take_event.
  destruct (resolve_disp cfg ev (upd_disp (upd_events (λ _, q)) w)) as (hs & p & -> & _).
  rewrite offers_after_quit by done. split; [done|]. unfold disp_work. simpl. rewrite He. simpl. lia.
Qed.

Lemma take_job_work j q w :
  Dispatcher.quit (w_disp w) = true → Dispatcher.jobs (w_disp w) = j :: q →
  Dispatcher.quit (w_disp (take_job cfg j q w)) = true
  ∧ (disp_work (w_disp (take_job cfg j q w)) < disp_work (w_disp w))%nat.
Proof.
  intros Hq Hj. unfold take_job.
  destruct (deliver_disp cfg j (upd_disp (upd_jobs (λ _, q)) w)) as (ts & -> & Hts).
  split; [done|]. unfold disp_work. simpl. rewrite Hj, length_app. simpl.
  destruct Hts as [->|(_ & t & ->)]; simpl; lia.
Qed.

Lemma fire_work k t j w :
  Dispatcher.quit (w_disp w) = true → Dispatcher.timers (w_disp w) !! k = Some (t, j) →
  let w' := (enqueueJob cfg j (upd_disp (upd_timers (delete k)) w)).2 in
  Dispatcher.quit (w_disp w') = true ∧ (disp_work (w_disp w') < disp_work (w_disp w))%nat.
Proof.
  intros Hq Hk. cbv zeta. rewrite enqueueJob_run. simpl.
  pose proof (offers_after_quit (upd_timers (delete k) (w_disp w)) [j] Hq) as E. simpl in E. rewrite E.
  split; [done|]. unfold disp_work. simpl. rewrite length_delete by (by eexists).
  apply lookup_lt_Some in Hk. lia.
Qed.

(** A goroutine that has not returned has a step that leaves less to do. *)
Lemma goroutine_progress w :
  Dispatcher.quit (w_disp w) = true →
  Dispatcher.resolver (w_disp w) ≠ Exited ∨ Exists (λ ph, ph ≠ Exited) (Dispatcher.senders (w_disp w)) →
  ∃ evs w', dstep cfg w evs w' ∧ (disp_work (w_disp w') < disp_work (w_disp w))%nat
    ∧ Dispatcher.quit (w_disp w') = true.
Proof.
  intros Hq [Hr|Hs].
  - destruct (Dispatcher.resolver (w_disp w)) eqn:Er; [| |done].
    + eexists _, _. split; [by apply dstep_resolver_quit|]. unfold disp_work. simpl. rewrite Er. simpl. split; [lia|done].
    + destruct (Dispatcher.events (w_disp w)) as [|ev q] eqn:Ee.
      * eexists _, _. split; [by apply dstep_resolver_exit|]. unfold disp_work. simpl. rewrite Er. simpl. split; [lia|done].
      * eexists _, _. split; [apply dstep_resolve; [by rewrite Er|done]|].
        destruct (take_event_work ev q w Hq Ee). done.
  - apply Exists_exists in Hs as (ph & [i Hi]%list_elem_of_lookup & Hph). destruct ph; [| |done].
    + eexists _, _. split; [by apply (dstep_sender_quit cfg i)|].
      pose proof (sum_phases _ _ _ Draining Hi). unfold disp_work. simpl in *. split; [lia|done].
    + destruct (Dispatcher.jobs (w_disp w)) as [|j q] eqn:Ej.
      * eexists _, _. split; [by apply (dstep_sender_exit cfg i)|].
        pose proof (sum_phases _ _ _ Exited Hi). unfold disp_work. simpl in *. split; [lia|done].
      * eexists _, _. split; [by eapply (dstep_send cfg i Draining j q)|].
        destruct (take_job_work j q w Hq Ej). done.
Qed.

(** C32: A shutdown of the dispatcher terminates.  Once [quit] is closed it stays so, every
    step of the resolver, a sender or a timer leaves strictly less work, and nothing
    else changes the dispatcher; and a goroutine that has not returned always has a
    step.  So under any scheduling that keeps running them they all return. *)
Theorem dispatcher_terminates w :
  Dispatcher.quit (w_disp w) = true →
  (∀ evs w', dstep cfg w evs w' →
     Dispatcher.quit (w_disp w') = true
     ∧ ((disp_work (w_disp w') < disp_work (w_disp w))%nat ∨ w_disp w' = w_disp w))
  ∧ (Dispatcher.resolver (w_disp w) ≠ Exited ∨ Exists (λ ph, ph ≠ Exited) (Dispatcher.senders (w_disp w)) →
     ∃ evs w', dstep cfg w evs w' ∧ (disp_work (w_disp w') < disp_work (w_disp w))%nat).
Proof.
  intros Hq. split.
  - intros evs w' Hst. destruct Hst as [ev w|ev q w Hr He|w Hr _|w Hr He|i ph j q w Hi Hph Hj|i w Hi _|i w Hi Hj|k t j w Hk Ht|w].
    + destruct (Dispatch_disp cfg ev w) as [->|(? & _)]; [auto|congruence].
    + destruct (take_event_work ev q w Hq He). auto.
    + split; [done|left]. unfold disp_work. simpl. rewrite Hr. simpl. lia.
    + split; [done|left]. unfold disp_work. simpl. rewrite Hr. simpl. lia.
    + destruct (take_job_work j q w Hq Hj). auto.
    + split; [done|left]. pose proof (sum_phases _ _ _ Draining Hi). unfold disp_work. simpl in *. lia.
    + split; [done|left]. pose proof (sum_phases _ _ _ Exited Hi). unfold disp_work. simpl in *. lia.
    + destruct (fire_work k t j w Hq Hk). auto.
    + split; [done|right]. unfold dispatcher_shutdown, close_dispatch, modify. simpl.
      destruct (w_disp w). simpl in *. by subst.
  - intros Hg. destruct (goroutine_progress w Hq Hg) as (evs & w' & ? & ? & _). eauto.
Qed.
End termination.
