(* ===== verification/Notifier.v ===== *)
(** The notifier (internal/webhook/notifier.go): domain changes become webhook events.
    It is the [LinkEventSink] of the link service and the [BatchHook] of the
    pipeline, and keeps the promises both rely on. *)
From stdpp Require Import prelude gmap strings list.
From Stdlib Require Import Ascii.
From S2P Require Import Prelude GoStd Domain Wire World Schema LinkRepo LinkCache Shortcode LinkService WebhookRepo Delivery.

Local Open Scope Z_scope.

Module Notifier.
Record t := Mk { dispatcher : WebhookConfig.t; baseURL : string }.

(** [NewNotifier]: trailing slashes of the base URL go. *)
Definition New (dispatcher : WebhookConfig.t) (baseURL : string) : t :=
  Mk dispatcher (trim_right_byte "/"%char baseURL).

Section notifier.
Context `{O : Oracle} `{Codec} (n : t).

Definition created_event (l : Link.t) : Event.t :=
  {| Event.ID := uuid_Nil;
     Event.Type_ := EventLinkCreated;
     Event.TenantID := Link.TenantID l;
     Event.OccurredAt := zero_time;
     Event.Data := [("id", AStr (uuid_String (Link.ID l)));
                    ("code", AStr (Link.Code l));
                    ("short_url", AStr (baseURL n +:+ "/" +:+ Link.Code l));
                    ("target_url", AStr (Link.TargetURL l));
                    ("created_at", ATime (Link.CreatedAt l))] |}.

Definition LinkCreated (l : Link.t) : M () :=
  Dispatch (dispatcher n) (created_event l);; mret ().

(** The map [byLink] of tenants and counts. *)
Definition add_click (m : gmap UUID (UUID * Z)) (c : Click.t) : gmap UUID (UUID * Z) :=
  let a := default (Click.TenantID c, 0) (m !! Click.LinkID c) in
  <[Click.LinkID c := (a.1, a.2 + 1)]> m.

Definition byLink (clicks : list Click.t) : gmap UUID (UUID * Z) := foldl add_click ∅ clicks.

Definition clicked_event (linkID : UUID) (a : UUID * Z) : Event.t :=
  {| Event.ID := uuid_Nil;
     Event.Type_ := EventLinkClicked;
     Event.TenantID := a.1;
     Event.OccurredAt := zero_time;
     Event.Data := [("link_id", AStr (uuid_String linkID)); ("count", AInt a.2)] |}.

Fixpoint dispatch_clicked (m : gmap UUID (UUID * Z)) (ids : list UUID) : M () :=
  match ids with
  | [] => mret ()
  | id :: ids =>
      match m !! id with
      | Some a => Dispatch (dispatcher n) (clicked_event id a);; mret ()
      | None => mret ()
      end;;
      dispatch_clicked m ids
  end.

Definition ClicksFlushed (clicks : list Click.t) : M () :=
  match clicks with
  | [] => mret ()
  | _ =>
      let m := byLink clicks in
      ids ← range_keys m;
      dispatch_clicked m ids
  end.
End notifier.
End Notifier.

(** * The promises *)

Section promises.
Context `{O : Oracle} `{Codec} (n : Notifier.t).
Import Notifier.

(** A dispatch returns, and only effects and the dispatcher move. *)
Lemma Dispatch_world cfg ev w :
  ∃ b k f, Dispatch cfg ev w = (Ok b, upd_disp f (set_step k w)) ∧ (w_step w ≤ k)%nat.
Proof.
  destruct (Dispatch_run cfg ev w) as (ev' & k & -> & Hk & _). rewrite offer_event_run.
  destruct (Dispatcher.quit _); [|destruct (_ <? _)].
  - exists false, k, id. by destruct w.
  - by eexists true, k, _.
  - by eexists false, k, _.
Qed.

#[export] Instance Notifier_sink : SinkLaws (LinkCreated n).
Proof.
  assert (Hw : ∀ l w, ∃ k f, LinkCreated n l w = (Ok (), upd_disp f (set_step k w)) ∧ (w_step w ≤ k)%nat).
  { intros l w. unfold LinkCreated. destruct (Dispatch_world (dispatcher n) (created_event n l) w)
      as (b & k & f & E & Hk). rewrite (bind_run _ _ _ _ _ E). by exists k, f. }
  split; intros l w; destruct (Hw l w) as (k & f & -> & Hk); done.
Qed.

Lemma dispatch_clicked_world m ids w :
  ∃ k f, dispatch_clicked n m ids w = (Ok (), upd_disp f (set_step k w)).
Proof.
  revert w. induction ids as [|id ids IH]; intros w; cbn [dispatch_clicked].
  { exists (w_step w), (λ d, d). by destruct w. }
  destruct (m !! id) as [a|]; [|apply IH].
  destruct (Dispatch_world (dispatcher n) (clicked_event id a) w) as (b & k & f & E & _).
  erewrite bind_run; [|by rewrite (bind_run _ _ _ _ _ E)].
  destruct (IH (upd_disp f (set_step k w))) as (k' & f' & ->).
  by exists k', (f' ∘ f).
Qed.

(** The pipeline's hook returns and touches neither the pipeline nor the tables. *)
Lemma ClicksFlushed_hook clicks w :
  (ClicksFlushed n clicks w).1 = Ok () ∧ w_pipe (ClicksFlushed n clicks w).2 = w_pipe w
  ∧ w_db (ClicksFlushed n clicks w).2 = w_db w.
Proof.
  destruct clicks as [|c clicks]; [done|]. unfold ClicksFlushed.
  rewrite (bind_run _ _ _ _ _ (range_keys_run _ _)).
  by destruct (dispatch_clicked_world (byLink (c :: clicks))
    (o_range (w_step w) (map_to_list (byLink (c :: clicks))).*1) (set_step (S (w_step w)) w)) as (k & f & ->).
Qed.
End promises.

(** * Batched link.clicked events *)

Section batched.
Context `{O : Oracle} `{Codec} (n : Notifier.t).
Import Notifier.

Lemma byLink_lookup clicks id :
  byLink clicks !! id =
  match clicks_of id clicks with
  | [] => None
  | c :: _ => Some (Click.TenantID c, Z.of_nat (length (clicks_of id clicks)))
  end.
Proof.
  unfold byLink, clicks_of. induction clicks as [|c clicks IH] using rev_ind; [apply lookup_empty|].
  rewrite foldl_app, filter_app, filter_cons, filter_nil. simpl. unfold add_click at 1.
  destruct (decide (Click.LinkID c = id)) as [<-|Hne].
  - rewrite lookup_insert_eq, IH. destruct (filter _ clicks) as [|c' cs]; simpl; [done|].
    rewrite length_app. simpl. do 2 f_equal. lia.
  - by rewrite lookup_insert_ne, app_nil_r by done.
Qed.

(** What a queued event says, stamps apart. *)
Definition content (ev : Event.t) : EventType * UUID * list (string * any) :=
  (Event.Type_ ev, Event.TenantID ev, Event.Data ev).

Lemma dispatch_clicked_queue m ids w :
  let cfg := dispatcher n in
  Dispatcher.quit (w_disp w) = false →
  Z.of_nat (length (Dispatcher.events (w_disp w))) <= WebhookConfig.QueueSize cfg →
  ∃ evs, content <$> evs = omap (λ id, content ∘ clicked_event id <$> m !! id) ids
    ∧ let d' := w_disp (dispatch_clicked n m ids w).2 in
      Dispatcher.events d' = take (Z.to_nat (WebhookConfig.QueueSize cfg)) (Dispatcher.events (w_disp w) ++ evs)
      ∧ Dispatcher.quit d' = false
      ∧ Dispatcher.dropped d' = Dispatcher.dropped (w_disp w)
          + (Z.of_nat (length (Dispatcher.events (w_disp w) ++ evs)) - Z.of_nat (length (Dispatcher.events d'))).
Proof.
  intros cfg. revert w. induction ids as [|id ids IH]; intros w Hq Hlen; cbn [dispatch_clicked omap list_omap].
  { exists []. rewrite app_nil_r, take_ge by lia. simpl. split_and!; done || lia. }
  destruct (m !! id) as [a|]; simpl; [|by apply IH].
  destruct (Dispatch_run cfg (clicked_event id a) w) as (ev' & k & E & _ & Hty & Hten & Hdata).
  assert (Hc : content ev' = content (clicked_event id a)) by (unfold content; congruence).
  fold cfg. rewrite offer_event_run in E. simpl in E. rewrite Hq in E.
  destruct (Z.ltb_spec (Z.of_nat (length (Dispatcher.events (w_disp w)))) (WebhookConfig.QueueSize cfg)).
  - erewrite bind_run; [|by rewrite (bind_run _ _ _ _ _ E)].
    destruct (IH (upd_disp (upd_events (λ q, q ++ [ev'])) (set_step k w))) as (evs & Hevs & He & Hq' & Hd);
      [done | simpl; rewrite length_app; simpl; lia |].
    simpl in *. rewrite <- (assoc_L (++)) in He, Hd.
    exists (ev' :: evs). csimpl. rewrite Hc, Hevs. done.
  - erewrite bind_run; [|by rewrite (bind_run _ _ _ _ _ E)].
    destruct (IH (upd_disp drop_one (set_step k w))) as (evs & Hevs & He & Hq' & Hd); [done..|].
    simpl in *.
    assert (Hn : Z.to_nat (WebhookConfig.QueueSize cfg) = length (Dispatcher.events (w_disp w))) by lia.
    exists (ev' :: evs). csimpl. rewrite Hc, Hevs. split; [done|]. rewrite He, Hd, He, Hn.
    rewrite !take_app_length, !length_app. split_and!; [done..|]. simpl. lia.
Qed.

Lemma clicks_of_nil id clicks : clicks_of id clicks = [] ↔ id ∉ Click.LinkID <$> clicks.
Proof.
  rewrite list_elem_of_fmap. split.
  - intros Hn (c & -> & Hc). assert (Hin : c ∈ clicks_of (Click.LinkID c) clicks).
    { by apply list_elem_of_filter. }
    rewrite Hn in Hin. by apply not_elem_of_nil in Hin.
  - intros Hn. apply list_filter_none. intros c Hc <-. apply Hn. eauto.
Qed.

(** Over distinct links that cover a batch, the clicks per link add up to it. *)
Lemma sum_clicks_of ids clicks :
  NoDup ids → (∀ c, c ∈ clicks → Click.LinkID c ∈ ids) →
  sum_list_with (λ id, length (clicks_of id clicks)) ids = length clicks.
Proof.
  intros Hnd. induction clicks as [|c clicks IH]; intros Hin; simpl.
  { clear. induction ids; simpl; auto. }
  rewrite <- IH by (intros; apply Hin; by right). specialize (Hin c ltac:(by left)). clear IH.
  assert (Hone : ∀ ids, NoDup ids → sum_list_with (λ id, length (clicks_of id (c :: clicks))) ids
    = ((if decide (Click.LinkID c ∈ ids) then 1 else 0)
       + sum_list_with (λ id, length (clicks_of id clicks)) ids)%nat).
  { induction 1 as [|id l Hid Hl IHl]; [by rewrite decide_False by (apply not_elem_of_nil)|]. simpl. rewrite IHl.
    unfold clicks_of at 1. rewrite filter_cons. fold (clicks_of id clicks).
    destruct (decide (Click.LinkID c = id)) as [<-|Hne].
    - rewrite decide_False, decide_True by (done || by left). simpl. lia.
    - destruct (decide (Click.LinkID c ∈ l)).
      + rewrite decide_True by (by right). lia.
      + rewrite decide_False; [lia|]. by intros [?|?]%elem_of_cons. }
  rewrite Hone, decide_True by done. done.
Qed.

Lemma range_byLink clicks k id :
  id ∈ o_range k (map_to_list (byLink clicks)).*1 ↔ id ∈ Click.LinkID <$> clicks.
Proof.
  rewrite (o_range_perm k), list_elem_of_fmap. split.
  - intros ([id' a] & -> & Ha%elem_of_map_to_list). simpl. rewrite byLink_lookup in Ha.
    destruct (decide (id' ∈ Click.LinkID <$> clicks)); [done|].
    by rewrite (proj2 (clicks_of_nil _ _)) in Ha.
  - intros Hid. destruct (byLink clicks !! id) as [a|] eqn:Ha.
    + exists (id, a). by rewrite elem_of_map_to_list.
    + rewrite byLink_lookup in Ha. destruct (clicks_of id clicks) eqn:E; [|done].
      by apply clicks_of_nil in E.
Qed.

(** C35: Batched clicks.  On a dispatcher that runs, a flush of [clicks] queues one
    link.clicked event per link clicked, as far as the queue has room, and counts the
    events that do not fit; each event names its link, belongs to the tenant of the
    link's clicks, and its count is the number of clicks of that link in the batch, so
    that the counts of all events add up to the size of the batch. *)
Theorem ClicksFlushed_counts clicks w :
  let cfg := dispatcher n in
  Dispatcher.quit (w_disp w) = false →
  Z.of_nat (length (Dispatcher.events (w_disp w))) <= WebhookConfig.QueueSize cfg →
  ∃ ids evs,
    NoDup ids ∧ (∀ id, id ∈ ids ↔ id ∈ Click.LinkID <$> clicks)
    ∧ Forall2 (λ id ev, Event.Type_ ev = EventLinkClicked
         ∧ (∃ c cs, clicks_of id clicks = c :: cs ∧ Event.TenantID ev = Click.TenantID c)
         ∧ Event.Data ev = [("link_id", AStr (uuid_String id));
                            ("count", AInt (Z.of_nat (length (clicks_of id clicks))))]) ids evs
    ∧ sum_list_with (λ id, length (clicks_of id clicks)) ids = length clicks
    ∧ let d' := w_disp (ClicksFlushed n clicks w).2 in
      Dispatcher.events d' = take (Z.to_nat (WebhookConfig.QueueSize cfg)) (Dispatcher.events (w_disp w) ++ evs)
      ∧ Dispatcher.dropped d' = Dispatcher.dropped (w_disp w)
          + (Z.of_nat (length (Dispatcher.events (w_disp w) ++ evs)) - Z.of_nat (length (Dispatcher.events d'))).
Proof.
  intros cfg Hq Hlen. destruct (decide (clicks = [])) as [->|Hne].
  { exists [], []. split_and!; [constructor|by intros|constructor|done|].
    simpl. rewrite app_nil_r, take_ge by lia. split; [done | lia]. }
  set (ids := o_range (w_step w) (map_to_list (byLink clicks)).*1).
  assert (Hin : ∀ id, id ∈ ids ↔ id ∈ Click.LinkID <$> clicks) by (intros; apply range_byLink).
  assert (Hnd : NoDup ids) by (unfold ids; rewrite (o_range_perm _ _); apply NoDup_fst_map_to_list).
  destruct (dispatch_clicked_queue (byLink clicks) ids (set_step (S (w_step w)) w) Hq Hlen)
    as (evs & Hevs & He & _ & Hd).
  assert (Hrun : ClicksFlushed n clicks w = dispatch_clicked n (byLink clicks) ids (set_step (S (w_step w)) w)).
  { destruct clicks; [done|]. unfold ClicksFlushed. by rewrite (bind_run _ _ _ _ _ (range_keys_run _ _)). }
  exists ids, evs. rewrite Hrun. split_and!; [exact Hnd|exact Hin| | |split; [exact He|exact Hd]].
  - assert (Hall : ∀ id, id ∈ ids → id ∈ Click.LinkID <$> clicks) by (intros; by apply Hin).
    clear -Hevs Hall. revert evs Hevs Hall.
    induction ids as [|id ids IH]; intros evs Hevs Hall; [by destruct evs|].
    cbn [omap list_omap] in Hevs. rewrite byLink_lookup in Hevs.
    destruct (clicks_of id clicks) as [|c cs] eqn:Ec.
    { apply clicks_of_nil in Ec. destruct Ec. apply Hall. by left. }
    destruct evs as [|ev evs]; [done|]. cbn [fmap list_fmap option_fmap option_map] in Hevs.
    injection Hevs as Hev Hevs. constructor; [|apply IH; [done|]; intros; apply Hall; by right].
    unfold content in Hev. simpl in Hev. simplify_eq. rewrite Ec. naive_solver.
  - apply sum_clicks_of; [done|]. intros c Hc. apply Hin, list_elem_of_fmap. eauto.
Qed.
End batched.
