(* ===== verification/Http.v ===== *)
(** The HTTP layer below the handlers: error envelopes (internal/httpx/response.go,
    internal/handler/errors.go) and the middleware of the API
    (internal/middleware/auth.go, context.go, ratelimit.go).  A handler is a function
    from gin's context to a response; gin itself (routing, binding, writing) is not
    modelled. *)
From stdpp Require Import prelude gmap strings list.
From Stdlib Require Import Ascii.
From S2P Require Import Prelude GoStd Domain Wire World Schema LinkRepo LinkCache KeyRepo Auth RateLimit.

Local Open Scope Z_scope.

(** * Responses *)

(** What net/http writes of a redirect's target in the Location header: each byte beyond
    ASCII as two hexadecimal digits after a percent sign. *)
Fixpoint hexEscapeNonASCII (s : string) : string :=
  match s with
  | "" => ""
  | String c s => (if 128 <=? byte_val c then "%" +:+ hex_encode [c] else String c "") +:+ hexEscapeNonASCII s
  end.

Lemma hexEscapeNonASCII_ascii s :
  Forall (λ c, byte_val c < 128) (bytes_of s) → hexEscapeNonASCII s = s.
Proof.
  induction s as [|c s IH]; [done|]. cbn [bytes_of]. intros [Hc Hs]%Forall_cons. cbn [hexEscapeNonASCII].
  rewrite (proj2 (Z.leb_gt _ _)) by done. by rewrite IH.
Qed.

Example hexEscape_ex : hexEscapeNonASCII ("a" +:+ String "195" (String "169" "?b")) = "a%c3%a9?b".
Proof. reflexivity. Qed.

Module linkResponse.
Record t := Mk {
  ID : UUID; Code : string; ShortURL : string; TargetURL : string; RedirectType : Z;
  ExpiresAt : option Time; MaxClicks : option Z; ClickCount : Z; CreatedAt : Time; UpdatedAt : Time;
}.
End linkResponse.

Module webhookResponse.
Record t := Mk {
  ID : UUID; URL : string; Events : list string; Active : bool; CreatedAt : Time; Secret : string;
}.
End webhookResponse.

(** The JSON value a response carries, before its encoding. *)
Inductive body :=
  | BNone
  | BError (code message : string)
  | BLink (l : linkResponse.t)
  | BLinks (ls : list linkResponse.t) (count : Z)
  | BWebhook (h : webhookResponse.t)
  | BWebhooks (hs : list webhookResponse.t) (count : Z)
  | BStats (s : LinkStats.t)
  | BOverview (o : TenantOverview.t)
  | BStatus (status : string)
  | BChecks (status : string) (checks : list (string * string))
  | BRedirect (location : string).

Module Response.
Record t := Mk { status : Z; headers : list (string * string); content : body }.

Definition with_headers (hs : list (string * string)) (r : t) : t :=
  Mk (status r) (hs ++ headers r) (content r).
End Response.

(** ** Package httpx *)

Definition CodeUnauthorized : string := "unauthorized".
Definition CodeNotFound : string := "not_found".
Definition CodeValidation : string := "validation_error".
Definition CodeConflict : string := "conflict".
Definition CodeRateLimited : string := "rate_limited".
Definition CodeGone : string := "gone".
Definition CodeInternal : string := "internal_error".

(** [WriteError] and [AbortError]: the response is the same, and the latter also runs
    no later handler. *)
Definition WriteError (status : Z) (code message : string) : Response.t :=
  Response.Mk status [] (BError code message).

Definition StatusForError (err : error) : Z * string :=
  if Is err ErrNotFound then (404, CodeNotFound)
  else if Is err ErrConflict then (409, CodeConflict)
  else if Is err ErrValidation then (400, CodeValidation)
  else if Is err ErrUnauthorized then (401, CodeUnauthorized)
  else if Is err ErrGone then (410, CodeGone)
  else (500, CodeInternal).

(** ** handler/errors.go *)

Definition genericMessage (status : Z) : string :=
  if status =? 400 then "invalid request"
  else if status =? 401 then "unauthorized"
  else if status =? 403 then "forbidden"
  else if status =? 404 then "resource not found"
  else if status =? 409 then "resource already exists"
  else if status =? 410 then "resource is no longer available"
  else "internal server error".

Definition respondError (err : error) : Response.t :=
  let '(status, code) := StatusForError err in
  let message := genericMessage status in
  let message := if Is err ErrValidation then Error err else message in
  WriteError status code message.

Definition respondValidation (message : string) : Response.t := WriteError 400 CodeValidation message.

(** * Requests *)

(** What the handlers read of a request: [Body] is [None] when it cannot be read. *)
Module Request.
Record t := Mk {
  Method : string;
  Path : string;
  RequestIDHeader : string;
  Authorization : string;
  Param : string → string;
  Query : string → option string;
  Body : option string;
  Referer : string;
  UserAgent : string;
  ClientIP : string;
}.
End Request.

(** [gin.Context]: the request and the keys the middleware sets. *)
Module Ctx.
Record t := Mk {
  req : Request.t; tenant_id : option UUID; api_key_id : option UUID; request_id : option string }.
End Ctx.

(** context.go. *)
Definition setAuth (c : Ctx.t) (key : APIKey.t) : Ctx.t :=
  Ctx.Mk (Ctx.req c) (Some (APIKey.TenantID key)) (Some (APIKey.ID key)) (Ctx.request_id c).
Definition TenantID (c : Ctx.t) : option UUID := Ctx.tenant_id c.
Definition MustTenantID (c : Ctx.t) : UUID := default uuid_Nil (TenantID c).
Definition APIKeyID (c : Ctx.t) : option UUID := Ctx.api_key_id c.
Definition GetRequestID (c : Ctx.t) : string := default "" (Ctx.request_id c).

(** What a chain of handlers leaves behind: what was written, the context with the keys
    set on the way, and the goroutine started. *)
Module Answer.
Record t := Mk { response : Response.t; ctx : Ctx.t; goroutine : option (M ()) }.
End Answer.

Abbreviation Handler := (Ctx.t → M Response.t) (only parsing).

(** * Authentication (auth.go) *)

Definition bearer_prefix : string := "Bearer ".

Definition bearerToken (c : Ctx.t) : option string :=
  let h := Request.Authorization (Ctx.req c) in
  if (len h <=? len bearer_prefix)
     || negb (EqualFold (str_take (String.length bearer_prefix) h) bearer_prefix) then None
  else
    let token := TrimSpace (str_drop (String.length bearer_prefix) h) in
    if String.eqb token "" then None else Some token.

Definition APIKeyAuth (Authenticate : string → M (APIKey.t * M ())) (next : Handler) (c : Ctx.t)
    : M Answer.t :=
  match bearerToken c with
  | None => mret (Answer.Mk (WriteError 401 CodeUnauthorized "missing or malformed Authorization header") c None)
  | Some token =>
      r ← attempt (Authenticate token);
      match r with
      | inr _ => mret (Answer.Mk (WriteError 401 CodeUnauthorized "invalid API key") c None)
      | inl (key, touch) => resp ← next (setAuth c key); mret (Answer.Mk resp (setAuth c key) (Some touch))
      end
  end.

(** * Rate limiting (ratelimit.go) *)

(** [int(retryAfter.Seconds())], one at least; the limiter answers in milliseconds. *)
Definition retrySecs (retryAfter : Duration) : Z :=
  let s := Z.quot retryAfter Second in if s <? 1 then 1 else s.

Definition RateLimit `{Codec} (Allow : string → Z → Duration → M (bool * Z * Duration))
    (limit : Z) (window : Duration) (next : Handler) : Handler := λ c,
  match TenantID c with
  | None => next c
  | Some tenantID =>
      r ← attempt (Allow (uuid_String tenantID) limit window);
      match r with
      | inr _ => next c
      | inl (allowed, remaining, retryAfter) =>
          let hs := [("X-RateLimit-Limit", Itoa limit); ("X-RateLimit-Remaining", Itoa remaining)] in
          if negb allowed then
            mret (Response.with_headers (hs ++ [("Retry-After", Itoa (retrySecs retryAfter))])
                    (WriteError 429 CodeRateLimited "rate limit exceeded"))
          else resp ← next c; mret (Response.with_headers hs resp)
      end
  end.

Section rate_limited.
Context `{O : Oracle} `{Codec}.

(** The announced delay is at least a second, and falls short of the limiter's by less
    than one: fractions of a second are cut off. *)
Lemma retrySecs_bounds r :
  0 <= r → 1 <= retrySecs r ∧ (retrySecs r = 1 ∨ retrySecs r * Second <= r) ∧ r - retrySecs r * Second < Second.
Proof.
  intros Hr. unfold retrySecs. rewrite Z.quot_div_nonneg by (unfold Second; lia).
  pose proof (Z.mul_div_le r Second ltac:(done)). pose proof (Z.mul_succ_div_gt r Second ltac:(done)).
  unfold Second in *. destruct (Z.ltb_spec (r / 1000000000) 1); lia.
Qed.

(** The limiter's middleware.  The bucket is the tenant's.  An error of the limiter
    lets the request through untouched (fail open); an allowed request is answered by
    the handler, with the two limit headers added; a denied one is answered 429 and the
    handler does not run, with a Retry-After of at least one second that falls short of
    the wait the limiter computed by less than a second. *)
Theorem rate_limited Allow limit window next req t key rid w :
  let c := Ctx.Mk req (Some t) key rid in
  let hs rem := [("X-RateLimit-Limit", Itoa limit); ("X-RateLimit-Remaining", Itoa rem)] in
  let o := RateLimit Allow limit window next c w in
  match Allow (uuid_String t) limit window w with
  | (Err _, w1) => o = next c w1
  | (Ok (true, rem, _), w1) =>
      o.2 = (next c w1).2
      ∧ ∀ resp, (next c w1).1 = Ok resp → o.1 = Ok (Response.with_headers (hs rem) resp)
  | (Ok (false, rem, retry), w1) =>
      0 <= retry →
      ∃ s, o = (Ok (Response.Mk 429 (hs rem ++ [("Retry-After", Itoa s)])
                      (BError CodeRateLimited "rate limit exceeded")), w1)
        ∧ 1 <= s ∧ (s = 1 ∨ s * Second <= retry) ∧ retry - s * Second < Second
  | (Panic p, w1) => o = (Panic p, w1)
  end.
Proof.
  cbv zeta. unfold RateLimit. simpl. rewrite attempt_bind.
  destruct (Allow (uuid_String t) limit window w) as [[[[[|] rem] retry]|e|p] w1]; simpl; try done.
  - unfold mbind, M_bind. by destruct (next _ w1) as [[?|?|?] w2]; split; intros; simplify_eq/=.
  - intros Hr. exists (retrySecs retry). by split; [|apply retrySecs_bounds].
Qed.
End rate_limited.

(** * Errors do not leak *)

(** The error envelope.  Whatever the error and whatever internal text it carries,
    the status and the code are those of its sentinel, and the message is the fixed
    one of the status, unless the error is a validation error: then it is the error's
    own text. *)
Theorem respondError_correct err :
  ∃ status code message,
    respondError err = WriteError status code message
    ∧ (status, code) ∈ [(404, CodeNotFound); (409, CodeConflict); (400, CodeValidation);
                        (401, CodeUnauthorized); (410, CodeGone); (500, CodeInternal)]
    ∧ (∀ s, Is err s = true → status = match s with
         | ErrNotFound => 404 | ErrConflict => 409 | ErrValidation => 400
         | ErrUnauthorized => 401 | ErrGone => 410 | ErrCodeExhausted => 500 end)
    ∧ ((∀ s, Is err s = false) → status = 500)
    ∧ (if Is err ErrValidation then message = Error err
       else message ∈ ["unauthorized"; "resource not found"; "resource already exists";
                       "resource is no longer available"; "internal server error"]).
Proof.
  unfold respondError, StatusForError. pose proof (Is_sentinel_of err) as His. rewrite !His.
  destruct (sentinel_of err) as [x|]; [destruct x|]; simpl; eexists _, _, _;
    (split; [reflexivity|]); (split; [eapply bool_decide_eq_true; vm_compute; reflexivity|]); (split; [|split]).
  all: try (eapply bool_decide_eq_true; vm_compute; reflexivity).
  all: try reflexivity.
  all: try (intros s Hs; rewrite His in Hs; apply bool_decide_eq_true in Hs; by simplify_eq).
  all: intros Hn; first [reflexivity | exfalso].
  1: specialize (Hn ErrNotFound). 2: specialize (Hn ErrConflict). 3: specialize (Hn ErrValidation).
  4: specialize (Hn ErrUnauthorized). 5: specialize (Hn ErrGone).
  all: rewrite His in Hn; by apply bool_decide_eq_false in Hn.
Qed.
