(* ===== verification/Observe.v ===== *)
(** The middleware every request goes through (internal/middleware/observability.go) and
    the levels of the log (internal/logger/logger.go). *)
From stdpp Require Import prelude gmap strings list.
From S2P Require Import Prelude GoStd Domain Wire World LinkCache Counters Http.

Local Open Scope Z_scope.

(** What gin does by itself: the bytes it counts for a response, the response after a
    panic, and the one for a path no route matches. *)
Class Gin := {
  gin_size : Response.t → Z;
  gin_recovered : Response.t;
  gin_no_route : Response.t;
}.

(** * The logger *)

Definition parseLevel (level : string) : Level :=
  let l := ToLower level in
  if String.eqb l "debug" then LevelDebug
  else if String.eqb l "warn" then LevelWarn
  else if String.eqb l "error" then LevelError
  else LevelInfo.

(** The integers behind slog's levels. *)
Definition level_rank (l : Level) : Z :=
  match l with LevelDebug => -4 | LevelInfo => 0 | LevelWarn => 4 | LevelError => 8 end.

(** A handler made for level [min] keeps the lines of that level or above. *)
Definition log (min : Level) (line : AccessLine.t) : M () :=
  if level_rank min <=? level_rank (AccessLine.level line)
  then modify (upd_access (λ l, l ++ [line])) else mret ().

(** * The middleware *)

Abbreviation Chain := (Ctx.t → M Answer.t) (only parsing).

Definition setRequestID (c : Ctx.t) (id : string) : Ctx.t :=
  Ctx.Mk (Ctx.req c) (Ctx.tenant_id c) (Ctx.api_key_id c) (Some id).

Definition with_request_id (id : string) (a : Answer.t) : Answer.t :=
  Answer.Mk (Response.with_headers [("X-Request-ID", id)] (Answer.response a)) (Answer.ctx a) (Answer.goroutine a).

Section middleware.
Context `{O : Oracle} `{Codec} `{Gin}.

Definition RequestID (next : Chain) : Chain := λ c,
  let id := Request.RequestIDHeader (Ctx.req c) in
  id ← (if String.eqb id "" then n ← tick; mret (uuid_String (o_uuid n)) else mret id);
  a ← next (setRequestID c id);
  mret (with_request_id id a).

(** [gin.Recovery]. *)
Definition Recovery (next : Chain) : Chain := λ c w,
  match next c w with
  | (Panic _, w') => (Ok (Answer.Mk gin_recovered c None), w')
  | r => r
  end.

Definition status_level (status : Z) : Level :=
  if 500 <=? status then LevelError else if 400 <=? status then LevelWarn else LevelInfo.

Definition access_line (a : Answer.t) (latency : Duration) : AccessLine.t :=
  let c := Answer.ctx a in
  let status := Response.status (Answer.response a) in
  {| AccessLine.level := status_level status;
     AccessLine.method := Request.Method (Ctx.req c);
     AccessLine.path := Request.Path (Ctx.req c);
     AccessLine.status := status;
     AccessLine.latency_ms := Z.quot latency Millisecond;
     AccessLine.bytes := gin_size (Answer.response a);
     AccessLine.client_ip := Request.ClientIP (Ctx.req c);
     AccessLine.request_id := GetRequestID c;
     AccessLine.tenant_id := uuid_String <$> TenantID c |}.

Definition RequestLogger (min : Level) (next : Chain) : Chain := λ c,
  start ← now;
  a ← next c;
  t ← now;
  log min (access_line a (t - start));;
  mret a.

(** [Metrics]; [fullPath] is [c.FullPath()], empty when no route matched. *)
Definition MetricsMiddleware (observeHTTP : string → string → string → Duration → M ()) (fullPath : string)
    (next : Chain) : Chain := λ c,
  start ← now;
  a ← next c;
  t ← now;
  observeHTTP (Request.Method (Ctx.req (Answer.ctx a))) (if String.eqb fullPath "" then "unmatched" else fullPath)
    (Itoa (Response.status (Answer.response a))) (t - start);;
  mret a.

(** The global chain of [newRouter], in its order. *)
Definition observed (min : Level) (fullPath : string) (next : Chain) : Chain :=
  RequestID (Recovery (RequestLogger min (MetricsMiddleware ObserveHTTP fullPath next))).
End middleware.

(** * What a request leaves behind *)

Section outcomes.
Context `{O : Oracle} `{Codec} `{Gin}.

(** The request id: the client's, or a fresh one. *)
Definition request_id_of (c : Ctx.t) (w : World) : string :=
  if String.eqb (Request.RequestIDHeader (Ctx.req c)) "" then uuid_String (o_uuid (w_step w))
  else Request.RequestIDHeader (Ctx.req c).

Lemma RequestID_run next c w :
  ∃ n, RequestID next c w
     = (a ← next (setRequestID c (request_id_of c w)); mret (with_request_id (request_id_of c w) a)) (set_step n w).
Proof.
  unfold RequestID, request_id_of. destruct (String.eqb _ "").
  - by exists (S (w_step w)).
  - exists (w_step w). by destruct w.
Qed.

(** The counters after one more request with these labels. *)
Definition count_http (l : string * string * string) (d : Duration) (m : Metrics.t) : Metrics.t :=
  Metrics.Mk (Metrics.cacheHits m) (Metrics.cacheMisses m) (Metrics.redirects m) (Metrics.analyticsEnqueued m)
    (Metrics.analyticsDropped m) (Metrics.analyticsFlushed m) (Metrics.analyticsQueueDepth m)
    (<[l := default 0 (Metrics.httpRequests m !! l) + 1]> (Metrics.httpRequests m))
    (<[l := default [] (Metrics.httpDuration m !! l) ++ [d]]> (Metrics.httpDuration m)).

(** What reaches the log. *)
Definition kept (min : Level) (line : AccessLine.t) : list AccessLine.t :=
  if level_rank min <=? level_rank (AccessLine.level line) then [line] else [].

Lemma log_run min line w : log min line w = (Ok (), upd_access (λ l, l ++ kept min line) w).
Proof.
  unfold log, kept. destruct (_ <=? _); [done|]. destruct w. unfold upd_access. simpl. by rewrite app_nil_r.
Qed.

Lemma now_run w : now w = (Ok (o_now (w_step w)), set_step (S (w_step w)) w).
Proof. done. Qed.

Definition labels (fullPath : string) (a : Answer.t) : string * string * string :=
  (Request.Method (Ctx.req (Answer.ctx a)), if String.eqb fullPath "" then "unmatched" else fullPath,
   Itoa (Response.status (Answer.response a))).

Lemma MetricsMiddleware_run fullPath next c w :
  MetricsMiddleware ObserveHTTP fullPath next c w =
  match next c (set_step (S (w_step w)) w) with
  | (Ok a, w') => (Ok a, upd_metrics (count_http (labels fullPath a) (o_now (w_step w') - o_now (w_step w)))
                           (set_step (S (w_step w')) w'))
  | r => r
  end.
Proof.
  unfold MetricsMiddleware. rewrite (bind_run _ _ _ _ _ (now_run w)).
  unfold mbind at 1, M_bind at 1. by destruct (next c _) as [[?|?|?] w'].
Qed.

Lemma RequestLogger_run min next c w :
  RequestLogger min next c w =
  match next c (set_step (S (w_step w)) w) with
  | (Ok a, w') => (Ok a, upd_access (λ l, l ++ kept min (access_line a (o_now (w_step w') - o_now (w_step w))))
                           (set_step (S (w_step w')) w'))
  | r => r
  end.
Proof.
  unfold RequestLogger. rewrite (bind_run _ _ _ _ _ (now_run w)).
  unfold mbind at 1, M_bind at 1. destruct (next c _) as [[?|?|?] w']; [|done..].
  by rewrite (bind_run _ _ _ _ _ (now_run w')), (bind_run _ _ _ _ _ (log_run _ _ _)).
Qed.

(** The answer of the chain is its handler's, with the id, or gin's after a panic. *)
Lemma observed_Ok min fullPath next c w a w' :
  observed min fullPath next c w = (Ok a, w') →
  ∃ n, (∃ a' w1, next (setRequestID c (request_id_of c w)) (set_step n w) = (Ok a', w1)
          ∧ a = with_request_id (request_id_of c w) a')
       ∨ a = with_request_id (request_id_of c w) (Answer.Mk gin_recovered (setRequestID c (request_id_of c w)) None).
Proof.
  unfold observed.
  destruct (RequestID_run (Recovery (RequestLogger min (MetricsMiddleware ObserveHTTP fullPath next))) c w) as [n ->].
  set (id := request_id_of c w). set (c1 := setRequestID c id). intros Ha. exists (S (S n)).
  unfold mbind, M_bind, Recovery in *. rewrite RequestLogger_run, MetricsMiddleware_run in *. cbn [w_step set_step] in *.
  change (set_step (S (S n)) (set_step (S n) (set_step n w))) with (set_step (S (S n)) w) in *.
  destruct (next c1 (set_step (S (S n)) w)) as [[a'|e|p] w1] eqn:E; [| done |]; inv_ok Ha;
    [left; eauto|by right].
Qed.

(** What the handler and the counters keep, the chain keeps. *)
Lemma observed_keeps (I : World → Prop) min fullPath next c :
  (∀ n w, I w → I (set_step n w)) → (∀ f w, I w → I (upd_metrics f w)) → (∀ f w, I w → I (upd_access f w)) →
  (∀ c, preserves I (next c)) → preserves I (observed min fullPath next c).
Proof.
  intros Hs Hm Hl Hn. unfold observed, RequestID, now.
  assert (Hrec : ∀ nx c, preserves I (nx c) → preserves I (Recovery nx c)).
  { intros nx c1 Hnx w Hw. specialize (Hnx w Hw). unfold Recovery. by destruct (nx c1 w) as [[?|?|?] ?]. }
  preserve; auto with preserves.
  all: apply Hrec; unfold RequestLogger, MetricsMiddleware, log, now, ObserveHTTP; preserve; auto with preserves.
Qed.

(** C33: One request, one line, one observation.  Every request gets an id, the client's
    X-Request-ID when it sends one and a fresh one otherwise, which its handler sees and
    its response carries.  When the handler returns, exactly one line goes to the log,
    if the configured level lets it through, and one request is counted and timed under
    its method, its route template and its status; nothing else changes but the clock.
    When the handler panics, the client gets gin's answer with the id, and the request
    is neither logged nor counted: Recovery runs outside of both. *)
Theorem observed_request min fullPath next c w :
  let id := request_id_of c w in
  let o := observed min fullPath next c w in
  ∃ n, match next (setRequestID c id) (set_step n w) with
  | (Ok a, w') => ∃ latency elapsed k,
      o = (Ok (with_request_id id a),
           upd_access (λ l, l ++ kept min (access_line a latency))
             (upd_metrics (count_http (labels fullPath a) elapsed) (set_step k w')))
  | (Err e, w') => o = (Err e, w')
  | (Panic _, w') => o = (Ok (with_request_id id (Answer.Mk gin_recovered (setRequestID c id) None)), w')
  end.
Proof.
  cbv zeta. unfold observed.
  destruct (RequestID_run (Recovery (RequestLogger min (MetricsMiddleware ObserveHTTP fullPath next))) c w) as [n ->].
  set (id := request_id_of c w). set (c1 := setRequestID c id). exists (S (S n)).
  unfold mbind, M_bind, Recovery. rewrite RequestLogger_run, MetricsMiddleware_run. cbn [w_step set_step].
  change (set_step (S (S n)) (set_step (S n) (set_step n w))) with (set_step (S (S n)) w).
  destruct (next c1 (set_step (S (S n)) w)) as [[a|e|p] w'] eqn:E; [|done..].
  eexists _, _, (S (S (w_step w'))). reflexivity.
Qed.
End outcomes.
