(* ===== verification/Handlers.v ===== *)
(** The handlers (internal/handler: link.go, stats.go, webhook.go, redirect.go,
    click_recorder.go, health.go): from a request to a service call and back. *)
From stdpp Require Import prelude gmap strings list.
From Stdlib Require Import Ascii.
From S2P Require Import Prelude GoStd Rfc3339 Json Domain Wire Enrich World Schema LinkRepo LinkCache Shortcode LinkService.
From S2P Require Import Counters Redirect WebhookRepo WebhookService ClickRepo Stats Ingest Http.

Local Open Scope Z_scope.

(** * Decoding *)

Module createLinkRequest.
Record t := Mk {
  URL : string; CustomAlias : string; RedirectType : Z; ExpiresAt : option Time; MaxClicks : option Z;
}.
End createLinkRequest.

Module createWebhookRequest.
Record t := Mk { URL : string; Events : list string }.
End createWebhookRequest.

(** [c.ShouldBindJSON], gin's binding of a body to the two request types ([None] is an
    error). *)
Class Binding := {
  bind_createLink : string → option createLinkRequest.t;
  bind_createWebhook : string → option createWebhookRequest.t;
}.

Definition atoiDefault (s : string) (def : Z) : Z :=
  if String.eqb s "" then def else match Atoi s with Some n => n | None => def end.

(** [c.Query(key)] and [c.DefaultQuery(key, def)]. *)
Definition query (c : Ctx.t) (key : string) : string := default "" (Request.Query (Ctx.req c) key).
Definition default_query (c : Ctx.t) (key def : string) : string :=
  default def (Request.Query (Ctx.req c) key).

(** A service call: its value makes the response, its error the envelope. *)
Definition respond {A} (m : M A) (k : A → Response.t) : M Response.t :=
  r ← attempt m; match r with inl a => mret (k a) | inr err => mret (respondError err) end.

Section decode.
Context `{Codec}.

(** [parseID]: on [None] the 400 is written already. *)
Definition parseID (c : Ctx.t) : option UUID := uuid_Parse (Request.Param (Ctx.req c) "id").

Definition bad_id : Response.t := respondValidation "id must be a valid UUID".

Definition with_id (c : Ctx.t) (k : UUID → M Response.t) : M Response.t :=
  match parseID c with None => mret bad_id | Some id => k id end.
End decode.

(** * Links (link.go) *)

Section update_input.
Definition isJSONNull (raw : string) : bool := String.eqb (TrimSpace raw) "null".

(** The fields of [in] the four blocks of [buildUpdateInput] set; a message is an error. *)
Definition field_url (fields : gmap string string) : option string + string :=
  match fields !! "url" with
  | None => inl None
  | Some raw => match json_string raw with Some s => inl (Some s) | None => inr "url must be a string" end
  end.

Definition field_redirect (fields : gmap string string) : option Z + string :=
  match fields !! "redirect_type" with
  | None => inl None
  | Some raw => match json_int raw with Some n => inl (Some n) | None => inr "redirect_type must be an integer" end
  end.

(** The new value, and whether the field is cleared. *)
Definition field_expires (fields : gmap string string) : (option Time * bool) + string :=
  match fields !! "expires_at" with
  | None => inl (None, false)
  | Some raw =>
      if isJSONNull raw then inl (None, true)
      else match json_time raw with
           | Some t => inl (Some t, false)
           | None => inr "expires_at must be an RFC3339 timestamp or null"
           end
  end.

Definition field_max (fields : gmap string string) : (option Z * bool) + string :=
  match fields !! "max_clicks" with
  | None => inl (None, false)
  | Some raw =>
      if isJSONNull raw then inl (None, true)
      else match json_int raw with
           | Some n => inl (Some n, false)
           | None => inr "max_clicks must be an integer or null"
           end
  end.

Definition buildUpdateInput (fields : gmap string string) : UpdateLinkInput.t + string :=
  match field_url fields with
  | inr e => inr e
  | inl url =>
      match field_redirect fields with
      | inr e => inr e
      | inl rt =>
          match field_expires fields with
          | inr e => inr e
          | inl (expires, clearExpires) =>
              match field_max fields with
              | inr e => inr e
              | inl (maxClicks, clearMax) =>
                  inl (UpdateLinkInput.Mk url rt expires clearExpires maxClicks clearMax)
              end
          end
      end
  end.
End update_input.

Module LinkHandler.
Record t := Mk { svc : LinkService.t; baseURL : string }.

Definition New (svc : LinkService.t) (baseURL : string) : t :=
  Mk svc (trim_right_byte "/"%char baseURL).

Section handler.
Context `{O : Oracle} `{Codec} `{Binding} (h : t).

Definition toResponse (l : Link.t) : linkResponse.t := {|
  linkResponse.ID := Link.ID l;
  linkResponse.Code := Link.Code l;
  linkResponse.ShortURL := baseURL h +:+ "/" +:+ Link.Code l;
  linkResponse.TargetURL := Link.TargetURL l;
  linkResponse.RedirectType := Link.RedirectType l;
  linkResponse.ExpiresAt := Link.ExpiresAt l;
  linkResponse.MaxClicks := Link.MaxClicks l;
  linkResponse.ClickCount := Link.ClickCount l;
  linkResponse.CreatedAt := Link.CreatedAt l;
  linkResponse.UpdatedAt := Link.UpdatedAt l;
|}.

Definition Create (c : Ctx.t) : M Response.t :=
  match Request.Body (Ctx.req c) ≫= bind_createLink with
  | None => mret (respondValidation "request body must be valid JSON")
  | Some req =>
      respond (LinkService.Create (svc h) (MustTenantID c) {|
          CreateLinkInput.TargetURL := createLinkRequest.URL req;
          CreateLinkInput.CustomAlias := TrimSpace (createLinkRequest.CustomAlias req);
          CreateLinkInput.RedirectType := createLinkRequest.RedirectType req;
          CreateLinkInput.ExpiresAt := createLinkRequest.ExpiresAt req;
          CreateLinkInput.MaxClicks := createLinkRequest.MaxClicks req |})
        (λ link, Response.Mk 201 [] (BLink (toResponse link)))
  end.

Definition List (c : Ctx.t) : M Response.t :=
  let limit := atoiDefault (query c "limit") 50 in
  let offset := atoiDefault (query c "offset") 0 in
  respond (LinkService.List (MustTenantID c) limit offset)
    (λ links, Response.Mk 200 [] (BLinks (toResponse <$> links) (Z.of_nat (length links)))).

Definition Get (c : Ctx.t) : M Response.t :=
  with_id c (λ id, respond (LinkService.Get (MustTenantID c) id)
    (λ link, Response.Mk 200 [] (BLink (toResponse link)))).

Definition Update (c : Ctx.t) : M Response.t :=
  with_id c (λ id,
    match Request.Body (Ctx.req c) with
    | None => mret (respondValidation "could not read request body")
    | Some raw =>
        match json_fields raw with
        | None => mret (respondValidation "request body must be a valid JSON object")
        | Some fields =>
            match buildUpdateInput fields with
            | inr verr => mret (respondValidation verr)
            | inl inp =>
                respond (LinkService.Update (svc h) (MustTenantID c) id inp)
                  (λ link, Response.Mk 200 [] (BLink (toResponse link)))
            end
        end
    end).

Definition Delete (c : Ctx.t) : M Response.t :=
  with_id c (λ id, respond (LinkService.Delete (svc h) (MustTenantID c) id)
    (λ _, Response.Mk 204 [] BNone)).
End handler.
End LinkHandler.

(** * Statistics (stats.go) *)

Definition defaultStatsWindow : Duration := 7 * 24 * Hour.

Module StatsHandler.
Section handler.
Context `{O : Oracle} `{Codec} `{Binding} `{Collation}.

Definition parseTimeQuery (c : Ctx.t) (key : string) (def : Time) : option Time :=
  let raw := query c key in
  if String.eqb raw "" then Some def else ParseRFC3339 raw.

Definition LinkStats (c : Ctx.t) : M Response.t :=
  with_id c (λ id,
    t ← now;
    match parseTimeQuery c "to" t with
    | None => mret (respondValidation "to must be an RFC3339 timestamp")
    | Some to =>
        match parseTimeQuery c "from" (to - defaultStatsWindow) with
        | None => mret (respondValidation "from must be an RFC3339 timestamp")
        | Some from =>
            let bucket := default_query c "bucket" BucketHour in
            if negb (Bucket_Valid bucket) then mret (respondValidation "bucket must be 'hour' or 'day'")
            else if negb (from <? to) then mret (respondValidation "'to' must be after 'from'")
            else respond (StatsService.LinkStats (MustTenantID c) id from to bucket)
                   (λ stats, Response.Mk 200 [] (BStats stats))
        end
    end).

Definition Overview (c : Ctx.t) : M Response.t :=
  respond (StatsService.Overview (MustTenantID c)) (λ o, Response.Mk 200 [] (BOverview o)).
End handler.
End StatsHandler.

(** * Webhooks (webhook.go) *)

Definition toWebhookResponse (w : Webhook.t) (includeSecret : bool) : webhookResponse.t := {|
  webhookResponse.ID := Webhook.ID w;
  webhookResponse.URL := Webhook.URL w;
  webhookResponse.Events := Webhook.Events w;
  webhookResponse.Active := Webhook.Active w;
  webhookResponse.CreatedAt := Webhook.CreatedAt w;
  webhookResponse.Secret := if includeSecret then Webhook.Secret w else "";
|}.

Module WebhookHandler.
Section handler.
Context `{O : Oracle} `{Codec} `{Binding}.

Definition Create (c : Ctx.t) : M Response.t :=
  match Request.Body (Ctx.req c) ≫= bind_createWebhook with
  | None => mret (respondValidation "request body must be valid JSON")
  | Some req =>
      respond (WebhookService.Create (MustTenantID c) {|
          CreateWebhookInput.URL := createWebhookRequest.URL req;
          CreateWebhookInput.Events := createWebhookRequest.Events req |})
        (λ w, Response.Mk 201 [] (BWebhook (toWebhookResponse w true)))
  end.

Definition List (c : Ctx.t) : M Response.t :=
  respond (WebhookService.List (MustTenantID c))
    (λ hooks, Response.Mk 200 [] (BWebhooks ((λ h, toWebhookResponse h false) <$> hooks)
                                    (Z.of_nat (length hooks)))).

Definition Delete (c : Ctx.t) : M Response.t :=
  with_id c (λ id, respond (WebhookService.Delete (MustTenantID c) id) (λ _, Response.Mk 204 [] BNone)).
End handler.
End WebhookHandler.

(** * Redirects (redirect.go, click_recorder.go) *)

(** [ClickRecorder] and [RedirectObserver]. *)
Abbreviation ClickRecorder := (Ctx.t → Link.t → M ()) (only parsing).
Abbreviation RedirectObserver := (string → M ()) (only parsing).

(** [PipelineClickRecorder.Record]. *)
Definition PipelineClickRecorder_Record `{O : Oracle} (enqueuer : ClickEvent.t → M bool) : ClickRecorder :=
  λ c link,
    t ← now;
    enqueuer {| ClickEvent.LinkID := Link.ID link;
                ClickEvent.TenantID := Link.TenantID link;
                ClickEvent.Code := Link.Code link;
                ClickEvent.OccurredAt := t;
                ClickEvent.Referrer := Request.Referer (Ctx.req c);
                ClickEvent.UserAgent := Request.UserAgent (Ctx.req c);
                ClickEvent.IP := Request.ClientIP (Ctx.req c) |};;
    mret ().

Definition redirectResult (err : error) : string :=
  if Is err ErrNotFound then "not_found"
  else if Is err ErrGone then "gone"
  else "error".

Definition redirectStatus (rt : Z) : Z := if rt =? RedirectPermanent then 301 else 302.

Module RedirectHandler.
Record t := Mk {
  svc : string → M Link.t;
  clicks : option ClickRecorder;
  metrics : option RedirectObserver;
}.

Section handler.
Context (h : t).

Definition observe (result : string) : M () :=
  match metrics h with Some o => o result | None => mret () end.

Definition Redirect (c : Ctx.t) : M Response.t :=
  let code := Request.Param (Ctx.req c) "code" in
  r ← attempt (svc h code);
  match r with
  | inr err => observe (redirectResult err);; mret (respondError err)
  | inl link =>
      match clicks h with Some record => record c link | None => mret () end;;
      observe "served";;
      mret (Response.Mk (redirectStatus (Link.RedirectType link))
              [("Location", hexEscapeNonASCII (Link.TargetURL link))] (BRedirect (Link.TargetURL link)))
  end.
End handler.
End RedirectHandler.

(** * Health (health.go) *)

Module HealthHandler.
(** The checkers, in the order the map is ranged over. *)
Abbreviation checkers := (list (string * M ())) (only parsing).

Definition Live : M Response.t := mret (Response.Mk 200 [] (BStatus "ok")).

(** The loop: the results, and [healthy]. *)
Fixpoint run_checks (cs : checkers) : M (list (string * string) * bool) :=
  match cs with
  | [] => mret ([], true)
  | (name, check) :: cs =>
      r ← attempt check;
      rest ← run_checks cs;
      mret (match r with
            | inr err => ((name, "error: " +:+ Error err) :: rest.1, false)
            | inl _ => ((name, "ok") :: rest.1, rest.2)
            end)
  end.

Definition Ready (cs : checkers) : M Response.t :=
  r ← run_checks cs;
  mret (if r.2 : bool then Response.Mk 200 [] (BChecks "ok" r.1)
        else Response.Mk 503 [] (BChecks "unavailable" r.1)).
End HealthHandler.

(** * What a PATCH body says

    A client's patch: a field is absent, [null], or a value. *)
Module Patch.
Record t := Mk {
  url : option (option string);
  redirect_type : option (option Z);
  expires_at : option (option Time);
  max_clicks : option (option Z);
}.

(** A field as the members it adds to the body. *)
Definition member {A} (name : string) (enc : A → option tree) (p : option (option A))
    : option (list (list ascii * tree)) :=
  match p with
  | None => Some []
  | Some None => Some [field name TNull]
  | Some (Some a) => t ← enc a; Some [field name t]
  end.

(** The body, times being written [o] minutes east of UTC. *)
Definition body (o : Z) (p : t) : option tree :=
  u ← member "url" (λ s, Some (TText (bytes_of s))) (url p);
  r ← member "redirect_type" (λ n, Some (TInt n)) (redirect_type p);
  e ← member "expires_at" (λ t, TText <$> time_MarshalText t o) (expires_at p);
  m ← member "max_clicks" (λ n, Some (TInt n)) (max_clicks p);
  Some (TObject (u ++ r ++ e ++ m)).

(** The input it stands for: what is absent is kept, [null] clears an expiry and a cap,
    but reads as the empty string and as zero for the two other fields. *)
Definition input (p : t) : UpdateLinkInput.t := {|
  UpdateLinkInput.TargetURL := default "" <$> url p;
  UpdateLinkInput.RedirectType := default 0 <$> redirect_type p;
  UpdateLinkInput.ExpiresAt := mjoin (expires_at p);
  UpdateLinkInput.ClearExpiresAt := match expires_at p with Some None => true | _ => false end;
  UpdateLinkInput.MaxClicks := mjoin (max_clicks p);
  UpdateLinkInput.ClearMaxClicks := match max_clicks p with Some None => true | _ => false end;
|}.

(** Its strings are UTF-8 and its integers fit. *)
Definition representable (p : t) : Prop :=
  (∀ s, url p = Some (Some s) → ValidString s = true)
  ∧ (∀ n, redirect_type p = Some (Some n) → in_int64 n = true)
  ∧ (∀ n, max_clicks p = Some (Some n) → in_int64 n = true).

Definition flat (t : tree) : Prop := nesting t = 0%nat.

Lemma member_spec {A} name (enc : A → option tree) p ms :
  (∀ a t, enc a = Some t → flat t) → member name enc p = Some ms →
  Forall (λ m, m.1 = bytes_of name ∧ flat m.2) ms.
Proof.
  intros He. destruct p as [[a|]|]; cbn [member]; intros Hm.
  - destruct (enc a) as [t|] eqn:Ht; [|done]. injection Hm as <-. repeat constructor. by eapply He.
  - injection Hm as <-. by repeat constructor.
  - by injection Hm as <-.
Qed.

(** The raw field [name] of a body whose other members have other names. *)
Lemma lookup_member {A} name (enc : A → option tree) p ms before after :
  string_of (sanitize (bytes_of name)) = name → member name enc p = Some ms →
  Forall (λ m, string_of (sanitize m.1) ≠ name) before → Forall (λ m, string_of (sanitize m.1) ≠ name) after →
  foldl add_raw ∅ (before ++ ms ++ after) !! name
  = match p with
    | None => None
    | Some None => Some "null"
    | Some (Some a) => string_of ∘ Json.encode <$> enc a
    end.
Proof.
  intros Hn Hm Hb Ha. rewrite !foldl_app, add_raw_other by done.
  destruct p as [[a|]|]; cbn [member] in Hm.
  - destruct (enc a) as [t|]; [|done]. injection Hm as <-. cbn [foldl]. unfold add_raw, field. cbn [fst snd].
    rewrite Hn. by rewrite lookup_insert_eq.
  - injection Hm as <-. cbn [foldl]. unfold add_raw, field. cbn [fst snd]. rewrite Hn. by rewrite lookup_insert_eq.
  - injection Hm as <-. cbn [foldl]. by rewrite add_raw_other.
Qed.

Lemma other_names a b ms :
  Forall (λ m : list ascii * tree, m.1 = bytes_of a ∧ flat m.2) ms → string_of (sanitize (bytes_of a)) ≠ b →
  Forall (λ m, string_of (sanitize m.1) ≠ b) ms.
Proof. intros Hms Hne. eapply Forall_impl; [done|]. by intros m [-> _]. Qed.

(** A value other than [null] is not taken for it. *)
Lemma encode_not_null t : flat t → t ≠ TNull → isJSONNull (string_of (Json.encode t)) = false.
Proof.
  intros Hf Hne. unfold isJSONNull. apply String.eqb_neq.
  assert (∃ c l, Json.encode t = c :: l ∧ not_space c = true ∧ c ≠ "n"%char) as (c & l & Hc & Hs & Hn).
  { destruct t as [|z|s|ms]; [done| | |done].
    - cbn [Json.encode]. destruct (decide (0 <= z)).
      + destruct (Itoa_head z) as (c & tl & Hc & Hr); [done|]. exists c, tl. split; [done|]. revert Hr. clear.
        destruct c as [[] [] [] [] [] [] [] []]; intros [H1 H2];
          first [done | by exfalso; apply H1 | by exfalso; apply H2].
      + rewrite Itoa_neg by lia. by eexists _, _.
    - by eexists _, _. }
  eapply TrimSpace_other; [|exact Hs|exact Hn]. rewrite bytes_of_string_of. exact Hc.
Qed.

Lemma flat_raw {A} (dec : json → option A) t : flat t → Unmarshal dec (string_of (Json.encode t)) = dec (json_of t).
Proof. intros Hf. apply Unmarshal_encode, nests_two. unfold flat in Hf. lia. Qed.

(** Each field of the body is understood. *)
Lemma url_understood fields p :
  fields !! "url" = match url p with
                    | None => None | Some None => Some "null"
                    | Some (Some s) => Some (string_of (Json.encode (TText (bytes_of s)))) end →
  (∀ s, url p = Some (Some s) → ValidString s = true) →
  field_url fields = inl (UpdateLinkInput.TargetURL (input p)).
Proof.
  intros Hf Hv. unfold field_url. rewrite Hf. destruct p as [[[s|]|] r e m]; cbn [url redirect_type expires_at max_clicks] in *; [|done..].
  unfold json_string. rewrite flat_raw by done. by rewrite to_string_valid by auto.
Qed.

Lemma redirect_understood fields p :
  fields !! "redirect_type" = match redirect_type p with
                              | None => None | Some None => Some "null"
                              | Some (Some n) => Some (string_of (Json.encode (TInt n))) end →
  (∀ n, redirect_type p = Some (Some n) → in_int64 n = true) →
  field_redirect fields = inl (UpdateLinkInput.RedirectType (input p)).
Proof.
  intros Hf Hv. unfold field_redirect. rewrite Hf. destruct p as [u [[n|]|] e m]; cbn [url redirect_type expires_at max_clicks] in *; [|done..].
  unfold json_int. rewrite flat_raw by done. by rewrite to_int_int, Hv by done.
Qed.

Lemma expires_understood o fields p :
  fields !! "expires_at" = match expires_at p with
                           | None => None | Some None => Some "null"
                           | Some (Some t) => string_of ∘ Json.encode <$> (TText <$> time_MarshalText t o) end →
  (∀ t, expires_at p = Some (Some t) → is_Some (time_MarshalText t o)) →
  field_expires fields = inl (UpdateLinkInput.ExpiresAt (input p), UpdateLinkInput.ClearExpiresAt (input p)).
Proof.
  intros Hf Hv. unfold field_expires. rewrite Hf. destruct p as [u r [[t|]|] m]; cbn [url redirect_type expires_at max_clicks] in *; [|done..].
  destruct (Hv t eq_refl) as [l Hl]. rewrite Hl. cbn [fmap option_fmap option_map compose].
  rewrite encode_not_null by done. unfold json_time. rewrite flat_raw by done.
  by rewrite (to_time_text _ t o l Hl).
Qed.

Lemma max_understood fields p :
  fields !! "max_clicks" = match max_clicks p with
                           | None => None | Some None => Some "null"
                           | Some (Some n) => Some (string_of (Json.encode (TInt n))) end →
  (∀ n, max_clicks p = Some (Some n) → in_int64 n = true) →
  field_max fields = inl (UpdateLinkInput.MaxClicks (input p), UpdateLinkInput.ClearMaxClicks (input p)).
Proof.
  intros Hf Hv. unfold field_max. rewrite Hf. destruct p as [u r e [[n|]|]]; cbn [url redirect_type expires_at max_clicks] in *; [|done..].
  rewrite encode_not_null by done. unfold json_int. rewrite flat_raw by done. by rewrite to_int_int, Hv by done.
Qed.

Lemma time_flat o t x : TText <$> time_MarshalText t o = Some x → flat x.
Proof. destruct (time_MarshalText t o); [|done]. intros E. by injection E as <-. Qed.

Lemma body_understood o p t :
  body o p = Some t → representable p →
  ∃ fields, json_fields (string_of (Json.encode t)) = Some fields ∧ buildUpdateInput fields = inl (input p).
Proof.
  intros Ht (Hs & Hn & Hm). unfold body in Ht.
  destruct (member "url" _ _) as [u|] eqn:Hu; [|done]. destruct (member "redirect_type" _ _) as [r|] eqn:Hr; [|done].
  destruct (member "expires_at" _ _) as [e|] eqn:He; [|done]. destruct (member "max_clicks" _ _) as [m|] eqn:Hx; [|done].
  cbn [mbind option_bind] in Ht. injection Ht as <-.
  assert (Hu' := λ H, member_spec _ _ _ _ H Hu). specialize (Hu' ltac:(by intros a t [= <-])).
  assert (Hr' := λ H, member_spec _ _ _ _ H Hr). specialize (Hr' ltac:(by intros a t [= <-])).
  assert (He' := λ H, member_spec _ _ _ _ H He).
  specialize (He' (time_flat o)).
  assert (Hx' := λ H, member_spec _ _ _ _ H Hx). specialize (Hx' ltac:(by intros a t [= <-])).
  assert (Hflat : Forall (λ m, flat m.2) (u ++ r ++ e ++ m)).
  { rewrite !Forall_app. split_and!; (eapply Forall_impl; [eassumption|by intros ? [_ ?]]). }
  eexists. split.
  { apply json_fields_encode. cbn [nesting]. apply nests_two, (Nat.le_trans _ 1); [|lia].
    apply le_n_S, list_max_le, Forall_map. eapply Forall_impl; [done|]. intros q Hq. unfold flat in Hq. lia. }
  assert (Hne : ∀ a b l, Forall (λ m, m.1 = bytes_of a ∧ flat m.2) l →
            bool_decide (string_of (sanitize (bytes_of a)) = b) = false → Forall (λ m, string_of (sanitize m.1) ≠ b) l)
    by (intros a b l Hl Hab%bool_decide_eq_false; by eapply other_names).
  assert (E3 : u ++ r ++ e ++ m = (u ++ r) ++ e ++ m) by (by rewrite <-app_assoc).
  assert (E4 : u ++ r ++ e ++ m = (u ++ r ++ e) ++ m ++ []) by (by rewrite app_nil_r, <-!app_assoc).
  assert (Hlu := lookup_member "url" _ _ u [] (r ++ e ++ m) eq_refl Hu). cbn [app] in Hlu.
  assert (Hlr := lookup_member "redirect_type" _ _ r u (e ++ m) eq_refl Hr).
  assert (Hle := lookup_member "expires_at" _ _ e (u ++ r) m eq_refl He). rewrite <-E3 in Hle.
  assert (Hlm := lookup_member "max_clicks" _ _ m (u ++ r ++ e) [] eq_refl Hx). rewrite <-E4 in Hlm.
  unfold buildUpdateInput.
  erewrite (url_understood _ p), (redirect_understood _ p), (expires_understood o _ p), (max_understood _ p); [done|..].
  all: try done.
  - rewrite Hlm; [by destruct (max_clicks p) as [[]|]| |done].
    rewrite !Forall_app. split_and!; eapply Hne; done.
  - rewrite Hle; [by destruct (expires_at p) as [[]|]| |by eapply Hne].
    rewrite !Forall_app. split_and!; eapply Hne; done.
  - intros t Hpt. rewrite Hpt in He. cbn [member] in He. by destruct (time_MarshalText t o).
  - rewrite Hlr; [by destruct (redirect_type p) as [[]|]|by eapply Hne|].
    rewrite !Forall_app. split_and!; eapply Hne; done.
  - rewrite Hlu; [by destruct (url p) as [[]|]|done|].
    rewrite !Forall_app. split_and!; eapply Hne; done.
Qed.
End Patch.

Section patch.
Context `{O : Oracle} `{Codec} (h : LinkHandler.t).

(** C27: A PATCH is understood as it is meant.  The body a client writes for a patch,
    any field of which is absent, null or a value, reaches the service as the input it
    stands for: absent fields are kept, null clears an expiry and a cap, and a value is
    the value, times in any zone and texts quoted and escaped on the way included.  A
    null URL is the empty string, and a null redirect type is zero, the default. *)
Theorem patch_understood (c : Ctx.t) id o p t :
  Patch.body o p = Some t → Patch.representable p →
  parseID c = Some id → Request.Body (Ctx.req c) = Some (string_of (Json.encode t)) →
  LinkHandler.Update h c
  = respond (LinkService.Update (LinkHandler.svc h) (MustTenantID c) id (Patch.input p))
      (λ link, Response.Mk 200 [] (BLink (LinkHandler.toResponse h link))).
Proof.
  intros Ht Hp Hid Hb. destruct (Patch.body_understood o p t Ht Hp) as (fields & Hf & Hi).
  unfold LinkHandler.Update, with_id. by rewrite Hid, Hb, Hf, Hi.
Qed.
End patch.
