(* ===== verification/Server.v ===== *)
(** The server (cmd/server/main.go): how [run] wires the components, the routes of
    [newRouter] with their middleware, and what holds of a request end to end. *)
From stdpp Require Import prelude gmap strings list.
From Stdlib Require Import Ascii.
From S2P Require Import Prelude GoStd Domain Wire Enrich World Schema LinkRepo LinkCache Shortcode LinkService.
From S2P Require Import Counters Redirect KeyRepo Auth WebhookRepo WebhookService ClickRepo Stats RateLimit.
From S2P Require Import Ingest Delivery Notifier Config Http Observe Handlers.

Local Open Scope Z_scope.

(** The routes [newRouter] and the [Register] functions add: those of the API group,
    and the public ones. *)
Inductive api_route :=
  | CreateLink | ListLinks | GetLink | UpdateLink | DeleteLink
  | LinkStatsRoute | OverviewRoute
  | CreateWebhook | ListWebhooks | DeleteWebhook.

Inductive route := Healthz | Readyz | MetricsPage | Api (r : api_route) | RedirectRoute.

#[export] Instance api_route_eq_dec : EqDecision api_route.
Proof. solve_decision. Defined.
#[export] Instance route_eq_dec : EqDecision route.
Proof. solve_decision. Defined.

(** What the [Register] of each handler adds to the group, in order. *)
Definition register_links : list (string * string * api_route) :=
  [("POST", "/links", CreateLink); ("GET", "/links", ListLinks); ("GET", "/links/:id", GetLink);
   ("PATCH", "/links/:id", UpdateLink); ("DELETE", "/links/:id", DeleteLink)].

Definition register_stats : list (string * string * api_route) :=
  [("GET", "/links/:id/stats", LinkStatsRoute); ("GET", "/stats/overview", OverviewRoute)].

Definition register_webhooks : list (string * string * api_route) :=
  [("POST", "/webhooks", CreateWebhook); ("GET", "/webhooks", ListWebhooks); ("DELETE", "/webhooks/:id", DeleteWebhook)].

Definition api_table : list (string * string * api_route) := register_links ++ register_stats ++ register_webhooks.

Definition api_routes : list api_route := snd <$> api_table.

(** The method and the template a route is registered under, within the group. *)
Definition api_pattern (r : api_route) : string * string :=
  default ("", "") (fst <$> head (filter (λ p, p.2 = r) api_table)).

Definition pattern (r : route) : string * string :=
  match r with
  | Healthz => ("GET", "/healthz")
  | Readyz => ("GET", "/readyz")
  | MetricsPage => ("GET", "/metrics")
  | Api r => let '(method, path) := api_pattern r in (method, "/api/v1" +:+ path)
  | RedirectRoute => ("GET", "/:code")
  end.

(** [c.FullPath()]: empty when no route matched. *)
Definition FullPath (r : option route) : string := match r with Some r => (pattern r).2 | None => "" end.

Definition routes : list route := [Healthz; Readyz; MetricsPage; RedirectRoute] ++ (Api <$> api_routes).

Section server.
Context `{O : Oracle} `{Codec} `{Binding} `{Collation}.

(** What [run] gets from elsewhere: the configuration, the demo tenant if it was seeded,
    the Prometheus page, the readiness probes, and the fuel of the code generator. *)
Context (cfg : Config.t) (demoTenant : option Tenant.t) (promhttp : M Response.t)
  (health : list (string * M ())) (fuel : nat).

(** ** Wiring *)

Definition gen : CodeGenerator :=
  Generator_generates fuel (NewGenerator (ShortcodeConfig.Length (Config.Shortcode cfg))).

Definition linkCache : LinkCache.t :=
  LinkCache.Mk (CacheConfig.LinkTTL (Config.Cache cfg)) (CacheConfig.NegativeTTL (Config.Cache cfg)).

Definition notifier : Notifier.t := Notifier.New (Config.Webhook cfg) (Config.BaseURL cfg).

(** No resolver is injected: [NewPipeline] installs the no-op one. *)
Definition pipeline : PipelineCfg.t := {|
  PipelineCfg.cache := Some LinkCache.Invalidate;
  PipelineCfg.geo := NoopResolver;
  PipelineCfg.salt := Config.IPHashSalt cfg;
  PipelineCfg.obs := Some Metrics_Observer;
  PipelineCfg.batchHook := Some (Notifier.ClicksFlushed notifier);
  PipelineCfg.bufferSize := AnalyticsConfig.BufferSize (Config.Analytics cfg);
  PipelineCfg.nworkers := AnalyticsConfig.Workers (Config.Analytics cfg);
  PipelineCfg.batchSize := AnalyticsConfig.BatchSize (Config.Analytics cfg);
|}.

Definition linkService : LinkService.t :=
  let s := LinkService.New gen (Some (Notifier.LinkCreated notifier)) (Some LinkCache.Invalidate)
             (ShortcodeConfig.MaxCollisionRetries (Config.Shortcode cfg)) in
  match demoTenant with
  | Some t =>
      if 0 <? DemoConfig.MaxLinkTTL (Config.Demo cfg)
      then LinkService.SetDemoPolicy s (Tenant.ID t) (DemoConfig.MaxLinkTTL (Config.Demo cfg)) else s
  | None => s
  end.

Definition redirectService : RedirectService.t := RedirectService.Mk linkCache (Some Metrics_CacheObserver).

Definition linkHandler : LinkHandler.t := LinkHandler.New linkService (Config.BaseURL cfg).

Definition redirectHandler : RedirectHandler.t := {|
  RedirectHandler.svc := RedirectService.Resolve redirectService;
  RedirectHandler.clicks := Some (PipelineClickRecorder_Record (Enqueue pipeline));
  RedirectHandler.metrics := Some ObserveRedirect;
|}.

(** ** Routes *)

Definition api_handler (r : api_route) : Ctx.t → M Response.t :=
  match r with
  | CreateLink => LinkHandler.Create linkHandler
  | ListLinks => LinkHandler.List linkHandler
  | GetLink => LinkHandler.Get linkHandler
  | UpdateLink => LinkHandler.Update linkHandler
  | DeleteLink => LinkHandler.Delete linkHandler
  | LinkStatsRoute => StatsHandler.LinkStats
  | OverviewRoute => StatsHandler.Overview
  | CreateWebhook => WebhookHandler.Create
  | ListWebhooks => WebhookHandler.List
  | DeleteWebhook => WebhookHandler.Delete
  end.

(** The handlers behind the rate limiter, when it is enabled. *)
Definition limited (next : Ctx.t → M Response.t) : Ctx.t → M Response.t :=
  if RateLimitConfig.Enabled (Config.RateLimit cfg) then
    RateLimit RedisRateLimiter.Allow (RateLimitConfig.Requests (Config.RateLimit cfg))
      (RateLimitConfig.Window (Config.RateLimit cfg)) next
  else next.

Definition serve (r : route) (c : Ctx.t) : M Answer.t :=
  let plain (m : M Response.t) := resp ← m; mret (Answer.Mk resp c None) in
  match r with
  | Healthz => plain HealthHandler.Live
  | Readyz => plain (HealthHandler.Ready health)
  | MetricsPage => plain promhttp
  | Api r => APIKeyAuth AuthService.Authenticate (limited (api_handler r)) c
  | RedirectRoute => plain (RedirectHandler.Redirect redirectHandler c)
  end.

(** The engine: the global middleware around the handlers of the route gin matched. *)
Definition engine `{Gin} (r : option route) : Ctx.t → M Answer.t :=
  observed (parseLevel (Config.LogLevel cfg)) (FullPath r)
    (λ c, match r with Some r => serve r c | None => mret (Answer.Mk gin_no_route c None) end).

(** [sampleQueueDepth], one tick of it. *)
Definition sampleQueueDepth : M () := n ← QueueDepth; SetQueueDepth n.
End server.

(** * The routes *)

Lemma routes_complete r : r ∈ routes.
Proof. destruct r as [| | |[]|]; apply (bool_decide_unpack _); vm_compute; exact I. Qed.

(** No two routes are registered under the same method and template. *)
Lemma patterns_distinct : NoDup (pattern <$> routes).
Proof. apply (bool_decide_unpack _). vm_compute. exact I. Qed.

(** An alias never hides an operational or API route, nor is hidden by one: the
    path of a valid alias is the template of no other route. *)
Theorem alias_hides_no_route alias r :
  ValidAlias alias = true → r ≠ RedirectRoute → FullPath (Some r) ≠ "/" +:+ alias.
Proof. intros Ha Hr E. destruct r as [| | |[]|]; [..|done]; apply (f_equal (str_drop 1)) in E;
    change (str_drop 1 ("/" +:+ alias)) with alias in E; subst alias; vm_compute in Ha; discriminate Ha.
Qed.

(** * The interfaces, discharged *)

Section wiring.
Context `{O : Oracle} `{Codec} (cfg : Config.t) (demoTenant : option Tenant.t) (fuel : nat).

#[export] Instance gen_laws : CodeGeneratorLaws (gen cfg fuel).
Proof. apply Generator_laws. Qed.

Lemma linkService_parts :
  LinkService.gen (linkService cfg demoTenant fuel) = gen cfg fuel
  ∧ LinkService.events (linkService cfg demoTenant fuel) = Some (Notifier.LinkCreated (notifier cfg))
  ∧ LinkService.cache (linkService cfg demoTenant fuel) = Some LinkCache.Invalidate.
Proof. unfold linkService. destruct demoTenant; [destruct (_ <? _)|]; done. Qed.

#[export] Instance wired_gen : CodeGeneratorLaws (LinkService.gen (linkService cfg demoTenant fuel)).
Proof. destruct linkService_parts as (-> & _). apply _. Qed.

Lemma wired_sink sink : LinkService.events (linkService cfg demoTenant fuel) = Some sink → SinkLaws sink.
Proof. destruct linkService_parts as (_ & -> & _). intros [= <-]. apply _. Qed.

Lemma wired_cache inv : LinkService.cache (linkService cfg demoTenant fuel) = Some inv → InvalidatorLaws inv.
Proof. destruct linkService_parts as (_ & _ & ->). intros [= <-]. apply _. Qed.

Lemma pipeline_laws : cfg_laws (pipeline cfg).
Proof.
  split; simpl.
  - intros o [= <-]. apply Metrics_Observer_laws.
  - intros h b w [= <-]. apply ClicksFlushed_hook.
  - intros inv code [= <-]. apply inv_no_panic.
  - intros inv code w [= <-]. destruct (Invalidate_world code w) as [->| ->]; done.
  - intros inv code w [= <-]. apply inv_db.
Qed.
End wiring.

(** * Requests to the API *)

Section api.
Context `{O : Oracle} `{Codec} `{Binding} `{Collation}.
Context (cfg : Config.t) (demoTenant : option Tenant.t) (promhttp : M Response.t)
  (health : list (string * M ())) (fuel : nat).

Local Abbreviation serve := (serve cfg demoTenant promhttp health fuel).
Local Abbreviation handler r := (limited cfg (api_handler cfg demoTenant fuel r)).

(** The request carries a key: its token has the format, and its hash is that of a
    stored key that is not revoked. *)
Definition presents (c : Ctx.t) (d : DB.t) (k : APIKey.t) : Prop :=
  ∃ token, bearerToken c = Some token ∧ ValidKeyFormat token = true
    ∧ DB.api_keys d !! APIKey.ID k = Some k
    ∧ APIKey.Hash k = HashAPIKey token ∧ APIKey.Revoked k = false.

Lemma Authenticate_reads token : reads (AuthService.Authenticate token).
Proof.
  unfold AuthService.Authenticate, APIKeyRepository.GetByHash, read_row, scan_row. reads.
Qed.

Lemma presents_credential c d k :
  keys_ok d → presents c d k ↔ (bearerToken c ≫= λ token, credential token d) = Some k.
Proof.
  intros Hok. unfold presents. destruct (bearerToken c) as [token|]; simpl.
  - rewrite (credential_spec token d k Hok). naive_solver.
  - naive_solver.
Qed.

(** C3: The API is closed without a key.  On every API route, unless the database call
    of the authentication fails: a request that presents a valid key runs the route's
    handler (behind the limiter) with exactly the tenant and the id of that key; any
    other request is answered 401 with the unauthorized envelope, and neither the
    handler nor the limiter runs: the world is as it was, apart from the effects
    counted. *)
Theorem api_requires_key r c w :
  keys_ok (w_db w) → o_fault (w_step w) = None →
  (∀ k, presents c (w_db w) k → ∃ n,
     serve (Api r) c w = (resp ← handler r (setAuth c k);
                          mret (Answer.Mk resp (setAuth c k) (Some (AuthService.touch (APIKey.ID k))))) (set_step n w)
     ∧ TenantID (setAuth c k) = Some (APIKey.TenantID k) ∧ APIKeyID (setAuth c k) = Some (APIKey.ID k))
  ∧ ((¬ ∃ k, presents c (w_db w) k) → ∃ msg n,
     serve (Api r) c w = (Ok (Answer.Mk (WriteError 401 CodeUnauthorized msg) c None), set_step n w)).
Proof.
  intros Hok Hf. setoid_rewrite (presents_credential c (w_db w) _ Hok).
  cbn [Server.serve]. unfold APIKeyAuth. destruct (bearerToken c) as [token|]; simpl.
  - rewrite attempt_bind. destruct (Authenticate_eq token w Hf) as [E _].
    destruct (Authenticate_reads token w) as (n & _ & Hn).
    destruct (AuthService.Authenticate token w) as [res w1]. simpl in *. subst w1 res.
    destruct (credential token (w_db w)) as [k|]; split.
    + intros k' [= <-]. by exists n.
    + intros Hno. exfalso. apply Hno. by exists k.
    + done.
    + intros _. by eexists _, n.
  - split; [done|]. intros _. eexists _, (w_step w). by destruct w.
Qed.
End api.

(** * Tenants apart *)

(** Everything in the database but the links and the webhooks of [t]. *)
Definition but_tenant (t : UUID) (d : DB.t) : DB.t :=
  DB.with_webhooks (filter (λ p, Webhook.TenantID p.2 ≠ t)) (others t d).

Lemma but_tenant_others t d d' :
  others t d = others t d' → but_tenant t d = but_tenant t d'.
Proof. unfold but_tenant. by intros ->. Qed.

Lemma filter_insert_own (hooks : gmap UUID Webhook.t) t id h :
  Webhook.TenantID h = t → hooks !! id = None →
  filter (λ p, Webhook.TenantID p.2 ≠ t) (<[id := h]> hooks)
  = filter (λ p, Webhook.TenantID p.2 ≠ t) hooks.
Proof. intros Ht Hn. by rewrite map_filter_insert_not' by (simpl; naive_solver congruence). Qed.

Lemma filter_delete_own (hooks : gmap UUID Webhook.t) t id h :
  hooks !! id = Some h → Webhook.TenantID h = t →
  filter (λ p, Webhook.TenantID p.2 ≠ t) (delete id hooks)
  = filter (λ p, Webhook.TenantID p.2 ≠ t) hooks.
Proof.
  intros Hh Ht. apply map_eq. intros j. apply option_eq. intros x.
  rewrite !map_lookup_filter_Some, lookup_delete_Some. naive_solver.
Qed.

Section isolation.
Context `{O : Oracle} `{Codec} `{Binding} `{Collation}.
Context (cfg : Config.t) (demoTenant : option Tenant.t) (promhttp : M Response.t)
  (health : list (string * M ())) (fuel : nat).

(** A computation that leaves the rows of the other tenants alone. *)
Definition isolated {A} (t : UUID) (m : M A) : Prop :=
  ∀ w, schema w → but_tenant t (w_db (m w).2) = but_tenant t (w_db w).

Lemma isolated_reads {A} t (m : M A) : reads m → isolated t m.
Proof. intros Hm w _. by destruct (Hm w) as (n & _ & ->). Qed.

Lemma isolated_respond {A} t (m : M A) k : isolated t m → isolated t (respond m k).
Proof.
  intros Hm w Hs. specialize (Hm w Hs). unfold respond. rewrite attempt_bind.
  by destruct (m w) as [[?|?|?] ?].
Qed.

Lemma isolated_with_id t c k : (∀ id, isolated t (k id)) → isolated t (with_id c k).
Proof. intros Hk. unfold with_id. destruct (parseID c); [apply Hk | by intros w _]. Qed.

Lemma isolated_exec t call w :
  schema w → but_tenant t (w_db (exec (linkService cfg demoTenant fuel) t call w)) = but_tenant t (w_db w).
Proof.
  intros Hs. apply but_tenant_others.
  pose proof (wired_sink cfg demoTenant fuel) as Hsink. pose proof (wired_cache cfg demoTenant fuel) as Hcache.
  destruct (exec_effect (linkService cfg demoTenant fuel) t call w Hs)
    as [_ [->|(id & row & -> & Hr & Ho & _)]]; [done|].
  by apply others_insert.
Qed.

(** The statements on webhooks, on the rows of their own tenant. *)
Lemma insert_webhook_apart t h n d :
  Webhook.TenantID h = t → preserves (λ w, but_tenant t (w_db w) = d) (insert_webhook h n).
Proof.
  intros Ht w' <-. unfold insert_webhook. rewrite gets_bind. destruct (negb _); [done|].
  case_bool_decide as Hnew; [done|]. case_bool_decide; [done|].
  unfold modify, mbind, M_bind. simpl. unfold but_tenant, others. simpl.
  unfold DB.with_webhooks, DB.with_links. simpl. f_equal.
  apply filter_insert_own; [done|]. by apply eq_None_not_Some.
Qed.

Lemma delete_webhook_apart t id d : preserves (λ w, but_tenant t (w_db w) = d) (delete_webhook t id).
Proof.
  intros w' <-. unfold delete_webhook. rewrite gets_bind.
  destruct (DB.webhooks (w_db w') !! id) as [h|] eqn:Hh; [|done]. case_bool_decide; [|done].
  unfold modify, mbind, M_bind. simpl. unfold but_tenant, others. simpl.
  unfold DB.with_webhooks, DB.with_links. simpl. f_equal. by eapply filter_delete_own.
Qed.

Lemma isolated_insert_hook h : isolated (Webhook.TenantID h) (WebhookRepository.Create h).
Proof.
  intros w _. refine ((_ : preserves (λ w', but_tenant _ (w_db w') = but_tenant _ (w_db w)) _) w eq_refl).
  unfold WebhookRepository.Create. preserve; try done. by apply insert_webhook_apart.
Qed.

Lemma isolated_webhook_create t inp : isolated t (WebhookService.Create t inp).
Proof.
  intros w _. refine ((_ : preserves (λ w', but_tenant t (w_db w') = but_tenant t (w_db w)) _) w eq_refl).
  unfold WebhookService.Create, WebhookRepository.Create, GenerateWebhookSecret.
  preserve; try done. by apply insert_webhook_apart.
Qed.

Lemma isolated_webhook_delete t id : isolated t (WebhookService.Delete t id).
Proof.
  intros w _. refine ((_ : preserves (λ w', but_tenant t (w_db w') = but_tenant t (w_db w)) _) w eq_refl).
  pose proof delete_webhook_apart. unfold WebhookService.Delete, WebhookRepository.DeleteForTenant. preserve; done.
Qed.

Lemma stats_reads t id from to bucket : reads (StatsService.LinkStats (O:=O) t id from to bucket).
Proof.
  assert (Hg : reads (LinkRepository.GetByIDForTenant (O:=O) t id)).
  { intros w. rewrite GetByIDForTenant_world. exists (S (w_step w)). split; [lia | done]. }
  unfold StatsService.LinkStats, ClickRepository.TopReferrers, ClickRepository.TopCountries,
    ClickRepository.DeviceBreakdown, ClickRepository.labelQuery, ClickRepository.SeriesForLink,
    ClickRepository.TotalForLink, ClickRepository.select.
  repeat (case_match; [reads|]). apply reads_bind; [done|]. reads.
Qed.

Lemma overview_reads t : reads (StatsService.Overview (O:=O) t).
Proof. unfold StatsService.Overview, ClickRepository.TenantOverview, ClickRepository.select. reads. Qed.

Lemma hooks_reads t : reads (WebhookService.List (O:=O) t).
Proof. unfold WebhookService.List, WebhookRepository.ListByTenant. reads. Qed.

Local Hint Resolve stats_reads : reads.

Lemma stats_handler_reads c : reads (StatsHandler.LinkStats (O:=O) c).
Proof. unfold StatsHandler.LinkStats, with_id, respond. reads. Qed.

Lemma isolated_handler r c : isolated (MustTenantID c) (api_handler cfg demoTenant fuel r c).
Proof.
  pose proof (λ call w, isolated_exec (MustTenantID c) call w) as Hexec. destruct r; simpl.
  - unfold LinkHandler.Create. destruct (_ ≫= bind_createLink) as [req|]; [|by intros w _].
    apply isolated_respond. exact (Hexec (CCreate _)).
  - apply isolated_respond. exact (Hexec (CList _ _)).
  - apply isolated_with_id. intros id. apply isolated_respond. exact (Hexec (CGet id)).
  - apply isolated_with_id. intros id. repeat case_match; try by intros w _.
    apply isolated_respond. exact (Hexec (CUpdate id _)).
  - apply isolated_with_id. intros id. apply isolated_respond. exact (Hexec (CDelete id)).
  - apply isolated_reads, stats_handler_reads.
  - apply isolated_respond, isolated_reads, overview_reads.
  - unfold WebhookHandler.Create. destruct (_ ≫= bind_createWebhook) as [req|]; [|by intros w _].
    apply isolated_respond, isolated_webhook_create.
  - apply isolated_respond, isolated_reads, hooks_reads.
  - apply isolated_with_id. intros id. apply isolated_respond, isolated_webhook_delete.
Qed.

Lemma Allow_db key limit window d :
  preserves (λ w, w_db w = d) (RedisRateLimiter.Allow key limit window).
Proof.
  unfold RedisRateLimiter.Allow, RedisRateLimiter.uniqueMember, RedisRateLimiter.run_script, rand_Read.
  preserve; try done.
Qed.

(** The limiter in front changes nothing of this. *)
Lemma isolated_limited next c :
  isolated (MustTenantID c) (next c) → isolated (MustTenantID c) (limited cfg next c).
Proof.
  intros Hn. unfold limited. destruct (RateLimitConfig.Enabled _); [|done].
  unfold RateLimit. destruct (TenantID c) as [t|]; [|done]. intros w Hs. rewrite attempt_bind.
  match goal with |- context [RedisRateLimiter.Allow ?k ?l ?x w] =>
    pose proof (Allow_db k l x (w_db w) w eq_refl) as Hdb; destruct (RedisRateLimiter.Allow k l x w) as [res w1] end.
  simpl in Hdb. assert (Hs1 : schema w1) by (unfold schema; by rewrite Hdb).
  specialize (Hn w1 Hs1). rewrite Hdb in Hn.
  destruct res as [[[[|] rem] retry]|e|p]; simpl; try (by rewrite Hdb); [|done].
  unfold mbind, M_bind. by destruct (next c w1) as [[?|?|?] w2].
Qed.

(** Tenant isolation of the API.  Whatever the request and whatever fails on the way,
    a request to the API either leaves every table as it was, or is made with a token
    that authenticates as some key, and then everything in the database but the links
    and the webhooks of that key's tenant is as it was: other tenants' links and
    webhooks, all clicks, keys and tenants. *)
Theorem api_isolated r c w :
  schema w →
  let w' := (serve cfg demoTenant promhttp health fuel (Api r) c w).2 in
  w_db w' = w_db w
  ∨ ∃ token k touch w1, bearerToken c = Some token
      ∧ AuthService.Authenticate token w = (Ok (k, touch), w1)
      ∧ but_tenant (APIKey.TenantID k) (w_db w') = but_tenant (APIKey.TenantID k) (w_db w).
Proof.
  intros Hs. cbn [serve]. unfold APIKeyAuth. destruct (bearerToken c) as [token|]; [|by left].
  rewrite attempt_bind. destruct (Authenticate_reads token w) as (n & _ & Hn).
  destruct (AuthService.Authenticate token w) as [[[k touch]|e|p] w1] eqn:E; simpl in Hn; subst w1;
    [|by left..].
  right. exists token, k, touch, (set_step n w). split_and!; [done..|].
  pose proof (isolated_limited (api_handler cfg demoTenant fuel r) (setAuth c k)
    (isolated_handler r (setAuth c k)) (set_step n w) Hs) as Hi.
  unfold mbind, M_bind. by destruct (limited _ _ _ _) as [[?|?|?] w2].
Qed.
End isolation.

(** * The redirect route *)

Section redirect.
Context `{O : Oracle} `{Codec} `{!CodecLaws} `{Binding} `{Collation}.
Context (cfg : Config.t) (demoTenant : option Tenant.t) (promhttp : M Response.t)
  (health : list (string * M ())) (fuel : nat).

(** The click of a served redirect went to the pipeline: queued, or dropped and counted,
    or refused because the pipeline is shut down. *)
Definition click_offered (e : ClickEvent.t) (p p' : Pipeline.t) : Prop :=
  p' = add_enqueued 1 (upd_input (λ q, q ++ [e]) p)
  ∨ p' = add_dropped 1 p
  ∨ Pipeline.quit p = true ∧ p' = p.

Lemma record_spec c l w :
  ∃ e p f n, ClickEvent.LinkID e = Link.ID l ∧ ClickEvent.TenantID e = Link.TenantID l
    ∧ ClickEvent.Code e = Link.Code l
    ∧ click_offered e (w_pipe w) p
    ∧ PipelineClickRecorder_Record (Enqueue (pipeline cfg)) c l w
      = (Ok (), upd_metrics f (upd_pipe (λ _, p) (set_step n w))).
Proof.
  unfold PipelineClickRecorder_Record, now, tick.
  set (e := ClickEvent.Mk (Link.ID l) (Link.TenantID l) (Link.Code l) (o_now (w_step w))
    (Request.Referer (Ctx.req c)) (Request.UserAgent (Ctx.req c)) (Request.ClientIP (Ctx.req c))).
  exists e. unfold Enqueue, Enqueue_check, Enqueue_send, when_obs, mbind, M_bind. simpl.
  destruct (Pipeline.quit (w_pipe w)) eqn:Eq; simpl.
  - exists (w_pipe w), id, (S (w_step w)). split_and!; [done..| |by destruct w]. right; right. done.
  - destruct (_ <? _); simpl; eexists _, _, (S (w_step w)); (split_and!; [done..| |reflexivity]).
    + left. done.
    + right; left. done.
Qed.

(** C1: A redirect, end to end.  In a consistent world with a coherent cache, and
    whatever Redis does, GET /:code answers as the links table says: a redirect, of
    the link's type, to the target of the live row of the code when that row is
    active at a clock reading of the request, and then its click is offered to the
    pipeline exactly once; 410 when the row is expired or exhausted; 404 when there is
    no row; 500 only when the database call fails or the code is no text to the
    database.  No table changes, and the cache
    stays coherent. *)
Theorem redirect_correct c w :
  schema w → coherent w →
  let row := select_row (by_code (Request.Param (Ctx.req c) "code")) (w_links w) in
  ∃ resp w', serve cfg demoTenant promhttp health fuel RedirectRoute c w = (Ok (Answer.Mk resp c None), w')
    ∧ w_db w' = w_db w ∧ coherent w'
    ∧ ((∃ l k e, row = Some l ∧ (w_step w ≤ k)%nat ∧ Link.IsActive l (o_now k) = true
          ∧ resp = Response.Mk (redirectStatus (Link.RedirectType l)) [("Location", hexEscapeNonASCII (Link.TargetURL l))]
                     (BRedirect (Link.TargetURL l))
          ∧ ClickEvent.LinkID e = Link.ID l ∧ ClickEvent.TenantID e = Link.TenantID l
          ∧ click_offered e (w_pipe w) (w_pipe w'))
       ∨ ((∃ l k, row = Some l ∧ (w_step w ≤ k)%nat ∧ Link.IsActive l (o_now k) = false
             ∧ resp = WriteError 410 CodeGone "resource is no longer available")
          ∨ (row = None ∧ resp = WriteError 404 CodeNotFound "resource not found")
          ∨ ((is_Some (o_fault (S (w_step w))) ∨ pg_text (Request.Param (Ctx.req c) "code") = false)
             ∧ resp = WriteError 500 CodeInternal "internal server error"))
         ∧ w_pipe w' = w_pipe w).
Proof.
  intros Hs Hc. cbv zeta. set (code := Request.Param (Ctx.req c) "code").
  assert (Hobs : ∀ o, RedirectService.observer (redirectService cfg) = Some o → CacheObserver.laws o).
  { intros o [= <-]. apply Metrics_CacheObserver_laws. }
  destruct (Resolve_spec (redirectService cfg) Hobs code w Hs Hc) as (Ha & Hd & Hc').
  pose proof (Resolve_pipe (redirectService cfg) Hobs code w) as Hp.
  cbn [serve]. unfold RedirectHandler.Redirect. cbn [RedirectHandler.svc RedirectHandler.clicks redirectHandler].
  fold code. destruct (RedirectService.Resolve (redirectService cfg) code w) as [[l'|e|p] w1] eqn:E;
    simpl in *; [| |done].
  - destruct Ha as (l & k & Hrow & Hl & Hk & Hact).
    destruct (record_spec c l' w1) as (ev & p & f & n & He & Ht & _ & Hclick & Hrec).
    eexists _, _. split.
    + erewrite bind_run; [reflexivity|]. rewrite attempt_bind, E, (bind_run _ _ _ _ _ Hrec).
      unfold RedirectHandler.observe, ObserveRedirect, redirectHandler. simpl. reflexivity.
    + simpl. split_and!; [done|exact Hc'|]. left. exists l, k, ev.
      rewrite (same_target _ _ Hl), (same_redirect _ _ Hl), He, Ht, (same_id _ _ Hl), (same_tenant _ _ Hl).
      rewrite Hp in Hclick. by split_and!.
  - eexists _, _. split.
    + erewrite bind_run; [reflexivity|]. rewrite attempt_bind, E.
      unfold RedirectHandler.observe, ObserveRedirect, redirectHandler. simpl. reflexivity.
    + simpl. split_and!; [done|exact Hc'|]. right. split; [|done].
      destruct Ha as [[-> Hrow]|[(l & k & Hrow & -> & Hk & Hact)|[Hf Hall]]].
      * right. left. done.
      * left. by exists l, k.
      * right. right. split; [done|]. unfold respondError, StatusForError. by rewrite !Hall.
Qed.
End redirect.
