(* ===== verification/Invariant.v ===== *)
(** What holds of the tables and of the cache between any two operations of the
    process, and that every request, flush, delivery and sweep keeps it. *)
From stdpp Require Import prelude gmap strings list.
From S2P Require Import Prelude GoStd NetUrl Domain Wire Enrich World Schema LinkRepo LinkCache Shortcode LinkService.
From S2P Require Import Counters Redirect KeyRepo Auth WebhookRepo WebhookService ClickRepo Stats RateLimit.
From S2P Require Import Ingest Delivery Notifier Config Http Observe Handlers Server Concrete Coherence Janitor.

Local Open Scope Z_scope.

(** * What a request runs

    A property of the world that the services of a tenant keep is kept by the whole
    request: the middleware and the handlers add nothing to what the services do. *)
Section requests.
Context `{O : Oracle} `{Codec} `{Binding} `{Collation}.
Context (cfg : Config.t) (demoTenant : option Tenant.t) (promhttp : M Response.t)
  (health : list (string * M ())) (fuel : nat).
Context (I : World → Prop) (Hstep : ∀ n w, I w → I (set_step n w)).

Lemma reads_keeps {A} (m : M A) : reads m → preserves I m.
Proof. intros Hm w Hw. destruct (Hm w) as (n & _ & ->). by apply Hstep. Qed.

Lemma respond_keeps {A} (m : M A) k : preserves I m → preserves I (respond m k).
Proof. intros Hm. unfold respond. preserve. Qed.

Lemma with_id_keeps c k : (∀ id, preserves I (k id)) → preserves I (with_id c k).
Proof. intros Hk. unfold with_id. destruct (parseID c); [done|apply preserves_ret]. Qed.

(** What the services of tenant [t] keep. *)
Record services_keep (t : UUID) : Prop := {
  keep_call call w : I w → I (exec (linkService cfg demoTenant fuel) t call w);
  keep_hook_create inp : preserves I (WebhookService.Create t inp);
  keep_hook_delete id : preserves I (WebhookService.Delete t id);
}.

Lemma api_handler_keeps r c :
  services_keep (MustTenantID c) → preserves I (api_handler cfg demoTenant fuel r c).
Proof.
  intros [Hexec Hcreate Hdelete]. destruct r; simpl.
  - unfold LinkHandler.Create. destruct (_ ≫= bind_createLink) as [req|]; [|by intros w].
    apply respond_keeps. exact (Hexec (CCreate _)).
  - apply respond_keeps. exact (Hexec (CList _ _)).
  - apply with_id_keeps. intros id. apply respond_keeps. exact (Hexec (CGet id)).
  - apply with_id_keeps. intros id. repeat case_match; try by intros w.
    apply respond_keeps. exact (Hexec (CUpdate id _)).
  - apply with_id_keeps. intros id. apply respond_keeps. exact (Hexec (CDelete id)).
  - apply reads_keeps, stats_handler_reads.
  - apply respond_keeps, reads_keeps, overview_reads.
  - unfold WebhookHandler.Create. destruct (_ ≫= bind_createWebhook) as [req|]; [|by intros w].
    apply respond_keeps, Hcreate.
  - apply respond_keeps, reads_keeps, hooks_reads.
  - apply with_id_keeps. intros id. apply respond_keeps, Hdelete.
Qed.

Context (Hallow : ∀ key limit window, preserves I (RedisRateLimiter.Allow key limit window)).

Lemma limited_keeps next c : preserves I (next c) → preserves I (limited cfg next c).
Proof.
  intros Hn. unfold limited. destruct (RateLimitConfig.Enabled _); [|done].
  unfold RateLimit. destruct (TenantID c) as [t|]; [|done]. preserve.
Qed.

Context (Henqueue : ∀ e, preserves I (Enqueue (pipeline cfg) e)).
Context (Hmetrics : ∀ f w, I w → I (upd_metrics f w)).
Context (Hprom : preserves I promhttp).
Context (Hhealth : ∀ name check, (name, check) ∈ health → preserves I check).

Lemma redirect_keeps c :
  (∀ code, preserves I (RedirectService.Resolve (redirectService cfg) code)) →
  preserves I (RedirectHandler.Redirect (redirectHandler cfg) c).
Proof.
  intros Hresolve.
  assert (Hobs : ∀ s, preserves I (RedirectHandler.observe (redirectHandler cfg) s)).
  { intros s. unfold RedirectHandler.observe, ObserveRedirect. simpl. apply preserves_modify. auto. }
  unfold RedirectHandler.Redirect. cbn [RedirectHandler.svc RedirectHandler.clicks redirectHandler].
  unfold PipelineClickRecorder_Record. preserve.
Qed.

Lemma checks_keep cs :
  (∀ name check, (name, check) ∈ cs → preserves I check) → preserves I (HealthHandler.run_checks cs).
Proof.
  induction cs as [|[name check] cs IH]; intros Hcs; cbn [HealthHandler.run_checks]; [preserve|].
  apply preserves_bind.
  - apply preserves_attempt. apply (Hcs name). by left.
  - intros r. apply preserves_bind; [|preserve]. apply IH. intros n k Hin. apply (Hcs n). by right.
Qed.

(** A request resolves a code or calls the services of a tenant, not both. *)
Lemma serve_keeps r c :
  (r = RedirectRoute → ∀ code, preserves I (RedirectService.Resolve (redirectService cfg) code)) →
  (r ≠ RedirectRoute → ∀ t, services_keep t) →
  preserves I (serve cfg demoTenant promhttp health fuel r c).
Proof.
  intros Hr Hs. destruct r as [| | |r|]; cbn [serve].
  - unfold HealthHandler.Live. preserve.
  - unfold HealthHandler.Ready. pose proof (checks_keep health Hhealth). preserve.
  - preserve.
  - unfold APIKeyAuth. destruct (bearerToken c) as [token|]; [|preserve].
    pose proof (reads_keeps _ (Authenticate_reads token)). preserve.
    by apply limited_keeps, api_handler_keeps, Hs.
  - pose proof (redirect_keeps c (Hr eq_refl)). preserve.
Qed.

Lemma engine_keeps `{Gin} r c :
  (∀ f w, I w → I (upd_access f w)) →
  (r = Some RedirectRoute → ∀ code, preserves I (RedirectService.Resolve (redirectService cfg) code)) →
  (r ≠ Some RedirectRoute → ∀ t, services_keep t) →
  preserves I (engine cfg demoTenant promhttp health fuel r c).
Proof.
  intros Hl Hr Hs. unfold engine. apply observed_keeps; [done..|].
  intros c1. destruct r; [|apply preserves_ret]. apply serve_keeps; [intros ->; auto|naive_solver].
Qed.
End requests.

(** * What the goroutines run

    A property that survives every move of the pipeline and of the dispatcher, and what
    their goroutines do to the tables and to Redis, survives their steps. *)
Record goroutines_keep `{Oracle} (I : World → Prop) : Prop := {
  gk_step n w : I w → I (set_step n w);
  gk_metrics f w : I w → I (upd_metrics f w);
  gk_pipe f w : I w → I (upd_pipe f w);
  gk_disp f w : I w → I (upd_disp f w);
  gk_invalidate code : preserves I (LinkCache.Invalidate code);
  gk_batch batch : preserves I (ClickRepository.RecordBatch batch);
  gk_success id : preserves I (WebhookRepository.RecordSuccess id);
  gk_failure id k : preserves I (WebhookRepository.RecordFailure id k);
}.

Section goroutines.
Context `{O : Oracle} `{Codec} (cfg : Config.t) (I : World → Prop) (K : goroutines_keep I).

Lemma Enqueue_send_keeps e : preserves I (Enqueue_send (pipeline cfg) e).
Proof. destruct K. unfold Enqueue_send, when_obs. simpl. unfold IncEnqueued, IncDropped. preserve. Qed.

Lemma Enqueue_keeps e : preserves I (Enqueue (pipeline cfg) e).
Proof. pose proof (Enqueue_send_keeps e). unfold Enqueue, Enqueue_check. preserve. Qed.

Lemma hook_keeps batch : preserves I (Notifier.ClicksFlushed (notifier cfg) batch).
Proof.
  destruct K as [Hstep Hmetrics Hpipe Hdisp ? ? ? ?]. destruct batch as [|c batch]; [apply preserves_ret|]. unfold Notifier.ClicksFlushed.
  intros w Hw. rewrite (bind_run _ _ _ _ _ (range_keys_run _ _)).
  destruct (dispatch_clicked_world (notifier cfg) (Notifier.byLink (c :: batch))
    (o_range (w_step w) (map_to_list (Notifier.byLink (c :: batch))).*1) (set_step (S (w_step w)) w)) as (k & f & ->).
  by apply Hdisp, Hstep, Hstep.
Qed.

Lemma flush_keeps batch : preserves I (flush (pipeline cfg) batch).
Proof.
  destruct K as [Hstep Hmetrics Hpipe Hdisp ? ? ? ?]. pose proof (hook_keeps batch).
  assert (Hev : ∀ codes, preserves I (evict (pipeline cfg) codes)).
  { intros codes. induction codes as [|code codes IH]; cbn [evict]; simpl; preserve. }
  unfold flush, when_obs. simpl. unfold IncFlushed. preserve.
Qed.

Lemma pipeline_step_keeps w a w' : step (pipeline cfg) w a w' → I w → I w'.
Proof.
  destruct K as [Hstep Hmetrics Hpipe Hdisp ? ? ? ?]. assert (Hf : ∀ i, preserves I (flush_local (pipeline cfg) i)).
  { intros i. pose proof flush_keeps. unfold flush_local. preserve. }
  destruct 1 as [e w Hq|k e w Hk|i ph b w Hw Hph Hin|i b w Hw|i b w Hw Hq|i b w Hw Hq|w]; intros HI.
  - by apply Hpipe.
  - by apply Enqueue_send_keeps, Hpipe.
  - revert HI. assert (Hp : preserves I (receive (pipeline cfg) i)) by (unfold receive; preserve). apply Hp.
  - by apply Hf.
  - revert HI. assert (Hp : preserves I (start_drain i)) by (unfold start_drain; preserve). apply Hp.
  - revert HI. assert (Hp : preserves I (finish (pipeline cfg) i)) by (unfold finish; preserve). apply Hp.
  - by apply Hpipe.
Qed.

Lemma Dispatch_keeps ev : preserves I (Dispatch (Config.Webhook cfg) ev).
Proof. destruct K. unfold Dispatch, stamp_id, stamp_time, offer_event. preserve. Qed.

Lemma enqueueJob_keeps j : preserves I (enqueueJob (Config.Webhook cfg) j).
Proof. destruct K. unfold enqueueJob. preserve. Qed.

Lemma resolve_keeps ev : preserves I (resolve (Config.Webhook cfg) ev).
Proof.
  destruct K as [Hstep Hmetrics Hpipe Hdisp ? ? ? ?]. assert (Hall : ∀ p hs, preserves I (enqueue_all (Config.Webhook cfg) ev p hs)).
  { intros p hs. pose proof enqueueJob_keeps. induction hs as [|h hs IH]; cbn [enqueue_all]; preserve. }
  unfold resolve, WebhookRepository.ListActiveForEvent. preserve.
Qed.

Lemma deliver_keeps j : preserves I (deliver (Config.Webhook cfg) j).
Proof. destruct K. unfold deliver, post, client_Do, backoff, rand_Int64N. preserve. by apply client_do_keeps. Qed.

Lemma dispatcher_step_keeps w evs w' : dstep (Config.Webhook cfg) w evs w' → I w → I w'.
Proof.
  destruct K as [Hstep Hmetrics Hpipe Hdisp ? ? ? ?]. destruct 1; intros HI; try by apply Hdisp.
  - by apply Dispatch_keeps.
  - by apply resolve_keeps, Hdisp.
  - by apply deliver_keeps, Hdisp.
  - by apply enqueueJob_keeps, Hdisp.
Qed.
End goroutines.

(** * The tables *)

Record db_ok (d : DB.t) : Prop := {
  db_schema : schema_ok d;
  db_links : map_Forall (λ _, link_wf) (DB.links d);
  db_keys : keys_ok d;
  db_hooks id h : DB.webhooks d !! id = Some h → hook_wf id h;
}.

Lemma db_ok_empty : db_ok DB.empty.
Proof.
  split; [apply schema_empty|apply map_Forall_empty|split|].
  all: intros *; simpl; intros; match goal with H : ∅ !! _ = Some _ |- _ => by rewrite lookup_empty in H end.
Qed.

(** A change of the webhooks. *)
Lemma db_ok_webhooks d d' :
  DB.tenants d' = DB.tenants d → DB.api_keys d' = DB.api_keys d → DB.links d' = DB.links d →
  DB.clicks d' = DB.clicks d → (∀ id h, DB.webhooks d' !! id = Some h → hook_wf id h) →
  db_ok d → db_ok d'.
Proof.
  destruct d, d'; simpl. intros -> -> -> -> Hk [[] ? [] _]. split; [by split|done|by split|done].
Qed.

(** A change of the links and the clicks. *)
Lemma db_ok_links d d' :
  DB.tenants d' = DB.tenants d → DB.api_keys d' = DB.api_keys d → DB.webhooks d' = DB.webhooks d →
  schema_ok d' → map_Forall (λ _, link_wf) (DB.links d') → db_ok d → db_ok d'.
Proof.
  destruct d, d'; simpl. intros -> -> -> Hs Hl [_ _ [] Hk]. split; [done..|by split|done].
Qed.

(** A change of the keys, or a new tenant. *)
Lemma db_ok_touched `{O : Oracle} d n (id : UUID) : db_ok d → db_ok (DB.with_api_keys (alter (touched n) id) d).
Proof.
  intros [[] Hl [Hid Hh Ht] Hk].
  assert (Hback : ∀ i k, alter (touched n) id (DB.api_keys d) !! i = Some k →
    ∃ k0, DB.api_keys d !! i = Some k0 ∧ APIKey.ID k = APIKey.ID k0 ∧ APIKey.Hash k = APIKey.Hash k0
      ∧ APIKey.TenantID k = APIKey.TenantID k0).
  { intros i k. rewrite lookup_alter. case_decide; [subst|by exists k].
    intros (k0 & ? & ->)%fmap_Some. by exists k0. }
  split; [by split|done| |done]. split; simpl.
  - intros i k (k0 & Hk0 & -> & _)%Hback. eauto.
  - intros i j ki kj (k1 & H1 & _ & -> & _)%Hback (k2 & H2 & _ & -> & _)%Hback. eauto.
  - intros i k (k0 & Hk0 & _ & _ & ->)%Hback. eauto.
Qed.

Lemma db_ok_tenant d t :
  DB.tenants d !! Tenant.ID t = None → db_ok d → db_ok (DB.with_tenants <[Tenant.ID t := t]> d).
Proof.
  intros Hn [[] ? ? ?]. split; [|done| |done].
  - split; try done. simpl. intros i l Hl. rewrite lookup_insert. case_decide; eauto.
  - by apply keys_ok_with_tenant.
Qed.

(** * The cache

    A positive entry snapshots a row the validators let through. *)
Section cache.
Context `{Codec}.

Definition entry_wf (v : string) : Prop :=
  v ≠ negativeMarker → ∀ cl, json_Unmarshal v = Some cl →
  web_url (cachedLink.TargetURL cl) ∧ (cachedLink.RedirectType cl = 301 ∨ cachedLink.RedirectType cl = 302).

Definition cache_ok (r : Redis.t) : Prop := map_Forall (λ _ e, entry_wf e.1) (Redis.strs r).

Lemma entry_wf_link `{!CodecLaws} l v :
  link_wf l → pg_text (Link.Code l) = true ∧ pg_text (Link.TargetURL l) = true →
  json_Marshal (fromDomain l) = Some v → entry_wf v.
Proof.
  intros [Hu Ht _] [Hx%pg_text_valid Hy%pg_text_valid] Hm _ cl.
  intros Hcl. by rewrite (json_same _ _ _ (utf8_fromDomain l Hx Hy) Hm Hcl).
Qed.

Lemma entry_wf_negative : entry_wf negativeMarker.
Proof. by intros []. Qed.

Lemma cache_ok_insert r key v x :
  entry_wf v → cache_ok r → cache_ok (Redis.with_strs <[key := (v, x)]> r).
Proof. intros Hv Hr. by apply map_Forall_insert_2. Qed.

Lemma cache_ok_delete r key : cache_ok r → cache_ok (Redis.with_strs (delete key) r).
Proof. intros Hr. by apply map_Forall_delete. Qed.

(** * The world between two operations *)

Record world_ok (w : World) : Prop := { ok_db : db_ok (w_db w); ok_cache : cache_ok (w_redis w) }.

Lemma world_ok_ext w w' :
  w_db w' = w_db w → Redis.strs (w_redis w') = Redis.strs (w_redis w) → world_ok w → world_ok w'.
Proof. intros Hd Hr [??]. split; [by rewrite Hd|]. unfold cache_ok. by rewrite Hr. Qed.

Lemma world_ok_step n w : world_ok w → world_ok (set_step n w).
Proof. by apply world_ok_ext. Qed.
Lemma world_ok_metrics f w : world_ok w → world_ok (upd_metrics f w).
Proof. by apply world_ok_ext. Qed.
Lemma world_ok_pipe f w : world_ok w → world_ok (upd_pipe f w).
Proof. by apply world_ok_ext. Qed.
Lemma world_ok_disp f w : world_ok w → world_ok (upd_disp f w).
Proof. by apply world_ok_ext. Qed.
Lemma world_ok_access f w : world_ok w → world_ok (upd_access f w).
Proof. by apply world_ok_ext. Qed.
Lemma world_ok_tables f w : db_ok (f (w_db w)) → world_ok w → world_ok (upd_db f w).
Proof. intros Hf [_ ?]. by split. Qed.
Lemma world_ok_strs key w : world_ok w → world_ok (upd_redis (Redis.with_strs (delete key)) w).
Proof. intros [? ?]. split; [done|]. by apply cache_ok_delete. Qed.
Lemma world_ok_zsets f w : world_ok w → world_ok (upd_redis (Redis.with_zsets f) w).
Proof. by apply world_ok_ext. Qed.
End cache.

#[export] Hint Resolve world_ok_step world_ok_metrics world_ok_pipe world_ok_disp world_ok_strs
  world_ok_zsets : preserves.

(** * The operations keep it *)

Section operations.
Context `{O : Oracle} `{Codec} `{!CodecLaws} `{Binding} `{Collation}.
Context (cfg : Config.t) (demoTenant : option Tenant.t) (fuel : nat).

Lemma tick_ok : preserves world_ok tick.
Proof. apply preserves_tick. apply world_ok_step. Qed.

Lemma now_ok : preserves world_ok now.
Proof. apply preserves_now. apply world_ok_step. Qed.

Local Hint Resolve tick_ok now_ok : preserves.

(** ** Redis *)

Lemma Invalidate_ok code : preserves world_ok (LinkCache.Invalidate code).
Proof. unfold LinkCache.Invalidate, redis_DEL. preserve. Qed.

Lemma SET_ok key v ttl : entry_wf v → preserves world_ok (redis_SET key v ttl).
Proof.
  intros Hv. unfold redis_SET. preserve.
  all: match goal with H : world_ok _ |- _ => destruct H end; split; [done|]; by apply cache_ok_insert.
Qed.

Lemma Allow_ok key limit window : preserves world_ok (RedisRateLimiter.Allow key limit window).
Proof.
  unfold RedisRateLimiter.Allow, RedisRateLimiter.uniqueMember, RedisRateLimiter.run_script, rand_Read.
  preserve; auto with preserves.
Qed.

(** ** Webhooks and keys *)

Lemma hooks_ok (w w' : World) :
  w_redis w' = w_redis w → DB.tenants (w_db w') = DB.tenants (w_db w) →
  DB.api_keys (w_db w') = DB.api_keys (w_db w) → DB.links (w_db w') = DB.links (w_db w) →
  DB.clicks (w_db w') = DB.clicks (w_db w) → (webhooks_sound w → webhooks_sound w') →
  world_ok w → world_ok w'.
Proof.
  intros Er ? ? ? ? Hk [Hd Hc]. split; [|by rewrite Er].
  eapply db_ok_webhooks; [..|done]; try done. apply Hk. intros id h. by apply (db_hooks _ Hd).
Qed.

(** Everything but the webhooks and the effect count. *)
Definition apart_hooks (w : World) :=
  (w_redis w, DB.tenants (w_db w), DB.api_keys (w_db w), DB.links (w_db w), DB.clicks (w_db w)).

Lemma hook_op_ok {A} (m : M A) :
  (∀ x, preserves (λ w, apart_hooks w = x) m) → preserves webhooks_sound m → preserves world_ok m.
Proof.
  intros Hf Hk w Hw. pose proof (Hf (apart_hooks w) w eq_refl) as E. simpl in E.
  unfold apart_hooks in E. simplify_eq. apply (hooks_ok w); [done..| |done]. apply Hk.
Qed.

Lemma hook_create_ok t inp : preserves world_ok (WebhookService.Create t inp).
Proof.
  apply hook_op_ok.
  - intros x. unfold WebhookService.Create, WebhookRepository.Create, GenerateWebhookSecret, insert_webhook.
    preserve; done.
  - apply Create_keeps_sound.
Qed.

Lemma hook_delete_ok t id : preserves world_ok (WebhookService.Delete t id).
Proof.
  apply hook_op_ok.
  - intros x. unfold WebhookService.Delete, WebhookRepository.DeleteForTenant, delete_webhook. preserve; done.
  - unfold WebhookService.Delete. preserve.
Qed.

Lemma RecordSuccess_ok id : preserves world_ok (WebhookRepository.RecordSuccess id).
Proof.
  apply hook_op_ok; [|auto with preserves]. intros x. unfold WebhookRepository.RecordSuccess. preserve; done.
Qed.

Lemma RecordFailure_ok id k : preserves world_ok (WebhookRepository.RecordFailure id k).
Proof.
  apply hook_op_ok; [|auto with preserves].
  intros x. unfold WebhookRepository.RecordFailure, record_failure. preserve; done.
Qed.

Lemma touch_ok id : preserves world_ok (AuthService.touch id).
Proof.
  unfold AuthService.touch, APIKeyRepository.TouchLastUsed, touch_key. preserve.
  match goal with H : world_ok _ |- _ => apply world_ok_tables; [apply db_ok_touched, H|exact H] end.
Qed.

(** ** Links *)

Lemma links_ok (w w' : World) id row :
  world_ok w → w_redis w' = w_redis w → w_db w' = DB.with_links <[id := row]> (w_db w) →
  schema w' → link_wf row → world_ok w'.
Proof.
  intros [Hd Hc] Er E Hs Hr. split; [|by rewrite Er].
  eapply (db_ok_links (w_db w)); try done; rewrite E; try done. simpl.
  apply map_Forall_insert_2; [done|]. apply Hd.
Qed.

Lemma sink_redis_keeps l r : preserves (λ w, w_redis w = r) (Notifier.LinkCreated (notifier cfg) l).
Proof. intros w <-. apply sink_redis. Qed.

(** ** What the link service does to Redis: it drops entries *)

Section drops.
Context (J : Redis.t → Prop) (Hdel : ∀ key r, J r → J (Redis.with_strs (delete key) r)).

Lemma invalidate_cache code :
  preserves (λ w, J (w_redis w)) (LinkService.invalidate (linkService cfg demoTenant fuel) code).
Proof.
  unfold LinkService.invalidate. destruct (linkService_parts cfg demoTenant fuel) as (_ & _ & ->).
  unfold LinkCache.Invalidate, redis_DEL. preserve; try done. by apply Hdel.
Qed.

Lemma emit_cache l :
  preserves (λ w, J (w_redis w)) (LinkService.emitCreated (linkService cfg demoTenant fuel) l).
Proof.
  unfold LinkService.emitCreated. destruct (linkService_parts cfg demoTenant fuel) as (_ & -> & _).
  intros w Hw. by rewrite sink_redis.
Qed.

Lemma reads_cache {A} (m : M A) : reads m → preserves (λ w, J (w_redis w)) m.
Proof. apply reads_keeps. done. Qed.

Lemma gen_cache : preserves (λ w, J (w_redis w)) (LinkService.gen (linkService cfg demoTenant fuel)).
Proof. apply reads_cache, generate_reads. Qed.

Lemma clamp_cache t e :
  preserves (λ w, J (w_redis w)) (LinkService.clampDemoExpiry (linkService cfg demoTenant fuel) t e).
Proof. apply reads_cache. unfold LinkService.clampDemoExpiry. reads. Qed.

Lemma patch_cache inp l : preserves (λ w, J (w_redis w)) (LinkService.patch inp l).
Proof. apply reads_cache, patch_reads. Qed.

Local Hint Resolve invalidate_cache emit_cache gen_cache clamp_cache patch_cache : preserves.

Lemma Create_cache l : preserves (λ w, J (w_redis w)) (LinkRepository.Create l).
Proof. unfold LinkRepository.Create, insert_link. preserve; done. Qed.

Local Hint Resolve Create_cache : preserves.

Lemma allocate_cache n l :
  preserves (λ w, J (w_redis w)) (LinkService.allocate (linkService cfg demoTenant fuel) n l).
Proof. induction n as [|n IH]; cbn [LinkService.allocate]; preserve. Qed.

Local Hint Resolve allocate_cache : preserves.

Lemma exec_cache t call w :
  J (w_redis w) → J (w_redis (exec (linkService cfg demoTenant fuel) t call w)).
Proof.
  revert w. destruct call as [inp|id|limit offset|id inp|id]; simpl.
  - change (preserves (λ w, J (w_redis w)) (LinkService.Create (linkService cfg demoTenant fuel) t inp)).
    unfold LinkService.Create, LinkService.allocateGeneratedCode, LinkService.validateExpiry. preserve; done.
  - intros w Hw. unfold LinkService.Get. by rewrite GetByIDForTenant_world.
  - apply (reads_cache (LinkService.List t limit offset)), List_reads.
  - change (preserves (λ w, J (w_redis w)) (LinkService.Update (linkService cfg demoTenant fuel) t id inp)).
    unfold LinkService.Update, LinkRepository.GetByIDForTenant, LinkRepository.Update, LinkRepository.one_row,
      LinkRepository.query_row, update_link. preserve; done.
  - change (preserves (λ w, J (w_redis w)) (LinkService.Delete (linkService cfg demoTenant fuel) t id)).
    unfold LinkService.Delete, LinkRepository.GetByIDForTenant, LinkRepository.SoftDelete, LinkRepository.one_row,
      LinkRepository.query_row, soft_delete_link. preserve; done.
Qed.
End drops.

Lemma exec_ok t call w : world_ok w → world_ok (exec (linkService cfg demoTenant fuel) t call w).
Proof.
  intros [Hd Hc]. pose proof (wired_sink cfg demoTenant fuel). pose proof (wired_cache cfg demoTenant fuel).
  split; [|by apply (exec_cache cache_ok); [intros; apply cache_ok_delete|]].
  pose proof (exec_schema (linkService cfg demoTenant fuel) t call w (db_schema _ Hd)) as Hs.
  pose proof (exec_wf (linkService cfg demoTenant fuel) t call w (db_schema _ Hd) (db_links _ Hd)) as Hl.
  destruct (exec_effect (linkService cfg demoTenant fuel) t call w (db_schema _ Hd))
    as [_ [E|(id & row & E & _)]]; unfold schema, links_wf in *; rewrite E in *; [done|].
  by eapply (db_ok_links (w_db w)).
Qed.

(** ** Redirects *)

(** The row of a code is well formed, so its snapshot is. *)
Lemma Set_ok l :
  link_wf l → pg_text (Link.Code l) = true ∧ pg_text (Link.TargetURL l) = true →
  preserves world_ok (LinkCache.Set_ (linkCache cfg) l).
Proof.
  intros Hl Hx. unfold LinkCache.Set_. destruct (json_Marshal (fromDomain l)) as [v|] eqn:Hm; [|preserve].
  preserve. by eapply SET_ok, entry_wf_link.
Qed.

Lemma SetNegative_ok code : preserves world_ok (LinkCache.SetNegative (linkCache cfg) code).
Proof. unfold LinkCache.SetNegative. preserve. apply SET_ok, entry_wf_negative. Qed.

Lemma fromDB_ok code : preserves world_ok (RedirectService.fromDB (redirectService cfg) code).
Proof.
  intros w Hw. unfold RedirectService.fromDB. rewrite attempt_bind.
  pose proof (GetByCode_world code w) as E.
  destruct (LinkRepository.GetByCode code w) as [[l|e|p] w1] eqn:Hrow; simpl in E; subst w1.
  - apply GetByCode_Ok in Hrow as (Hl & _); [|apply Hw].
    assert (Hwf : link_wf l) by exact (db_links _ (ok_db _ Hw) _ _ Hl).
    assert (Hp : preserves world_ok (attempt (LinkCache.Set_ (linkCache cfg) l);;
      RedirectService.checkActive l)).
    { pose proof (Set_ok l Hwf (ok_text _ (db_schema _ (ok_db _ Hw)) _ _ Hl)). unfold RedirectService.checkActive. preserve. }
    apply Hp. by apply world_ok_step.
  - assert (Hp : preserves world_ok (if Is e ErrNotFound then attempt (LinkCache.SetNegative (linkCache cfg) code);;
      fail (ESentinel ErrNotFound) else @fail Link.t e)).
    { pose proof (SetNegative_ok code). preserve. }
    apply Hp. by apply world_ok_step.
  - by apply world_ok_step.
Qed.

Lemma cache_Get_ok code : preserves world_ok (LinkCache.Get code).
Proof. intros w Hw. destruct (Get_world code w) as [n ->]. by apply world_ok_step. Qed.

Lemma Resolve_ok code : preserves world_ok (RedirectService.Resolve (redirectService cfg) code).
Proof.
  pose proof (fromDB_ok code). pose proof (cache_Get_ok code).
  unfold RedirectService.Resolve, RedirectService.observeHit, RedirectService.observeMiss,
    RedirectService.checkActive, redirectService, ObserveCacheHit, ObserveCacheMiss. simpl.
  unfold ObserveCacheHit, ObserveCacheMiss. preserve.
Qed.

(** ** The pipeline and the dispatcher *)

Lemma RecordBatch_ok batch : preserves world_ok (ClickRepository.RecordBatch batch).
Proof.
  intros w Hw. pose proof (RecordBatch_cases batch w) as Hc.
  pose proof (RecordBatch_schema batch w (db_schema _ (ok_db _ Hw))) as Hs. unfold schema in Hs.
  split; [|by rewrite RecordBatch_frame; [apply Hw|..]].
  assert (Hrec : ∀ codes, batch_recorded batch codes (w_db w) (w_db (ClickRepository.RecordBatch batch w).2) →
    db_ok (w_db (ClickRepository.RecordBatch batch w).2)).
  { intros codes [_ (? & ? & ?) Hn Hl _ _]. eapply (db_ok_links (w_db w)); [done..| |apply Hw].
    intros id l' Hl'. destruct (DB.links (w_db w) !! id) as [l|] eqn:E; [|by rewrite Hn in Hl'].
    pose proof (db_links _ (ok_db _ Hw) _ _ E) as [? ? ?]. destruct (Hl id l E) as (l2 & Hl2 & Hcase).
    simplify_eq. destruct Hcase as [[-> _]|[t ->]]; by split. }
  destruct (ClickRepository.RecordBatch batch w) as [[codes|e|p] w']; simpl in *; [by eapply Hrec| |done].
  destruct Hc as [->|[codes Hc]]; [apply Hw|by eapply Hrec].
Qed.

Lemma goroutines_ok : goroutines_keep world_ok.
Proof.
  split; auto using world_ok_step, world_ok_metrics, world_ok_pipe, world_ok_disp, Invalidate_ok, RecordBatch_ok,
    RecordSuccess_ok, RecordFailure_ok.
Qed.

(** ** The janitor *)

Lemma sweep_ok j : preserves world_ok (LinkJanitor.sweep j).
Proof.
  intros w [Hd Hc]. assert (Hr : w_redis (LinkJanitor.sweep j w).2 = w_redis w).
  { assert (Hp : preserves (λ w', w_redis w' = w_redis w) (LinkJanitor.sweep j)); [|by apply Hp].
    unfold LinkJanitor.sweep, LinkRepository.PurgeExpired, purge_links. preserve; done. }
  split; [|by rewrite Hr].
  destruct (sweep_world j w) as [_ [E|E]]; rewrite E; [done|].
  apply (db_ok_links (w_db w)); try done.
  - apply schema_delete, Hd.
  - intros id l. simpl. intros [Hl _]%lookup_difference_Some. exact (db_links _ Hd _ _ Hl).
Qed.
End operations.
