(* ===== verification/System.v ===== *)
(** The process (cmd/server/main.go): how it starts, how its goroutines and requests
    interleave, and what holds in every state it can reach.

    A step of the process is a request served, a step of the pipeline or of the
    dispatcher, a key touched, a sweep of the janitor, or a sample of the queue depth.
    Lifecycle.v adds the order of the shutdown, Concurrent.v the interleaving of requests.
    The process projects onto the pipeline and onto the dispatcher, so that the theorems
    on their runs hold of it. *)
From stdpp Require Import prelude gmap strings list relations.
From S2P Require Import Prelude GoStd NetUrl Domain Wire Enrich World Schema LinkRepo LinkCache Shortcode LinkService.
From S2P Require Import Counters Redirect KeyRepo Auth WebhookRepo WebhookService ClickRepo Stats RateLimit.
From S2P Require Import Ingest Delivery Notifier Config Http Observe Handlers Server Janitor Invariant.

Local Open Scope Z_scope.

(** * Starting *)

Section boot.
Context `{O : Oracle} `{Codec} (cfg : Config.t).

(** A call of a driver that can fail and has no effect on the state modelled. *)
Definition external : M () := backend (λ _, mret ()).

(** A step of a constructor, its error wrapped. *)
Definition stage (what : string) : M () :=
  r ← attempt external;
  match r with inl _ => mret () | inr err => fail (errorf what err) end.

Definition NewPostgresPool : M () :=
  stage "parse database dsn";; stage "create pgx pool";; stage "ping postgres".

Definition NewRedisClient : M () := stage "ping redis".

(** [toPgxURL]. *)
Definition toPgxURL (dsn : string) : string :=
  if HasPrefix dsn "postgres://" then "pgx5://" +:+ str_drop 11 dsn
  else if HasPrefix dsn "postgresql://" then "pgx5://" +:+ str_drop 13 dsn
  else dsn.

(** A DSN of either scheme keeps what follows it; any other is left alone. *)
Lemma toPgxURL_spec dsn :
  (∀ rest, dsn = "postgres://" +:+ rest ∨ dsn = "postgresql://" +:+ rest → toPgxURL dsn = "pgx5://" +:+ rest)
  ∧ (HasPrefix dsn "postgres://" = false → HasPrefix dsn "postgresql://" = false → toPgxURL dsn = dsn).
Proof.
  split; [|unfold toPgxURL; by intros -> ->]. intros rest [->| ->]; unfold toPgxURL; by destruct rest.
Qed.

(** The tables exist already in the model: applying the migrations only can fail. *)
Definition Migrate : M () :=
  stage "open embedded migrations";; stage "init migrator";; stage "apply migrations".

(** A failing seed is logged; there is no demo tenant then. *)
Definition seed_demo : M (option Tenant.t) :=
  if Config.IsDev cfg || DemoConfig.Seed (Config.Demo cfg) then
    r ← attempt Seed.Demo;
    mret (match r with inl t => Some t | inr _ => None end)
  else mret None.

(** [run] up to the start of the goroutines: the demo tenant.  A channel of negative
    capacity cannot be made. *)
Definition boot : M (option Tenant.t) :=
  NewPostgresPool;;
  Migrate;;
  demoTenant ← seed_demo;
  NewRedisClient;;
  modify (upd_metrics (λ _, NewMetrics));;
  if WebhookConfig.QueueSize (Config.Webhook cfg) <? 0 then panic "makechan: size out of range"
  else
    modify (upd_disp (λ _, NewDispatcher (Config.Webhook cfg)));;
    modify (upd_pipe (λ _, NewPipeline (pipeline cfg)));;
    mret demoTenant.
End boot.

(** * Running *)

Section process.
Context `{O : Oracle} `{Codec} `{Binding} `{Collation} `{Gin}.
Context (cfg : Config.t) (demoTenant : option Tenant.t) (promhttp : M Response.t) (fuel : nat).

(** The readiness probes: a ping of each backend. *)
Definition health : list (string * M ()) := [("postgres", external); ("redis", external)].

Definition janitor (t : Tenant.t) : LinkJanitor.t :=
  LinkJanitor.Mk (Tenant.ID t) (DemoConfig.CleanupInterval (Config.Demo cfg))
    (DemoConfig.Retention (Config.Demo cfg)).

Inductive sstep : World → World → Prop :=
  | s_request r c w : sstep w (engine cfg demoTenant promhttp health fuel r c w).2
  | s_touch id w : sstep w (AuthService.touch id w).2
  | s_pipeline a w w' : step (pipeline cfg) w a w' → sstep w w'
  | s_dispatcher evs w w' : dstep (Config.Webhook cfg) w evs w' → sstep w w'
  | s_sweep t w : demoTenant = Some t → sstep w (LinkJanitor.sweep (janitor t) w).2
  | s_sample w : sstep w (sampleQueueDepth w).2.
End process.

(** * What the process keeps

    A property of the world that survives every change made away from the pipeline and
    the dispatcher, and a dispatch, survives every operation but those of the two. *)

Section around.
Context `{O : Oracle} `{Codec} `{Binding} `{Collation}.
Context (cfg : Config.t) (demoTenant : option Tenant.t) (fuel : nat).
Context (I : World → Prop).
Context (Helse : ∀ w w', I w → w_pipe w' = w_pipe w → w_disp w' = w_disp w →
  (webhooks_sound w → webhooks_sound w') → I w').
Context (Hdispatch : ∀ ev, preserves I (Dispatch (Config.Webhook cfg) ev)).

Lemma around_step n w : I w → I (set_step n w).
Proof. intros Hw. by eapply Helse. Qed.
Lemma around_metrics f w : I w → I (upd_metrics f w).
Proof. intros Hw. by eapply Helse. Qed.
Lemma around_redis f w : I w → I (upd_redis f w).
Proof. intros Hw. by eapply Helse. Qed.
Lemma around_links f w : I w → I (upd_db (DB.with_links f) w).
Proof. intros Hw. by eapply Helse. Qed.
Lemma around_keys f w : I w → I (upd_db (DB.with_api_keys f) w).
Proof. intros Hw. by eapply Helse. Qed.

Local Hint Resolve around_step around_metrics around_redis around_links around_keys : preserves.

Lemma around_reads {A} (m : M A) : reads m → preserves I m.
Proof. apply reads_keeps. intros. by apply around_step. Qed.

(** An operation on the webhooks that keeps their key. *)
Lemma around_hooks {A} (m : M A) :
  (∀ x, preserves (λ w, (w_pipe w, w_disp w) = x) m) → preserves webhooks_sound m → preserves I m.
Proof.
  intros Hf Hk w Hw. pose proof (Hf _ w eq_refl) as E. simpl in E. simplify_eq.
  eapply Helse; [exact Hw|done..|apply Hk].
Qed.

Lemma Invalidate_around code : preserves I (LinkCache.Invalidate code).
Proof. unfold LinkCache.Invalidate, redis_DEL. preserve. Qed.

Lemma Allow_around key limit window : preserves I (RedisRateLimiter.Allow key limit window).
Proof.
  unfold RedisRateLimiter.Allow, RedisRateLimiter.uniqueMember, RedisRateLimiter.run_script, rand_Read.
  preserve; auto with preserves.
Qed.

Lemma touch_around id : preserves I (AuthService.touch id).
Proof. unfold AuthService.touch, APIKeyRepository.TouchLastUsed, touch_key. preserve. Qed.

Lemma Resolve_around code : preserves I (RedirectService.Resolve (redirectService cfg) code).
Proof.
  unfold RedirectService.Resolve, RedirectService.observeHit, RedirectService.observeMiss, RedirectService.fromDB,
    RedirectService.checkActive, LinkCache.Get, LinkCache.Set_, LinkCache.SetNegative, redirectService,
    LinkRepository.GetByCode, LinkRepository.one_row, LinkRepository.query_row, redis_GET, redis_SET. simpl.
  unfold ObserveCacheHit, ObserveCacheMiss. preserve; auto with preserves.
Qed.

Lemma hook_create_around t inp : preserves I (WebhookService.Create t inp).
Proof.
  apply around_hooks; [|apply Create_keeps_sound].
  intros x. unfold WebhookService.Create, WebhookRepository.Create, GenerateWebhookSecret, insert_webhook.
  preserve; done.
Qed.

Lemma hook_delete_around t id : preserves I (WebhookService.Delete t id).
Proof.
  apply around_hooks; [|unfold WebhookService.Delete; preserve].
  intros x. unfold WebhookService.Delete, WebhookRepository.DeleteForTenant, delete_webhook. preserve; done.
Qed.

(** ** The link service *)

Lemma emit_around l : preserves I (LinkService.emitCreated (linkService cfg demoTenant fuel) l).
Proof.
  unfold LinkService.emitCreated. destruct (linkService_parts cfg demoTenant fuel) as (_ & -> & _).
  unfold Notifier.LinkCreated. preserve.
Qed.

Lemma invalidate_around code : preserves I (LinkService.invalidate (linkService cfg demoTenant fuel) code).
Proof.
  unfold LinkService.invalidate. destruct (linkService_parts cfg demoTenant fuel) as (_ & _ & ->).
  pose proof Invalidate_around. preserve.
Qed.

Lemma gen_around : preserves I (LinkService.gen (linkService cfg demoTenant fuel)).
Proof. apply around_reads, generate_reads. Qed.

Lemma clamp_around t e : preserves I (LinkService.clampDemoExpiry (linkService cfg demoTenant fuel) t e).
Proof. apply around_reads. unfold LinkService.clampDemoExpiry. reads. Qed.

Lemma patch_around inp l : preserves I (LinkService.patch inp l).
Proof. apply around_reads, patch_reads. Qed.

Lemma insert_around l : preserves I (LinkRepository.Create l).
Proof. unfold LinkRepository.Create, insert_link. preserve. Qed.

Local Hint Resolve emit_around invalidate_around gen_around clamp_around patch_around insert_around : preserves.

Lemma allocate_around n l : preserves I (LinkService.allocate (linkService cfg demoTenant fuel) n l).
Proof. induction n as [|n IH]; cbn [LinkService.allocate]; preserve. Qed.

Local Hint Resolve allocate_around : preserves.

Lemma exec_around t call w : I w → I (exec (linkService cfg demoTenant fuel) t call w).
Proof.
  revert w. destruct call as [inp|id|limit offset|id inp|id]; simpl.
  - change (preserves I (LinkService.Create (linkService cfg demoTenant fuel) t inp)).
    unfold LinkService.Create, LinkService.allocateGeneratedCode, LinkService.validateExpiry. preserve; auto with preserves.
  - intros w Hw. unfold LinkService.Get. rewrite GetByIDForTenant_world. by apply around_step.
  - apply (around_reads (LinkService.List t limit offset)), List_reads.
  - change (preserves I (LinkService.Update (linkService cfg demoTenant fuel) t id inp)).
    unfold LinkService.Update, LinkRepository.GetByIDForTenant, LinkRepository.Update, LinkRepository.one_row,
      LinkRepository.query_row, update_link. preserve; auto with preserves.
  - change (preserves I (LinkService.Delete (linkService cfg demoTenant fuel) t id)).
    unfold LinkService.Delete, LinkRepository.GetByIDForTenant, LinkRepository.SoftDelete, LinkRepository.one_row,
      LinkRepository.query_row, soft_delete_link. preserve; auto with preserves.
Qed.

Lemma services_around t : services_keep cfg demoTenant fuel I t.
Proof. split; [apply exec_around|apply hook_create_around|apply hook_delete_around]. Qed.

Lemma sweep_around j : preserves I (LinkJanitor.sweep j).
Proof.
  unfold LinkJanitor.sweep, LinkRepository.PurgeExpired, purge_links. preserve; auto with preserves.
Qed.

(** ** The collaborators of the pipeline *)

Lemma RecordBatch_around batch : preserves I (ClickRepository.RecordBatch batch).
Proof.
  intros w Hw. eapply Helse; [exact Hw|by apply RecordBatch_frame..|].
  pose proof (RecordBatch_cases batch w) as Hc. unfold webhooks_sound.
  assert (Hrec : ∀ codes, batch_recorded batch codes (w_db w) (w_db (ClickRepository.RecordBatch batch w).2) →
    DB.webhooks (w_db (ClickRepository.RecordBatch batch w).2) = DB.webhooks (w_db w)).
  { intros codes [_ (? & ? & ?) _ _ _ _]. done. }
  destruct (ClickRepository.RecordBatch batch w) as [[codes|e|p] w']; simpl in *; [by rewrite (Hrec codes)| |done].
  destruct Hc as [->|[codes Hc]]; [done|by rewrite (Hrec codes)].
Qed.

Lemma hook_around batch : preserves I (Notifier.ClicksFlushed (notifier cfg) batch).
Proof.
  assert (Hall : ∀ m ids, preserves I (Notifier.dispatch_clicked (notifier cfg) m ids)).
  { intros m ids. induction ids as [|id ids IH]; cbn [Notifier.dispatch_clicked]; preserve. }
  unfold Notifier.ClicksFlushed, range_keys. preserve; auto with preserves.
Qed.
End around.

(** * Projections

    The process is a run of the pipeline and a run of the dispatcher. *)

Section projections.
Context `{O : Oracle} `{Codec} `{Binding} `{Collation} `{Gin}.
Context (cfg : Config.t) (demoTenant : option Tenant.t) (promhttp : M Response.t) (fuel : nat).
Context (Hprom : reads promhttp).

Definition pipe_view (w0 w : World) : Prop := ∃ acts, run (pipeline cfg) w0 acts w.
Definition disp_view (w0 w : World) : Prop := ∃ evs, drun (Config.Webhook cfg) w0 evs w.

Lemma pipe_view_elsewhere w0 w w' : pipe_view w0 w → w_pipe w' = w_pipe w → pipe_view w0 w'.
Proof.
  intros [acts Hr] E. exists (acts ++ []). eapply run_app; [exact Hr|]. by eapply run_elsewhere, run_nil.
Qed.

Lemma pipe_view_step w0 w a w' : pipe_view w0 w → step (pipeline cfg) w a w' → pipe_view w0 w'.
Proof. intros [acts Hr] Hs. exists (acts ++ [a]). eapply run_app; [exact Hr|]. eapply run_step, run_nil. exact Hs. Qed.

Lemma drun_app w evs w1 evs' w2 :
  drun (Config.Webhook cfg) w evs w1 → drun (Config.Webhook cfg) w1 evs' w2 →
  drun (Config.Webhook cfg) w (evs ++ evs') w2.
Proof.
  induction 1 as [|w evs w1 evs1 w3 Hs _ IH|w w1 evs w3 E Hk _ IH]; intros Hr; [done| |].
  - rewrite <- (assoc_L (++)). eapply drun_step; eauto.
  - eapply drun_elsewhere; eauto.
Qed.

Lemma disp_view_elsewhere w0 w w' :
  disp_view w0 w → w_disp w' = w_disp w → (webhooks_sound w → webhooks_sound w') → disp_view w0 w'.
Proof.
  intros [evs Hr] E Hk. exists (evs ++ []). eapply drun_app; [exact Hr|].
  by eapply drun_elsewhere, drun_refl.
Qed.

Lemma disp_view_step w0 w evs w' : disp_view w0 w → dstep (Config.Webhook cfg) w evs w' → disp_view w0 w'.
Proof.
  intros [evs0 Hr] Hs. exists (evs0 ++ evs). eapply drun_app; [exact Hr|].
  rewrite <- (app_nil_r evs). eapply drun_step, drun_refl. exact Hs.
Qed.

Lemma Dispatch_pipe ev w : w_pipe (Dispatch (Config.Webhook cfg) ev w).2 = w_pipe w.
Proof. by destruct (Dispatch_world (Config.Webhook cfg) ev w) as (b & k & f & -> & _). Qed.

Lemma Dispatch_view w0 ev : preserves (disp_view w0) (Dispatch (Config.Webhook cfg) ev).
Proof. intros w Hw. eapply disp_view_step; [exact Hw|apply dstep_dispatch]. Qed.

Lemma external_reads : reads external.
Proof. unfold external. reads. Qed.

(** ** The pipeline moves, the dispatcher follows *)

Section following.
Context (I : World → Prop).
Context (Helse : ∀ w w', I w → w_disp w' = w_disp w → (webhooks_sound w → webhooks_sound w') → I w').
Context (Hdispatch : ∀ ev, preserves I (Dispatch (Config.Webhook cfg) ev)).

Lemma follow_pipe f w : I w → I (upd_pipe f w).
Proof. intros Hw. by eapply Helse. Qed.
Lemma follow_step n w : I w → I (set_step n w).
Proof. intros Hw. by eapply Helse. Qed.
Lemma follow_metrics f w : I w → I (upd_metrics f w).
Proof. intros Hw. by eapply Helse. Qed.

Local Hint Resolve follow_pipe follow_step follow_metrics : preserves.

Lemma follow_around w w' :
  I w → w_pipe w' = w_pipe w → w_disp w' = w_disp w → (webhooks_sound w → webhooks_sound w') → I w'.
Proof. intros ? _. by apply Helse. Qed.

Lemma flush_follows batch : preserves I (flush (pipeline cfg) batch).
Proof.
  pose proof (RecordBatch_around I follow_around batch).
  pose proof (hook_around cfg I follow_around Hdispatch batch).
  assert (Hev : ∀ codes, preserves I (evict (pipeline cfg) codes)).
  { pose proof (Invalidate_around I follow_around).
    intros codes. induction codes; cbn [evict]; simpl; preserve. }
  unfold flush, when_obs. simpl. unfold IncFlushed. preserve.
Qed.

Lemma flush_local_follows i : preserves I (flush_local (pipeline cfg) i).
Proof. pose proof flush_follows. unfold flush_local. preserve. Qed.

Lemma Enqueue_send_follows e : preserves I (Enqueue_send (pipeline cfg) e).
Proof. unfold Enqueue_send, when_obs. simpl. unfold IncEnqueued, IncDropped. preserve. Qed.

Lemma Enqueue_follows e : preserves I (Enqueue (pipeline cfg) e).
Proof. pose proof Enqueue_send_follows. unfold Enqueue, Enqueue_check. preserve. Qed.

Lemma pipeline_step_follows w a w' : step (pipeline cfg) w a w' → I w → I w'.
Proof.
  pose proof flush_local_follows as Hf.
  destruct 1 as [e w Hq|k e w Hk|i ph b w Hw Hph Hin|i b w Hw|i b w Hw Hq|i b w Hw Hq|w]; intros Hv.
  - by apply follow_pipe.
  - by apply Enqueue_send_follows, follow_pipe.
  - revert Hv. assert (Hp : preserves I (receive (pipeline cfg) i)) by (unfold receive; preserve). apply Hp.
  - by apply Hf.
  - revert Hv. assert (Hp : preserves I (start_drain i)) by (unfold start_drain; preserve). apply Hp.
  - revert Hv. assert (Hp : preserves I (finish (pipeline cfg) i)) by (unfold finish; preserve). apply Hp.
  - by apply follow_pipe.
Qed.

(** A step of the process is one of the dispatcher, or moves it by Dispatch only. *)
Lemma sstep_follows w w' :
  sstep cfg demoTenant promhttp fuel w w' → (∃ evs, dstep (Config.Webhook cfg) w evs w') ∨ (I w → I w').
Proof.
  destruct 1 as [r c w|id w|a w w' Hs|evs w w' Hs|t w _|w]; [right|right|right|by left; exists evs|right|right]; intros Hv.
  - revert Hv. apply engine_keeps.
    + intros. by apply follow_step.
    + intros. by apply (Allow_around I follow_around).
    + apply Enqueue_follows.
    + intros. by apply follow_metrics.
    + by apply (around_reads I follow_around).
    + intros name check Hin. apply (around_reads I follow_around).
      unfold health in Hin. apply elem_of_cons in Hin as [[= -> ->]|[[= -> ->]|[]%elem_of_nil]%elem_of_cons];
        apply external_reads.
    + intros f v Hv. by eapply Helse.
    + intros _ code. by apply (Resolve_around cfg I follow_around).
    + intros _ t. by apply (services_around cfg demoTenant fuel I follow_around Hdispatch).
  - by apply (touch_around I follow_around).
  - by eapply pipeline_step_follows.
  - by apply (sweep_around I follow_around).
  - by eapply Helse.
Qed.
End following.

(** ** The dispatcher moves, the pipeline stays *)

Lemma dispatcher_step_pipe w evs w' : dstep (Config.Webhook cfg) w evs w' → w_pipe w' = w_pipe w.
Proof.
  assert (Hhook : ∀ {A} (m : M A) w, (∀ x, preserves (λ w, w_pipe w = x) m) → w_pipe (m w).2 = w_pipe w).
  { intros A m w1 Hm. by apply (Hm (w_pipe w1)). }
  destruct 1; try done.
  - apply Dispatch_pipe.
  - apply (Hhook _ (resolve (Config.Webhook cfg) ev) (upd_disp (upd_events (λ _, q)) w)). intros x. unfold resolve, WebhookRepository.ListActiveForEvent.
    assert (Hall : ∀ p hs, preserves (λ w, w_pipe w = x) (enqueue_all (Config.Webhook cfg) ev p hs)).
    { intros p hs. induction hs; cbn [enqueue_all]; unfold enqueueJob; preserve; done. }
    preserve; done.
  - apply (Hhook _ (deliver (Config.Webhook cfg) j) (upd_disp (upd_jobs (λ _, q)) w)). intros x. unfold deliver, post, client_Do, backoff, rand_Int64N,
      WebhookRepository.RecordSuccess, WebhookRepository.RecordFailure, record_failure.
    preserve; first [done|by apply client_do_keeps].
  - apply (Hhook _ (enqueueJob (Config.Webhook cfg) j) (upd_disp (upd_timers (delete k)) w)). intros x. unfold enqueueJob. preserve; done.
Qed.

(** ** The process *)

Definition views (w0 w : World) : Prop := pipe_view w0 w ∧ disp_view w0 w.

(** A request's [Enqueue] is the two selects in a row: it accepts or refuses a click. *)
Lemma Enqueue_steps e w :
  ∃ acts, run (pipeline cfg) w acts (Enqueue (pipeline cfg) e w).2 ∧ Forall (λ a, ended a = []) acts.
Proof.
  unfold Enqueue, Enqueue_check. rewrite gets_bind.
  destruct (Pipeline.quit (w_pipe w)) eqn:Hq; simpl; [exists []; split; [apply run_nil|done]|].
  set (w1 := upd_pipe (upd_checked (λ l, e :: l)) w).
  assert (E : upd_pipe (upd_checked (delete 0%nat)) w1 = w).
  { unfold w1. destruct w as [? ? ? [] ? ? ?]. done. }
  exists [Silent; if Z.of_nat (length (Pipeline.input (w_pipe w1))) <? PipelineCfg.bufferSize (pipeline cfg)
             then Accepted e else Refused e].
  split; [|repeat constructor; by case_match]. eapply run_step; [by apply step_check|]. fold w1.
  eapply run_step; [by apply (step_send _ 0)|]. rewrite E. apply run_nil.
Qed.

Lemma Enqueue_pipe_view w0 e : preserves (pipe_view w0) (Enqueue (pipeline cfg) e).
Proof.
  intros w [acts Hr]. destruct (Enqueue_steps e w) as (acts' & Hr' & _). exists (acts ++ acts'). by eapply run_app.
Qed.

(** A step of the process is one of the pipeline, or keeps what only the pipeline and
    [Enqueue] can change. *)
Lemma sstep_pipeline (I : World → Prop) w w' :
  (∀ w w', I w → w_pipe w' = w_pipe w → I w') → (∀ e, preserves I (Enqueue (pipeline cfg) e)) →
  sstep cfg demoTenant promhttp fuel w w' → (∃ a, step (pipeline cfg) w a w') ∨ (I w → I w').
Proof.
  intros Helse Henq.
  assert (He : ∀ w w', I w → w_pipe w' = w_pipe w → w_disp w' = w_disp w →
    (webhooks_sound w → webhooks_sound w') → I w') by (intros; by eapply Helse).
  assert (Hd : ∀ ev, preserves I (Dispatch (Config.Webhook cfg) ev)).
  { intros ev w1 Hw. eapply Helse; [exact Hw|apply Dispatch_pipe]. }
  destruct 1 as [r c w|id w|a w w' Hs|evs w w' Hs|t w _|w]; [right|right|by left; exists a|right..]; intros Hv.
  - revert Hv. apply engine_keeps.
    + intros. by apply (around_step _ He).
    + intros. by apply (Allow_around _ He).
    + exact Henq.
    + intros. by apply (around_metrics _ He).
    + by apply (around_reads _ He).
    + intros name check Hin. apply (around_reads _ He).
      unfold health in Hin. apply elem_of_cons in Hin as [[= -> ->]|[[= -> ->]|[]%elem_of_nil]%elem_of_cons];
        apply external_reads.
    + intros f v Hv. by eapply He.
    + intros _ code. by apply (Resolve_around cfg _ He).
    + intros _ t. by apply services_around.
  - by apply (touch_around _ He).
  - eapply Helse; [exact Hv|by eapply dispatcher_step_pipe].
  - by apply (sweep_around _ He).
  - by eapply He.
Qed.

Lemma sstep_pipe_view w0 w w' :
  sstep cfg demoTenant promhttp fuel w w' → pipe_view w0 w → pipe_view w0 w'.
Proof.
  intros Hs Hv. destruct (sstep_pipeline (pipe_view w0) w w') as [[a Ha]|Hk]; [| |exact Hs|by eapply pipe_view_step|auto].
  - intros w1 w2 Hv1 E. by eapply pipe_view_elsewhere.
  - apply Enqueue_pipe_view.
Qed.

(** ** What a run of the process did with the clicks

    [traced w acts w']: from [w] the process came to [w'], and this is what became of
    clicks on the way, in order.  A worker's step is taken in the very state the run was
    in, so that a batch counts as written or lost by what [RecordBatch] returned there;
    every other step can accept or refuse clicks only. *)
Definition offered (a : act) : Prop := ended a = [].

Definition enriched (l : list ClickEvent.t) : list Click.t :=
  (λ e, enrich e (PipelineCfg.geo (pipeline cfg)) (PipelineCfg.salt (pipeline cfg))) <$> l.

Inductive traced : World → list act → World → Prop :=
  | traced_refl w : traced w [] w
  | traced_worker w acts w1 a w2 :
      traced w acts w1 → step (pipeline cfg) w1 a w2 → traced w (acts ++ [a]) w2
  | traced_other w acts w1 acts' w2 :
      traced w acts w1 → sstep cfg demoTenant promhttp fuel w1 w2 →
      run (pipeline cfg) w1 acts' w2 → Forall offered acts' → traced w (acts ++ acts') w2.

Definition offer_view (w0 w : World) : Prop := ∃ acts, run (pipeline cfg) w0 acts w ∧ Forall offered acts.

Lemma Enqueue_offer_view w0 e : preserves (offer_view w0) (Enqueue (pipeline cfg) e).
Proof.
  intros w (acts & Hr & Ho). destruct (Enqueue_steps e w) as (acts' & Hr' & Ho').
  exists (acts ++ acts'). split; [by eapply run_app|by apply Forall_app].
Qed.

Lemma sstep_traced w w' :
  sstep cfg demoTenant promhttp fuel w w' →
  (∃ a, step (pipeline cfg) w a w') ∨ ∃ acts, run (pipeline cfg) w acts w' ∧ Forall offered acts.
Proof.
  intros Hs. destruct (sstep_pipeline (offer_view w) w w') as [Ha|Hk]; [| |exact Hs|by left|right].
  - intros w1 w2 (acts & Hr & Ho) E. exists (acts ++ []). split; [|by rewrite app_nil_r].
    eapply run_app; [exact Hr|]. by eapply run_elsewhere, run_nil.
  - apply Enqueue_offer_view.
  - apply Hk. exists []. split; [apply run_nil|done].
Qed.

Lemma process_traced w0 w : rtc (sstep cfg demoTenant promhttp fuel) w0 w → ∃ acts, traced w0 acts w.
Proof.
  intros Hr. apply (rtc_ind_r (R:=sstep cfg demoTenant promhttp fuel) (λ w, ∃ acts, traced w0 acts w) w0); [| |exact Hr].
  - exists []. apply traced_refl.
  - intros w1 w2 _ Hs [acts Ht]. destruct (sstep_traced w1 w2 Hs) as [[a Ha]|(acts' & Hr' & Ho)].
    + exists (acts ++ [a]). by eapply traced_worker.
    + exists (acts ++ acts'). by eapply traced_other.
Qed.

Lemma traced_run w0 acts w : traced w0 acts w → run (pipeline cfg) w0 acts w.
Proof.
  induction 1 as [w|w acts w1 a w2 _ IH Ha|w acts w1 acts' w2 _ IH _ Hr _]; [apply run_nil|..];
    (eapply run_app; [exact IH|]); [|exact Hr]. eapply run_step; [exact Ha|apply run_nil].
Qed.

Lemma sstep_disp_view w0 w w' :
  sstep cfg demoTenant promhttp fuel w w' → disp_view w0 w → disp_view w0 w'.
Proof.
  intros Hs Hv. destruct (sstep_follows (disp_view w0) (disp_view_elsewhere w0) (Dispatch_view w0) w w' Hs) as [[evs Hd]|Hk].
  - by eapply disp_view_step.
  - by apply Hk.
Qed.

Lemma process_views w0 w : rtc (sstep cfg demoTenant promhttp fuel) w0 w → views w0 w.
Proof.
  intros Hr. assert (Hv : views w0 w0) by (split; [exists []; apply run_nil|exists []; apply drun_refl]).
  apply (rtc_ind_r (R:=sstep cfg demoTenant promhttp fuel) (views w0) w0); [exact Hv| |exact Hr].
  intros w1 w2 _ Hs [Hp Hd]. split; [by eapply sstep_pipe_view|by eapply sstep_disp_view].
Qed.
End projections.

(** * Redirects *)

Section redirects.
Context `{O : Oracle} `{Codec} `{!CodecLaws} `{Binding} `{Collation} `{Gin}.
Context (cfg : Config.t) (demoTenant : option Tenant.t) (promhttp : M Response.t) (fuel : nat).

(** What the validators promise of a target and a type, for links out of the cache too. *)
Definition redirectable (l : Link.t) : Prop :=
  web_url (Link.TargetURL l) ∧ (Link.RedirectType l = 301 ∨ Link.RedirectType l = 302).

Lemma toDomain_redirectable v cl l :
  entry_wf v → v ≠ negativeMarker → json_Unmarshal v = Some cl → toDomain cl = inl l → redirectable l.
Proof.
  intros Hv Hn Hcl Hl. specialize (Hv Hn cl Hcl). unfold toDomain in Hl.
  repeat case_match; simplify_eq/=. exact Hv.
Qed.

Lemma checkActive_Ok l w l' w' : RedirectService.checkActive l w = (Ok l', w') → l' = l.
Proof. unfold RedirectService.checkActive. intros E. by inv_ok E; case_match; inv_ok E. Qed.

Lemma fromDB_redirectable code w l w' :
  world_ok w → RedirectService.fromDB (redirectService cfg) code w = (Ok l, w') → redirectable l.
Proof.
  intros Hw E. unfold RedirectService.fromDB in E. apply bind_Ok in E as (r & w1 & Hr & E).
  apply attempt_Ok in Hr. destruct r as [row|err].
  - apply GetByCode_Ok in Hr as (Hl & _); [|apply Hw].
    apply bind_Ok in E as (u & w2 & _ & E). apply checkActive_Ok in E as ->.
    by destruct (db_links _ (ok_db _ Hw) _ _ Hl).
  - case_match; [|done]. by apply bind_Ok in E as (u & w2 & _ & E).
Qed.

Lemma Resolve_redirectable code w l w' :
  world_ok w → RedirectService.Resolve (redirectService cfg) code w = (Ok l, w') → redirectable l.
Proof.
  intros Hw E. unfold RedirectService.Resolve in E. apply bind_Ok in E as (r & w1 & Hr & E).
  apply attempt_Ok in Hr. pose proof (cache_Get_ok code w Hw) as Hw1.
  assert (Hmiss : ∀ w2, (RedirectService.observeMiss (redirectService cfg);;
    RedirectService.fromDB (redirectService cfg) code) w1 = (Ok l, w2) → redirectable l).
  { intros w2 E2. apply bind_Ok in E2 as (u & w3 & Ho & E2). unfold RedirectService.observeMiss in Ho.
    simpl in Ho. unfold ObserveCacheMiss in Ho. inv_ok Ho. eapply fromDB_redirectable; [|exact E2].
    apply world_ok_metrics. destruct r as [?|?]; rewrite Hr in Hw1; exact Hw1. }
  destruct r as [[[c|] []]|err]; [| by eapply Hmiss| |by eapply Hmiss..].
  - apply Get_Ok in Hr as (v & x & cl & Hs & _ & Hn & Hcl & Hc).
    apply bind_Ok in E as (u & w2 & _ & E). apply checkActive_Ok in E as ->.
    eapply toDomain_redirectable; eauto. by apply (ok_cache _ Hw _ _ Hs).
  - by apply bind_Ok in E as (u & w2 & _ & E).
Qed.

Lemma respondError_status err :
  ∃ status code message, respondError err = WriteError status code message ∧ 400 <= status.
Proof.
  unfold respondError, StatusForError. repeat case_match; simplify_eq; eexists _, _, _; (split; [reflexivity|lia]).
Qed.

(** The answer of the redirect route in any world the process can be in. *)
Lemma redirect_answer c w a w' :
  world_ok w → serve cfg demoTenant promhttp health fuel RedirectRoute c w = (Ok a, w') →
  (∃ target, web_url target ∧ (Response.status (Answer.response a) = 301 ∨ Response.status (Answer.response a) = 302)
     ∧ Response.headers (Answer.response a) = [("Location", hexEscapeNonASCII target)])
  ∨ ∃ status code message, Answer.response a = WriteError status code message ∧ 400 <= status.
Proof.
  intros Hw E. cbn [serve] in E. apply bind_Ok in E as (resp & w1 & E & Er). inv_ok Er. simpl.
  unfold RedirectHandler.Redirect in E. cbn [RedirectHandler.svc RedirectHandler.clicks redirectHandler] in E.
  apply bind_Ok in E as (r & w2 & Hr & E). apply attempt_Ok in Hr. destruct r as [l|err].
  - left. apply Resolve_redirectable in Hr as [Hu Ht]; [|done].
    apply bind_Ok in E as (? & w3 & _ & E). apply bind_Ok in E as (? & w4 & _ & E). inv_ok E.
    exists (Link.TargetURL l). split; [done|]. split; [|done]. simpl. unfold redirectStatus. case_match; auto.
  - right. apply bind_Ok in E as (? & w3 & _ & E). inv_ok E. apply respondError_status.
Qed.
End redirects.

(** * The start *)

Section start.
Context `{O : Oracle} `{Codec} `{!CodecLaws} (cfg : Config.t).

Lemma insert_tenant_ok name n : preserves world_ok (insert_tenant name n).
Proof.
  intros w Hw. unfold insert_tenant. rewrite gets_bind. case_bool_decide as Hn; [done|].
  apply world_ok_tables; [|done]. apply db_ok_tenant; [|apply Hw]. by apply eq_None_not_Some.
Qed.

Lemma insert_key_ok t name prefix hash n : preserves world_ok (insert_key t name prefix hash n).
Proof.
  intros w Hw. unfold insert_key. rewrite gets_bind. destruct (_ || _) eqn:Hn; [done|].
  apply orb_false_iff in Hn as [Hid Hhash]. apply bool_decide_eq_false in Hid, Hhash.
  case_bool_decide as Ht; [done|]. apply world_ok_tables; [|done].
  destruct (ok_db _ Hw) as [[] ? Hk ?]. split; [by split|done| |done].
  apply (keys_ok_insert (w_db w)); [done|by apply eq_None_not_Some| |by apply not_eq_None_Some].
  intros id k Hk' Hh. apply Hhash. by exists id, k.
Qed.

Lemma Demo_ok : preserves world_ok Seed.Demo.
Proof.
  pose proof insert_tenant_ok. pose proof insert_key_ok.
  assert (Hread : ∀ A what (q : DB.t → option A), preserves world_ok (read_row what q)).
  { intros A what q w Hw. rewrite read_row_world. by apply world_ok_step. }
  unfold Seed.Demo, Seed.demo_tenant, TenantRepository.Create, APIKeyRepository.Create.
  preserve; auto with preserves; apply Hread.
Qed.

Lemma boot_ok : preserves world_ok (boot cfg).
Proof.
  pose proof Demo_ok. assert (He : preserves world_ok external) by (apply (reads_keeps world_ok world_ok_step), external_reads).
  unfold boot, NewPostgresPool, Migrate, NewRedisClient, stage, seed_demo. preserve; auto with preserves.
Qed.

(** What runs once [run] has started the goroutines. *)
Lemma boot_Ok w demoTenant w' :
  boot cfg w = (Ok demoTenant, w') →
  w_pipe w' = NewPipeline (pipeline cfg) ∧ w_disp w' = NewDispatcher (Config.Webhook cfg)
  ∧ 0 <= WebhookConfig.QueueSize (Config.Webhook cfg).
Proof.
  unfold boot. intros E. repeat (apply bind_Ok in E as (? & ? & _ & E)).
  destruct (Z.ltb_spec (WebhookConfig.QueueSize (Config.Webhook cfg)) 0); [done|].
  by inv_ok E.
Qed.
End start.

(** * A start that panics *)

Section panics.
Context `{O : Oracle} `{Codec} (cfg : Config.t) (Hf : ∀ n, o_fault n = None).

Lemma stage_run what w : stage what w = (Ok (), set_step (S (w_step w)) w).
Proof. unfold stage, external. rewrite attempt_bind. unfold backend. by rewrite Hf. Qed.

Lemma seed_demo_run w : ∃ t w', seed_demo cfg w = (Ok t, w').
Proof.
  unfold seed_demo. destruct (_ || _); [|by eexists _, _]. rewrite attempt_bind.
  assert (Hn : no_panic Seed.Demo).
  { unfold Seed.Demo, Seed.demo_tenant, TenantRepository.FindByName, TenantRepository.Create,
      APIKeyRepository.GetByHash, APIKeyRepository.Create, insert_tenant, insert_key, read_row, scan_row. no_panic. }
  destruct (Seed.Demo w) as [[t|e|p] w1] eqn:E; [by eexists _, _..|by apply Hn in E].
Qed.

(** A queue size Load lets through can stop the program: with a negative
    WEBHOOK_QUEUE_SIZE the start panics in NewDispatcher, after the migrations and the
    seed have been written, instead of reporting an invalid configuration. *)
Theorem negative_queue_panics w :
  WebhookConfig.QueueSize (Config.Webhook cfg) < 0 →
  ∃ msg w', boot cfg w = (Panic msg, w').
Proof.
  intros Hq. unfold boot, NewPostgresPool, Migrate, NewRedisClient.
  assert (Hs : ∀ {A} what (k : M A) w, (stage what;; k) w = k (set_step (S (w_step w)) w)).
  { intros A what k w1. by rewrite (bind_run _ _ _ _ _ (stage_run what w1)). }
  assert (Hs2 : ∀ {A} what what' (k : M A) w, ((stage what;; stage what');; k) w = k (set_step (S (S (w_step w))) w)).
  { intros A what what' k w1. erewrite bind_run; [reflexivity|]. by rewrite Hs, stage_run. }
  assert (Hs3 : ∀ {A} a b c (k : M A) w, ((stage a;; stage b;; stage c);; k) w = k (set_step (S (S (S (w_step w)))) w)).
  { intros A a b c k w1. erewrite bind_run; [reflexivity|]. by rewrite !Hs, stage_run. }
  rewrite !Hs3. match goal with |- context [(seed_demo cfg ≫= ?k) ?w1] =>
    destruct (seed_demo_run w1) as (t & w2 & E); rewrite (bind_run _ _ _ _ _ E) end.
  rewrite Hs, (proj2 (Z.ltb_lt _ _)) by done. by eexists _, _.
Qed.
End panics.

(** * What holds of the program *)

Section program.
Context `{O : Oracle} `{Codec} `{!CodecLaws} `{Binding} `{Collation} `{Gin} `{Quoter}.
Context (promhttp : M Response.t) (Hprom : reads promhttp) (fuel : nat).

(** [w] is a state of the process whose environment is [env], started on [w0]. *)
Definition reachable (env : environment) (w0 : World) (cfg : Config.t) (demoTenant : option Tenant.t) (w : World) : Prop :=
  Load env = inl cfg
  ∧ ∃ w1, boot cfg w0 = (Ok demoTenant, w1) ∧ rtc (sstep cfg demoTenant promhttp fuel) w1 w.

Lemma sstep_ok cfg demoTenant w w' :
  sstep cfg demoTenant promhttp fuel w w' → world_ok w → world_ok w'.
Proof.
  destruct 1 as [r c w|id w|a w w' Hs|evs w w' Hs|t w _|w]; intros Hw.
  - revert Hw. apply engine_keeps.
    + apply world_ok_step.
    + apply Allow_ok.
    + apply (Enqueue_keeps cfg world_ok goroutines_ok).
    + intros f v. apply world_ok_metrics.
    + apply (reads_keeps world_ok world_ok_step), Hprom.
    + intros name check Hin. apply (reads_keeps world_ok world_ok_step).
      unfold health in Hin. apply elem_of_cons in Hin as [[= -> ->]|[[= -> ->]|[]%elem_of_nil]%elem_of_cons];
        apply external_reads.
    + intros f v. apply world_ok_access.
    + intros _. apply Resolve_ok.
    + intros _ t. split; [apply exec_ok|apply hook_create_ok|apply hook_delete_ok].
  - by apply touch_ok.
  - by eapply (pipeline_step_keeps cfg world_ok goroutines_ok).
  - by eapply (dispatcher_step_keeps cfg world_ok goroutines_ok).
  - by apply sweep_ok.
  - by apply world_ok_metrics.
Qed.

Lemma boot_ok_Ok w0 cfg demoTenant w1 : world_ok w0 → boot cfg w0 = (Ok demoTenant, w1) → world_ok w1.
Proof. intros Hw0 Hb. pose proof (boot_ok cfg w0 Hw0) as Hw1. by rewrite Hb in Hw1. Qed.

Lemma rtc_ok cfg demoTenant w w' :
  world_ok w → rtc (sstep cfg demoTenant promhttp fuel) w w' → world_ok w'.
Proof.
  intros Hw Hr. apply (rtc_ind_r (R:=sstep cfg demoTenant promhttp fuel) world_ok w); [done| |done].
  eauto using sstep_ok.
Qed.

Lemma reachable_ok env w0 cfg demoTenant w : world_ok w0 → reachable env w0 cfg demoTenant w → world_ok w.
Proof. intros Hw0 (_ & w1 & Hb & Hr). eauto using rtc_ok, boot_ok_Ok. Qed.

(** Every job goes back to a state of the process in which its event was about to be
    resolved. *)
Lemma jobs_of_process env w0 cfg demoTenant w :
  reachable env w0 cfg demoTenant w →
  all_jobs (λ j, ∃ wr jr, reachable env w0 cfg demoTenant wr ∧ job_for wr jr
      ∧ Job.webhook jr = Job.webhook j ∧ Job.event jr = Job.event j ∧ Job.payload jr = Job.payload j) (w_disp w).
Proof.
  intros (Hload & w1 & Hb & Hr). set (P := λ j, ∃ wr jr, _). revert w Hr.
  apply (rtc_ind_r (R:=sstep cfg demoTenant promhttp fuel) (λ w, all_jobs P (w_disp w)) w1).
  { apply boot_Ok in Hb as (_ & -> & _). by intros j ?%elem_of_nil. }
  intros w w' Hr Hs HI. destruct (sstep_follows cfg demoTenant promhttp fuel Hprom (λ w, all_jobs P (w_disp w))) with (w := w) (w' := w')
    as [[evs Hd]|Hk]; [| |done| |by apply Hk].
  - intros w2 w3 Hw2 -> _. done.
  - intros ev w2 Hw2. destruct (Dispatch_disp (Config.Webhook cfg) ev w2) as [->|(_ & [->|[ev' ->]])]; exact Hw2.
  - eapply all_jobs_step; [| |exact Hd|exact HI].
    + intros j (wr & jr & ?). by exists wr, jr.
    + intros j Hj. exists w, j. split_and!; try done. split; [done|]. by exists w1.
Qed.

Lemma sent_of_process env w0 cfg demoTenant w :
  reachable env w0 cfg demoTenant w → sent_ok (w_disp w).
Proof.
  intros (_ & w1 & (_ & Hd & _)%boot_Ok & Hr).
  destruct (process_views cfg demoTenant promhttp fuel Hprom w1 w Hr) as [_ [evs He]]. by eapply sent_ok_run.
Qed.

(** C9: Every webhook request is authentic.  In every state the program reaches, each
    delivery it ever attempted sent its request, and ten at most with those its HTTP
    client was redirected to.  Each request it ever sent was made for an event that had
    been dispatched and for a webhook that was registered, active and subscribed to events
    of that type of that tenant when the event was resolved; its signature header verifies
    the JSON of that event under that webhook's secret, and its other headers carry the
    type, the id and the instant of the event; and it is a POST of that JSON, or a GET
    without a body.  It is the POST to that webhook's URL, an http or https URL with a
    host, or it goes where the answer to an earlier request of the same delivery
    redirected it: by a GET after a 301, 302 or 303.  Only an endpoint that was asked can
    so make the dispatcher send to an address that nobody registered. *)
Theorem requests_authentic env w0 cfg demoTenant w :
  world_ok w0 → reachable env w0 cfg demoTenant w →
  let d := w_disp w in
  (∀ j, j ∈ Dispatcher.posts d → ∃ first, new_request j = Some first ∧ (j, first) ∈ Dispatcher.sent d)
  ∧ (length (Dispatcher.sent d) ≤ 10 * length (Dispatcher.posts d))%nat
  ∧ ∀ j req, (j, req) ∈ Dispatcher.sent d →
    j ∈ Dispatcher.posts d ∧ ∃ wr ev id hook payload signature,
      reachable env w0 cfg demoTenant wr ∧ ev ∈ Dispatcher.events (w_disp wr)
      ∧ DB.webhooks (w_db wr) !! id = Some hook
      ∧ Webhook.TenantID hook = Event.TenantID ev ∧ Webhook.Active hook = true ∧ Event.Type_ ev ∈ Webhook.Events hook
      ∧ event_Marshal ev = Some payload
      ∧ HttpRequest.Header req !! SignatureHeader = Some signature
      ∧ Verify (Webhook.Secret hook) payload signature = true
      ∧ HttpRequest.Header req !! EventHeader = Some (Event.Type_ ev)
      ∧ HttpRequest.Header req !! IDHeader = Some (uuid_String (Event.ID ev))
      ∧ HttpRequest.Header req !! TimestampHeader = Some (Itoa (Unix (Event.OccurredAt ev)))
      ∧ (HttpRequest.Method req = "POST" ∧ HttpRequest.Body req = payload
         ∨ HttpRequest.Method req = "GET" ∧ HttpRequest.Body req = "")
      ∧ (HttpRequest.Method req = "POST" ∧ HttpRequest.URL req = Webhook.URL hook ∧ web_url (HttpRequest.URL req)
         ∨ ∃ prev n code, (j, prev) ∈ Dispatcher.sent d
             ∧ o_http n prev = HttpStatus code (LocatedAt (HttpRequest.URL req))
             ∧ (code ∈ [301; 302; 303] ∧ HttpRequest.Method req = "GET" ∨ code ∈ [307; 308])).
Proof.
  intros Hw0 Hr. assert (Hjobs : ∀ j, j ∈ Dispatcher.posts (w_disp w) → ∃ wr id, reachable env w0 cfg demoTenant wr
    ∧ Job.event j ∈ Dispatcher.events (w_disp wr) ∧ event_Marshal (Job.event j) = Some (Job.payload j)
    ∧ DB.webhooks (w_db wr) !! id = Some (Job.webhook j) ∧ NetUrl.valid_url (Webhook.URL (Job.webhook j))
    ∧ listening (Event.TenantID (Job.event j)) (Event.Type_ (Job.event j)) (Job.webhook j) = true).
  { intros j Hj. destruct (jobs_of_process _ _ _ _ _ Hr j) as (wr & jr & Hwr & (He & Hm & [id Hid] & Hl) & E1 & E2 & E3);
      [apply elem_of_app; by left|]. rewrite E1, E2, E3 in *. exists wr, id. split_and!; try done.
    by apply (db_hooks _ (ok_db _ (reachable_ok _ _ _ _ _ Hw0 Hwr)) id). }
  destruct (sent_of_process _ _ _ _ _ Hr) as [Hatt Hposts Hchain Hbound]. cbv zeta. split_and!; [|exact Hbound|].
  - intros j Hj. destruct (Hjobs j Hj) as (_ & _ & _ & _ & _ & _ & Hu & _).
    destruct (new_request_made j Hu) as [req Hreq]. eauto.
  - intros j req Hin. destruct (Hposts j req Hin) as [Hj Hfor]. split; [exact Hj|].
    destruct (Hjobs j Hj) as (wr & id & Hwr & He & Hm & Hid & Hu & Hl). apply listening_spec in Hl as (Ht & Ha & Hev).
    apply request_for_signed in Hfor as ((sig & Hsig & Hver) & Htime & Htype & Heid & Hbody).
    exists wr, (Job.event j), id, (Job.webhook j), (Job.payload j), sig. split_and!; try done.
    destruct (Hchain j req Hin) as [Hfirst|(prev & Hp & (n & code & Hans & Hcode)%redirected_status)]; [left|right].
    + apply new_request_signed in Hfirst as [? Hurl _ _ _ _ _ _]. split_and!; [done..|]. rewrite Hurl. by apply valid_web_url.
    + exists prev, n, code. split_and!; [done..|]. destruct Hcode as [[? [?|Hh]]|?]; [by left| |by right].
      destruct Hbody as [[E _]|[E _]]; rewrite E in Hh; done.
Qed.

(** C5: The tables and the cache stay sound.  In every state the program reaches from a
    sound one, by any interleaving of requests, flushes, deliveries, sweeps and
    shutdown, and whatever fails on the way: keys, references and live codes obey the
    schema and the click counters count the click rows; every stored link has a web URL
    as target, type 301 or 302 and a positive click cap; API keys and webhooks are
    stored under their ids, hashes are unique; and every positive cache entry carries
    such a target and type. *)
Theorem reachable_sound env w0 cfg demoTenant w :
  world_ok w0 → reachable env w0 cfg demoTenant w → world_ok w.
Proof. apply reachable_ok. Qed.

(** Every redirect leads to the web.  Whatever state the program has reached, and
    even when the cache is stale, the answer to GET /:code is a 301 or 302 whose Location
    is, with its bytes beyond ASCII escaped, an http or https URL with a host, or a response of status 400 or more: no stored
    or cached value makes it redirect to another scheme, to a relative address or with
    another status. *)
Theorem redirects_to_web env w0 cfg demoTenant w c a w' :
  world_ok w0 → reachable env w0 cfg demoTenant w → Response.status gin_recovered = 500 →
  engine cfg demoTenant promhttp health fuel (Some RedirectRoute) c w = (Ok a, w') →
  let resp := Answer.response a in
  (∃ id target, web_url target ∧ (Response.status resp = 301 ∨ Response.status resp = 302)
     ∧ Response.headers resp = [("X-Request-ID", id); ("Location", hexEscapeNonASCII target)])
  ∨ 400 <= Response.status resp.
Proof.
  intros Hw0 Hr Hg. pose proof (reachable_ok _ _ _ _ _ Hw0 Hr) as Hw.
  intros [n [(a' & w2 & E & ->)| ->]]%observed_Ok; simpl; [|right; lia].
  apply redirect_answer in E as [(t & Ht & Hs & ->)|(s & c' & m & -> & Hs)]; [left; eauto|by right|].
  by apply world_ok_step.
Qed.

(** C12: What the process holds is bounded and accounted for.  In every state the program
    reaches: the click channel and the batches respect the configured sizes, which
    [Load] made positive; a run of the program that led there accepted, batch by batch
    wrote, and lost clicks so that the clicks accepted, enriched, are exactly those in the
    channel, those in batches, those written and those of the batches whose write
    returned an error, and the counters of accepted and flushed clicks agree; the webhook
    channels respect the queue size; and no delivery was attempted beyond the configured
    retries. *)
Theorem process_bounded env w0 cfg demoTenant w :
  world_ok w0 → reachable env w0 cfg demoTenant w →
  bounded (pipeline cfg) (w_pipe w)
  ∧ (∃ w1 acts, boot cfg w0 = (Ok demoTenant, w1) ∧ traced cfg demoTenant promhttp fuel w1 acts w
       ∧ enriched cfg (accepted acts)
         ≡ₚ enriched cfg (Pipeline.input (w_pipe w)) ++ batches (Pipeline.workers (w_pipe w))
            ++ written acts ++ lost acts
       ∧ Pipeline.enqueued (w_pipe w) = Z.of_nat (length (accepted acts))
       ∧ Pipeline.flushed (w_pipe w) = Z.of_nat (length (written acts)))
  ∧ within_queues (Config.Webhook cfg) (w_disp w)
  ∧ (∀ j, j ∈ Dispatcher.posts (w_disp w) → 0 <= Job.attempt j <= WebhookConfig.MaxRetries (Config.Webhook cfg)).
Proof.
  intros Hw0 (Hload & w1 & Hb & Hr). apply Load_valid in Hload as [].
  pose proof Hb as (Hp & Hd & Hq)%boot_Ok.
  destruct (process_views cfg demoTenant promhttp fuel Hprom w1 w Hr) as [_ [evs He]].
  destruct (process_traced cfg demoTenant promhttp fuel Hprom w1 w Hr) as [acts Ht].
  pose proof (traced_run _ _ _ _ _ _ _ Ht) as Ha. split_and!.
  - eapply run_bounded; [apply pipeline_laws|simpl; lia|exact Hp|exact Ha].
  - destruct (run_conserves _ (pipeline_laws cfg) _ _ _ Ha) as (_ & Hen & Hf). rewrite Hp in Hen, Hf.
    exists w1, acts. split_and!; [done|done| |by rewrite Hen|by rewrite Hf].
    by apply (conserves_new _ (pipeline_laws cfg) w1).
  - by eapply queues_bounded.
  - intros j Hj. assert (HI0 : accounted (Config.Webhook cfg) (w_disp w1)) by (rewrite Hd; apply accounted_new).
    destruct (accounted_reachable _ _ _ _ HI0 He) as [Hatt _].
    specialize (Hatt j ltac:(apply elem_of_app; by left)). lia.
Qed.

(** [Load] takes a number of webhook workers below one: the program then registers
    webhooks, queues their events, and makes no request, ever. *)
Lemma no_workers_no_posts env w0 cfg demoTenant w :
  reachable env w0 cfg demoTenant w → WebhookConfig.Workers (Config.Webhook cfg) < 1 →
  Dispatcher.posts (w_disp w) = [].
Proof.
  intros (_ & w1 & (_ & Hd & _)%boot_Ok & Hr) Hw.
  destruct (process_views cfg demoTenant promhttp fuel Hprom w1 w Hr) as [_ [evs He]].
  assert (Hi : Dispatcher.senders (w_disp w1) = [] ∧ Dispatcher.posts (w_disp w1) = []).
  { rewrite Hd. split; [|done]. simpl. by rewrite Z2Nat.nonpos by lia. }
  clear Hd Hr. induction He as [|? ? ? ? ? Hs _ IH|? ? ? ? E _ _ IH]; [apply Hi|eauto using idle_step|].
  apply IH. by rewrite E.
Qed.
End program.
