(* ===== verification/Lifecycle.v ===== *)
(** How the process ends (cmd/server/main.go, [run] and [main]): it serves until the listener fails
    or a signal arrives, stops the HTTP server, drains the pipeline and then the
    dispatcher, each within what is left of one deadline.

    A state is the point [run] has reached, whether a deadline has passed on the way, and
    the world.  While [run] waits, the goroutines go on. *)
From stdpp Require Import prelude gmap strings list relations.
From S2P Require Import Prelude GoStd Domain Wire Enrich World LinkService Auth WebhookRepo ClickRepo Ingest Delivery Config.
From S2P Require Import Http Observe Handlers Server Janitor Invariant System.

Local Open Scope Z_scope.

(** Where [run] is: in the select on the listener's error and the signal, in
    srv.Shutdown, in pipeline.Shutdown, in dispatcher.Shutdown, or back with an error. *)
Inductive stage := Serving | Stopping | DrainingClicks | DrainingHooks | Returned (err : option error).

Module Proc.
Record t := Mk { at_ : stage; late : bool; world : World }.
End Proc.

(** The quit channels. *)
Definition quits (w : World) : bool * bool := (Pipeline.quit (w_pipe w), Dispatcher.quit (w_disp w)).

Section lifecycle.
Context `{O : Oracle} `{Codec} `{Binding} `{Collation} `{Gin}.
Context (cfg : Config.t) (demoTenant : option Tenant.t) (promhttp : M Response.t) (fuel : nat).

Abbreviation sstep := (sstep cfg demoTenant promhttp fuel).

(** The goroutines that outlive the HTTP server. *)
Inductive background : World → World → Prop :=
  | b_touch id w : background w (AuthService.touch id w).2
  | b_pipeline a w w' : step (pipeline cfg) w a w' → background w w'
  | b_dispatcher evs w w' : dstep (Config.Webhook cfg) w evs w' → background w w'
  | b_sweep t w : demoTenant = Some t → background w (LinkJanitor.sweep (janitor cfg t) w).2
  | b_sample w : background w (sampleQueueDepth w).2.

(** Requests are served until srv.Shutdown returns. *)
Definition goes_on (s : stage) (w w' : World) : Prop :=
  match s with
  | Serving | Stopping => sstep w w'
  | DrainingClicks | DrainingHooks => background w w'
  | Returned _ => False
  end ∧ quits w' = quits w.

(** [srv.Shutdown] waits for the handlers, so that no producer is left between its two
    selects; the two drains wait for their goroutines. *)
Inductive lstep : Proc.t → Proc.t → Prop :=
  | l_goes_on s late w w' : goes_on s w w' → lstep (Proc.Mk s late w) (Proc.Mk s late w')
  | l_listener late w e : lstep (Proc.Mk Serving late w) (Proc.Mk (Returned (Some e)) late w)
  | l_signal late w : lstep (Proc.Mk Serving late w) (Proc.Mk Stopping late w)
  | l_http_stopped late w :
      Pipeline.checked (w_pipe w) = [] →
      lstep (Proc.Mk Stopping late w) (Proc.Mk DrainingClicks late (shutdown w).2)
  | l_http_late late w e : lstep (Proc.Mk Stopping late w) (Proc.Mk (Returned (Some e)) true w)
  | l_clicks_drained late w :
      Forall (λ x, x.1 = Exited) (Pipeline.workers (w_pipe w)) →
      lstep (Proc.Mk DrainingClicks late w) (Proc.Mk DrainingHooks late (dispatcher_shutdown w).2)
  | l_clicks_late late w :
      lstep (Proc.Mk DrainingClicks late w) (Proc.Mk DrainingHooks true (dispatcher_shutdown w).2)
  | l_hooks_drained late w :
      Dispatcher.resolver (w_disp w) = Exited → Forall (λ ph, ph = Exited) (Dispatcher.senders (w_disp w)) →
      lstep (Proc.Mk DrainingHooks late w) (Proc.Mk (Returned None) late w)
  | l_hooks_late late w : lstep (Proc.Mk DrainingHooks late w) (Proc.Mk (Returned None) true w).

(** [run] once the goroutines are started. *)
Definition started (w : World) : Proc.t := Proc.Mk Serving false w.

Lemma background_sstep w w' : background w w' → sstep w w'.
Proof. destruct 1; by econstructor. Qed.

Lemma goes_on_sstep s w w' : goes_on s w w' → sstep w w'.
Proof. intros [Hs _]. destruct s; try done; by apply background_sstep. Qed.

(** To the world every step is one of the process, or none. *)
Lemma lstep_world p p' : lstep p p' → rtc sstep (Proc.world p) (Proc.world p').
Proof.
  destruct 1; simpl; try done.
  - apply rtc_once. by eapply goes_on_sstep.
  - apply rtc_once. eapply s_pipeline, step_shutdown.
  - apply rtc_once. eapply s_dispatcher, dstep_shutdown.
  - apply rtc_once. eapply s_dispatcher, dstep_shutdown.
Qed.

Lemma lrun_world p p' : rtc lstep p p' → rtc sstep (Proc.world p) (Proc.world p').
Proof. induction 1; [done|]. etrans; [by eapply lstep_world|done]. Qed.
End lifecycle.

(** * What holds at each point *)

Section invariant.
Context `{O : Oracle} `{Codec} `{Binding} `{Collation} `{Gin}.
Context (cfg : Config.t) (demoTenant : option Tenant.t) (promhttp : M Response.t) (fuel : nat).
Context (Hprom : reads promhttp).

Abbreviation sstep := (System.sstep cfg demoTenant promhttp fuel).
Abbreviation lstep := (lstep cfg demoTenant promhttp fuel).
Abbreviation wcfg := (Config.Webhook cfg).

(** A property of the pipeline alone that its steps keep, and one of the dispatcher. *)
Lemma sstep_pipe_inv (I : Pipeline.t → Prop) :
  (∀ w a w', step (pipeline cfg) w a w' → I (w_pipe w) → I (w_pipe w')) →
  ∀ w w', sstep w w' → I (w_pipe w) → I (w_pipe w').
Proof.
  intros Hstep w w' Hs. destruct (sstep_pipe_view cfg demoTenant promhttp fuel Hprom w w w' Hs) as [acts Hr].
  { exists []. apply run_nil. }
  by apply (run_invariant (pipeline cfg) I w acts w' Hstep).
Qed.

Lemma sstep_disp_inv (I : Dispatcher.t → Prop) :
  (∀ w evs w', dstep wcfg w evs w' → I (w_disp w) → I (w_disp w')) →
  ∀ w w', sstep w w' → I (w_disp w) → I (w_disp w').
Proof.
  intros Hstep w w' Hs Hw. destruct (sstep_follows cfg demoTenant promhttp fuel Hprom (λ w, I (w_disp w)))
    with (w := w) (w' := w') as [[evs Hd]|Hk]; [| |done| |by apply Hk].
  - intros w2 w3 Hw2 -> _. exact Hw2.
  - intros ev w2 Hw2. eapply Hstep; [apply dstep_dispatch|exact Hw2].
  - by eapply Hstep.
Qed.

(** Workers that have all returned stay so once nothing can enter the channel. *)
Lemma exited_step w a w' :
  step (pipeline cfg) w a w' →
  closed (w_pipe w) ∧ Forall (λ x, x.1 = Exited) (Pipeline.workers (w_pipe w)) →
  closed (w_pipe w') ∧ Forall (λ x, x.1 = Exited) (Pipeline.workers (w_pipe w')).
Proof.
  intros Hs [Hc Hall]. pose proof (pipeline_laws cfg) as L.
  split; [by eapply (closed_step (pipeline cfg) L)|].
  assert (Hno : ∀ i ph b, Pipeline.workers (w_pipe w) !! i = Some (ph, b) → ph = Exited).
  { intros i ph b Hi. exact (Forall_lookup_1 _ _ _ _ Hall Hi). }
  destruct Hc as (Hq & Hch & _).
  apply (step_shape (pipeline cfg) L) in Hs as [(? & _)|[(k & e & n & d & Hk & _)|
    [(i & ph & b & e & q & b' & n & Hw & Hph & _)|[(i & b & n & Hw & _)|
    [(i & b & Hw & _)|[(i & b & n & Hw & _)| ->]]]]]];
    [congruence|by rewrite Hch in Hk|by apply Hno in Hw..|done].
Qed.

(** The state of the goroutines when [run] is at [s]. *)
Definition stage_ok (p : Proc.t) : Prop :=
  let w := Proc.world p in
  orderly (w_pipe w) ∧
  match Proc.at_ p with
  | Serving | Stopping | Returned (Some _) => quits w = (false, false) ∧ goroutines_run (w_disp w)
  | DrainingClicks => quits w = (true, false) ∧ goroutines_run (w_disp w) ∧ closed (w_pipe w)
  | DrainingHooks =>
      dispatch_closed (w_disp w) ∧ closed (w_pipe w)
      ∧ (Proc.late p = false → Forall (λ x, x.1 = Exited) (Pipeline.workers (w_pipe w)))
  | Returned None =>
      dispatch_closed (w_disp w) ∧ closed (w_pipe w)
      ∧ (Proc.late p = false → Forall (λ x, x.1 = Exited) (Pipeline.workers (w_pipe w))
         ∧ Dispatcher.resolver (w_disp w) = Exited ∧ Forall (λ ph, ph = Exited) (Dispatcher.senders (w_disp w)))
  end.

Lemma orderly_closes p : orderly p → Pipeline.quit p = false → Pipeline.checked p = [] → closed (close_quit p).
Proof.
  intros [Hr _] Hq Hch. split_and!; [done..|]. right. eapply Forall_impl; [exact (Hr Hq)|]. by intros x ->.
Qed.

Lemma stage_step p p' : lstep p p' → stage_ok p → stage_ok p'.
Proof.
  pose proof (pipeline_laws cfg) as L.
  assert (Hkeep : ∀ s w w', goes_on cfg demoTenant promhttp fuel s w w' →
    (orderly (w_pipe w) → orderly (w_pipe w')) ∧ (closed (w_pipe w) → closed (w_pipe w'))
    ∧ (goroutines_run (w_disp w) → goroutines_run (w_disp w')) ∧ (dispatch_closed (w_disp w) → dispatch_closed (w_disp w'))
    ∧ (closed (w_pipe w) ∧ Forall (λ x, x.1 = Exited) (Pipeline.workers (w_pipe w)) →
       closed (w_pipe w') ∧ Forall (λ x, x.1 = Exited) (Pipeline.workers (w_pipe w')))).
  { intros s w w' Hs%goes_on_sstep. split_and!.
    - apply (sstep_pipe_inv orderly); [by apply orderly_step|done].
    - apply (sstep_pipe_inv closed); [by apply closed_step|done].
    - apply (sstep_disp_inv goroutines_run); [apply phases_step|done].
    - apply (sstep_disp_inv dispatch_closed); [apply closed_dispatch_step|done].
    - apply (sstep_pipe_inv (λ p, closed p ∧ Forall (λ x, x.1 = Exited) (Pipeline.workers p))); [|done].
      apply exited_step. }
  destruct 1 as [s late w w' Hs|late w e|late w|late w Hch|late w e|late w Hex|late w|late w Hr Hex|late w];
    unfold stage_ok; simpl; intros [Ho Hw].
  - destruct (Hkeep _ _ _ Hs) as (Ho' & Hc & Hg & Hd & Hex). pose proof (proj2 Hs) as Hq.
    split; [auto|]. destruct s; [destruct Hw; split; [congruence|auto]..| | |by destruct Hs].
    + destruct Hw as (? & ? & ?). split_and!; [congruence|auto..].
    + destruct Hw as (? & ? & Hl). split_and!; [auto..|]. intros ?. apply Hex. auto.
  - done.
  - done.
  - destruct Hw as [[= Hp Hd] Hg]. split; [by destruct Ho|]. split_and!; [|done|].
    + unfold quits. simpl. by rewrite Hd.
    + by apply orderly_closes.
  - done.
  - destruct Hw as ([= Hp Hd] & Hg & Hc). split; [done|]. split_and!; [by apply close_closes|done|done].
  - destruct Hw as ([= Hp Hd] & Hg & Hc). split; [done|]. split_and!; [by apply close_closes|done|done].
  - destruct Hw as (? & ? & Hl). split_and!; auto.
  - destruct Hw as (? & ? & Hl). split_and!; done.
Qed.

Lemma started_ok w0 w : boot cfg w0 = (Ok demoTenant, w) → stage_ok (started w).
Proof.
  intros (Hp & Hd & _)%boot_Ok. unfold stage_ok, started, quits. simpl. rewrite Hp, Hd. split.
  - split; [intros _|]; by apply Forall_replicate.
  - split; [done|]. intros _. split; [done|]. by apply Forall_replicate.
Qed.

Lemma lrun_ok w0 w p : boot cfg w0 = (Ok demoTenant, w) → rtc lstep (started w) p → stage_ok p.
Proof.
  intros Hb Hr. apply (rtc_ind_r (R:=lstep) stage_ok (started w)); [by eapply started_ok| |done].
  eauto using stage_step.
Qed.
End invariant.

(** * How it ends *)

Section exits.
Context `{O : Oracle} `{Codec} `{Binding} `{Collation} `{Gin} `{Quoter}.
Context (cfg : Config.t) (demoTenant : option Tenant.t) (promhttp : M Response.t) (fuel : nat).
Context (Hprom : reads promhttp).

Abbreviation sstep := (System.sstep cfg demoTenant promhttp fuel).
Abbreviation lstep := (Lifecycle.lstep cfg demoTenant promhttp fuel).
Abbreviation wcfg := (Config.Webhook cfg).

(** A property of the pipeline or of the dispatcher, after any part of a run. *)
Lemma lrun_pipe (I : Pipeline.t → Prop) p p' :
  (∀ w a w', step (pipeline cfg) w a w' → I (w_pipe w) → I (w_pipe w')) →
  rtc lstep p p' → I (w_pipe (Proc.world p)) → I (w_pipe (Proc.world p')).
Proof.
  intros Hstep Hr%lrun_world. induction Hr as [|x y z Hs _ IH]; [done|]. intros Hx.
  apply IH. by apply (sstep_pipe_inv cfg demoTenant promhttp fuel Hprom I Hstep x).
Qed.

Lemma lrun_disp (I : Dispatcher.t → Prop) p p' :
  (∀ w evs w', dstep wcfg w evs w' → I (w_disp w) → I (w_disp w')) →
  rtc lstep p p' → I (w_disp (Proc.world p)) → I (w_disp (Proc.world p')).
Proof.
  intros Hstep Hr%lrun_world. induction Hr as [|x y z Hs _ IH]; [done|]. intros Hx.
  apply IH. by apply (sstep_disp_inv cfg demoTenant promhttp fuel Hprom I Hstep x).
Qed.

(** Without a missed deadline, a run past the drain of the clicks went through the end
    of that drain, and has posted nothing but the jobs queued then. *)
Lemma hooks_closed_at w1 p :
  rtc lstep (started w1) p → Proc.late p = false →
  (Proc.at_ p = DrainingHooks ∨ Proc.at_ p = Returned None) →
  ∃ wc, rtc lstep (started w1) (Proc.Mk DrainingClicks false wc)
    ∧ Forall (λ x, x.1 = Exited) (Pipeline.workers (w_pipe wc))
    ∧ Dispatcher.quit (w_disp (Proc.world p)) = true
    ∧ Dispatcher.posts (w_disp (Proc.world p)) ++ Dispatcher.jobs (w_disp (Proc.world p))
      = Dispatcher.posts (w_disp wc) ++ Dispatcher.jobs (w_disp wc).
Proof.
  revert p. apply (rtc_ind_r (R:=lstep) (λ p, Proc.late p = false → _ → ∃ wc, _) (started w1)).
  { intros _ [Hs|Hs]; discriminate Hs. }
  intros p p' Hr Hs IH.
  destruct Hs as [s late w w' Hs|late w e|late w|late w Hch|late w e|late w Hex|late w|late w Hres Hex|late w];
    simpl in *; intros Hl Hat; try (destruct Hat; discriminate); try discriminate.
  - destruct (IH Hl Hat) as (wc & Hwc & Hall & Hq & E). exists wc.
    pose proof (sstep_disp_inv cfg demoTenant promhttp fuel Hprom (λ d, Dispatcher.quit d = true
      ∧ Dispatcher.posts d ++ Dispatcher.jobs d = Dispatcher.posts (w_disp wc) ++ Dispatcher.jobs (w_disp wc))) as Hk.
    edestruct Hk as [? ?]; [|by eapply goes_on_sstep|by split|by split_and!].
    intros w2 evs w3 H23 [Hq2 E2]. destruct (step_after_quit _ _ _ _ H23 Hq2) as (? & _ & E3). by rewrite E3.
  - exists w. subst late. split_and!; done.
  - apply IH; auto.
Qed.


(** ** The way out *)

Lemma pipe_step_quits w a w' b :
  step (pipeline cfg) w a w' → Dispatcher.quit (w_disp w) = b → Dispatcher.quit (w_disp w') = b.
Proof.
  apply (pipeline_step_follows cfg (λ w, Dispatcher.quit (w_disp w) = b)).
  - intros w2 w3 Hw2 -> _. done.
  - intros ev w2 Hw2. destruct (Dispatch_disp wcfg ev w2) as [->|(_ & [->|[ev' ->]])]; exact Hw2.
Qed.

(** The producers between the two selects can finish. *)
Lemma senders_finish late w :
  quits w = (false, false) →
  ∃ w', rtc lstep (Proc.Mk Stopping late w) (Proc.Mk Stopping late w')
    ∧ quits w' = (false, false) ∧ Pipeline.checked (w_pipe w') = [].
Proof.
  remember (length (Pipeline.checked (w_pipe w))) as n eqn:Hn. revert w Hn. induction n as [|n IH]; intros w Hn Hq.
  { exists w. split_and!; [done|done|]. by destruct (Pipeline.checked (w_pipe w)). }
  destruct (Pipeline.checked (w_pipe w)) as [|e l] eqn:El; [done|].
  set (w2 := (Enqueue_send (pipeline cfg) e (upd_pipe (upd_checked (delete 0%nat)) w)).2).
  pose proof (step_send (pipeline cfg) 0 e w ltac:(by rewrite El)) as Hs.
  assert (Hq2 : quits w2 = (false, false) ∧ Pipeline.checked (w_pipe w2) = l).
  { injection Hq as Hqp Hqd. pose proof (pipe_step_quits _ _ _ false Hs Hqd) as Hqd'.
    pose proof (Enqueue_send_spec (pipeline cfg) (pipeline_laws cfg) e (upd_pipe (upd_checked (delete 0%nat)) w)) as Hsp.
    simpl in Hsp. unfold quits. fold w2 in Hsp, Hqd'. rewrite Hqd'.
    destruct (_ <? _); destruct Hsp as [_ ->]; simpl; by rewrite Hqp, El. }
  destruct Hq2 as [Hq2 Hl]. destruct (IH w2) as (w' & Hr & ? & ?); [by rewrite Hl; injection Hn|done|].
  exists w'. split_and!; [|done..]. eapply rtc_l; [|exact Hr]. apply l_goes_on. split; [by eapply s_pipeline|].
  by rewrite Hq2, Hq.
Qed.

(** The workers can return, and so can the goroutines of the dispatcher. *)
Lemma workers_return late w :
  quits w = (true, false) →
  ∃ w', rtc lstep (Proc.Mk DrainingClicks late w) (Proc.Mk DrainingClicks late w')
    ∧ quits w' = (true, false) ∧ Forall (λ x, x.1 = Exited) (Pipeline.workers (w_pipe w')).
Proof.
  remember (remaining (w_pipe w)) as n eqn:Hn. revert w Hn.
  induction n as [n IH] using (well_founded_induction lt_wf). intros w -> Hq.
  destruct (decide (Forall (λ x, x.1 = Exited) (Pipeline.workers (w_pipe w)))) as [Hall|Hnot].
  { by exists w. }
  apply not_Forall_Exists in Hnot; [|intros ?; apply _].
  apply Exists_exists in Hnot as ([ph b] & [i Hi]%list_elem_of_lookup & Hph).
  injection Hq as Hqp Hqd.
  destruct (worker_progress _ (pipeline_laws cfg) w i ph b Hqp Hi Hph) as (a & w2 & Hs & Hlt & Hq2 & _).
  assert (Hqs : quits w2 = (true, false)) by (unfold quits; by rewrite Hq2, (pipe_step_quits _ _ _ false Hs Hqd)).
  destruct (IH _ Hlt w2 eq_refl Hqs) as (w' & Hr & ? & ?). exists w'. split_and!; [|done..].
  eapply rtc_l; [|exact Hr]. apply l_goes_on. split; [by eapply b_pipeline|]. rewrite Hqs. unfold quits. by rewrite Hqp, Hqd.
Qed.

Lemma goroutines_return late w :
  Dispatcher.quit (w_disp w) = true →
  ∃ w', rtc lstep (Proc.Mk DrainingHooks late w) (Proc.Mk DrainingHooks late w')
    ∧ Dispatcher.resolver (w_disp w') = Exited ∧ Forall (λ ph, ph = Exited) (Dispatcher.senders (w_disp w')).
Proof.
  remember (disp_work (w_disp w)) as n eqn:Hn. revert w Hn.
  induction n as [n IH] using (well_founded_induction lt_wf). intros w -> Hq.
  destruct (decide (Dispatcher.resolver (w_disp w) = Exited ∧ Forall (λ ph, ph = Exited) (Dispatcher.senders (w_disp w))))
    as [Hall|Hnot]; [by exists w|].
  destruct (goroutine_progress wcfg w Hq) as (evs & w2 & Hs & Hlt & Hq2).
  { destruct (decide (Dispatcher.resolver (w_disp w) = Exited)) as [E|]; [right|by left].
    apply not_Forall_Exists; [intros ?; apply _|]. intros Hf. by apply Hnot. }
  destruct (IH _ Hlt w2 eq_refl Hq2) as (w' & Hr & ?). exists w'. split; [|done].
  eapply rtc_l; [|exact Hr]. apply l_goes_on. split; [by eapply b_dispatcher|]. unfold quits.
  by rewrite Hq2, Hq, (dispatcher_step_pipe cfg _ _ _ Hs).
Qed.

(** C31: The process can always exit, and in time.  From every state of a run that has not
    returned, whatever is buffered, queued or in flight, there is a way to return without
    an error on which no further deadline passes: no stage of the shutdown waits for
    something that cannot happen. *)
Theorem exit_always_possible w0 w1 p :
  boot cfg w0 = (Ok demoTenant, w1) → rtc lstep (started w1) p →
  (∀ r, Proc.at_ p ≠ Returned r) →
  ∃ w, rtc lstep p (Proc.Mk (Returned None) (Proc.late p) w).
Proof.
  intros Hb Hr Hlive. destruct (lrun_ok _ _ _ _ Hprom _ _ _ Hb Hr) as [_ Hok].
  assert (Hhooks : ∀ late w, Dispatcher.quit (w_disp w) = true →
    ∃ w', rtc lstep (Proc.Mk DrainingHooks late w) (Proc.Mk (Returned None) late w')).
  { intros late w Hq. destruct (goroutines_return late w Hq) as (w' & Hr' & ? & ?). exists w'.
    eapply rtc_r; [exact Hr'|]. by apply l_hooks_drained. }
  assert (Hclicks : ∀ late w, quits w = (true, false) →
    ∃ w', rtc lstep (Proc.Mk DrainingClicks late w) (Proc.Mk (Returned None) late w')).
  { intros late w Hq. destruct (workers_return late w Hq) as (w2 & Hr2 & _ & ?).
    destruct (Hhooks late (dispatcher_shutdown w2).2 eq_refl) as [w' Hr']. exists w'.
    etrans; [exact Hr2|]. eapply rtc_l; [|exact Hr']. by apply l_clicks_drained. }
  assert (Hstop : ∀ late w, quits w = (false, false) →
    ∃ w', rtc lstep (Proc.Mk Stopping late w) (Proc.Mk (Returned None) late w')).
  { intros late w Hq. destruct (senders_finish late w Hq) as (w2 & Hr2 & Hq2 & Hch).
    destruct (Hclicks late (shutdown w2).2) as [w' Hr'].
    { injection Hq2 as _ Hd. unfold quits. simpl. by rewrite Hd. }
    exists w'. etrans; [exact Hr2|]. eapply rtc_l; [|exact Hr']. by apply l_http_stopped. }
  destruct p as [s late w]. simpl in *. destruct s as [| | | |r]; [| | | |by destruct (Hlive r)].
  - destruct (Hstop late w (proj1 Hok)) as [w' Hr']. exists w'. eapply rtc_l; [apply l_signal|exact Hr'].
  - apply Hstop, Hok.
  - apply Hclicks, Hok.
  - apply Hhooks. by destruct Hok as [[] _].
Qed.

(** An exit with an error abandons what is buffered.  When the listener fails, or
    srv.Shutdown misses its deadline, [run] returns before either drain: neither the
    pipeline nor the dispatcher was ever told to stop, every worker, the resolver and
    every sender are still running, and the clicks in the channel and in the batches, the
    events and the jobs are as they were, gone with the process. *)
Theorem failed_exit_abandons w0 w1 e late w :
  boot cfg w0 = (Ok demoTenant, w1) → rtc lstep (started w1) (Proc.Mk (Returned (Some e)) late w) →
  quits w = (false, false)
  ∧ Forall (λ x, x.1 = Running) (Pipeline.workers (w_pipe w))
  ∧ Dispatcher.resolver (w_disp w) = Running ∧ Forall (λ ph, ph = Running) (Dispatcher.senders (w_disp w))
  ∧ ∃ s late', (s = Serving ∨ s = Stopping) ∧ rtc lstep (started w1) (Proc.Mk s late' w).
Proof.
  intros Hb Hr. destruct (lrun_ok _ _ _ _ Hprom _ _ _ Hb Hr) as ([Ho _] & Hq & Hg). simpl in *.
  injection Hq as Hqp Hqd. destruct (Hg Hqd) as [Hres Hsend].
  split_and!; [unfold quits; by rewrite Hqp, Hqd|auto|done|done|].
  apply rtc_inv_r in Hr as [[=]|(p & Hr & Hs)]. inversion Hs; subst; eauto.
  match goal with Hg : goes_on _ _ _ _ (Returned _) _ _ |- _ => by destruct Hg end.
Qed.
End exits.

(** * The program *)

Section program.
Context `{O : Oracle} `{Codec} `{!CodecLaws} `{Binding} `{Collation} `{Gin} `{Quoter}.
Context (promhttp : M Response.t) (Hprom : reads promhttp) (fuel : nat).

(** [run], from the environment on: it returns when the configuration or a stage of the
    start fails, and otherwise starts the goroutines. *)
Inductive process (env : environment) (w0 : World) : Proc.t → Prop :=
  | p_unconfigured err : Load env = inr err → process env w0 (Proc.Mk (Returned (Some err)) false w0)
  | p_unstarted cfg err w1 :
      Load env = inl cfg → boot cfg w0 = (Err err, w1) → process env w0 (Proc.Mk (Returned (Some err)) false w1)
  | p_started cfg demoTenant w1 p :
      Load env = inl cfg → boot cfg w0 = (Ok demoTenant, w1) →
      rtc (lstep cfg demoTenant promhttp fuel) (started w1) p → process env w0 p.

(** [main]: the exit status. *)
Definition exit_code (s : stage) : option Z :=
  match s with Returned None => Some 0 | Returned (Some _) => Some 1 | _ => None end.

(** The status tells what happened to what was buffered: with 0 the pipeline and the
    dispatcher were both told to drain; with 1 neither was, because the program had not
    started, or because it did not come that far. *)
Lemma exit_code_tells env w0 p c :
  process env w0 p → exit_code (Proc.at_ p) = Some c →
  c = 0 ∧ quits (Proc.world p) = (true, true)
  ∨ c = 1 ∧ ((∃ err, Load env = inr err ∧ Proc.world p = w0)
             ∨ (∃ cfg err, Load env = inl cfg ∧ boot cfg w0 = (Err err, Proc.world p))
             ∨ quits (Proc.world p) = (false, false)).
Proof.
  destruct 1 as [err Hl|cfg err w1 Hl Hb|cfg demoTenant w1 p Hl Hb Hr]; simpl.
  - intros [= <-]. right. split; [done|]. left. by exists err.
  - intros [= <-]. right. split; [done|]. right. left. by exists cfg, err.
  - destruct (lrun_ok _ _ _ _ Hprom _ _ _ Hb Hr) as [_ Hok].
    destruct (Proc.at_ p) as [| | | |[err|]]; simpl; intros [= <-].
    + right. destruct Hok. auto.
    + left. destruct Hok as ([Hd _] & [Hp _] & _). unfold quits. by rewrite Hd, Hp.
Qed.

(** What [run] has done to the tables is what the start and the steps of the process do. *)
Lemma process_sound env w0 p : world_ok w0 → process env w0 p → world_ok (Proc.world p).
Proof.
  intros Hw0. destruct 1 as [err Hl|cfg err w1 Hl Hb|cfg demoTenant w1 p Hl Hb Hr]; simpl; [done| |].
  - pose proof (boot_ok cfg w0 Hw0) as Hw1. by rewrite Hb in Hw1.
  - eapply (reachable_ok promhttp Hprom fuel); [exact Hw0|]. split; [exact Hl|]. exists w1.
    split; [exact Hb|]. exact (lrun_world _ _ _ _ _ _ Hr).
Qed.
End program.
