(* ===== verification/Programs.v ===== *)
(** Requests as programs of calls.  A computation of World.v runs from its start to its
    end; a program stops before each call, one statement, one Redis command, one reading
    of the clock, one select on a channel, so that other requests and the goroutines may
    run there.  Each operation a request goes through is written again as a program, in
    the code's own shape, with its calls marked; run without interruption, the program is
    the computation of the other files ([request_alone]). *)
From stdpp Require Import prelude gmap strings list.
From S2P Require Import Prelude GoStd Rfc3339 Json NetUrl Domain Wire Enrich World Schema LinkRepo LinkCache Shortcode LinkService.
From S2P Require Import Counters Redirect KeyRepo Auth WebhookRepo WebhookService ClickRepo Stats RateLimit.
From S2P Require Import Ingest Delivery Notifier Config Http Observe Handlers Server System.

Local Open Scope Z_scope.

(** * Programs *)

Inductive Prog (A : Type) : Type :=
  | Done (r : res A)
  | Call {X : Type} (m : M X) (k : res X → Prog A).
Arguments Done {A} r.
Arguments Call {A X} m k.

#[export] Instance Prog_ret : MRet Prog := λ A a, Done (Ok a).

Fixpoint prog_bind {A B} (f : A → Prog B) (p : Prog A) : Prog B :=
  match p with
  | Done (Ok a) => f a
  | Done (Err e) => Done (Err e)
  | Done (Panic s) => Done (Panic s)
  | Call m k => Call m (λ r, prog_bind f (k r))
  end.

#[export] Instance Prog_bind : MBind Prog := @prog_bind.

(** One call. *)
Definition invoke {A} (m : M A) : Prog A := Call m Done.

Definition throw {A} (e : error) : Prog A := Done (Err e).

(** The outcome of a program, changed by [f]. *)
Fixpoint caught {A B} (f : res A → res B) (p : Prog A) : Prog B :=
  match p with
  | Done r => Done (f r)
  | Call m k => Call m (λ r, caught f (k r))
  end.

(** [if err != nil] on a program, and a panic recovered from. *)
Definition outcome {A} (r : res A) : res (A + error) :=
  match r with Ok a => Ok (inl a) | Err e => Ok (inr e) | Panic s => Panic s end.

Definition tries {A} : Prog A → Prog (A + error) := caught outcome.

Definition recovers {A} (a : A) : Prog A → Prog A := caught (λ r, match r with Panic _ => Ok a | r => r end).

(** The program run without interruption. *)
Fixpoint perform {A} (p : Prog A) : M A := λ w,
  match p with
  | Done r => (r, w)
  | Call m k => let '(r, w') := m w in perform (k r) w'
  end.

(** Its next call. *)
Definition advance {A} (p : Prog A) (w : World) : option (Prog A * World) :=
  match p with
  | Done _ => None
  | Call m k => Some (let '(r, w') := m w in (k r, w'))
  end.

(** ** Computations that are equal at every world *)

Definition meq {A} (m m' : M A) : Prop := ∀ w, m w = m' w.

#[export] Instance meq_equiv {A} : Equivalence (@meq A).
Proof. split; [by intros m w|by intros m m' E w|intros m1 m2 m3 E E' w; by rewrite E]. Qed.

#[export] Instance bind_meq {A B} : Proper (pointwise_relation A meq ==> meq ==> meq) (@mbind M _ A B).
Proof.
  intros k k' Hk m m' Hm w. unfold mbind, M_bind. rewrite Hm. destruct (m' w) as [[a|e|s] w']; [apply Hk|done..].
Qed.

#[export] Instance attempt_meq {A} : Proper (meq ==> meq) (@attempt A).
Proof. intros m m' Hm w. unfold attempt. by rewrite Hm. Qed.

(** The program does what the computation does. *)
Definition runs {A} (p : Prog A) (m : M A) : Prop := meq (perform p) m.

Lemma perform_bind {A B} (p : Prog A) (f : A → Prog B) : meq (perform (p ≫= f)) (perform p ≫= λ a, perform (f a)).
Proof.
  induction p as [[a|e|s]|X m k IH]; [done..|]. intros w. unfold mbind, M_bind. cbn [perform mbind Prog_bind prog_bind].
  destruct (m w) as [r w']. apply (IH r w').
Qed.

Lemma perform_caught {A B} (f : res A → res B) p w :
  perform (caught f p) w = (f (perform p w).1, (perform p w).2).
Proof.
  revert w. induction p as [r|X m k IH]; intros w; [done|]. cbn [perform caught]. destruct (m w) as [r w']. apply IH.
Qed.

Create HintDb runs.

Lemma runs_ret {A} (a : A) : runs (mret a) (mret a).
Proof. by intros w. Qed.
Lemma runs_throw {A} e : runs (@throw A e) (fail e).
Proof. by intros w. Qed.
Lemma runs_call {A} (m : M A) : runs (invoke m) m.
Proof. intros w. cbn [perform invoke]. by destruct (m w). Qed.
Lemma runs_bind {A B} (p : Prog A) (f : A → Prog B) m k :
  runs p m → (∀ a, runs (f a) (k a)) → runs (p ≫= f) (m ≫= k).
Proof. intros Hp Hf. unfold runs in *. rewrite perform_bind, Hp. f_equiv. exact Hf. Qed.
Lemma runs_tries {A} (p : Prog A) m : runs p m → runs (tries p) (attempt m).
Proof.
  intros Hp w. unfold tries. rewrite perform_caught, (Hp w). unfold attempt. by destruct (m w) as [[a|e|s] w'].
Qed.
Lemma runs_meq {A} (p : Prog A) m m' : runs p m → meq m m' → runs p m'.
Proof. intros Hp E. unfold runs. by rewrite <- E. Qed.

#[export] Hint Resolve runs_ret runs_throw runs_call : runs.

(** A program in the shape of its computation. *)
Ltac runs :=
  repeat first
    [ solve [eauto 2 with runs]
    | match goal with |- ∀ _, _ => intro end
    | simple apply runs_bind
    | simple apply runs_tries
    | progress case_match ].

(** * The services *)

(** A check that needs no call. *)
Definition checked (c : option error) : Prog () := match c with Some e => throw e | None => mret () end.

Lemma runs_checked c : runs (checked c) (check c).
Proof. destruct c; [apply runs_throw|apply runs_ret]. Qed.
#[export] Hint Resolve runs_checked : runs.

Section services.
Context `{O : Oracle} `{Codec} `{Collation}.
Context (cfg : Config.t) (demoTenant : option Tenant.t) (fuel : nat).

Abbreviation links_svc := (linkService cfg demoTenant fuel).
Abbreviation redirect_svc := (redirectService cfg).

(** ** Redirects *)

Definition active_prog (link : Link.t) : Prog Link.t :=
  t ← invoke now; if negb (Link.IsActive link t) then throw (ESentinel ErrGone) else mret link.

Definition from_db_prog (code : string) : Prog Link.t :=
  r ← tries (invoke (LinkRepository.GetByCode code));
  match r with
  | inr err =>
      if Is err ErrNotFound then
        tries (invoke (LinkCache.SetNegative (RedirectService.cache redirect_svc) code));;
        throw (ESentinel ErrNotFound)
      else throw err
  | inl link =>
      tries (invoke (LinkCache.Set_ (RedirectService.cache redirect_svc) link));;
      active_prog link
  end.

Definition resolve_prog (code : string) : Prog Link.t :=
  r ← tries (invoke (LinkCache.Get code));
  match r with
  | inr _ => invoke (RedirectService.observeMiss redirect_svc);; from_db_prog code
  | inl (Some link, true) => invoke (RedirectService.observeHit redirect_svc);; active_prog link
  | inl (None, true) => invoke (RedirectService.observeHit redirect_svc);; throw (ESentinel ErrNotFound)
  | inl (_, false) => invoke (RedirectService.observeMiss redirect_svc);; from_db_prog code
  end.

(** The two selects of [Enqueue]. *)
Definition enqueue_prog (e : ClickEvent.t) : Prog bool :=
  ok ← invoke Enqueue_check;
  if ok : bool then invoke (Enqueue_send (pipeline cfg) e) else mret false.

(** ** Links *)

(** [LinkCreated] hands the event to [Dispatch]: an id, a reading of the clock, the selects. *)
Definition emit_prog (l : Link.t) : Prog () :=
  ev ← invoke (stamp_id (Notifier.created_event (notifier cfg) l));
  ev ← invoke (stamp_time ev);
  invoke (offer_event (Config.Webhook cfg) ev);;
  mret ().

Fixpoint allocate_prog (attempts : nat) (link : Link.t) : Prog Link.t :=
  match attempts with
  | 0%nat => throw (ESentinel ErrCodeExhausted)
  | S attempts =>
      c ← tries (invoke (LinkService.gen links_svc));
      match c with
      | inr err => throw (errorf "generate shortcode" err)
      | inl code =>
          r ← tries (invoke (LinkRepository.Create (LinkService.with_code code link)));
          match r with
          | inl created => mret created
          | inr err => if Is err ErrConflict then allocate_prog attempts link else throw err
          end
      end
  end.

Definition create_prog (tenantID : UUID) (inp : CreateLinkInput.t) : Prog Link.t :=
  checked (LinkService.validateURL (CreateLinkInput.TargetURL inp));;
  match LinkService.normalizeRedirectType (CreateLinkInput.RedirectType inp) with
  | inr err => throw err
  | inl redirectType =>
      invoke (LinkService.validateExpiry (CreateLinkInput.ExpiresAt inp));;
      checked (LinkService.validateMaxClicks (CreateLinkInput.MaxClicks inp));;
      expiresAt ← invoke (LinkService.clampDemoExpiry links_svc tenantID (CreateLinkInput.ExpiresAt inp));
      let link := LinkService.create_row tenantID inp redirectType expiresAt in
      link ← (if negb (String.eqb (CreateLinkInput.CustomAlias inp) "") then
                if negb (ValidAlias (CreateLinkInput.CustomAlias inp)) then
                  throw (invalid "custom alias must be 3-64 URL-safe characters and not reserved")
                else invoke (LinkRepository.Create (LinkService.with_code (CreateLinkInput.CustomAlias inp) link))
              else allocate_prog (Z.to_nat (LinkService.maxCollision links_svc)) link);
      emit_prog link;;
      mret link
  end.

Definition update_prog (tenantID id : UUID) (inp : UpdateLinkInput.t) : Prog Link.t :=
  link ← invoke (LinkRepository.GetByIDForTenant tenantID id);
  let oldCode := Link.Code link in
  link ← invoke (LinkService.patch inp link);
  e ← invoke (LinkService.clampDemoExpiry links_svc tenantID (Link.ExpiresAt link));
  link ← invoke (LinkRepository.Update (LinkService.set_expiry e link));
  invoke (LinkService.invalidate links_svc oldCode);;
  (if negb (String.eqb (Link.Code link) oldCode) then invoke (LinkService.invalidate links_svc (Link.Code link)) else mret ());;
  mret link.

Definition delete_prog (tenantID id : UUID) : Prog () :=
  link ← invoke (LinkRepository.GetByIDForTenant tenantID id);
  invoke (LinkRepository.SoftDelete tenantID id);;
  invoke (LinkService.invalidate links_svc (Link.Code link)).

(** ** Statistics, one query at a time *)

Definition stats_prog (tenantID linkID : UUID) (from to : Time) (bucket : Bucket) : Prog LinkStats.t :=
  if negb (Bucket_Valid bucket) then throw (ESentinel ErrValidation)
  else if negb (from <? to) then throw (ESentinel ErrValidation)
  else
    invoke (LinkRepository.GetByIDForTenant tenantID linkID);;
    series ← invoke (ClickRepository.SeriesForLink tenantID linkID from to bucket);
    total ← invoke (ClickRepository.TotalForLink tenantID linkID from to);
    referrers ← invoke (ClickRepository.TopReferrers tenantID linkID from to topN);
    countries ← invoke (ClickRepository.TopCountries tenantID linkID from to topN);
    devices ← invoke (ClickRepository.DeviceBreakdown tenantID linkID from to topN);
    mret {| LinkStats.LinkID := linkID;
            LinkStats.From := from;
            LinkStats.To := to;
            LinkStats.bucket := bucket;
            LinkStats.TotalClicks := total;
            LinkStats.Series := series;
            LinkStats.TopReferrers := referrers;
            LinkStats.TopCountries := countries;
            LinkStats.Devices := devices |}.

Definition overview_prog (tenantID : UUID) : Prog TenantOverview.t :=
  totals ← invoke (ClickRepository.select "query tenant totals" (λ d,
    (Z.of_nat (length (select_rows (of_tenant tenantID) (DB.links d))),
     Z.of_nat (length (filter (λ c, Click.TenantID c = tenantID) (DB.clicks d))))));
  top ← invoke (ClickRepository.select "query top links" (λ d,
    take topN (ClickRepository.label_rows (ClickRepository.joined_codes tenantID d))));
  mret (TenantOverview.Mk totals.1 totals.2 top).

(** ** Webhooks *)

Definition hook_create_prog (tenantID : UUID) (inp : CreateWebhookInput.t) : Prog Webhook.t :=
  checked (validateWebhookURL (CreateWebhookInput.URL inp));;
  checked (validateEvents (CreateWebhookInput.Events inp));;
  secret ← invoke GenerateWebhookSecret;
  h ← invoke (WebhookRepository.Create {|
              Webhook.ID := uuid_Nil;
              Webhook.TenantID := tenantID;
              Webhook.URL := CreateWebhookInput.URL inp;
              Webhook.Secret := secret;
              Webhook.Events := dedupeEvents (CreateWebhookInput.Events inp);
              Webhook.Active := true;
              Webhook.FailureCount := 0;
              Webhook.DisabledAt := None;
              Webhook.CreatedAt := zero_time |});
  mret (Webhook.Mk (Webhook.ID h) (Webhook.TenantID h) (Webhook.URL h) secret (Webhook.Events h)
          (Webhook.Active h) (Webhook.FailureCount h) (Webhook.DisabledAt h) (Webhook.CreatedAt h)).

(** ** Authentication *)

Definition authenticate_prog (token : string) : Prog (APIKey.t * M ()) :=
  if negb (ValidKeyFormat token) then throw (ESentinel ErrUnauthorized)
  else
    let hash := HashAPIKey token in
    r ← tries (invoke (APIKeyRepository.GetByHash hash));
    match r with
    | inr err => if Is err ErrNotFound then throw (ESentinel ErrUnauthorized) else throw err
    | inl key =>
        if APIKey.Revoked key then throw (ESentinel ErrUnauthorized)
        else mret (key, AuthService.touch (APIKey.ID key))
    end.

(** ** The limiter: a member, a reading of the clock, the script *)

Definition allow_prog (key : string) (limit : Z) (window : Duration) : Prog (bool * Z * Duration) :=
  member ← invoke RedisRateLimiter.uniqueMember;
  t ← invoke now;
  r ← tries (invoke (RedisRateLimiter.run_script ("ratelimit:" +:+ key) (t / Millisecond) (Z.quot window Millisecond)
                     limit member));
  match r with
  | inr err => throw (errorf "rate limit eval" err)
  | inl (a, remaining, retry) => mret (a =? 1, remaining, retry * Millisecond)
  end.

(** ** They run as the services do *)

Lemma runs_active link : runs (active_prog link) (RedirectService.checkActive link).
Proof. unfold active_prog, RedirectService.checkActive. runs. Qed.

Lemma runs_from_db code : runs (from_db_prog code) (RedirectService.fromDB redirect_svc code).
Proof. unfold from_db_prog, RedirectService.fromDB. pose proof runs_active. runs. Qed.

Lemma runs_resolve code : runs (resolve_prog code) (RedirectService.Resolve redirect_svc code).
Proof. unfold resolve_prog, RedirectService.Resolve. pose proof runs_active. pose proof runs_from_db. runs. Qed.

Lemma runs_enqueue e : runs (enqueue_prog e) (Enqueue (pipeline cfg) e).
Proof. unfold enqueue_prog, Enqueue. runs. Qed.

Lemma bind_assoc {A B C} (m : M A) (f : A → M B) (g : B → M C) : meq ((m ≫= f) ≫= g) (m ≫= λ x, f x ≫= g).
Proof. intros w. unfold mbind, M_bind. by destruct (m w) as [[a|e|s] w']. Qed.

Lemma runs_emit l : runs (emit_prog l) (LinkService.emitCreated links_svc l).
Proof.
  unfold LinkService.emitCreated. destruct (linkService_parts cfg demoTenant fuel) as (_ & -> & _).
  unfold emit_prog, Notifier.LinkCreated, Dispatch.
  apply (runs_meq _ (ev ← stamp_id (Notifier.created_event (notifier cfg) l); ev ← stamp_time ev;
                     offer_event (Config.Webhook cfg) ev;; mret ())); [runs|].
  etrans; [|symmetry; apply bind_assoc]. f_equiv. intros ev. symmetry. apply bind_assoc.
Qed.

Lemma runs_allocate n link : runs (allocate_prog n link) (LinkService.allocate links_svc n link).
Proof. induction n as [|n IH]; cbn [allocate_prog LinkService.allocate]; runs. Qed.

Lemma runs_create t inp : runs (create_prog t inp) (LinkService.Create links_svc t inp).
Proof.
  unfold create_prog, LinkService.Create, LinkService.allocateGeneratedCode, LinkService.create_row.
  pose proof runs_emit. pose proof runs_allocate. runs.
Qed.

Lemma runs_update t id inp : runs (update_prog t id inp) (LinkService.Update links_svc t id inp).
Proof. unfold update_prog, LinkService.Update. runs. Qed.

Lemma runs_delete t id : runs (delete_prog t id) (LinkService.Delete links_svc t id).
Proof. unfold delete_prog, LinkService.Delete. runs. Qed.

Lemma runs_stats t id from to bucket : runs (stats_prog t id from to bucket) (StatsService.LinkStats t id from to bucket).
Proof. unfold stats_prog, StatsService.LinkStats. repeat case_match; runs. Qed.

Lemma runs_overview t : runs (overview_prog t) (StatsService.Overview t).
Proof. unfold overview_prog, StatsService.Overview, ClickRepository.TenantOverview. runs. Qed.

Lemma runs_hook_create t inp : runs (hook_create_prog t inp) (WebhookService.Create t inp).
Proof. unfold hook_create_prog, WebhookService.Create. runs. Qed.

Lemma runs_authenticate token : runs (authenticate_prog token) (AuthService.Authenticate token).
Proof. unfold authenticate_prog, AuthService.Authenticate. runs. Qed.

Lemma runs_allow key limit window : runs (allow_prog key limit window) (RedisRateLimiter.Allow key limit window).
Proof. unfold allow_prog, RedisRateLimiter.Allow. runs. Qed.
End services.

(** * The handlers and the middleware *)

Section requests.
Context `{O : Oracle} `{Codec} `{Binding} `{Collation} `{Gin}.
Context (cfg : Config.t) (demoTenant : option Tenant.t) (promhttp : M Response.t)
  (health : list (string * M ())) (fuel : nat).

Abbreviation link_handler := (linkHandler cfg demoTenant fuel).
Abbreviation to_link := (LinkHandler.toResponse link_handler).

Definition respond_prog {A} (p : Prog A) (k : A → Response.t) : Prog Response.t :=
  r ← tries p; match r with inl a => mret (k a) | inr err => mret (respondError err) end.

Definition id_prog (c : Ctx.t) (k : UUID → Prog Response.t) : Prog Response.t :=
  match parseID c with None => mret bad_id | Some id => k id end.

(** ** link.go *)

Definition create_handler (c : Ctx.t) : Prog Response.t :=
  match Request.Body (Ctx.req c) ≫= bind_createLink with
  | None => mret (respondValidation "request body must be valid JSON")
  | Some req =>
      respond_prog (create_prog cfg demoTenant fuel (MustTenantID c) {|
          CreateLinkInput.TargetURL := createLinkRequest.URL req;
          CreateLinkInput.CustomAlias := TrimSpace (createLinkRequest.CustomAlias req);
          CreateLinkInput.RedirectType := createLinkRequest.RedirectType req;
          CreateLinkInput.ExpiresAt := createLinkRequest.ExpiresAt req;
          CreateLinkInput.MaxClicks := createLinkRequest.MaxClicks req |})
        (λ link, Response.Mk 201 [] (BLink (to_link link)))
  end.

Definition list_handler (c : Ctx.t) : Prog Response.t :=
  let limit := atoiDefault (query c "limit") 50 in
  let offset := atoiDefault (query c "offset") 0 in
  respond_prog (invoke (LinkService.List (MustTenantID c) limit offset))
    (λ links, Response.Mk 200 [] (BLinks (to_link <$> links) (Z.of_nat (length links)))).

Definition get_handler (c : Ctx.t) : Prog Response.t :=
  id_prog c (λ id, respond_prog (invoke (LinkService.Get (MustTenantID c) id))
    (λ link, Response.Mk 200 [] (BLink (to_link link)))).

Definition update_handler (c : Ctx.t) : Prog Response.t :=
  id_prog c (λ id,
    match Request.Body (Ctx.req c) with
    | None => mret (respondValidation "could not read request body")
    | Some raw =>
        match json_fields raw with
        | None => mret (respondValidation "request body must be a valid JSON object")
        | Some fields =>
            match buildUpdateInput fields with
            | inr verr => mret (respondValidation verr)
            | inl inp =>
                respond_prog (update_prog cfg demoTenant fuel (MustTenantID c) id inp)
                  (λ link, Response.Mk 200 [] (BLink (to_link link)))
            end
        end
    end).

Definition delete_handler (c : Ctx.t) : Prog Response.t :=
  id_prog c (λ id, respond_prog (delete_prog cfg demoTenant fuel (MustTenantID c) id)
    (λ _, Response.Mk 204 [] BNone)).

(** ** stats.go *)

Definition stats_handler (c : Ctx.t) : Prog Response.t :=
  id_prog c (λ id,
    t ← invoke now;
    match StatsHandler.parseTimeQuery c "to" t with
    | None => mret (respondValidation "to must be an RFC3339 timestamp")
    | Some to =>
        match StatsHandler.parseTimeQuery c "from" (to - defaultStatsWindow) with
        | None => mret (respondValidation "from must be an RFC3339 timestamp")
        | Some from =>
            let bucket := default_query c "bucket" BucketHour in
            if negb (Bucket_Valid bucket) then mret (respondValidation "bucket must be 'hour' or 'day'")
            else if negb (from <? to) then mret (respondValidation "'to' must be after 'from'")
            else respond_prog (stats_prog (MustTenantID c) id from to bucket)
                   (λ stats, Response.Mk 200 [] (BStats stats))
        end
    end).

Definition overview_handler (c : Ctx.t) : Prog Response.t :=
  respond_prog (overview_prog (MustTenantID c)) (λ o, Response.Mk 200 [] (BOverview o)).

(** ** webhook.go *)

Definition hook_create_handler (c : Ctx.t) : Prog Response.t :=
  match Request.Body (Ctx.req c) ≫= bind_createWebhook with
  | None => mret (respondValidation "request body must be valid JSON")
  | Some req =>
      respond_prog (hook_create_prog (MustTenantID c) {|
          CreateWebhookInput.URL := createWebhookRequest.URL req;
          CreateWebhookInput.Events := createWebhookRequest.Events req |})
        (λ w, Response.Mk 201 [] (BWebhook (toWebhookResponse w true)))
  end.

Definition hook_list_handler (c : Ctx.t) : Prog Response.t :=
  respond_prog (invoke (WebhookService.List (MustTenantID c)))
    (λ hooks, Response.Mk 200 [] (BWebhooks ((λ h, toWebhookResponse h false) <$> hooks) (Z.of_nat (length hooks)))).

Definition hook_delete_handler (c : Ctx.t) : Prog Response.t :=
  id_prog c (λ id, respond_prog (invoke (WebhookService.Delete (MustTenantID c) id)) (λ _, Response.Mk 204 [] BNone)).

Definition handler_prog (r : api_route) : Ctx.t → Prog Response.t :=
  match r with
  | CreateLink => create_handler
  | ListLinks => list_handler
  | GetLink => get_handler
  | UpdateLink => update_handler
  | DeleteLink => delete_handler
  | LinkStatsRoute => stats_handler
  | OverviewRoute => overview_handler
  | CreateWebhook => hook_create_handler
  | ListWebhooks => hook_list_handler
  | DeleteWebhook => hook_delete_handler
  end.

(** ** redirect.go, click_recorder.go *)

Definition record_prog (c : Ctx.t) (link : Link.t) : Prog () :=
  t ← invoke now;
  enqueue_prog cfg {| ClickEvent.LinkID := Link.ID link;
                      ClickEvent.TenantID := Link.TenantID link;
                      ClickEvent.Code := Link.Code link;
                      ClickEvent.OccurredAt := t;
                      ClickEvent.Referrer := Request.Referer (Ctx.req c);
                      ClickEvent.UserAgent := Request.UserAgent (Ctx.req c);
                      ClickEvent.IP := Request.ClientIP (Ctx.req c) |};;
  mret ().

Definition redirect_handler (c : Ctx.t) : Prog Response.t :=
  let code := Request.Param (Ctx.req c) "code" in
  r ← tries (resolve_prog cfg code);
  match r with
  | inr err => invoke (ObserveRedirect (redirectResult err));; mret (respondError err)
  | inl link =>
      record_prog c link;;
      invoke (ObserveRedirect "served");;
      mret (Response.Mk (redirectStatus (Link.RedirectType link))
              [("Location", hexEscapeNonASCII (Link.TargetURL link))] (BRedirect (Link.TargetURL link)))
  end.

(** ** health.go *)

Fixpoint checks_prog (cs : list (string * M ())) : Prog (list (string * string) * bool) :=
  match cs with
  | [] => mret ([], true)
  | (name, check) :: cs =>
      r ← tries (invoke check);
      rest ← checks_prog cs;
      mret (match r with
            | inr err => ((name, "error: " +:+ Error err) :: rest.1, false)
            | inl _ => ((name, "ok") :: rest.1, rest.2)
            end)
  end.

Definition ready_handler : Prog Response.t :=
  r ← checks_prog health;
  mret (if r.2 : bool then Response.Mk 200 [] (BChecks "ok" r.1) else Response.Mk 503 [] (BChecks "unavailable" r.1)).

(** ** The middleware of the API *)

Definition limited_prog (next : Ctx.t → Prog Response.t) (c : Ctx.t) : Prog Response.t :=
  if RateLimitConfig.Enabled (Config.RateLimit cfg) then
    let limit := RateLimitConfig.Requests (Config.RateLimit cfg) in
    match TenantID c with
    | None => next c
    | Some tenantID =>
        r ← tries (allow_prog (uuid_String tenantID) limit (RateLimitConfig.Window (Config.RateLimit cfg)));
        match r with
        | inr _ => next c
        | inl (allowed, remaining, retryAfter) =>
            let hs := [("X-RateLimit-Limit", Itoa limit); ("X-RateLimit-Remaining", Itoa remaining)] in
            if negb allowed then
              mret (Response.with_headers (hs ++ [("Retry-After", Itoa (retrySecs retryAfter))])
                      (WriteError 429 CodeRateLimited "rate limit exceeded"))
            else resp ← next c; mret (Response.with_headers hs resp)
        end
    end
  else next c.

Definition auth_prog (next : Ctx.t → Prog Response.t) (c : Ctx.t) : Prog Answer.t :=
  match bearerToken c with
  | None => mret (Answer.Mk (WriteError 401 CodeUnauthorized "missing or malformed Authorization header") c None)
  | Some token =>
      r ← tries (authenticate_prog token);
      match r with
      | inr _ => mret (Answer.Mk (WriteError 401 CodeUnauthorized "invalid API key") c None)
      | inl (key, touch) => resp ← next (setAuth c key); mret (Answer.Mk resp (setAuth c key) (Some touch))
      end
  end.

Definition serve_prog (r : route) (c : Ctx.t) : Prog Answer.t :=
  let plain (p : Prog Response.t) := resp ← p; mret (Answer.Mk resp c None) in
  match r with
  | Healthz => plain (mret (Response.Mk 200 [] (BStatus "ok")))
  | Readyz => plain ready_handler
  | MetricsPage => plain (invoke promhttp)
  | Api r => auth_prog (limited_prog (handler_prog r)) c
  | RedirectRoute => plain (redirect_handler c)
  end.

(** ** The global chain *)

Definition identified_prog (next : Ctx.t → Prog Answer.t) (c : Ctx.t) : Prog Answer.t :=
  let id := Request.RequestIDHeader (Ctx.req c) in
  id ← (if String.eqb id "" then n ← invoke tick; mret (uuid_String (o_uuid n)) else mret id);
  a ← next (setRequestID c id);
  mret (with_request_id id a).

Definition recovery_prog (next : Ctx.t → Prog Answer.t) (c : Ctx.t) : Prog Answer.t :=
  recovers (Answer.Mk gin_recovered c None) (next c).

Definition logged_prog (min : Level) (next : Ctx.t → Prog Answer.t) (c : Ctx.t) : Prog Answer.t :=
  start ← invoke now;
  a ← next c;
  t ← invoke now;
  invoke (log min (access_line a (t - start)));;
  mret a.

Definition measured_prog (fullPath : string) (next : Ctx.t → Prog Answer.t) (c : Ctx.t) : Prog Answer.t :=
  start ← invoke now;
  a ← next c;
  t ← invoke now;
  invoke (ObserveHTTP (Request.Method (Ctx.req (Answer.ctx a))) (if String.eqb fullPath "" then "unmatched" else fullPath)
    (Itoa (Response.status (Answer.response a))) (t - start));;
  mret a.

Definition request_prog (r : option route) : Ctx.t → Prog Answer.t :=
  identified_prog (recovery_prog (logged_prog (parseLevel (Config.LogLevel cfg)) (measured_prog (FullPath r)
    (λ c, match r with Some r => serve_prog r c | None => mret (Answer.Mk gin_no_route c None) end)))).

(** ** They run as the handlers do *)

Lemma runs_respond {A} (p : Prog A) m k : runs p m → runs (respond_prog p k) (respond m k).
Proof. intros Hp. unfold respond_prog, respond. runs. Qed.

Lemma runs_id c (k : UUID → Prog Response.t) k' : (∀ id, runs (k id) (k' id)) → runs (id_prog c k) (with_id c k').
Proof. intros Hk. unfold id_prog, with_id. destruct (parseID c); [apply Hk|apply runs_ret]. Qed.

Lemma runs_handler r c : runs (handler_prog r c) (api_handler cfg demoTenant fuel r c).
Proof.
  destruct r; simpl.
  - unfold create_handler, LinkHandler.Create. destruct (_ ≫= bind_createLink); [|apply runs_ret].
    apply runs_respond, runs_create.
  - apply runs_respond, runs_call.
  - apply runs_id. intros id. apply runs_respond, runs_call.
  - apply runs_id. intros id. repeat case_match; try apply runs_ret. apply runs_respond, runs_update.
  - apply runs_id. intros id. apply runs_respond, runs_delete.
  - apply runs_id. intros id. apply runs_bind; [apply runs_call|intros t].
    cbv zeta. repeat case_match; try apply runs_ret. apply runs_respond, runs_stats.
  - apply runs_respond, runs_overview.
  - unfold hook_create_handler, WebhookHandler.Create. destruct (_ ≫= bind_createWebhook); [|apply runs_ret].
    apply runs_respond, runs_hook_create.
  - apply runs_respond, runs_call.
  - apply runs_id. intros id. apply runs_respond, runs_call.
Qed.

Lemma runs_record c l : runs (record_prog c l) (PipelineClickRecorder_Record (Enqueue (pipeline cfg)) c l).
Proof. unfold record_prog, PipelineClickRecorder_Record. pose proof (runs_enqueue cfg). runs. Qed.

Lemma runs_redirect c : runs (redirect_handler c) (RedirectHandler.Redirect (redirectHandler cfg) c).
Proof.
  unfold redirect_handler, RedirectHandler.Redirect. pose proof (runs_resolve cfg). pose proof runs_record.
  unfold RedirectHandler.observe, redirectHandler. cbn [RedirectHandler.svc RedirectHandler.clicks RedirectHandler.metrics].
  runs.
Qed.

Lemma runs_checks cs : runs (checks_prog cs) (HealthHandler.run_checks cs).
Proof. induction cs as [|[name check] cs IH]; cbn [checks_prog HealthHandler.run_checks]; runs. Qed.

Lemma runs_limited p next c : (∀ c, runs (p c) (next c)) → runs (limited_prog p c) (limited cfg next c).
Proof.
  intros Hp. unfold limited_prog, limited. destruct (RateLimitConfig.Enabled _); [|apply Hp].
  unfold RateLimit. pose proof runs_allow. runs.
Qed.

Lemma runs_serve r c : runs (serve_prog r c) (serve cfg demoTenant promhttp health fuel r c).
Proof.
  pose proof runs_checks. pose proof runs_redirect.
  assert (Hl : ∀ r c, runs (limited_prog (handler_prog r) c) (limited cfg (api_handler cfg demoTenant fuel r) c)).
  { intros r1 c1. apply runs_limited, runs_handler. }
  destruct r as [| | |r|]; cbn [serve serve_prog]; unfold ready_handler, HealthHandler.Live, HealthHandler.Ready; [runs..| |runs].
  pose proof runs_authenticate. unfold auth_prog, APIKeyAuth. runs.
Qed.

Lemma runs_recovery p next c : runs (p c) (next c) → runs (recovery_prog p c) (Recovery next c).
Proof.
  intros Hp w. unfold recovery_prog, recovers. rewrite perform_caught, (Hp w). unfold Recovery.
  by destruct (next c w) as [[a|e|s] w'].
Qed.

Lemma runs_identified p next c : (∀ c, runs (p c) (next c)) → runs (identified_prog p c) (RequestID next c).
Proof. intros Hp. unfold identified_prog, RequestID. runs. Qed.

Lemma runs_logged min p next c : runs (p c) (next c) → runs (logged_prog min p c) (RequestLogger min next c).
Proof. intros Hp. unfold logged_prog, RequestLogger. runs. Qed.

Lemma runs_measured path p next c :
  runs (p c) (next c) → runs (measured_prog path p c) (MetricsMiddleware ObserveHTTP path next c).
Proof. intros Hp. unfold measured_prog, MetricsMiddleware. runs. Qed.

(** A request, called apart.  The program of a request, its calls made one after the
    other with nothing in between, answers as the engine does and leaves the world the
    engine leaves, for every route, every request and every behaviour of the outside:
    the interleavings of the programs are those of the requests. *)
Theorem request_alone r c w :
  perform (request_prog r c) w = engine cfg demoTenant promhttp health fuel r c w.
Proof.
  revert w. change (runs (request_prog r c) (engine cfg demoTenant promhttp health fuel r c)).
  unfold request_prog, engine, observed. apply runs_identified. intros c1. apply runs_recovery, runs_logged, runs_measured.
  destruct r; [apply runs_serve|apply runs_ret].
Qed.
End requests.
