(* ===== verification/CallBound.v ===== *)
(** How many calls a request makes.  Whatever other requests and the process do to the
    world between two calls of a request, and however its calls turn out, it makes no more
    than a number of calls fixed by its route and the configuration: no loop of a handler
    runs on because of what the others do.  A call itself is a total computation of the
    model: how long one may wait inside Postgres, Redis or the connection pool is not
    modelled. *)
From stdpp Require Import prelude gmap strings list relations.
From S2P Require Import Prelude GoStd Rfc3339 Json NetUrl Domain Wire Enrich World Schema LinkRepo LinkCache Shortcode LinkService.
From S2P Require Import Counters Redirect KeyRepo Auth WebhookRepo WebhookService ClickRepo Stats RateLimit.
From S2P Require Import Ingest Delivery Notifier Config Http Observe Handlers Server System Programs.

(** * Programs that end *)

(** The program ends within [n] calls, whatever they return. *)
Fixpoint within {A} (n : nat) (p : Prog A) {struct p} : Prop :=
  match p with
  | Done _ => True
  | Call m k => match n with 0%nat => False | S n => ∀ r, within n (k r) end
  end.

(** One call, made in any world. *)
Definition goes {A} (p p' : Prog A) : Prop := ∃ w w', advance p w = Some (p', w').

Section within.
Context {A : Type}.

Lemma within_mono n n' (p : Prog A) : (n ≤ n')%nat → within n p → within n' p.
Proof.
  revert n n'. induction p as [r|X m k IH]; intros n n' Hn; [done|].
  destruct n as [|n]; [done|]. destruct n' as [|n']; [lia|]. simpl. intros Hp r. eapply IH, Hp. lia.
Qed.

Lemma within_goes n (p p' : Prog A) : within (S n) p → goes p p' → within n p'.
Proof.
  intros Hp (w & w' & E). destruct p as [r|X m k]; [done|]. simpl in E. destruct (m w) as [r w1].
  injection E as <- _. apply Hp.
Qed.

Lemma within_zero (p p' : Prog A) : within 0 p → ¬ goes p p'.
Proof. intros Hp (w & w' & E). by destruct p. Qed.

(** What the bound says of the calls made. *)
Lemma within_steps n i (p p' : Prog A) : within n p → nsteps goes i p p' → (i ≤ n)%nat.
Proof.
  intros Hp Hs. revert n Hp. induction Hs as [p|i p p1 p' Hg _ IH]; intros n Hp; [lia|].
  destruct n as [|n]; [by destruct (within_zero _ _ Hp Hg)|]. pose proof (IH n (within_goes _ _ _ Hp Hg)). lia.
Qed.
End within.

Lemma within_bind {A B} n n' (p : Prog A) (f : A → Prog B) :
  within n p → (∀ a, within n' (f a)) → within (n + n') (p ≫= f).
Proof.
  intros Hp Hf. revert n Hp. induction p as [r|X m k IH]; intros n Hp.
  - destruct r as [a|e|s]; [|done..]. eapply within_mono, Hf. lia.
  - destruct n as [|n]; [done|]. intros r. apply IH, Hp.
Qed.

Lemma within_caught {A B} n (f : res A → res B) p : within n p → within n (caught f p).
Proof.
  revert n. induction p as [r|X m k IH]; intros n Hp; [done|]. destruct n as [|n]; [done|]. intros r. apply IH, Hp.
Qed.

Lemma within_done {A} n (r : res A) : within n (Done r).
Proof. by destruct n. Qed.

Lemma within_invoke {A} n (m : M A) : within (S n) (invoke m).
Proof. intros r. apply within_done. Qed.

Lemma within_call {A B} n (m : M A) (f : A → Prog B) : (∀ a, within n (f a)) → within (S n) (invoke m ≫= f).
Proof. intros Hf. apply (within_bind 1 n); [apply within_invoke|exact Hf]. Qed.

Lemma within_try {A B} n (m : M A) (f : A + error → Prog B) :
  (∀ r, within n (f r)) → within (S n) (tries (invoke m) ≫= f).
Proof. intros Hf. apply (within_bind 1 n); [apply within_caught, within_invoke|exact Hf]. Qed.

Lemma within_checked {B} n c (f : () → Prog B) : (∀ u, within n (f u)) → within n (checked c ≫= f).
Proof. intros Hf. apply (within_bind 0 n); [by destruct c|exact Hf]. Qed.

Create HintDb within.
#[export] Hint Resolve within_done within_invoke : within.

(** Count the calls of a straight line. *)
Ltac within :=
  repeat first
    [ solve [simple apply within_done | simple apply within_invoke | eauto 2 with within]
    | match goal with |- ∀ _, _ => intro end
    | simple apply within_call
    | simple apply within_try
    | simple apply within_checked
    | progress case_match ].

(** * The services *)

Section services.
Context `{O : Oracle} `{Codec} `{Collation}.
Context (cfg : Config.t) (demoTenant : option Tenant.t) (fuel : nat).

Lemma within_active l : within 1 (active_prog l).
Proof. unfold active_prog. within. Qed.

Lemma within_resolve code : within 5 (resolve_prog cfg code).
Proof.
  pose proof within_active.
  assert (Hdb : within 3 (from_db_prog cfg code)).
  { unfold from_db_prog. within. }
  unfold resolve_prog. within; (eapply within_mono; [|apply within_active]; lia).
Qed.

(** Two calls for each code that is tried. *)
Lemma within_allocate n l : within (2 * n) (allocate_prog cfg demoTenant fuel n l).
Proof.
  induction n as [|n IH]; [done|]. cbn [allocate_prog]. replace (2 * S n)%nat with (S (S (2 * n))) by lia. within.
Qed.

Lemma within_emit l : within 3 (emit_prog cfg l).
Proof. unfold emit_prog. within. Qed.

(** The codes a creation tries: MaxCollisionRetries, one at least. *)
Definition tries_of : nat := Nat.max 1 (Z.to_nat (ShortcodeConfig.MaxCollisionRetries (Config.Shortcode cfg))).

Lemma maxCollision_tries : Z.to_nat (LinkService.maxCollision (linkService cfg demoTenant fuel)) = tries_of.
Proof.
  unfold linkService, tries_of. repeat case_match; simpl; destruct (Z.ltb_spec (ShortcodeConfig.MaxCollisionRetries
    (Config.Shortcode cfg)) 1); lia.
Qed.

Lemma within_create t inp : within (5 + 2 * tries_of) (create_prog cfg demoTenant fuel t inp).
Proof.
  pose proof within_emit as He. unfold create_prog. apply within_checked. intros _.
  destruct (LinkService.normalizeRedirectType _); [|apply within_done].
  apply within_call. intros _. apply within_checked. intros _. apply within_call. intros e. cbv zeta.
  apply (within_mono (2 * tries_of + 3)); [lia|]. apply within_bind.
  - destruct (negb (String.eqb _ "")).
    + destruct (negb (ValidAlias _)); [apply within_done|].
      apply (within_mono 1); [unfold tries_of; lia|apply within_invoke].
    + rewrite maxCollision_tries. apply within_allocate.
  - intros l. apply (within_bind 3 0); [apply He|by intros].
Qed.

Lemma within_update t id inp : within 6 (update_prog cfg demoTenant fuel t id inp).
Proof.
  unfold update_prog. apply within_call. intros link. cbv zeta. do 4 (apply within_call; intros ?).
  apply (within_bind 1 0); [destruct (negb _); [apply within_invoke|apply within_done]|intros; apply within_done].
Qed.

Lemma within_delete t id : within 3 (delete_prog cfg demoTenant fuel t id).
Proof. unfold delete_prog. within. Qed.

Lemma within_stats t id from to bucket : within 6 (stats_prog t id from to bucket).
Proof. unfold stats_prog. within. Qed.

Lemma within_overview t : within 2 (overview_prog t).
Proof. unfold overview_prog. within. Qed.

Lemma within_hook_create t inp : within 2 (hook_create_prog t inp).
Proof. unfold hook_create_prog. within. Qed.

Lemma within_allow key limit window : within 3 (allow_prog key limit window).
Proof. unfold allow_prog. within. Qed.

Lemma within_authenticate token : within 1 (authenticate_prog token).
Proof. unfold authenticate_prog. within. Qed.
End services.

(** * The requests *)

Section requests.
Context `{O : Oracle} `{Codec} `{Binding} `{Collation} `{Gin}.
Context (cfg : Config.t) (demoTenant : option Tenant.t) (promhttp : M Response.t) (fuel : nat).

Definition handler_calls (r : api_route) : nat :=
  match r with
  | CreateLink => 5 + 2 * tries_of cfg
  | UpdateLink => 6
  | LinkStatsRoute => 7
  | DeleteLink => 3
  | OverviewRoute | CreateWebhook => 2
  | ListLinks | GetLink | ListWebhooks | DeleteWebhook => 1
  end.

(** The calls of a request: an id, four readings of the clock, the log and the metrics;
    on an API route the key and the limiter; and those of the handler. *)
Definition serve_calls (r : route) : nat :=
  match r with
  | Api r => 4 + handler_calls r
  | RedirectRoute => 9
  | Readyz => 2
  | MetricsPage => 1
  | Healthz => 0
  end.

Definition request_calls (r : option route) : nat := 7 + match r with Some r => serve_calls r | None => 0 end.

Lemma within_respond {A} n (p : Prog A) k : within n p → within n (respond_prog p k).
Proof.
  intros Hp. replace n with (n + 0)%nat by lia.
  apply within_bind; [by apply within_caught|intros [a|e]; apply within_done].
Qed.

Lemma within_id n c k : (∀ id, within n (k id)) → within n (id_prog c k).
Proof. intros Hk. unfold id_prog. destruct (parseID c); [apply Hk|apply within_done]. Qed.

Lemma within_handler r c : within (handler_calls r) (handler_prog cfg demoTenant fuel r c).
Proof.
  destruct r; cbn [handler_prog handler_calls].
  - unfold create_handler. destruct (_ ≫= bind_createLink); [|apply within_done]. apply within_respond, within_create.
  - apply within_respond, within_invoke.
  - apply within_id. intros id. apply within_respond, within_invoke.
  - apply within_id. intros id. repeat case_match; try apply within_done. apply within_respond, within_update.
  - apply within_id. intros id. apply within_respond, within_delete.
  - apply within_id. intros id. apply within_call. intros t. cbv zeta. repeat case_match; try apply within_done.
    apply within_respond, within_stats.
  - apply within_respond, within_overview.
  - unfold hook_create_handler. destruct (_ ≫= bind_createWebhook); [|apply within_done].
    apply within_respond, within_hook_create.
  - apply within_respond, within_invoke.
  - apply within_id. intros id. apply within_respond, within_invoke.
Qed.

Lemma within_limited n next c : within n (next c) → within (3 + n) (limited_prog cfg next c).
Proof.
  intros Hn. assert (Hn' : within (3 + n) (next c)) by (eapply within_mono, Hn; lia).
  unfold limited_prog. destruct (RateLimitConfig.Enabled _); [|done]. destruct (TenantID c); [|done]. cbv zeta.
  apply within_bind; [apply within_caught, within_allow|]. intros [[[allowed rem] retry]|e]; [|done].
  destruct (negb allowed); [apply within_done|]. replace n with (n + 0)%nat by lia.
  apply within_bind; [done|intros; apply within_done].
Qed.

Lemma within_auth n next c : (∀ c, within n (next c)) → within (S n) (auth_prog next c).
Proof.
  intros Hn. unfold auth_prog. destruct (bearerToken c); [|apply within_done].
  apply (within_bind 1 n); [apply within_caught, within_authenticate|]. intros [[key touch]|e]; [|apply within_done].
  replace n with (n + 0)%nat by lia. apply within_bind; [apply Hn|intros; apply within_done].
Qed.

Lemma within_redirect c : within 9 (redirect_handler cfg c).
Proof.
  unfold redirect_handler. cbv zeta. apply (within_bind 5 4); [apply within_caught, within_resolve|].
  intros [l|e]; [|by apply (within_mono 1); [lia|within]]. apply (within_bind 3 1); [|within].
  unfold record_prog. apply (within_call 2). intros t. apply (within_bind 2 0); [|intros; apply within_done].
  unfold enqueue_prog. within.
Qed.

Lemma within_checks cs : within (length cs) (checks_prog cs).
Proof.
  induction cs as [|[name check] cs IH]; [done|]. cbn [checks_prog length]. apply within_try. intros r.
  replace (length cs) with (length cs + 0)%nat by lia. apply within_bind; [done|intros; apply within_done].
Qed.

Lemma within_plain n (p : Prog Response.t) c : within n p → within n (resp ← p; mret (Answer.Mk resp c None)).
Proof. intros Hp. replace n with (n + 0)%nat by lia. apply within_bind; [done|intros; apply within_done]. Qed.

Lemma within_serve r c :
  within (serve_calls r) (serve_prog cfg demoTenant promhttp health fuel r c).
Proof.
  destruct r as [| | |r|]; cbn [serve_prog serve_calls].
  - apply within_done.
  - apply within_plain. unfold ready_handler. apply (within_bind 2 0); [apply (within_checks health)|intros; apply within_done].
  - apply within_plain, within_invoke.
  - apply within_auth. intros c1. apply within_limited, within_handler.
  - apply within_plain, within_redirect.
Qed.

(** Two readings of the clock around a layer, and what it does with them. *)
Lemma within_timed n (p : Prog Answer.t) (k : Time → Answer.t → Time → M ()) :
  within n p → within (3 + n) (start ← invoke now; a ← p; t ← invoke now; invoke (k start a t);; mret a).
Proof.
  intros Hp. apply (within_call (2 + n)). intros start. rewrite Nat.add_comm.
  apply within_bind; [exact Hp|]. intros a. within.
Qed.

(** C30: Calls of a request are bounded.  Take any request, and any number of its calls,
    each made in whatever world the others have left and with whatever outcome: they are
    at most [request_calls], a number of the route and of MaxCollisionRetries.  In
    particular a creation gives up after that many taken codes, whatever codes others take
    meanwhile.  (That a call itself returns is taken for granted here: waiting inside the
    database or Redis is not modelled.) *)
Theorem request_calls_bounded r c i p :
  nsteps goes i (request_prog cfg demoTenant promhttp health fuel r c) p → (i ≤ request_calls r)%nat.
Proof.
  intros Hs.
  eapply within_steps, Hs. unfold request_prog, identified_prog. cbv zeta.
  unfold request_calls. set (n := match r with Some r => serve_calls r | None => 0%nat end). apply (within_bind 1 (6 + n)).
  { destruct (String.eqb _ ""); [within|apply within_done]. }
  intros id. replace (6 + n)%nat with (6 + n + 0)%nat by lia.
  apply within_bind; [|intros; apply within_done]. apply within_caught.
  apply (within_timed (3 + n)), within_timed. destruct r as [r|]; [apply within_serve|apply within_done].
Qed.
End requests.
