(* ===== verification/Healing.v ===== *)
(** The cache heals.  Redis may hold anything for a code: a snapshot backfilled after the
    update that should have dropped it, an entry whose invalidation failed, what an
    earlier version of the program left.  No step of the process writes an entry that
    disagrees with the table, so once such an entry expires the code is answered as the
    table says, for as long as nothing changes its row. *)
From stdpp Require Import prelude gmap strings list relations.
From S2P Require Import Prelude GoStd Domain Wire Enrich World Schema LinkRepo LinkCache Shortcode LinkService.
From S2P Require Import Counters Redirect Coherence KeyRepo Auth WebhookRepo WebhookService ClickRepo Stats RateLimit.
From S2P Require Import Ingest Delivery Notifier Config Http Observe Handlers Server Janitor Invariant System.

Local Open Scope Z_scope.

Section healing.
Context `{O : Oracle} `{Codec} `{!CodecLaws} `{Binding} `{Collation} `{Gin}.
Context (cfg : Config.t) (demoTenant : option Tenant.t) (promhttp : M Response.t) (fuel : nat).
Context (Hprom : reads promhttp).

Abbreviation sstep := (System.sstep cfg demoTenant promhttp fuel).
Abbreviation strs w := (Redis.strs (w_redis w)).

(** The lifetimes of the entries are positive. *)
Definition entries_expire : Prop :=
  0 < CacheConfig.LinkTTL (Config.Cache cfg) ∧ 0 < CacheConfig.NegativeTTL (Config.Cache cfg).

(** ** What a step writes *)

Lemma keep_redis {A} (m : M A) r : (∀ w, w_redis (m w).2 = w_redis w) → preserves (λ w, strs w ⊆ r) m.
Proof. intros Hm w Hw. by rewrite Hm. Qed.

Lemma hooks_redis {A} (m : M A) : (∀ x, preserves (λ w, w_redis w = x) m) → ∀ w, w_redis (m w).2 = w_redis w.
Proof. intros Hm w. by apply (Hm (w_redis w)). Qed.

Lemma goroutines_drop s : goroutines_keep (λ w, strs w ⊆ s).
Proof.
  split; try done.
  - intros code w Hw. destruct (Invalidate_world code w) as [->| ->]; [done|]. simpl.
    etrans; [apply delete_subseteq|done].
  - intros batch. apply keep_redis. intros w. by apply RecordBatch_frame.
  - intros id. apply keep_redis, hooks_redis. intros x. unfold WebhookRepository.RecordSuccess. preserve; done.
  - intros id k. apply keep_redis, hooks_redis. intros x. unfold WebhookRepository.RecordFailure, record_failure.
    preserve; done.
Qed.

Lemma services_drop s t : services_keep cfg demoTenant fuel (λ w, strs w ⊆ s) t.
Proof.
  split.
  - intros call w. apply (exec_cache cfg demoTenant fuel (λ r, Redis.strs r ⊆ s)). intros key r Hr. simpl.
    etrans; [apply delete_subseteq|done].
  - intros inp. apply keep_redis, hooks_redis. intros x.
    unfold WebhookService.Create, WebhookRepository.Create, GenerateWebhookSecret, insert_webhook. preserve; done.
  - intros id. apply keep_redis, hooks_redis. intros x.
    unfold WebhookService.Delete, WebhookRepository.DeleteForTenant, delete_webhook. preserve; done.
Qed.

Lemma Allow_drop s key limit window : preserves (λ w, strs w ⊆ s) (RedisRateLimiter.Allow key limit window).
Proof.
  unfold RedisRateLimiter.Allow, RedisRateLimiter.uniqueMember, RedisRateLimiter.run_script, rand_Read.
  preserve; done.
Qed.

(** The entry of [code]: as it was in [s], or one that agrees with the tables [d]. *)
Definition entry_from (code : string) (s : gmap string (string * option Time)) (d : DB.t) (w : World) : Prop :=
  w_db w = d ∧ ∀ v x, strs w !! cacheKey code = Some (v, x) →
    s !! cacheKey code = Some (v, x) ∨ entry_ok (DB.links d) code v ∧ (entries_expire → is_Some x).

Lemma Resolve_entry code s d c :
  schema_ok d → preserves (entry_from code s d) (RedirectService.Resolve (redirectService cfg) c).
Proof.
  intros Hs w [Hd Hw]. assert (Hsw : schema w) by (unfold schema; by rewrite Hd).
  assert (Hobs : ∀ o, RedirectService.observer (redirectService cfg) = Some o → CacheObserver.laws o).
  { intros o [= <-]. apply Metrics_CacheObserver_laws. }
  destruct (Resolve_writes (redirectService cfg) Hobs c w Hsw) as [_ [Ed Er]].
  split; [by rewrite Ed|]. intros v x. destruct Er as [->|(v' & x' & -> & Hok & Hx)]; [apply Hw|].
  rewrite lookup_insert. case_decide as E; [|apply Hw]. apply cacheKey_inj in E as ->. intros [= <- <-].
  right. rewrite Hd in Hok. split; [done|]. intros [? ?]. by apply Hx.
Qed.

(** The redirect route writes such entries only. *)
Lemma redirect_entry code s d c :
  schema_ok d → preserves (entry_from code s d) (engine cfg demoTenant promhttp health fuel (Some RedirectRoute) c).
Proof.
  intros Hs. assert (Hup : ∀ n w, entry_from code s d w → entry_from code s d (set_step n w)) by done.
  apply engine_keeps; try done.
  - intros key limit window u [Hd Hu].
    pose proof (Allow_drop (strs u) key limit window u ltac:(simpl; reflexivity)) as Hsub.
    split; [exact (Allow_db key limit window d u Hd)|]. intros v x Hx. apply Hu. by eapply lookup_weaken.
  - intros e. unfold Enqueue, Enqueue_check, Enqueue_send, when_obs. simpl. unfold IncEnqueued, IncDropped. preserve; done.
  - by apply reads_keeps.
  - intros name check Hin. apply reads_keeps; [done|].
    unfold health in Hin. apply elem_of_cons in Hin as [[= -> ->]|[[= -> ->]|[]%elem_of_nil]%elem_of_cons];
      apply external_reads.
  - intros _ c'. by apply Resolve_entry.
Qed.

(** A step of the process: the entry was there before, or agrees with the table. *)
Lemma sstep_entry code w w' v x :
  schema w → sstep w w' → strs w' !! cacheKey code = Some (v, x) →
  strs w !! cacheKey code = Some (v, x)
  ∨ w_db w' = w_db w ∧ entry_ok (w_links w) code v ∧ (entries_expire → is_Some x).
Proof.
  intros Hs Hst Hv.
  assert (Hdrop : strs w' ⊆ strs w → strs w !! cacheKey code = Some (v, x)) by (intros; by eapply lookup_weaken).
  pose proof (goroutines_drop (strs w)) as K.
  destruct Hst as [r c w|id w|a w w' Hs'|evs w w' Hs'|t w _|w].
  - destruct (decide (r = Some RedirectRoute)) as [->|Hr].
    + destruct (redirect_entry code (strs w) (w_db w) c Hs w) as [Hd Hw]; [by split; [|left]|].
      destruct (Hw v x Hv) as [?|[? ?]]; auto.
    + left. apply Hdrop. apply (engine_keeps cfg demoTenant promhttp health fuel (λ u, strs u ⊆ strs w)); try done.
      * apply Allow_drop.
      * apply (Enqueue_keeps cfg _ K).
      * by apply reads_keeps.
      * intros name check Hin. apply reads_keeps; [done|].
        unfold health in Hin. apply elem_of_cons in Hin as [[= -> ->]|[[= -> ->]|[]%elem_of_nil]%elem_of_cons];
          apply external_reads.
      * intros _ t. apply services_drop.
  - left. apply Hdrop. rewrite hooks_redis; [done|]. intros y.
    unfold AuthService.touch, APIKeyRepository.TouchLastUsed, touch_key. preserve; done.
  - left. apply Hdrop. by eapply (pipeline_step_keeps cfg _ K).
  - left. apply Hdrop. by eapply (dispatcher_step_keeps cfg _ K).
  - left. apply Hdrop. rewrite hooks_redis; [done|]. intros y.
    unfold LinkJanitor.sweep, LinkRepository.PurgeExpired, purge_links. preserve; done.
  - by left.
Qed.

(** ** Settling *)

Abbreviation row code w := (select_row (by_code code) (w_links w)).

(** Whatever Redis holds for the code agrees with the table, or expires by [T]. *)
Definition settles (T : Time) (code : string) (w : World) : Prop :=
  ∀ v x, strs w !! cacheKey code = Some (v, x) → entry_ok (w_links w) code v ∨ ∃ d, x = Some d ∧ d <= T.

(** A step that leaves the answer of the table for the code alone. *)
Definition step_aside (code : string) (w w' : World) : Prop :=
  sstep w w' ∧ answers_alike (row code w) (row code w').

Lemma settles_step T code w w' : schema w → step_aside code w w' → settles T code w → settles T code w'.
Proof.
  intros Hs [Hst Ha] Hw v x Hv. destruct (sstep_entry code w w' v x Hs Hst Hv) as [Hold|(Hd & Hok & _)].
  - destruct (Hw v x Hold) as [Hok|?]; [left|by right]. by eapply entry_ok_change.
  - left. by rewrite Hd.
Qed.

Lemma settles_shown T code w : settles T code w → T <= o_now (w_step w) → shown_ok code w.
Proof.
  intros Hw Ht v x Hv Hvis. destruct (Hw v x Hv) as [Hok|(d & -> & Hd)]; [done|].
  unfold Redis.visible in Hvis. simpl in Hvis. rewrite (proj2 (Z.ltb_ge _ _)) in Hvis by lia. by destruct Hvis.
Qed.

(** Entries with an expiry instant. *)
Definition mortal (code : string) (w : World) : Prop :=
  ∀ v x, strs w !! cacheKey code = Some (v, x) → is_Some x.

Lemma mortal_step code w w' : entries_expire → schema w → sstep w w' → mortal code w → mortal code w'.
Proof.
  intros He Hs Hst Hw v x Hv. destruct (sstep_entry code w w' v x Hs Hst Hv) as [Hold|(_ & _ & Hx)]; [by eapply Hw|auto].
Qed.

Lemma boot_redis w : w_redis (boot cfg w).2 = w_redis w.
Proof.
  apply hooks_redis. intros x.
  assert (Hread : ∀ A what (q : DB.t → option A), preserves (λ w, w_redis w = x) (read_row what q)).
  { intros A what q u Hu. by rewrite read_row_world. }
  unfold boot, NewPostgresPool, Migrate, NewRedisClient, stage, external, seed_demo, Seed.Demo, Seed.demo_tenant,
    TenantRepository.FindByName, TenantRepository.Create, APIKeyRepository.GetByHash, APIKeyRepository.Create,
    insert_tenant, insert_key. preserve; try done; apply Hread.
Qed.
End healing.

(** * What heals *)

Section theorem.
Context `{O : Oracle} `{Codec} `{!CodecLaws} `{Binding} `{Collation} `{Gin} `{Quoter}.
Context (promhttp : M Response.t) (Hprom : reads promhttp) (fuel : nat).

(** From any sound state, also one that a race or another program left behind. *)
Lemma settled_answers cfg demoTenant code T w w' :
  world_ok w → settles T code w → rtc (step_aside cfg demoTenant promhttp fuel code) w w' → T <= o_now (w_step w') →
  let o := RedirectService.Resolve (redirectService cfg) code w' in
  answers code (select_row (by_code code) (w_links w')) (w_step w') o.1 ∧ w_db o.2 = w_db w'.
Proof.
  intros Hw HT Hsteps Hclock.
  assert (Hs : world_ok w' ∧ settles T code w').
  { apply (rtc_ind_r (R:=step_aside cfg demoTenant promhttp fuel code) (λ w, world_ok w ∧ settles T code w) w);
      [by split| |done].
    intros u u' _ Hst [Hu Hsu]. split; [by eapply sstep_ok; [..|apply Hst|]|]. eapply settles_step; [done|apply Hu|done|done]. }
  destruct Hs as [Hok Hset].
  assert (Hobs : ∀ o, RedirectService.observer (redirectService cfg) = Some o → CacheObserver.laws o).
  { intros o [= <-]. apply Metrics_CacheObserver_laws. }
  destruct (Resolve_writes (redirectService cfg) Hobs code w') as [Ha [Hd _]]; [apply Hok|].
  split; [|done]. apply Ha. by eapply settles_shown.
Qed.

(** What Redis holds for the code expires at one instant, and then the table answers. *)
Lemma settled_until cfg demoTenant w code :
  world_ok w → mortal code w →
  ∃ T, (∀ v x, Redis.strs (w_redis w) !! cacheKey code = Some (v, x) → x = Some T)
  ∧ ∀ w', rtc (step_aside cfg demoTenant promhttp fuel code) w w' → T <= o_now (w_step w') →
      let o := RedirectService.Resolve (redirectService cfg) code w' in
      answers code (select_row (by_code code) (w_links w')) (w_step w') o.1 ∧ w_db o.2 = w_db w'.
Proof.
  intros Hw Hm.
  assert (HT : ∃ T, ∀ v x, Redis.strs (w_redis w) !! cacheKey code = Some (v, x) → x = Some T).
  { destruct (Redis.strs (w_redis w) !! cacheKey code) as [[v x]|] eqn:E; [|by exists 0].
    destruct (Hm v x E) as [T ->]. exists T. by intros v' x' [= <- <-]. }
  destruct HT as [T HT]. exists T. split; [exact HT|]. intros w' Hsteps Hclock.
  eapply settled_answers; [exact Hw| |exact Hsteps|exact Hclock].
  intros v x Hv. right. exists T. split; [by eapply HT|lia].
Qed.

Lemma reachable_mortal env w0 cfg demoTenant w code :
  world_ok w0 → mortal code w0 → reachable promhttp fuel env w0 cfg demoTenant w → entries_expire cfg → mortal code w.
Proof.
  intros Hw0 Hm0 (_ & w1 & Hb & Hr) He. pose proof (boot_redis cfg w0) as Hred. rewrite Hb in Hred. simpl in Hred.
  assert (Hw1 : world_ok w1) by eauto using boot_ok_Ok.
  apply (rtc_ind_r (R:=sstep cfg demoTenant promhttp fuel) (λ w, world_ok w ∧ mortal code w) w1); [| |done].
  - split; [done|]. unfold mortal. by rewrite Hred.
  - intros u u' _ Hs [Hu Hmu]. split; [by eapply sstep_ok|]. eapply mortal_step; [done..|apply Hu|done|done].
Qed.

(** Staleness ends.  Start the program on a sound state whose cached entry for the
    code, if any, has an expiry, with positive cache lifetimes.  In every state it
    reaches, whatever failed before, what Redis holds for the code expires at one
    instant, and from that instant on, after any steps of the program that leave the
    answer of the table for the code alone, a resolution of the code answers as the table
    says. *)
Theorem staleness_ends env w0 cfg demoTenant w code :
  world_ok w0 → mortal code w0 → reachable promhttp fuel env w0 cfg demoTenant w → entries_expire cfg →
  ∃ T, (∀ v x, Redis.strs (w_redis w) !! cacheKey code = Some (v, x) → x = Some T)
  ∧ ∀ w', rtc (step_aside cfg demoTenant promhttp fuel code) w w' → T <= o_now (w_step w') →
      let o := RedirectService.Resolve (redirectService cfg) code w' in
      answers code (select_row (by_code code) (w_links w')) (w_step w') o.1 ∧ w_db o.2 = w_db w'.
Proof.
  intros Hw0 Hm0 Hr He. apply settled_until; [by eapply (reachable_ok promhttp Hprom fuel)|]. by eapply reachable_mortal.
Qed.
End theorem.
