(* ===== verification/Guarantee.v ===== *)
(** Rely and guarantee.  Between two calls of a request anything may happen: calls of
    other requests, and every step of the process.  What all of them keep is
    [guarantee], an invariant of the state that refers to its past; a program is [safe]
    when each of its calls keeps it, stays within the footprint the program is allowed in
    the tables, does not panic, and its outcome satisfies a postcondition of the past it
    returns in.  Safety is compositional, and is not affected by what the others do. *)
From stdpp Require Import prelude gmap strings list relations.
From S2P Require Import Prelude GoStd NetUrl Domain Wire Enrich World Schema LinkRepo LinkCache Shortcode LinkService.
From S2P Require Import Counters Redirect Coherence KeyRepo Auth WebhookRepo WebhookService ClickRepo Stats RateLimit.
From S2P Require Import Ingest Delivery Notifier Config Http Observe Handlers Server Janitor Invariant System Programs Healing.

Local Open Scope Z_scope.

(** * What every call keeps *)

Section guarantee.
Context `{O : Oracle} `{Codec} `{!CodecLaws} `{Binding} `{Collation} `{Gin}.
Context (cfg : Config.t) (demoTenant : option Tenant.t) (fuel : nat).

Abbreviation strs w := (Redis.strs (w_redis w)).
Abbreviation links_svc := (linkService cfg demoTenant fuel).

(** What may be in the cache without agreeing with any state of the past: nothing, or what
    the past that is considered found there. *)
Context (stale : string → string * option Time → Prop).

(** The cached value agrees with the row the code had in some state of the past. *)
Definition seen (h : list World) (code v : string) : Prop :=
  ∃ w0, w0 ∈ h ∧ entry_ok (w_links w0) code v.

Record guarantee (h : list World) (w : World) : Prop := {
  g_ok : world_ok w;
  g_here : w ∈ h;
  g_past w0 : w0 ∈ h → world_ok w0;
  g_entry code v x :
    strs w !! cacheKey code = Some (v, x) → seen h code v ∧ (entries_expire cfg → is_Some x) ∨ stale code (v, x);
}.

Definition keeps {A} (m : M A) : Prop := ∀ h w, guarantee h w → guarantee ((m w).2 :: h) (m w).2.

Lemma seen_mono h h' code v : h ⊆ h' → seen h code v → seen h' code v.
Proof. intros Hh (w0 & Hw0 & He). exists w0. split; [by apply Hh|done]. Qed.

(** Dropping entries, whatever happens to the tables. *)
Lemma guarantee_drop h w w' : guarantee h w → world_ok w' → strs w' ⊆ strs w → guarantee (w' :: h) w'.
Proof.
  intros [_ _ Hp He] Hw' Hsub. split; [done|by left|by intros w0 [->|?]%elem_of_cons; auto|]. intros code v x Hv.
  destruct (He code v x) as [[Hs Hx]|?]; [by eapply lookup_weaken|left|by right]. split; [|done].
  eapply seen_mono; [|done]. by right.
Qed.

(** Writing an entry that was right at some time. *)
Lemma guarantee_set h w w' code v x :
  guarantee h w → world_ok w' → strs w' = <[cacheKey code := (v, x)]> (strs w) →
  seen h code v → (entries_expire cfg → is_Some x) → guarantee (w' :: h) w'.
Proof.
  intros [_ _ Hp He] Hw' E Hs Hx. split; [done|by left|by intros w0 [->|?]%elem_of_cons; auto|]. intros code' v' x'. rewrite E, lookup_insert. case_decide as Ec.
  - apply cacheKey_inj in Ec as <-. intros [= <- <-]. left. split; [|done]. eapply seen_mono; [|done]. by right.
  - intros Hv. destruct (He code' v' x' Hv) as [[Hs' Hx']|?]; [left|by right]. split; [|done].
    eapply seen_mono; [|done]. by right.
Qed.

Lemma guarantee_tick h w n : guarantee h w → guarantee (set_step n w :: h) (set_step n w).
Proof. intros Hg. apply (guarantee_drop h w); [done| |done]. apply world_ok_step, Hg. Qed.

Lemma keeps_reads {A} (m : M A) : reads m → keeps m.
Proof. intros Hm h w Hg. destruct (Hm w) as (n & _ & ->). by apply guarantee_tick. Qed.

Lemma keeps_observes m : observes m → keeps m.
Proof.
  intros Hm h w Hg. destruct (Hm w) as [f ->]. apply (guarantee_drop h w); [done| |done]. apply world_ok_metrics, Hg.
Qed.

(** A statement that puts a well-formed row. *)
Lemma guarantee_row h w row :
  guarantee h w → schema (put_row row w) → link_wf row → guarantee (put_row row w :: h) (put_row row w).
Proof. intros Hg Hs Hr. apply (guarantee_drop h w); [done| |done]. by eapply (links_ok w); [apply Hg|..]. Qed.

Lemma schema_of h w : guarantee h w → schema w.
Proof. intros [[[] _] _ _ _]. done. Qed.

Lemma keeps_create l : link_wf l → keeps (LinkRepository.Create l).
Proof.
  intros Hl h w Hg. pose proof (Create_schema l w (schema_of h w Hg)) as Hs.
  destruct (Create_world l w) as [E|[E _]]; rewrite E in *.
  - by apply guarantee_tick.
  - apply guarantee_row; [done..|]. destruct Hl. by split.
Qed.

Lemma keeps_update l : link_wf l → keeps (LinkRepository.Update l).
Proof.
  intros Hl h w Hg. pose proof (Update_schema l w (schema_of h w Hg)) as Hs.
  destruct (Update_world l w (schema_of h w Hg)) as [E|(old & _ & _ & _ & E)]; rewrite E in *.
  - by apply guarantee_tick.
  - apply guarantee_row; [done..|]. destruct Hl. by split.
Qed.

Lemma keeps_delete t id : keeps (LinkRepository.SoftDelete t id).
Proof.
  intros h w Hg. pose proof (SoftDelete_schema t id w (schema_of h w Hg)) as Hs.
  destruct (SoftDelete_world t id w (schema_of h w Hg)) as [E|(old & Hold & _ & _ & E)]; rewrite E in *.
  - by apply guarantee_tick.
  - apply guarantee_row; [done..|]. destruct (db_links _ (ok_db _ (g_ok _ _ Hg)) _ _ Hold). by split.
Qed.
Lemma keeps_invalidate code : keeps (LinkService.invalidate links_svc code).
Proof.
  intros h w Hg. unfold LinkService.invalidate. destruct (linkService_parts cfg demoTenant fuel) as (_ & _ & ->).
  rewrite handled_world by (by intros [] ?).
  destruct (Invalidate_world code w) as [->| ->]; [by apply guarantee_tick|].
  apply (guarantee_drop h w); [done| |apply delete_subseteq]. apply world_ok_strs, world_ok_step, Hg.
Qed.

Lemma keeps_emit l : keeps (LinkService.emitCreated links_svc l).
Proof.
  intros h w Hg. pose proof (wired_sink cfg demoTenant fuel) as Hsink.
  destruct (emitCreated_world links_svc l w) as (Hd & _ & _).
  pose proof (emit_cache cfg demoTenant fuel (λ r, r = w_redis w) l w eq_refl) as Hr. simpl in Hr.
  apply (guarantee_drop h w); [done| |by rewrite Hr]. eapply world_ok_ext; [exact Hd|by rewrite Hr|apply Hg].
Qed.

(** ** The two writes of a resolution *)

(** The link is the row the code had in some state of the past. *)
Definition from_row (h : list World) (code : string) (l : Link.t) : Prop :=
  ∃ w0, w0 ∈ h ∧ world_ok w0 ∧ select_row (by_code code) (w_links w0) = Some l.

Lemma Set_guarantee h w code l :
  from_row h code l → guarantee h w →
  let w' := (LinkCache.Set_ (linkCache cfg) l w).2 in guarantee (w' :: h) w'.
Proof.
  intros (w0 & Hin & Hok & Hrow) Hg. cbv zeta. pose proof (db_schema _ (ok_db _ Hok)) as Hs.
  destruct (proj1 (select_by_code _ _ _ Hs) Hrow) as (Hl & Hcode & Hv).
  pose proof (ok_text _ Hs _ _ Hl) as Htext. pose proof (db_links _ (ok_db _ Hok) _ _ Hl) as Hwf.
  destruct (Set_world (linkCache cfg) l w) as [(n & _ & ->)|(v & x & Hm & -> & Hx)]; [by apply guarantee_tick|].
  subst code. apply (guarantee_set h w _ (Link.Code l) v x); [done| |done| |].
  - split; [apply Hg|]. apply cache_ok_insert; [by eapply entry_wf_link|apply Hg].
  - exists w0. split; [done|]. by eapply entry_positive.
  - intros [? _]. by apply Hx.
Qed.

Lemma SetNegative_guarantee h w w0 code :
  w0 ∈ h → select_row (by_code code) (w_links w0) = None → guarantee h w →
  let w' := (LinkCache.SetNegative (linkCache cfg) code w).2 in guarantee (w' :: h) w'.
Proof.
  intros Hin Hrow Hg. cbv zeta.
  destruct (SetNegative_world (linkCache cfg) code w) as [->|(x & -> & Hx)]; [by apply guarantee_tick|].
  apply (guarantee_set h w _ code negativeMarker x); [done| |done| |].
  - split; [apply Hg|]. apply cache_ok_insert; [apply entry_wf_negative|apply Hg].
  - exists w0. split; [done|]. by apply entry_negative.
  - intros [_ ?]. by apply Hx.
Qed.

(** ** The other calls *)

(** A call away from the tables and the cache. *)
Definition aside {A} (m : M A) : Prop := ∀ w, w_db (m w).2 = w_db w ∧ w_redis (m w).2 = w_redis w.

Lemma keeps_aside {A} (m : M A) : aside m → keeps m.
Proof.
  intros Hm h w Hg. destruct (Hm w) as [Hd Hr]. apply (guarantee_drop h w); [done| |by rewrite Hr].
  eapply world_ok_ext; [exact Hd|by rewrite Hr|apply Hg].
Qed.

(** A statement on the webhooks. *)
Lemma keeps_hooks {A} (m : M A) :
  preserves world_ok m → (∀ x, preserves (λ w, w_redis w = x) m) → keeps m.
Proof.
  intros Hm Hr h w Hg. apply (guarantee_drop h w); [done|apply Hm, Hg|by rewrite (Hr (w_redis w) w eq_refl)].
Qed.

Lemma keeps_hook_create hk : NetUrl.valid_url (Webhook.URL hk) → keeps (WebhookRepository.Create hk).
Proof.
  intros Hu. apply keeps_hooks.
  - apply hook_op_ok.
    + intros x. unfold WebhookRepository.Create, insert_webhook. preserve; done.
    + by apply Create_sound.
  - intros x. unfold WebhookRepository.Create, insert_webhook. preserve; done.
Qed.

Lemma keeps_hook_delete t id : keeps (WebhookService.Delete t id).
Proof.
  apply keeps_hooks; [apply hook_delete_ok|]. intros x.
  unfold WebhookService.Delete, WebhookRepository.DeleteForTenant, delete_webhook. preserve; done.
Qed.

Lemma keeps_script key t win limit member : keeps (RedisRateLimiter.run_script key t win limit member).
Proof.
  intros h w Hg. assert (Hs : preserves (λ w', world_ok w' ∧ strs w' = strs w) (RedisRateLimiter.run_script key t win limit member)).
  { unfold RedisRateLimiter.run_script. preserve.
    all: match goal with H : _ ∧ _ |- _ => destruct H as [Ho Hr] end;
      (split; [first [by apply world_ok_step|by apply world_ok_zsets]|exact Hr]). }
  destruct (Hs w) as [Hok Hr]; [split; [apply Hg|done]|]. apply (guarantee_drop h w); [done|done|by rewrite Hr].
Qed.
End guarantee.

(** * Footprints in the tables *)

Section footprints.
Context `{O : Oracle}.

Lemma footprint_row t row w :
  Link.TenantID row = t → (∀ old, w_links w !! Link.ID row = Some old → Link.TenantID old = t) →
  but_tenant t (w_db (put_row row w)) = but_tenant t (w_db w).
Proof. intros Hr Ho. apply but_tenant_others. by apply others_insert. Qed.

Lemma footprint_create l : isolated (Link.TenantID l) (LinkRepository.Create l).
Proof.
  intros w _. destruct (Create_world l w) as [->|(-> & Hn & _)]; [done|].
  apply footprint_row; [done|]. intros old Ho. simpl in Ho. by rewrite Hn in Ho.
Qed.

Lemma footprint_update l : isolated (Link.TenantID l) (LinkRepository.Update l).
Proof.
  intros w Hs. destruct (Update_world l w Hs) as [->|(old & Ho & Ht & _ & ->)]; [done|].
  apply footprint_row; [done|]. intros old' Ho'. simpl in Ho'. rewrite (ok_key _ Hs _ _ Ho), Ho in Ho'. by simplify_eq.
Qed.

Lemma footprint_delete t id : isolated t (LinkRepository.SoftDelete t id).
Proof.
  intros w Hs. destruct (SoftDelete_world t id w Hs) as [->|(old & Ho & Ht & _ & ->)]; [done|].
  apply footprint_row; [done|]. intros old' Ho'. simpl in Ho'. rewrite (ok_key _ Hs _ _ Ho), Ho in Ho'. by simplify_eq.
Qed.
End footprints.

(** * Safe programs *)

Section safety.
Context `{O : Oracle} `{Codec} (cfg : Config.t) (stale : string → string * option Time → Prop).
(** What a program may do to the tables with a call made in a past, and whether it may
    panic: the one panic there is stands for the fuel of the code generator run out. *)
Context (G : list World → World → World → Prop) (P : Prop).

Abbreviation guarantee := (guarantee cfg stale).
Abbreviation keeps := (keeps cfg stale).

(** Started in the past [h], the program keeps the guarantee with every call, whatever
    the others do meanwhile, and its outcome satisfies [Q] of the past it ends in. *)
Fixpoint safe {A} (Q : list World → res A → Prop) (h : list World) (p : Prog A) : Prop :=
  match p with
  | Done r => Q h r
  | Call m k => ∀ h' w, h ⊆ h' → guarantee h' w →
      let o := m w in guarantee (o.2 :: h') o.2 ∧ G h' w o.2 ∧ safe Q (o.2 :: h') (k o.1)
  end.

(** The value of a program that may fail, and panic only where it may. *)
Definition yields {A} (V : list World → A → Prop) (h : list World) (r : res A) : Prop :=
  match r with Ok a => V h a | Err _ => True | Panic _ => P end.

Definition monotone {A} (Q : list World → A → Prop) : Prop := ∀ h h' a, h ⊆ h' → Q h a → Q h' a.

Lemma yields_mono {A} (V : list World → A → Prop) : monotone V → monotone (yields V).
Proof. intros HV h h' [a|e|s] Hh; simpl; [by apply HV|done..]. Qed.

Lemma safe_mono {A} (Q : list World → res A → Prop) h h' p : monotone Q → h ⊆ h' → safe Q h p → safe Q h' p.
Proof.
  intros HQ Hh. destruct p as [r|X m k]; simpl; [by apply HQ|]. intros Hp h2 w Hh2. apply Hp. by etrans.
Qed.

Lemma safe_weaken {A} (Q Q' : list World → res A → Prop) h p :
  (∀ h' r, h ⊆ h' → Q h' r → Q' h' r) → safe Q h p → safe Q' h p.
Proof.
  revert h. induction p as [r|X m k IH]; intros h HQ; simpl; [by apply HQ|].
  intros Hp h' w Hh Hg. destruct (Hp h' w Hh Hg) as (Hg' & HG & Hs). split_and!; [done..|].
  eapply IH; [|exact Hs]. intros h2 r Hh2. apply HQ. etrans; [exact Hh|]. etrans; [|exact Hh2]. intros x. by right.
Qed.

(** ** The rules *)

Lemma safe_bind {A B} S (V : list World → B → Prop) h (p : Prog A) (f : A → Prog B) :
  safe (yields S) h p → (∀ h' a, h ⊆ h' → S h' a → safe (yields V) h' (f a)) → safe (yields V) h (p ≫= f).
Proof.
  revert h. induction p as [r|X m k IH]; intros h.
  - destruct r as [a|e|s]; simpl; [|done..]. intros Ha Hf. by apply Hf.
  - intros Hp Hf h' w Hh Hg. destruct (Hp h' w Hh Hg) as (Hg' & HG & Hs). split_and!; [done..|].
    apply IH; [exact Hs|]. intros h2 a Hh2. apply Hf. etrans; [exact Hh|]. etrans; [|exact Hh2]. intros x. by right.
Qed.

Lemma safe_caught {A B} (Q : list World → res B → Prop) (f : res A → res B) h p :
  safe (λ h r, Q h (f r)) h p → safe Q h (caught f p).
Proof.
  revert h. induction p as [r|X m k IH]; intros h; [done|]. intros Hp h' w Hh Hg.
  destruct (Hp h' w Hh Hg) as (Hg' & HG & Hs). split_and!; [done..|]. by apply IH.
Qed.

Lemma safe_tries {A} (V : list World → A → Prop) h (p : Prog A) :
  safe (yields V) h p → safe (yields (λ h r, match r with inl a => V h a | inr _ => True end)) h (tries p).
Proof. intros Hp. apply safe_caught. eapply safe_weaken; [|exact Hp]. by intros h' [a|e|s]. Qed.

(** What a call owes, in the past [h] and later. *)
Record fits {A} (h : list World) (m : M A) : Prop := {
  fits_keeps h' w : h ⊆ h' → guarantee h' w → guarantee ((m w).2 :: h') (m w).2;
  fits_within h' w : h ⊆ h' → guarantee h' w → G h' w (m w).2;
  fits_panics w s w' : m w = (Panic s, w') → P;
}.

Lemma fits_mono {A} h h' (m : M A) : h ⊆ h' → fits h m → fits h' m.
Proof.
  intros Hh [Hk Hw Hn]. split; [|..|done]; intros h2 w Hh2; [apply Hk|apply Hw]; by etrans.
Qed.

(** A call was made: its outcome, in the past it left. *)
Definition came {A} (h : list World) (m : M A) (r : res A) (h1 : list World) : Prop :=
  ∃ h0 w w', h1 = w' :: h0 ∧ h ⊆ h0 ∧ guarantee h0 w ∧ m w = (r, w').

Lemma came_past {A} h (m : M A) r h1 : came h m r h1 → h ⊆ h1.
Proof. intros (h0 & w & w' & -> & Hh & _) x Hx. right. by apply Hh. Qed.

Lemma safe_call {A} (V : list World → A → Prop) h (m : M A) :
  fits h m → (∀ h1 a, came h m (Ok a) h1 → V h1 a) → safe (yields V) h (invoke m).
Proof.
  intros Hm HV h' w Hh Hg. cbv zeta. split_and!; [by apply Hm|by apply Hm|]. simpl.
  destruct (m w) as [[a|e|s] w'] eqn:E; simpl; [|done|by eapply (fits_panics _ _ Hm)].
  apply HV. by exists h', w, w'.
Qed.

(** A call whose error is returned, and one whose error is inspected. *)
Lemma safe_invoke {A B} (V : list World → B → Prop) h (m : M A) (f : A → Prog B) :
  fits h m → (∀ h1 a, h ⊆ h1 → came h m (Ok a) h1 → safe (yields V) h1 (f a)) → safe (yields V) h (invoke m ≫= f).
Proof.
  intros Hm Hf. apply (safe_bind (λ h1 a, came h m (Ok a) h1)); [by apply safe_call|]. intros h1 a Hh. by apply Hf.
Qed.

Lemma safe_try {A B} (V : list World → B → Prop) h (m : M A) (f : A + error → Prog B) :
  fits h m →
  (∀ h1 a, h ⊆ h1 → came h m (Ok a) h1 → safe (yields V) h1 (f (inl a))) →
  (∀ h1 e, h ⊆ h1 → came h m (Err e) h1 → safe (yields V) h1 (f (inr e))) →
  safe (yields V) h (tries (invoke m) ≫= f).
Proof.
  intros Hm Hok Herr. apply (safe_bind (λ h1 r, match r with inl a => came h m (Ok a) h1 | inr e => came h m (Err e) h1 end)).
  - apply safe_caught. intros h' w Hh Hg. cbv zeta. split_and!; [by apply Hm|by apply Hm|]. simpl.
    destruct (m w) as [[a|e|s] w'] eqn:E; simpl; [by exists h', w, w'..|by eapply (fits_panics _ _ Hm)].
  - intros h1 [a|e] Hh Hc; [by apply Hok|by apply Herr].
Qed.

Lemma safe_checked {B} (V : list World → B → Prop) h c (f : () → Prog B) :
  (c = None → safe (yields V) h (f ())) → safe (yields V) h (checked c ≫= f).
Proof. destruct c; intros Hf; [done|by apply Hf]. Qed.

(** ** Calls *)

(** The footprint allows a call that leaves the tables alone, and, from [h] on, one that
    changes the links and webhooks of [t]. *)
Definition may (t : UUID) (h : list World) : Prop :=
  ∀ h' w w', h ⊆ h' → but_tenant t (w_db w') = but_tenant t (w_db w) → G h' w w'.

Lemma may_mono t h h' : h ⊆ h' → may t h → may t h'.
Proof. intros Hh Hm h2 w w' Hh2. apply Hm. by etrans. Qed.

Context (Hquiet : ∀ h w w', w_db w' = w_db w → G h w w').

Lemma fits_intro {A} h (m : M A) :
  (∀ h' w, h ⊆ h' → guarantee h' w → guarantee ((m w).2 :: h') (m w).2) → (∀ w, w_db (m w).2 = w_db w) →
  no_panic m → fits h m.
Proof. intros Hk Hd Hn. split; [exact Hk|intros h' w _ _; apply Hquiet, Hd|by intros w s w' ?%Hn]. Qed.

Lemma fits_quiet {A} h (m : M A) : keeps m → (∀ w, w_db (m w).2 = w_db w) → no_panic m → fits h m.
Proof. intros Hk. apply fits_intro. intros h' w _. apply Hk. Qed.

Lemma fits_reads {A} h (m : M A) : reads m → no_panic m → fits h m.
Proof. intros Hm. apply fits_quiet; [by apply keeps_reads|]. intros w. by destruct (Hm w) as (n & _ & ->). Qed.

Lemma fits_aside {A} h (m : M A) : aside m → no_panic m → fits h m.
Proof. intros Hm. apply fits_quiet; [by apply keeps_aside|]. apply Hm. Qed.

Lemma fits_observes h m : observes m → fits h m.
Proof.
  intros Hm. apply fits_aside; [|by intros w s w' E; destruct (Hm w) as [f E']; rewrite E in E'].
  intros w. by destruct (Hm w) as [f ->].
Qed.

Lemma fits_owned {A} t h (m : M A) : may t h → keeps m → isolated t m → no_panic m → fits h m.
Proof.
  intros HG Hk Hi Hn. split; [intros h' w _; apply Hk| |by intros w s w' ?%Hn].
  intros h' w Hh Hg. by eapply HG, Hi, schema_of.
Qed.
End safety.
