(* ===== verification/Safety.v ===== *)
(** Every request is safe.  Rule by rule along the code, the programs of Programs.v are
    shown to keep the guarantee of Guarantee.v: each call of a request to the API changes
    its own tenant's links and webhooks at most, and what it answers shows that tenant's
    rows as they were in some state of the past; a redirect shows a row its code had. *)
From stdpp Require Import prelude gmap strings list relations sorting.
From S2P Require Import Prelude GoStd Rfc3339 Json NetUrl Domain Wire Enrich World Schema LinkRepo LinkCache Shortcode LinkService.
From S2P Require Import Counters Redirect Coherence KeyRepo Auth WebhookRepo WebhookService ClickRepo Stats RateLimit.
From S2P Require Import Ingest Delivery Notifier Config Http Observe Handlers Server Janitor Invariant System Programs Healing.
From S2P Require Import LinkServiceSpec Guarantee.

Local Open Scope Z_scope.

(** What a client asks for: the route gin matched, and gin's context. *)
Abbreviation request := (option route * Ctx.t)%type (only parsing).

(** * What a request shows *)

(** Entries that may be in the cache without agreeing with the past that is considered. *)
Abbreviation stale_entries := (string → string * option Time → Prop) (only parsing).

(** Such an entry of the code was there, not expired, in some state of the past. *)
Definition misled `{O : Oracle} (stale : stale_entries) (code : string) (h : list World) : Prop :=
  ∃ w v x, w ∈ h ∧ stale code (v, x) ∧ is_Some (Redis.visible (o_now (w_step w)) (v, x)).

(** The link is, as far as a redirect shows it, the row the code had in some state; or the
    cache misled. *)
Definition answered `{O : Oracle} (stale : stale_entries) (h : list World) (code : string) (l : Link.t) : Prop :=
  (∃ w0 row, w0 ∈ h ∧ schema w0 ∧ select_row (by_code code) (w_links w0) = Some row ∧ same_link row l)
  ∨ misled stale code h.

(** And it was active at a reading of the clock. *)
Definition served `{O : Oracle} (stale : stale_entries) (code : string) (h : list World) (l : Link.t) : Prop :=
  answered stale h code l ∧ ∃ w1, w1 ∈ h ∧ Link.IsActive l (o_now (w_step w1)) = true.

(** Rows of a tenant, in some state of the past. *)
Definition own_links (t : UUID) (h : list World) (ls : list Link.t) : Prop :=
  ∃ w0, w0 ∈ h ∧ Forall (λ l, w_links w0 !! Link.ID l = Some l ∧ Link.TenantID l = t) ls.

Definition own_hooks (t : UUID) (h : list World) (ws : list Webhook.t) : Prop :=
  ∃ w0, w0 ∈ h ∧ Forall (λ x, DB.webhooks (w_db w0) !! Webhook.ID x = Some x ∧ Webhook.TenantID x = t) ws.

(** The clicks a rollup is about. *)
Definition stats_clicks `{O : Oracle} (t : UUID) (s : LinkStats.t) (w : World) : list Click.t :=
  link_clicks t (LinkStats.LinkID s) (o_timestamptz (LinkStats.From s)) (o_timestamptz (LinkStats.To s)) (w_db w).

Definition own_link (t : UUID) (h : list World) (l : Link.t) : Prop := own_links t h [l].
Definition own_hook (t : UUID) (h : list World) (x : Webhook.t) : Prop := own_hooks t h [x].

(** The rollup of a link of [t]: each of its parts counts the clicks of that tenant and
    that link in the window, in some state of the past. *)
Record counted `{O : Oracle} `{Collation} (t : UUID) (h : list World) (s : LinkStats.t) : Prop := {
  cnt_total : ∃ w0, w0 ∈ h ∧ LinkStats.TotalClicks s = Z.of_nat (length (stats_clicks t s w0));
  cnt_series : ∃ w0, w0 ∈ h ∧ series_of (LinkStats.bucket s) (stats_clicks t s w0) (LinkStats.Series s);
  cnt_referrers : ∃ w0, w0 ∈ h ∧
    breakdown (λ c, coalesce "(direct)" (Click.Referrer c)) (stats_clicks t s w0) (LinkStats.TopReferrers s);
  cnt_countries : ∃ w0, w0 ∈ h ∧
    breakdown (λ c, coalesce "(unknown)" (Click.Country c)) (stats_clicks t s w0) (LinkStats.TopCountries s);
  cnt_devices : ∃ w0, w0 ∈ h ∧
    breakdown (λ c, coalesce "unknown" (Click.Device c)) (stats_clicks t s w0) (LinkStats.Devices s);
}.

(** The totals of [t]: its live links and its clicks in one state, and the codes most
    clicked, by the number of its clicks, in one state. *)
Definition totalled `{Collation} (t : UUID) (h : list World) (o : TenantOverview.t) : Prop :=
  (∃ w0, w0 ∈ h ∧ TenantOverview.TotalLinks o = Z.of_nat (length (tenant_links t (w_db w0)))
     ∧ TenantOverview.TotalClicks o = Z.of_nat (length (tenant_clicks t (w_db w0))))
  ∧ ∃ w0, w0 ∈ h ∧ breakdown (clicked_code (w_db w0)) (tenant_clicks t (w_db w0)) (TenantOverview.TopLinks o).

(** What the body of a response to [t] may show. *)
Definition shows `{O : Oracle} `{Codec} `{Collation} (base : LinkHandler.t) (t : UUID) (h : list World) (b : body) : Prop :=
  match b with
  | BLink x => ∃ l, own_link t h l ∧ x = LinkHandler.toResponse base l
  | BLinks xs n => ∃ ls, own_links t h ls ∧ xs = LinkHandler.toResponse base <$> ls ∧ n = Z.of_nat (length ls)
  | BWebhook x => ∃ k, own_hook t h k ∧ x = toWebhookResponse k true
  | BWebhooks xs n => ∃ ks, own_hooks t h ks ∧ xs = (λ k, toWebhookResponse k false) <$> ks ∧ n = Z.of_nat (length ks)
  | BStats s => ∃ l, own_link t h l ∧ LinkStats.LinkID s = Link.ID l ∧ counted t h s
  | BOverview o => totalled t h o
  | BNone | BError _ _ => True
  | BStatus _ | BChecks _ _ | BRedirect _ => False
  end.

Definition nothing {A} (h : list World) (a : A) : Prop := True.

Lemma own_links_mono t : monotone (own_links t).
Proof. intros h h' ls Hh (w0 & Hw & Hl). exists w0. split; [by apply Hh|done]. Qed.
Lemma own_hooks_mono t : monotone (own_hooks t).
Proof. intros h h' ls Hh (w0 & Hw & Hl). exists w0. split; [by apply Hh|done]. Qed.

Lemma answered_mono `{O : Oracle} stale h h' code l : h ⊆ h' → answered stale h code l → answered stale h' code l.
Proof.
  intros Hh [(w0 & row & Hw0 & ?)|(w & v & x & Hw & ?)]; [left; exists w0, row|right; exists w, v, x];
    (split; [by apply Hh|done]).
Qed.

Lemma served_monotone `{O : Oracle} stale code : monotone (served stale code).
Proof.
  intros h h' l Hh [Ha (w1 & Hw1 & ?)]. split; [by eapply answered_mono|]. exists w1. split; [by apply Hh|done].
Qed.

Lemma counted_mono `{O : Oracle} `{Collation} t : monotone (counted t).
Proof.
  intros h h' s Hh [(w1 & ? & ?) (w2 & ? & ?) (w3 & ? & ?) (w4 & ? & ?) (w5 & ? & ?)].
  split; [exists w1|exists w2|exists w3|exists w4|exists w5]; (split; [by apply Hh|done]).
Qed.

Lemma totalled_mono `{Collation} t : monotone (totalled t).
Proof.
  intros h h' o Hh [(w1 & ? & ?) (w2 & ? & ?)]. split; [exists w1|exists w2]; (split; [by apply Hh|done]).
Qed.

Lemma shows_mono `{O : Oracle} `{Codec} `{Collation} base t : monotone (shows base t).
Proof.
  intros h h' b Hh. pose proof (own_links_mono t h h') as Hl. pose proof (own_hooks_mono t h h') as Hk.
  destruct b as [|? ?|x|xs n|x|xs n|s|o|?|? ?|?]; simpl; try done.
  6: by apply totalled_mono.
  5: { intros (l & ? & ? & ?). exists l. split_and!; [by apply Hl|done|by eapply counted_mono]. }
  all: intros (y & Hy & ?); exists y; (split; [first [by apply Hl|by apply Hk]|done]).
Qed.

(** * The services are safe *)

Section services.
Context `{O : Oracle} `{Codec} `{!CodecLaws} `{Binding} `{Collation} `{Gin}.
Context (cfg : Config.t) (demoTenant : option Tenant.t) (fuel : nat).
Context (stale : stale_entries) (G : list World → World → World → Prop) (P : Prop) (Hquiet : ∀ h w w', w_db w' = w_db w → G h w w').

Abbreviation guarantee := (guarantee cfg stale).
Abbreviation safe := (safe cfg stale G).
Abbreviation fits := (fits cfg stale G P).
Abbreviation yields := (yields P).
Abbreviation links_svc := (linkService cfg demoTenant fuel).
Abbreviation redirect_svc := (redirectService cfg).

Local Ltac fits_reads := apply fits_reads; [exact Hquiet|try solve [reads]|try solve [no_panic]].
Local Ltac fits_aside := apply fits_aside; [exact Hquiet| |try solve [no_panic]].

Lemma fits_now h : fits h now.
Proof. fits_reads. Qed.

(** ** Redirects *)

Lemma observe_laws o : RedirectService.observer redirect_svc = Some o → CacheObserver.laws o.
Proof. intros [= <-]. apply Metrics_CacheObserver_laws. Qed.

Lemma active_safe h code l : answered stale h code l → safe (yields (served stale code)) h (active_prog l).
Proof.
  intros Ha. apply safe_invoke; [apply fits_now|].
  intros h1 t Hh (h0 & w & w' & -> & Hh0 & Hg & [-> ->]%now_Ok).
  destruct (Link.IsActive l _) eqn:Hact; simpl; [|done]. split; [by eapply answered_mono|].
  exists w. split; [right; apply (g_here _ _ _ _ Hg)|done].
Qed.

Lemma fits_Set h code l : from_row h code l → fits h (LinkCache.Set_ (linkCache cfg) l).
Proof.
  intros Hl. apply fits_intro; [exact Hquiet| | |apply Set_no_panic].
  - intros h' w Hh Hg. apply (Set_guarantee cfg stale h' w code l); [|done].
    destruct Hl as (w0 & Hw0 & ?). exists w0. split; [by apply Hh|done].
  - intros w. by destruct (Set_world (linkCache cfg) l w) as [(n & _ & ->)|(v & x & _ & -> & _)].
Qed.

Lemma fits_SetNegative h w0 code :
  w0 ∈ h → select_row (by_code code) (w_links w0) = None → fits h (LinkCache.SetNegative (linkCache cfg) code).
Proof.
  intros Hw0 Hn. apply fits_intro; [exact Hquiet| | |apply SetNegative_no_panic].
  - intros h' w Hh Hg. apply (SetNegative_guarantee cfg stale h' w w0 code); [by apply Hh|done..].
  - intros w. by destruct (SetNegative_world (linkCache cfg) code w) as [->|(x & -> & _)].
Qed.

Lemma one_row_no_panic what q : no_panic q → no_panic (LinkRepository.one_row what q).
Proof. intros Hq. unfold LinkRepository.one_row. no_panic. Qed.

Lemma query_row_no_panic texts f : no_panic (LinkRepository.query_row texts f).
Proof. unfold LinkRepository.query_row. no_panic. Qed.

Lemma fits_GetByCode h code : fits h (LinkRepository.GetByCode code).
Proof.
  apply fits_quiet; [exact Hquiet| | |apply one_row_no_panic, query_row_no_panic].
  - intros h1 w Hg. rewrite GetByCode_world. by apply guarantee_tick.
  - intros w. by rewrite GetByCode_world.
Qed.

Lemma from_db_safe h code : safe (yields (served stale code)) h (from_db_prog cfg code).
Proof.
  apply safe_try; [apply fits_GetByCode|..].
  - intros h1 l _ (h0 & w & w1 & -> & _ & Hg & E). pose proof (schema_of _ _ _ _ Hg) as Hs.
    apply GetByCode_Ok in E as (Hl & Hc & Hv & _); [|done].
    assert (Hrow : select_row (by_code code) (w_links w) = Some l) by by apply select_by_code.
    assert (Hfrom : from_row (w1 :: h0) code l).
    { exists w. split; [right; apply (g_here _ _ _ _ Hg)|]. split; [apply Hg|done]. }
    assert (Hans : answered stale (w1 :: h0) code l).
    { left. exists w, l. split_and!; [right; apply (g_here _ _ _ _ Hg)|done..|apply same_link_refl]. }
    apply safe_try; [by eapply fits_Set|..]; intros h2 ? Hh2 _; apply active_safe; by eapply answered_mono.
  - intros h1 e _ (h0 & w & w1 & -> & _ & Hg & E). apply one_row_Err in E as [[-> Hnone]|[_ Hall]]; [|by rewrite Hall].
    cbn [Is]. change (Is (ESentinel ErrNotFound) ErrNotFound) with true. cbv iota.
    apply safe_try; [|done..]. apply (fits_SetNegative _ w); [right; apply (g_here _ _ _ _ Hg)|done].
Qed.

Lemma resolve_safe h code : safe (yields (served stale code)) h (resolve_prog cfg code).
Proof.
  assert (Hmiss : ∀ h, safe (yields (served stale code)) h (invoke (RedirectService.observeMiss redirect_svc);; from_db_prog cfg code)).
  { intros h1. apply safe_invoke; [apply fits_observes, observeMiss_spec, observe_laws; exact Hquiet|].
    intros. apply from_db_safe. }
  assert (Hhit : ∀ h, fits h (RedirectService.observeHit redirect_svc)).
  { intros h1. apply fits_observes, observeHit_spec, observe_laws; exact Hquiet. }
  apply safe_try; [|intros h1 [[l|] []] _ (h0 & w & w1 & -> & _ & Hg & E); try apply Hmiss|intros; apply Hmiss].
  { apply fits_quiet; [exact Hquiet| | |apply Get_no_panic].
    - intros h1 w Hg. destruct (Get_world code w) as [n ->]. by apply guarantee_tick.
    - intros w. by destruct (Get_world code w) as [n ->]. }
  - apply Get_Ok in E as (v & x & cl & Hv & Hvis & Hne & Hj & Ht).
    apply safe_invoke; [apply Hhit|]. intros h2 [] Hh _. apply active_safe.
    destruct (g_entry _ _ _ _ Hg code v x Hv) as [[(w0 & Hw0 & He) _]|Hstale].
    2: { right. exists w, v, x. split; [apply Hh; right; apply (g_here _ _ _ _ Hg)|done]. }
    unfold entry_ok in He. rewrite decide_False in He by done.
    destruct (He cl l Hj Ht) as (row & Hrow & Hsame). left. exists w0, row.
    split; [apply Hh; by right|]. split_and!; [|done..]. apply (db_schema _ (ok_db _ (g_past _ _ _ _ Hg w0 Hw0))).
  - apply safe_invoke; [apply Hhit|]. done.
Qed.

(** ** The click of a redirect *)

Lemma enqueue_safe h e : safe (yields nothing) h (enqueue_prog cfg e).
Proof.
  apply safe_invoke; [apply fits_aside; [exact Hquiet|by intros w|no_panic]|]. intros h1 [] _ _; [|done].
  apply safe_call; [|done]. apply fits_aside; [exact Hquiet| |unfold Enqueue_send, when_obs; simpl; no_panic].
  intros w. unfold Enqueue_send, when_obs. rewrite gets_bind. by case_match.
Qed.

(** ** Links *)

Lemma emit_safe h l : safe (yields nothing) h (emit_prog cfg l).
Proof.
  apply safe_invoke; [unfold stamp_id; fits_reads|]. intros h1 ev _ _.
  apply safe_invoke; [unfold stamp_time; fits_reads|]. intros h2 ev' _ _.
  apply safe_invoke; [|done]. fits_aside; [|unfold offer_event; no_panic].
  intros w. rewrite offer_event_run. by repeat case_match.
Qed.

Lemma fits_insert h l : link_wf l → may G (Link.TenantID l) h → fits h (LinkRepository.Create l).
Proof.
  intros Hl Hm. eapply fits_owned; [exact Hm|by apply keeps_create|apply footprint_create|].
  unfold LinkRepository.Create, insert_link. no_panic.
Qed.

(** The row a statement stored is the tenant's. *)
Lemma own_put t h w row : Link.TenantID row = t → own_link t (put_row row w :: h) row.
Proof.
  intros Ht. exists (put_row row w). split; [by left|]. apply Forall_singleton. simpl. by rewrite lookup_insert_eq.
Qed.

Lemma inserted_own h l h1 row : came cfg stale h (LinkRepository.Create l) (Ok row) h1 → own_link (Link.TenantID l) h1 row.
Proof. intros (h0 & w & w' & -> & _ & _ & (-> & -> & _)%Create_Ok). by apply own_put. Qed.

Lemma fits_clamp h t e : fits h (LinkService.clampDemoExpiry links_svc t e).
Proof. unfold LinkService.clampDemoExpiry. fits_reads. Qed.

(** The fuel of the generator may run out. *)
Lemma fits_gen h : P → fits h (LinkService.gen links_svc).
Proof.
  intros HP. assert (Hr : reads (LinkService.gen links_svc)) by apply generate_reads. split; [| |done].
  - intros h' w _. by apply keeps_reads.
  - intros h' w _ _. apply Hquiet. by destruct (Hr w) as (n & _ & ->).
Qed.

Lemma allocate_safe n h t l :
  P →
  (∀ code, link_wf (LinkService.with_code code l)) → Link.TenantID l = t → may G t h →
  safe (yields (own_link t)) h (allocate_prog cfg demoTenant fuel n l).
Proof.
  intros HP Hl Ht. revert h. induction n as [|n IH]; intros h Hm; [done|]. cbn [allocate_prog].
  apply safe_try; [by apply fits_gen|intros h1 code Hh _|done].
  apply (may_mono _ _ _ _ Hh) in Hm.
  apply safe_try; [apply fits_insert; [done|by rewrite <- Ht in Hm]|..].
  - intros h2 row _ Hc. apply inserted_own in Hc. by rewrite <- Ht.
  - intros h2 e Hh2 _. cbv beta iota. destruct (Is e ErrConflict); [|done]. apply IH. by eapply may_mono.
Qed.

Lemma create_safe h t inp :
  P → may G t h → safe (yields (own_link t)) h (create_prog cfg demoTenant fuel t inp).
Proof.
  intros HP Hm. unfold create_prog. apply safe_checked. intros Hurl.
  destruct (LinkService.normalizeRedirectType _) as [rt|] eqn:Hrt; [|done].
  apply safe_invoke; [unfold LinkService.validateExpiry; fits_reads|]. intros h1 u1 Hh1 _.
  apply safe_checked. intros Hmax.
  apply safe_invoke; [apply fits_clamp|]. intros h2 e Hh2 _. cbv zeta.
  assert (Hwf : ∀ code, link_wf (LinkService.with_code code (LinkService.create_row t inp rt e))).
  { intros code. apply validateURL_spec in Hurl as [_ Hurl]. apply normalizeRedirectType_inl in Hrt as [Hrt _].
    split; [by apply valid_web_url|exact Hrt|by apply validateMaxClicks_None]. }
  assert (Hm2 : may G t h2) by (eapply may_mono, Hm; by etrans).
  apply (safe_bind _ _ _ _ (own_link t)).
  - destruct (negb (String.eqb _ "")); [|by apply allocate_safe].
    destruct (negb (ValidAlias _)); [done|]. apply safe_call; [by apply fits_insert|].
    intros h3 row Hc. by apply inserted_own in Hc.
  - intros h3 l Hh3 Hl. apply (safe_bind _ _ _ _ nothing); [apply emit_safe|].
    intros h4 u Hh4 _. simpl. by eapply own_links_mono.
Qed.

Lemma fits_get h t id : fits h (LinkRepository.GetByIDForTenant t id).
Proof.
  apply fits_quiet; [exact Hquiet| | |apply one_row_no_panic, query_row_no_panic].
  - intros h1 w Hg. rewrite GetByIDForTenant_world. by apply guarantee_tick.
  - intros w. by rewrite GetByIDForTenant_world.
Qed.

(** The row read is the tenant's. *)
Lemma got_own h t id h1 l :
  came cfg stale h (LinkRepository.GetByIDForTenant t id) (Ok l) h1 → own_link t h1 l ∧ Link.ID l = id ∧ link_wf l.
Proof.
  intros (h0 & w & w' & -> & _ & Hg & E). pose proof (schema_of _ _ _ _ Hg) as Hs.
  apply GetByIDForTenant_Ok in E as (Hl & Ht & _ & ->); [|done]. pose proof (ok_key _ Hs _ _ Hl) as Hk.
  split_and!; [|done|by apply (db_links _ (ok_db _ (g_ok _ _ _ _ Hg)) _ _ Hl)].
  exists w. split; [right; apply (g_here _ _ _ _ Hg)|]. apply Forall_singleton. by rewrite Hk.
Qed.

Lemma fits_invalidate h code : fits h (LinkService.invalidate links_svc code).
Proof.
  pose proof (wired_cache cfg demoTenant fuel) as Hinv.
  assert (Hw : ∀ w, w_db (LinkService.invalidate links_svc code w).2 = w_db w
      ∧ (LinkService.invalidate links_svc code w).1 = Ok ()).
  { intros w. by destruct (invalidate_world links_svc code w) as (? & _ & ?). }
  apply fits_quiet; [exact Hquiet|apply keeps_invalidate|apply Hw|].
  intros w s w' E. destruct (Hw w) as [_ Hr]. by rewrite E in Hr.
Qed.

Lemma update_safe h t id inp :
  may G t h → safe (yields (own_link t)) h (update_prog cfg demoTenant fuel t id inp).
Proof.
  intros Hm. apply safe_invoke; [apply fits_get|]. intros h1 old Hh1 (Hown & Hid & Hwf)%got_own.
  assert (Ht : Link.TenantID old = t) by (destruct Hown as (? & _ & [[_ ?] _]%Forall_cons); done).
  apply safe_invoke.
  { fits_reads; [apply patch_reads|].
    unfold LinkService.patch, LinkService.patch_url, LinkService.patch_redirect, LinkService.patch_expiry,
      LinkService.patch_max, LinkService.validateExpiry. no_panic. }
  intros h2 l Hh2 (h0 & w & w' & -> & _ & _ & [-> Hval]%patch_Ok).
  apply safe_invoke; [apply fits_clamp|]. intros h3 e Hh3 _.
  assert (Hm3 : may G t h3) by (eapply may_mono, Hm; etrans; [exact Hh1|by etrans]).
  apply safe_invoke.
  { eapply fits_owned; [|apply keeps_update|apply footprint_update|unfold LinkRepository.Update, update_link; no_panic].
    - simpl. by rewrite Ht.
    - destruct (update_wf inp _ e 0 old Hval Hwf). by split. }
  intros h4 row Hh4 (h0' & w4 & w4' & -> & _ & Hg4 & E). apply Update_Ok in E as (old' & _ & Ho & _ & -> & -> & _);
    [|by eapply schema_of].
  match goal with |- context [put_row ?r _] => set (row := r) end.
  assert (Hrow : own_link t (put_row row w4 :: h0') row) by (apply own_put; simpl in *; congruence).
  apply safe_invoke; [apply fits_invalidate|]. intros h5 u5 Hh5 _.
  apply (safe_bind _ _ _ _ nothing).
  { destruct (negb _); [|done]. apply safe_call; [apply fits_invalidate|done]. }
  intros h6 u6 Hh6 _. simpl. eapply own_links_mono; [|exact Hrow]. by etrans.
Qed.

Lemma delete_safe h t id : may G t h → safe (yields nothing) h (delete_prog cfg demoTenant fuel t id).
Proof.
  intros Hm. apply safe_invoke; [apply fits_get|]. intros h1 l Hh1 _.
  apply safe_invoke.
  { eapply fits_owned; [by eapply may_mono|apply keeps_delete|apply footprint_delete|].
    unfold LinkRepository.SoftDelete, soft_delete_link. no_panic. }
  intros h2 u Hh2 _. apply safe_call; [apply fits_invalidate|done].
Qed.

(** A page is a part of one state. *)
Lemma list_safe h t limit offset : safe (yields (own_links t)) h (invoke (LinkService.List t limit offset)).
Proof.
  apply safe_call; [unfold LinkService.List, LinkRepository.ListByTenant; fits_reads|].
  intros h1 ls (h0 & w & w' & -> & _ & Hg & E). exists w. split; [right; apply (g_here _ _ _ _ Hg)|].
  apply List_page in E as (all & size & Hall & _ & _ & -> & _). apply Forall_forall. intros l Hl.
  apply elem_of_take in Hl. assert (Hi : l ∈ all) by (rewrite <- (take_drop (Z.to_nat offset) all); apply elem_of_app; by right).
  rewrite Hall in Hi. apply list_elem_of_filter in Hi as [[Ht _] [id Hid]%elem_of_rows].
  by rewrite (ok_key _ (schema_of _ _ _ _ Hg) _ _ Hid).
Qed.

(** ** Statistics *)

Lemma fits_select {A} h what (q : DB.t → A) : fits h (ClickRepository.select what q).
Proof. unfold ClickRepository.select. fits_reads. Qed.

(** A query of the clicks that returned: its answer is that of a state of the past, and
    of every later past. *)
Lemma select_safe {A B} (V : list World → B → Prop) h what (q : DB.t → A) (f : A → Prog B) :
  (∀ h1 w, h ⊆ h1 → w ∈ h1 → schema w → safe (yields V) h1 (f (q (w_db w)))) →
  safe (yields V) h (invoke (ClickRepository.select what q) ≫= f).
Proof.
  intros Hf. apply safe_invoke; [apply fits_select|].
  intros h1 a Hh (h0 & w & w' & -> & _ & Hg & [-> _]%select_Ok). apply Hf; [done| |by eapply schema_of].
  right. apply (g_here _ _ _ _ Hg).
Qed.

Lemma stats_safe h t id from to bucket :
  safe (yields (λ h s, ∃ l, own_link t h l ∧ LinkStats.LinkID s = Link.ID l ∧ counted t h s)) h
    (stats_prog t id from to bucket).
Proof.
  unfold stats_prog. destruct (negb (Bucket_Valid bucket)); [done|]. destruct (negb (from <? to)); [done|].
  apply safe_invoke; [apply fits_get|]. intros h1 l Hh1 (Hown & Hid & _)%got_own.
  apply select_safe. intros h2 w2 Hh2 Hw2 _. apply select_safe. intros h3 w3 Hh3 Hw3 _.
  apply select_safe. intros h4 w4 Hh4 Hw4 _. apply select_safe. intros h5 w5 Hh5 Hw5 _.
  apply select_safe. intros h6 w6 Hh6 Hw6 _.
  exists l. split; [eapply own_links_mono; [|exact Hown]; by repeat (etrans; [eassumption|])|]. split; [done|].
  split; [exists w3|exists w2|exists w4|exists w5|exists w6];
    (split; [by repeat first [assumption|apply Hh6|apply Hh5|apply Hh4|apply Hh3]|]);
    unfold stats_clicks; simpl; rewrite <- window_link_clicks;
    [done|apply series_counts|apply label_rows_breakdown..].
Qed.

Lemma overview_safe h t :
  safe (yields (totalled t)) h (overview_prog t).
Proof.
  apply select_safe. intros h1 w1 Hh1 Hw1 _. apply select_safe. intros h2 w2 Hh2 Hw2 Hs. simpl. split.
  - exists w1. split_and!; [by apply Hh2|simpl; by rewrite select_tenant_links|done].
  - exists w2. split; [done|]. simpl. rewrite (joined_tenant_clicks t _ Hs). apply label_rows_breakdown.
Qed.

(** ** Webhooks *)

Lemma hook_create_safe h t inp : may G t h → safe (yields (own_hook t)) h (hook_create_prog t inp).
Proof.
  intros Hm. apply safe_checked. intros Hu. apply safe_checked. intros _.
  apply safe_invoke; [unfold GenerateWebhookSecret, rand_Read; fits_reads|]. intros h1 secret Hh1 _.
  apply safe_invoke.
  { eapply fits_owned; [|apply keeps_hook_create|apply isolated_insert_hook|].
    - by eapply may_mono.
    - simpl. rewrite validateWebhookURL_validateURL in Hu. by apply validateURL_spec in Hu as [_ ?].
    - unfold WebhookRepository.Create, insert_webhook. no_panic. }
  intros h2 k Hh2 (h0 & w & w' & -> & _ & Hg & [-> ->]%inserted_hook).
  eexists. split; [by left|]. apply Forall_singleton. simpl. by rewrite lookup_insert_eq.
Qed.

Lemma hook_list_safe h t : safe (yields (own_hooks t)) h (invoke (WebhookService.List t)).
Proof.
  apply safe_call; [unfold WebhookService.List, WebhookRepository.ListByTenant; fits_reads|].
  intros h1 ks (h0 & w & w' & -> & _ & Hg & E). exists w. split; [right; apply (g_here _ _ _ _ Hg)|].
  unfold WebhookService.List, WebhookRepository.ListByTenant in E.
  apply bind_Ok in E as (r & w1 & Hr & E). destruct r as [ks'|]; [|done]. inv_ok E.
  apply attempt_Ok, backend_Ok in Hr. inv_ok Hr. apply Forall_forall. intros k Hk.
  rewrite merge_sort_Permutation in Hk. apply list_elem_of_filter in Hk as [Ht [id Hid]%elem_of_rows]. simpl in Hid.
  destruct (db_hooks _ (ok_db _ (g_ok _ _ _ _ Hg)) _ _ Hid) as [-> _]. done.
Qed.

Lemma hook_delete_safe h t id : may G t h → safe (yields nothing) h (invoke (WebhookService.Delete t id)).
Proof.
  intros Hm. apply safe_call; [|done].
  eapply fits_owned; [exact Hm|apply keeps_hook_delete|apply isolated_webhook_delete|].
  unfold WebhookService.Delete, WebhookRepository.DeleteForTenant, delete_webhook. no_panic.
Qed.

(** ** The limiter *)

Lemma allow_safe h key limit window : safe (yields nothing) h (allow_prog key limit window).
Proof.
  apply safe_invoke; [unfold RedisRateLimiter.uniqueMember, rand_Read; fits_reads|]. intros h1 member _ _.
  apply safe_invoke; [apply fits_now|]. intros h2 t _ _.
  apply safe_try; [|by intros h3 [[??]?] _ _|done].
  apply fits_quiet; [exact Hquiet|apply keeps_script| |unfold RedisRateLimiter.run_script; no_panic].
  intros w. refine ((_ : preserves (λ w', w_db w' = w_db w) _) w eq_refl).
  unfold RedisRateLimiter.run_script. preserve; done.
Qed.
End services.

(** * Requests are safe *)

(** What a response to a request of [t] on an API route carries. *)
Definition replies `{O : Oracle} `{Codec} `{Collation} (base : LinkHandler.t) (t : UUID) (h : list World) (resp : Response.t) : Prop :=
  shows base t h (Response.content resp).

Section handlers.
Context `{O : Oracle} `{Codec} `{!CodecLaws} `{Binding} `{Collation} `{Gin}.
Context (cfg : Config.t) (demoTenant : option Tenant.t) (promhttp : M Response.t) (fuel : nat).
Context (stale : stale_entries) (G : list World → World → World → Prop) (P : Prop) (Hquiet : ∀ h w w', w_db w' = w_db w → G h w w').

Abbreviation safe := (safe cfg stale G).
Abbreviation yields := (yields P).
Abbreviation base := (linkHandler cfg demoTenant fuel).

Lemma respond_safe {A} (V : list World → A → Prop) t h (p : Prog A) k :
  safe (yields V) h p → (∀ h' a, V h' a → replies base t h' (k a)) → safe (yields (replies base t)) h (respond_prog p k).
Proof.
  intros Hp Hk. eapply safe_bind; [by apply safe_tries|]. intros h1 [a|e] _ Ha; simpl; [by apply Hk|].
  unfold replies, respondError. by destruct (StatusForError e).
Qed.

Lemma id_safe t h c k :
  (∀ id, safe (yields (replies base t)) h (k id)) → safe (yields (replies base t)) h (id_prog c k).
Proof. intros Hk. unfold id_prog. destruct (parseID c); [apply Hk|done]. Qed.

Lemma handler_safe r h c :
  (r = CreateLink → P) → may G (MustTenantID c) h →
  safe (yields (replies base (MustTenantID c))) h (handler_prog cfg demoTenant fuel r c).
Proof.
  intros HP Hm. set (t := MustTenantID c) in *. destruct r; cbn [handler_prog].
  - unfold create_handler. destruct (_ ≫= bind_createLink); [|done].
    eapply respond_safe; [by apply create_safe; [|apply HP|]|]. intros h1 l Hl. by exists l.
  - apply (respond_safe (own_links t)); [by apply list_safe|]. intros h1 ls Hl. by exists ls.
  - apply id_safe. intros id. apply (respond_safe (own_link t)); [|intros h1 l Hl; by exists l].
    apply safe_call; [by apply fits_get|]. by intros h1 l (Hl & _)%got_own.
  - apply id_safe. intros id. repeat case_match; try done.
    eapply respond_safe; [by apply update_safe|]. intros h1 l Hl. by exists l.
  - apply id_safe. intros id. by eapply respond_safe; [by apply delete_safe|].
  - apply id_safe. intros id. apply safe_invoke; [by apply fits_now|]. intros h1 to _ _.
    cbv zeta. repeat case_match; try done. eapply respond_safe; [by apply stats_safe|]. done.
  - eapply respond_safe; [by apply overview_safe|]. done.
  - unfold hook_create_handler. destruct (_ ≫= bind_createWebhook); [|done].
    eapply respond_safe; [by apply hook_create_safe|]. intros h1 k Hk. by exists k.
  - apply (respond_safe (own_hooks t)); [by apply hook_list_safe|]. intros h1 ks Hk. by exists ks.
  - apply id_safe. intros id. by apply (respond_safe nothing); [by apply hook_delete_safe|].
Qed.

(** The limiter in front adds headers, or answers itself. *)
Lemma limited_safe t h next c :
  (∀ h', h ⊆ h' → safe (yields (replies base t)) h' (next c)) →
  safe (yields (replies base t)) h (limited_prog cfg next c).
Proof.
  intros Hn. unfold limited_prog. destruct (RateLimitConfig.Enabled _); [|by apply Hn].
  destruct (TenantID c) as [tenant|]; [|by apply Hn].
  eapply safe_bind; [by apply safe_tries, allow_safe|]. intros h1 [[[allowed rem] retry]|e] Hh _; [|by apply Hn].
  cbv zeta. destruct (negb allowed); [done|]. eapply safe_bind; [by apply Hn|]. done.
Qed.

Lemma record_safe h c l : safe (yields nothing) h (record_prog cfg c l).
Proof.
  apply safe_invoke; [by apply fits_now|]. intros h1 t _ _. eapply safe_bind; [by apply enqueue_safe|]. done.
Qed.

(** The response of a redirect: the target and the type of a row its code had. *)
Definition redirects (code : string) (h : list World) (resp : Response.t) : Prop :=
  400 <= Response.status resp
  ∨ ∃ l, served stale code h l
      ∧ resp = Response.Mk (redirectStatus (Link.RedirectType l)) [("Location", hexEscapeNonASCII (Link.TargetURL l))] (BRedirect (Link.TargetURL l)).

Lemma redirect_safe h c :
  safe (yields (redirects (Request.Param (Ctx.req c) "code"))) h (redirect_handler cfg c).
Proof.
  unfold redirect_handler. cbv zeta. set (code := Request.Param (Ctx.req c) "code").
  assert (Hobs : ∀ h s, fits cfg stale G P h (ObserveRedirect s)).
  { intros h1 s. apply fits_observes; [exact Hquiet|]. intros w. by eexists. }
  eapply safe_bind; [by apply safe_tries, resolve_safe|]. intros h1 [l|e] _ Hl.
  - eapply safe_bind; [apply record_safe|]. intros h2 u Hh2 _. apply safe_invoke; [apply Hobs|]. intros h3 u' Hh3 _.
    right. exists l. split; [|done]. eapply served_monotone; [|exact Hl]. by etrans.
  - apply safe_invoke; [apply Hobs|]. intros h2 u _ _. left.
    by destruct (respondError_status e) as (? & ? & ? & -> & ?).
Qed.
End handlers.

(** ** A whole request *)

Section requests.
Context `{O : Oracle} `{Codec} `{!CodecLaws} `{Binding} `{Collation} `{Gin}.
Context (cfg : Config.t) (demoTenant : option Tenant.t) (promhttp : M Response.t) (fuel : nat).
Context (Hprom : reads promhttp) (stale : stale_entries).

Abbreviation base := (linkHandler cfg demoTenant fuel).

(** The request presented a key that was valid in some state of the past. *)
Definition presented (c : Ctx.t) (h : list World) (k : APIKey.t) : Prop := ∃ w0, w0 ∈ h ∧ presents c (w_db w0) k.

(** What a call of the request may change in the tables: nothing; or, on an API route,
    links and webhooks of the tenant whose key was presented. *)
Definition footprint (r : request) (h : list World) (w w' : World) : Prop :=
  w_db w' = w_db w
  ∨ match r.1 with
    | Some (Api _) => ∃ k, presented r.2 h k
        ∧ but_tenant (APIKey.TenantID k) (w_db w') = but_tenant (APIKey.TenantID k) (w_db w)
    | _ => False
    end.

(** Where the answer may be the one of gin to a panic. *)
Definition may_panic (r : request) : Prop := r.1 = Some (Api CreateLink) ∨ r.1 = Some MetricsPage.

(** What the response to a request is, before the request id is added. *)
Definition reply_ok (r : request) (h : list World) (resp : Response.t) : Prop :=
  match r.1 with
  | Some RedirectRoute => redirects stale (Request.Param (Ctx.req r.2) "code") h resp
  | Some (Api a) =>
      (∃ msg, resp = WriteError 401 CodeUnauthorized msg)
      ∨ ∃ k, presented r.2 h k ∧ replies base (APIKey.TenantID k) h resp
  | _ => True
  end.

Lemma presented_mono c k : monotone (λ h (_ : ()), presented c h k).
Proof. intros h h' u Hh (w0 & Hw & Hp). exists w0. split; [by apply Hh|done]. Qed.

Lemma reply_mono r : monotone (reply_ok r).
Proof.
  intros h h' resp Hh. unfold reply_ok. destruct r.1 as [[| | |a|]|]; try done.
  - intros [?|(k & Hk & Hr)]; [by left|right]. exists k. split; [by eapply (presented_mono _ _ _ _ ())|].
    by eapply shows_mono.
  - intros [?|(l & Hl & ?)]; [by left|right]. exists l. split; [by eapply served_monotone|done].
Qed.

Section chain.
Context (r : request).
Abbreviation safe := (safe cfg stale (footprint r)).
Abbreviation yields := (yields (may_panic r)).

Lemma quiet_footprint h w w' : w_db w' = w_db w → footprint r h w w'.
Proof. intros E. by left. Qed.
Local Hint Extern 0 (footprint _ _ _ _) => (apply quiet_footprint; assumption) : core.

Lemma credential_presents c token w k :
  world_ok w → bearerToken c = Some token → ValidKeyFormat token = true →
  APIKeyRepository.by_hash (HashAPIKey token) (w_db w) = Some k → APIKey.Revoked k = false → presents c (w_db w) k.
Proof.
  intros Hok Hb Hf Hk Hr. apply presents_credential; [apply Hok|]. rewrite Hb. simpl. unfold credential.
  by rewrite Hf, Hk, Hr.
Qed.

Lemma authenticate_safe h c token :
  bearerToken c = Some token →
  safe (yields (λ h x, presented c h x.1)) h (authenticate_prog token).
Proof.
  intros Hb. unfold authenticate_prog. destruct (ValidKeyFormat token) eqn:Hf; [|done]. cbv zeta. simpl negb. cbv iota.
  apply safe_try.
  { apply fits_quiet; [done| | |apply read_row_no_panic].
    - apply keeps_reads. unfold APIKeyRepository.GetByHash, read_row, scan_row. reads.
    - intros w. unfold APIKeyRepository.GetByHash. by rewrite read_row_world. }
  - intros h1 k _ (h0 & w & w' & -> & _ & Hg & [Hk _]%read_row_Ok). destruct (APIKey.Revoked k) eqn:Hr; [done|].
    exists w. split; [right; apply (g_here _ _ _ _ Hg)|]. by eapply credential_presents; [apply Hg|..].
  - intros h1 e _ _. cbv beta iota. by destruct (Is e _).
Qed.

Lemma auth_safe h a c :
  r.1 = Some (Api a) → Ctx.req c = Ctx.req r.2 →
  safe (yields (λ h a, reply_ok r h (Answer.response a))) h
    (auth_prog (limited_prog cfg (handler_prog cfg demoTenant fuel a)) c).
Proof.
  intros Hr Hc. assert (Hb : bearerToken c = bearerToken r.2) by (unfold bearerToken; by rewrite Hc).
  unfold auth_prog. destruct (bearerToken c) as [token|] eqn:Htok.
  2: { simpl. unfold reply_ok. rewrite Hr. left. by eexists. }
  eapply safe_bind; [apply safe_tries, (authenticate_safe _ r.2); by rewrite <- Hb|].
  intros h1 [[k touch]|e] _ Hk; [simpl in Hk|simpl; unfold reply_ok; rewrite Hr; left; by eexists].
  eapply (safe_bind _ _ _ _ (replies base (APIKey.TenantID k))).
  - apply limited_safe; [done|]. intros h2 Hh2.
    refine (handler_safe cfg demoTenant fuel stale (footprint r) (may_panic r) _ a h2 (setAuth c k) _ _); [done|by intros ->; left|].
    intros h3 w1 w1' Hh3 E1. right. rewrite Hr. exists k. split; [|exact E1].
    eapply (presented_mono _ _ _ _ ()), Hk. by etrans.
  - intros h2 resp Hh2 Hresp. simpl. unfold reply_ok. rewrite Hr. right. exists k.
    split; [by eapply (presented_mono _ _ _ _ ())|exact Hresp].
Qed.

Lemma checks_safe h cs :
  (∀ name check, (name, check) ∈ cs → reads check ∧ no_panic check) → safe (yields nothing) h (checks_prog cs).
Proof.
  revert h. induction cs as [|[name check] cs IH]; intros h Hcs; [done|]. cbn [checks_prog].
  destruct (Hcs name check) as [Hr Hn]; [by left|].
  assert (Hrest : ∀ h (b : list (string * string) * bool → list (string * string) * bool),
    safe (yields nothing) h (rest ← checks_prog cs; mret (b rest))).
  { intros h1 b. eapply safe_bind; [apply IH|done]. intros n ch Hin. apply (Hcs n ch). by right. }
  apply safe_try; [by apply fits_reads|intros; apply Hrest..].
Qed.

Lemma external_no_panic : no_panic external.
Proof. unfold external. no_panic. Qed.

Lemma serve_safe h rt c :
  r.1 = Some rt → Ctx.req c = Ctx.req r.2 →
  safe (yields (λ h a, reply_ok r h (Answer.response a))) h (serve_prog cfg demoTenant promhttp health fuel rt c).
Proof.
  intros Hr Hc. destruct rt as [| | |a|]; cbn [serve_prog].
  - simpl. unfold reply_ok. by rewrite Hr.
  - apply (safe_bind _ _ _ _ nothing); [|intros; simpl; unfold reply_ok; by rewrite Hr].
    apply (safe_bind _ _ _ _ nothing); [apply checks_safe|done]. intros name check Hin.
    enough (check = external) as -> by auto using external_reads, external_no_panic.
    unfold health in Hin. by apply elem_of_cons in Hin as [[= -> ->]|[[= -> ->]|[]%elem_of_nil]%elem_of_cons].
  - apply (safe_bind _ _ _ _ nothing); [apply safe_call; [|done]|intros; simpl; unfold reply_ok; by rewrite Hr].
    split; [intros h' w _; by apply keeps_reads|intros h' w _ _; left; by destruct (Hprom w) as (n & _ & ->)|by right].
  - by apply auth_safe.
  - eapply safe_bind; [by apply redirect_safe|]. intros h1 resp _ Hresp. simpl. unfold reply_ok. by rewrite Hr, <- Hc.
Qed.

(** The layers around a handler add what they add. *)
Lemma logged_safe h min next c V :
  monotone V → (∀ h', h ⊆ h' → safe (yields V) h' (next c)) → safe (yields V) h (logged_prog min next c).
Proof.
  intros HV Hn. apply safe_invoke; [by apply fits_now|]. intros h1 start Hh1 _.
  eapply safe_bind; [by apply Hn|]. intros h2 a Hh2 Ha. apply safe_invoke; [by apply fits_now|]. intros h3 t Hh3 _.
  apply safe_invoke; [|intros h4 u Hh4 _; simpl; eapply HV; [|exact Ha]; by etrans].
  apply fits_aside; [done| |unfold log; no_panic]. intros w. by rewrite log_run.
Qed.

Lemma measured_safe h path next c V :
  monotone V → (∀ h', h ⊆ h' → safe (yields V) h' (next c)) → safe (yields V) h (measured_prog path next c).
Proof.
  intros HV Hn. apply safe_invoke; [by apply fits_now|]. intros h1 start Hh1 _.
  eapply safe_bind; [by apply Hn|]. intros h2 a Hh2 Ha. apply safe_invoke; [by apply fits_now|]. intros h3 t Hh3 _.
  apply safe_invoke; [|intros h4 u Hh4 _; simpl; eapply HV; [|exact Ha]; by etrans].
  apply fits_observes; [done|]. intros w. by eexists.
Qed.
End chain.

(** The answer of a request: its reply with the request id added, or gin's to a panic. *)
Definition final (r : request) (h : list World) (a : Answer.t) : Prop :=
  ∃ id resp, Answer.response a = Response.with_headers [("X-Request-ID", id)] resp
    ∧ (reply_ok r h resp ∨ may_panic r ∧ resp = gin_recovered).

Lemma final_mono r : monotone (final r).
Proof.
  intros h h' a Hh (id & resp & Ha & Hr). exists id, resp. split; [done|].
  destruct Hr as [Hr|]; [left; by eapply reply_mono|by right].
Qed.

Lemma request_safe r h : 
    safe cfg stale (footprint r) (yields False (final r)) h (request_prog cfg demoTenant promhttp health fuel r.1 r.2).
Proof.
  assert (HG : ∀ h w w', w_db w' = w_db w → footprint r h w w') by (intros; by left).
  unfold request_prog, identified_prog. cbv zeta.
  apply (safe_bind _ _ _ _ nothing).
  { destruct (String.eqb _ ""); [|done]. by apply safe_invoke; [apply fits_reads; [done|apply reads_tick|apply no_panic_tick]|]. }
  intros h1 id Hh1 _.
  apply (safe_bind _ _ _ _ (λ h a, reply_ok r h (Answer.response a) ∨ may_panic r ∧ Answer.response a = gin_recovered)).
  - apply safe_caught. eapply (safe_weaken _ _ _ (yields (may_panic r) (λ h a, reply_ok r h (Answer.response a)))).
    { intros h2 [a|e|s] _; simpl; [by left|done|by right]. }
    assert (HV : monotone (λ h a, reply_ok r h (Answer.response a))) by (intros ? ? ? ?; by apply reply_mono).
    apply logged_safe; [done|]. intros h2 _. apply measured_safe; [done|]. intros h3 _.
    destruct r as [[rt|] c]; simpl; [|done]. by apply serve_safe.
  - intros h2 a _ Ha. exists id, (Answer.response a). done.
Qed.
End requests.
