(* ===== verification/Concurrent.v ===== *)
(** Requests that interleave.  In System.v a request is one step; here any number of
    requests run at once, each the program of Programs.v, and between two calls of one
    anything else may happen: the calls of the others, and every step of the process.

    Each program is safe (Safety.v), so that what holds of every call
    holds in every run: the tables and the cache stay sound; a redirect shows a row its
    code had; and a request to the API changes and shows its own tenant's rows only.  What a
    lost race leaves in the cache is the subject of Races.v. *)
From stdpp Require Import prelude gmap strings list relations sorting.
From S2P Require Import Prelude GoStd Rfc3339 Json NetUrl Domain Wire Enrich World Schema LinkRepo LinkCache Shortcode LinkService.
From S2P Require Import Counters Redirect Coherence KeyRepo Auth WebhookRepo WebhookService ClickRepo Stats RateLimit.
From S2P Require Import Ingest Delivery Notifier Config Http Observe Handlers Server Janitor Invariant System Programs Healing.
From S2P Require Import Guarantee Safety.

Local Open Scope Z_scope.

(** * The interleaving *)

Module Run.
Record t := Mk { threads : list (option route * Ctx.t * Prog Answer.t); past : list World; state : World }.
End Run.

Section interleaving.
Context `{O : Oracle} `{Codec} `{Binding} `{Collation} `{Gin}.
Context (cfg : Config.t) (demoTenant : option Tenant.t) (promhttp : M Response.t) (fuel : nat).

Definition program (r : request) : Prog Answer.t := request_prog cfg demoTenant promhttp health fuel r.1 r.2.

(** A request arrives, one makes its next call, or the process takes a step. *)
Inductive cstep : Run.t → Run.t → Prop :=
  | c_arrive r ts h w : cstep (Run.Mk ts h w) (Run.Mk (ts ++ [(r, program r)]) h w)
  | c_call i r p p' w' ts h w :
      ts !! i = Some (r, p) → advance p w = Some (p', w') →
      cstep (Run.Mk ts h w) (Run.Mk (<[i := (r, p')]> ts) (w' :: h) w')
  | c_other w' ts h w :
      sstep cfg demoTenant promhttp fuel w w' → cstep (Run.Mk ts h w) (Run.Mk ts (w' :: h) w').

Definition begin (w : World) : Run.t := Run.Mk [] [w] w.

(** A scheduler: the requests named make their next calls, in this order. *)
Fixpoint schedule (order : list nat) (c : Run.t) : Run.t :=
  match order with
  | [] => c
  | i :: order =>
      match Run.threads c !! i with
      | Some (r, p) =>
          match advance p (Run.state c) with
          | Some (p', w') => schedule order (Run.Mk (<[i := (r, p')]> (Run.threads c)) (w' :: Run.past c) w')
          | None => schedule order c
          end
      | None => schedule order c
      end
  end.

Lemma schedule_runs order c : rtc cstep c (schedule order c).
Proof.
  revert c. induction order as [|i order IH]; intros [ts h w]; cbn [schedule Run.threads Run.state Run.past]; [apply rtc_refl|].
  destruct (ts !! i) as [[r p]|] eqn:Hi; [|apply IH]. destruct (advance p w) as [[p' w']|] eqn:Ha; [|apply IH].
  eapply rtc_l; [by eapply c_call|apply IH].
Qed.
End interleaving.

(** * Every run *)

Section runs.
Context `{O : Oracle} `{Codec} `{!CodecLaws} `{Binding} `{Collation} `{Gin}.
Context (promhttp : M Response.t) (Hprom : reads promhttp) (fuel : nat).

Section configured.
Context (cfg : Config.t) (demoTenant : option Tenant.t).

Abbreviation cstep := (cstep cfg demoTenant promhttp fuel).
Abbreviation final := (final cfg demoTenant fuel).

(** A request and what is left of its program, safe after the past [h]. *)
Definition thread_safe (stale : stale_entries) (h : list World) (t : request * Prog Answer.t) : Prop :=
  safe cfg stale (footprint t.1) (yields False (final stale t.1)) h t.2.

Lemma thread_mono stale h h' t : h ⊆ h' → thread_safe stale h t → thread_safe stale h' t.
Proof. apply safe_mono, yields_mono. intros h1 h2 a. apply final_mono. Qed.

Lemma threads_mono stale h h' ts : h ⊆ h' → Forall (thread_safe stale h) ts → Forall (thread_safe stale h') ts.
Proof. intros Hh Hts. eapply Forall_impl; [exact Hts|]. intros t. by apply thread_mono. Qed.

(** From the start on every entry agrees with some state of the past. *)
Definition none : stale_entries := λ _ _, False.

Record run_ok (c : Run.t) : Prop := {
  r_guarantee : guarantee cfg none (Run.past c) (Run.state c);
  r_safe : Forall (thread_safe none (Run.past c)) (Run.threads c);
}.

(** A step of the process keeps the guarantee. *)
Lemma other_guarantee stale h w w' :
  guarantee cfg stale h w → sstep cfg demoTenant promhttp fuel w w' → guarantee cfg stale (w' :: h) w'.
Proof.
  intros Hg Hs. pose proof (g_ok _ _ _ _ Hg) as Hok.
  assert (Hok' : world_ok w') by (by eapply (sstep_ok promhttp Hprom fuel)).
  split; [done|by left|intros w0 [->|?]%elem_of_cons; [done|by eapply g_past]|].
  intros code v x Hv. destruct (sstep_entry cfg demoTenant promhttp fuel Hprom code w w' v x) as [Hold|(_ & He & Hx)];
    [by apply Hok|done|done| |].
  - destruct (g_entry _ _ _ _ Hg code v x Hold) as [[Hseen ?]|?]; [left|by right]. split; [|done].
    eapply seen_mono; [|done]. by right.
  - left. split; [|done]. exists w. split; [right; apply (g_here _ _ _ _ Hg)|done].
Qed.

Lemma advance_safe {A} stale G (Q : list World → res A → Prop) h w p p' w' :
  safe cfg stale G Q h p → guarantee cfg stale h w → advance p w = Some (p', w') →
  guarantee cfg stale (w' :: h) w' ∧ G h w w' ∧ safe cfg stale G Q (w' :: h) p'.
Proof.
  intros Hp Hg. destruct p as [r|X m k]; [done|]. simpl. specialize (Hp h w ltac:(done) Hg).
  destruct (m w) as [r w1]; simpl in *. by intros [= <- <-].
Qed.

Lemma cstep_ok c c' : cstep c c' → run_ok c → run_ok c'.
Proof.
  destruct 1 as [r ts h w|i r p p' w' ts h w Hi Ha|w' ts h w Hs]; intros [Hg Hts]; simpl in *.
  - split; [done|]. apply Forall_app. split; [done|]. apply Forall_singleton. by apply request_safe.
  - pose proof (Forall_lookup_1 _ _ _ _ Hts Hi) as Hp.
    destruct (advance_safe _ _ _ _ _ _ _ _ Hp Hg Ha) as (Hg' & _ & Hp'). split; [done|]. simpl.
    apply Forall_insert; [|exact Hp']. eapply threads_mono; [|done]. by right.
  - split; [by eapply other_guarantee|]. simpl. eapply threads_mono; [|done]. by right.
Qed.
End configured.

(** The start leaves the links alone. *)
Lemma boot_links cfg w : w_links (boot cfg w).2 = w_links w.
Proof.
  assert (Hp : ∀ x, preserves (λ w, w_links w = x) (boot cfg)); [|by apply (Hp (w_links w))]. intros x.
  assert (Hread : ∀ A what (q : DB.t → option A), preserves (λ w, w_links w = x) (read_row what q)).
  { intros A what q u Hu. by rewrite read_row_world. }
  unfold boot, NewPostgresPool, Migrate, NewRedisClient, stage, external, seed_demo, Seed.Demo, Seed.demo_tenant,
    TenantRepository.FindByName, TenantRepository.Create, APIKeyRepository.GetByHash, APIKeyRepository.Create,
    insert_tenant, insert_key. preserve; try done; apply Hread.
Qed.

(** [c] is a run of the program, started on [w0], with any number of requests. *)
Definition concurrent_run (w0 : World) (cfg : Config.t) (demoTenant : option Tenant.t) (c : Run.t) : Prop :=
  ∃ w1, boot cfg w0 = (Ok demoTenant, w1) ∧ rtc (cstep cfg demoTenant promhttp fuel) (begin w1) c.

(** What the start finds: sound tables and a cache whose entries agree with them and expire. *)
Record initial (w0 : World) : Prop := {
  init_ok : world_ok w0;
  init_coherent : coherent w0;
  init_mortal code : mortal code w0;
}.

Lemma runs_ok w0 cfg demoTenant c : initial w0 → concurrent_run w0 cfg demoTenant c → run_ok cfg demoTenant c.
Proof.
  intros [Hw0 Hc Hm] (w1 & Hb & Hr). pose proof (boot_ok_Ok _ _ _ _ Hw0 Hb) as Hw1.
  pose proof (boot_redis cfg w0) as Er. pose proof (boot_links cfg w0) as El. rewrite Hb in Er, El. simpl in Er, El.
  apply (rtc_ind_r (R:=cstep cfg demoTenant promhttp fuel) (run_ok cfg demoTenant) (begin w1)); [| |done].
  - split; [|done]. split; simpl; [done|by left|by intros w2 ->%list_elem_of_singleton|].
    intros code v x. rewrite Er. intros Hv. left. split; [|intros _; by eapply Hm].
    exists w1. split; [by left|]. rewrite El. by eapply Hc.
  - intros c1 c2 _ Hs. by apply (cstep_ok cfg demoTenant).
Qed.

Lemma replies_final w0 cfg demoTenant c r a :
  initial w0 → concurrent_run w0 cfg demoTenant c → (r, Done (Ok a)) ∈ Run.threads c →
  run_ok cfg demoTenant c ∧ final cfg demoTenant fuel none r (Run.past c) a.
Proof.
  intros Hi Hr Hin. pose proof (runs_ok _ _ _ _ Hi Hr) as Hok. split; [done|].
  by pose proof (proj1 (Forall_forall _ _) (r_safe _ _ _ Hok) _ Hin).
Qed.

(** C6: Redirects under concurrency.  Let any number of requests, on any routes, run at
    once, their statements, Redis commands and clock readings in any order among each
    other and among the steps of the process, whatever fails.  The tables and the cache
    stay sound; and a request to GET /:code that was answered got an error, or a redirect
    to the target, and with the type, of a row its code had in some state of the run, a
    web URL and 301 or 302, of a link that was active when its clock was read.  A target
    its owner never set is never served. *)
Theorem interleaved_redirects w0 cfg demoTenant c :
  initial w0 → concurrent_run w0 cfg demoTenant c →
  world_ok (Run.state c)
  ∧ ∀ x a, ((Some RedirectRoute, x), Done (Ok a)) ∈ Run.threads c →
      400 <= Response.status (Answer.response a)
      ∨ ∃ l id, Answer.response a = Response.Mk (redirectStatus (Link.RedirectType l))
                  [("X-Request-ID", id); ("Location", hexEscapeNonASCII (Link.TargetURL l))] (BRedirect (Link.TargetURL l))
          ∧ web_url (Link.TargetURL l) ∧ (Link.RedirectType l = 301 ∨ Link.RedirectType l = 302)
          ∧ (∃ w row, w ∈ Run.past c ∧ select_row (by_code (Request.Param (Ctx.req x) "code")) (w_links w) = Some row
               ∧ Link.TargetURL l = Link.TargetURL row ∧ Link.RedirectType l = Link.RedirectType row)
          ∧ ∃ w, w ∈ Run.past c ∧ Link.IsActive l (o_now (w_step w)) = true.
Proof.
  intros Hi Hr. split; [apply (r_guarantee _ _ _ (runs_ok _ _ _ _ Hi Hr))|]. intros x a Hin.
  destruct (replies_final _ _ _ _ _ _ Hi Hr Hin) as [Hok (id & resp & Ha & Hresp)].
  destruct Hresp as [Hresp|[[|] _]]; [|done..]. unfold reply_ok in Hresp. simpl in Hresp. rewrite Ha.
  destruct Hresp as [Hst|(l & (Hans & Hact) & ->)]; [by left|right]. exists l, id. split; [done|].
  destruct Hans as [(w & row & Hw & Hs & Hrow & Hsame)|(? & ? & ? & _ & [] & _)]. pose proof (g_past _ _ _ _ (r_guarantee _ _ _ Hok) w Hw) as Hwok.
  destruct (proj1 (select_by_code _ _ _ Hs) Hrow) as (Hl & _ & _).
  destruct (db_links _ (ok_db _ Hwok) _ _ Hl) as [Hu Ht _].
  split_and!; [by rewrite (same_target _ _ Hsame)|by rewrite (same_redirect _ _ Hsame)| |done].
  exists w, row. split_and!; [done|done|apply Hsame|apply Hsame].
Qed.

(** C2: Tenants apart under concurrency.  In such a run each call a request makes leaves
    every table as it is, unless the request is one to the API that presented a key
    which was valid in some state of the run: then everything but the links and the
    webhooks of that key's tenant is as it was.  And each answered request to the API was
    refused with 401, or presented such a key and is shown links and webhooks of that
    tenant only, as they were in some state of the run, a listing those of a single state,
    and numbers of that tenant's only: each total, series and breakdown of a rollup counts
    the clicks on the one link, and those of an overview the live links of the tenant and
    the clicks on its links, as a state of the run had them ([counted], [totalled]); but
    for the creation of a link whose code generator was never given an unbiased byte. *)
Theorem interleaved_tenants w0 cfg demoTenant c :
  initial w0 → concurrent_run w0 cfg demoTenant c →
  (∀ i r p p' w', Run.threads c !! i = Some (r, p) → advance p (Run.state c) = Some (p', w') →
     w_db w' = w_db (Run.state c)
     ∨ ∃ a k w, r.1 = Some (Api a) ∧ w ∈ Run.past c ∧ presents r.2 (w_db w) k
         ∧ but_tenant (APIKey.TenantID k) (w_db w') = but_tenant (APIKey.TenantID k) (w_db (Run.state c)))
  ∧ ∀ a x ans, ((Some (Api a), x), Done (Ok ans)) ∈ Run.threads c →
      ∃ id resp, Answer.response ans = Response.with_headers [("X-Request-ID", id)] resp
        ∧ ((∃ msg, resp = WriteError 401 CodeUnauthorized msg)
           ∨ (∃ k w, w ∈ Run.past c ∧ presents x (w_db w) k
                ∧ shows (linkHandler cfg demoTenant fuel) (APIKey.TenantID k) (Run.past c) (Response.content resp))
           ∨ a = CreateLink ∧ resp = gin_recovered).
Proof.
  intros Hi Hr. split.
  - intros i r p p' w' Hl Ha. destruct (runs_ok _ _ _ _ Hi Hr) as [Hg Hts].
    pose proof (Forall_lookup_1 _ _ _ _ Hts Hl) as Hp. simpl in Hp.
    destruct (advance_safe _ _ _ _ _ _ _ _ _ Hp Hg Ha) as (_ & HG & _). destruct HG as [E|HG]; [by left|right].
    destruct r as [[[| | |a|]|] x]; simpl in HG; try done. destruct HG as (k & (w & Hw & Hk) & E). by exists a, k, w.
  - intros a x ans Hin. destruct (replies_final _ _ _ _ _ _ Hi Hr Hin) as [_ (id & resp & Ha & Hresp)].
    exists id, resp. split; [done|]. destruct Hresp as [[Hm|(k & (w & Hw & Hk) & Hs)]|[[[= ->]|[=]] ->]].
    + by left.
    + right. left. by exists k, w.
    + right. by right.
Qed.

End runs.
