(* ===== verification/Races.v ===== *)
(** Races heal.  A resolution that read a row before it changed may write what it read
    into the cache long after the change: while it is in flight, nothing can be said of the
    cached entry of its code.  Here a run goes on from any state of it, with requests in
    flight, while nothing changes the answer of the table for a code.  Once the requests
    that were in flight have been answered, what they left in the cache is gone by one
    instant, and from then on the code is answered as the table says, by requests that run
    at once with any others.

    The argument restarts the rely-guarantee of Guarantee.v at that state: the requests
    that arrive from then on see, and write, what the table held since; entries older than
    that, or written by a request in flight, are the [stale] ones of the guarantee. *)
From stdpp Require Import prelude gmap strings list relations sorting.
From S2P Require Import Prelude GoStd Rfc3339 Json NetUrl Domain Wire Enrich World Schema LinkRepo LinkCache Shortcode LinkService.
From S2P Require Import Counters Redirect Coherence KeyRepo Auth WebhookRepo WebhookService ClickRepo Stats RateLimit.
From S2P Require Import Ingest Delivery Notifier Config Http Observe Handlers Server Janitor Invariant System Programs Healing.
From S2P Require Import Guarantee Safety Concurrent.

Local Open Scope Z_scope.

Lemma answers_alike_refl r : answers_alike r r.
Proof. destruct r; simpl; [apply same_link_refl|done]. Qed.

Lemma answers_alike_trans r1 r2 r3 : answers_alike r1 r2 → answers_alike r2 r3 → answers_alike r1 r3.
Proof. destruct r1, r2, r3; simpl; try done. intros H1 H2. by eapply same_link_trans. Qed.

(** The requests at the places below [k] have been answered. *)
Definition answered_below (k : nat) (c : Run.t) : Prop :=
  (k ≤ length (Run.threads c))%nat
  ∧ ∀ i t, (i < k)%nat → Run.threads c !! i = Some t → ∃ x, t.2 = Done x.

Section races.
Context `{O : Oracle} `{Codec} `{!CodecLaws} `{Binding} `{Collation} `{Gin}.
Context (promhttp : M Response.t) (Hprom : reads promhttp) (fuel : nat).
Context (cfg : Config.t) (demoTenant : option Tenant.t) (code : string).

Abbreviation cstep := (Concurrent.cstep cfg demoTenant promhttp fuel).
Abbreviation run_ok := (Concurrent.run_ok fuel cfg demoTenant).
Abbreviation thread_safe := (Concurrent.thread_safe fuel cfg demoTenant).
Abbreviation strs w := (Redis.strs (w_redis w)).
Abbreviation row w := (select_row (by_code code) (w_links w)).

(** A step that leaves the answer of the table for the code alone. *)
Definition quiet_step (c c' : Run.t) : Prop :=
  cstep c c' ∧ answers_alike (row (Run.state c)) (row (Run.state c')).

(** And ends when the clock shows [T] or later. *)
Definition late_step (T : Time) (c c' : Run.t) : Prop :=
  quiet_step c c' ∧ T <= o_now (w_step (Run.state c')).

(** * A past that starts later

    [h] holds the states since some state of the run at which [k] requests had arrived:
    the guarantee holds with respect to it, the later requests are safe, and the row is
    as it was. *)
Record since (stale : stale_entries) (k : nat) (h : list World) (c : Run.t) : Prop := {
  s_guarantee : guarantee cfg stale h (Run.state c);
  s_threads i t : (k ≤ i)%nat → Run.threads c !! i = Some t → thread_safe stale h t;
  s_rows w : w ∈ h → answers_alike (row w) (row (Run.state c));
}.

(** What the cache holds agrees with the table as it is, or is stale. *)
Definition current (stale : stale_entries) (w : World) : Prop :=
  ∀ code' v x, strs w !! cacheKey code' = Some (v, x) →
    entry_ok (w_links w) code' v ∧ (entries_expire cfg → is_Some x) ∨ stale code' (v, x).

Lemma guarantee_current stale h w :
  world_ok w → (∀ w0, w0 ∈ h → world_ok w0) → current stale w → guarantee cfg stale (w :: h) w.
Proof.
  intros Hw Hp Hc. split; [done|by left|by intros w0 [->|?]%elem_of_cons; auto|]. intros code' v x Hv.
  destruct (Hc code' v x Hv) as [[He Hx]|?]; [left|by right]. split; [|done]. exists w. split; [by left|done].
Qed.

Lemma since_begin stale c :
  world_ok (Run.state c) → current stale (Run.state c) → since stale (length (Run.threads c)) [Run.state c] c.
Proof.
  intros Hw Hc. split.
  - apply guarantee_current; [done| |done]. by intros w0 ?%not_elem_of_nil.
  - intros i t Hi Ht%lookup_lt_Some. lia.
  - intros w ->%list_elem_of_singleton. apply answers_alike_refl.
Qed.

(** A step goes on with the account: if the cache it leaves is current anyway, or if the
    requests that are not safe have been answered. *)
Lemma since_step stale k h c c' :
  quiet_step c c' → world_ok (Run.state c') → since stale k h c →
  current stale (Run.state c') ∨ answered_below k c →
  since stale k (Run.state c' :: h) c'.
Proof.
  intros [Hst Ha] Hok' [Hg Hts Hrows] Hwhy.
  assert (Hrows' : ∀ w, w ∈ Run.state c' :: h → answers_alike (row w) (row (Run.state c'))).
  { intros w [->|Hw]%elem_of_cons; [apply answers_alike_refl|]. eapply answers_alike_trans; [by apply Hrows|done]. }
  assert (Hold : ∀ i t, (k ≤ i)%nat → Run.threads c !! i = Some t → thread_safe stale (Run.state c' :: h) t).
  { intros i t Hi Ht. eapply thread_mono; [|by eapply Hts]. by right. }
  assert (Hext : current stale (Run.state c') → guarantee cfg stale (Run.state c' :: h) (Run.state c')).
  { intros Hc. apply guarantee_current; [done| |done]. apply Hg. }
  destruct Hst as [r ts h0 w|i r p p' w' ts h0 w Hi Hadv|w' ts h0 w Hs]; simpl in *.
  - split; [by apply (guarantee_drop cfg stale h w); [|apply Hg|]| |done]. simpl. intros i t Hk.
    intros [Ht|(_ & Ht)]%lookup_app_Some; [by eapply Hold|].
    apply list_lookup_singleton_Some in Ht as [_ <-]. by apply request_safe.
  - assert (Hadvance : (k ≤ i)%nat → guarantee cfg stale (w' :: h) w' ∧ thread_safe stale (w' :: h) (r, p')).
    { intros Hk. destruct (advance_safe _ _ _ _ _ _ _ _ _ (Hts i _ Hk Hi) Hg Hadv) as (? & _ & ?). done. }
    split; [| |done]; simpl.
    + destruct Hwhy as [Hc|[_ Hdone]]; [by apply Hext|]. apply Hadvance, Nat.nlt_ge. intros Hlt.
      destruct (Hdone i _ Hlt Hi) as [x E]. simpl in E. by rewrite E in Hadv.
    + intros i' t Hk. destruct (decide (i' = i)) as [->|Hne].
      * rewrite list_lookup_insert_eq by (by eapply lookup_lt_Some). intros [= <-]. by apply Hadvance.
      * rewrite list_lookup_insert_ne by done. by apply Hold.
  - split; [|exact Hold|done]. by eapply other_guarantee.
Qed.

Lemma answered_below_step k c c' : cstep c c' → answered_below k c → answered_below k c'.
Proof.
  destruct 1 as [r ts h w|i r p p' w' ts h w Hi Hadv|w' ts h w Hs]; intros [Hk Hd]; unfold answered_below in *; simpl in *; [| |done].
  - split; [rewrite length_app; lia|]. intros i t Hik [Ht|(Hge & _)]%lookup_app_Some; [by eapply Hd|lia].
  - rewrite length_insert. split; [done|]. intros i' t Hik. destruct (decide (i' = i)) as [->|Hne].
    + destruct (Hd i _ Hik Hi) as [x E]. simpl in E. by rewrite E in Hadv.
    + rewrite list_lookup_insert_ne by done. by apply Hd.
Qed.

(** * What is stale, and until when *)

(** Entries of the code that expire by [T], and anything of other codes. *)
Definition stale_by (T : Time) : stale_entries := λ code' e, code' = code → ∃ d, e.2 = Some d ∧ d <= T.

Definition expiring (T : Time) (w : World) : Prop :=
  ∀ v x, strs w !! cacheKey code = Some (v, x) → ∃ d, x = Some d ∧ d <= T.

Lemma expiring_current T w : expiring T w → current (stale_by T) w.
Proof. intros He code' v x Hv. right. intros ->. by eapply He. Qed.

(** The account says that what the cache holds is current. *)
Lemma since_current T k h c : since (stale_by T) k h c → current (stale_by T) (Run.state c).
Proof.
  intros [Hg _ Hrows] code' v x Hv. destruct (g_entry _ _ _ _ Hg code' v x Hv) as [[(w0 & Hw0 & He) Hx]|?]; [|by right].
  destruct (decide (code' = code)) as [->|Hne]; [left|right; by intros ?]. split; [|done].
  eapply entry_ok_change; [|exact He]. by apply Hrows.
Qed.

Lemma current_shown T w : current (stale_by T) w → T <= o_now (w_step w) → shown_ok code w.
Proof.
  intros Hc Ht v x Hv Hvis. destruct (Hc code v x Hv) as [[? _]|Hst]; [done|].
  destruct (Hst eq_refl) as (d & Ed & Hd). simpl in Ed. subst x. unfold Redis.visible in Hvis. simpl in Hvis.
  rewrite (proj2 (Z.ltb_ge _ _)) in Hvis by lia. by destruct Hvis.
Qed.

Lemma resolved_now w :
  world_ok w → shown_ok code w →
  let o := RedirectService.Resolve (redirectService cfg) code w in
  answers code (row w) (w_step w) o.1 ∧ w_db o.2 = w_db w.
Proof.
  intros Hw Hs. assert (Hobs : ∀ o, RedirectService.observer (redirectService cfg) = Some o → CacheObserver.laws o).
  { intros o [= <-]. apply Metrics_CacheObserver_laws. }
  destruct (Resolve_writes (redirectService cfg) Hobs code w) as [Ha [Hd _]]; [apply Hw|]. split; [by apply Ha|done].
Qed.

(** While requests may write old rows, the expiries have a latest: one of an entry that
    was there, if any was. *)
Definition latest (T : Time) (c : Run.t) : Prop :=
  T = 0 ∨ ∃ w v, w ∈ Run.past c ∧ strs w !! cacheKey code = Some (v, Some T).

Lemma latest_step T c c' : cstep c c' → latest T c → latest T c'.
Proof.
  intros Hst [->|(w & v & Hw & Hv)]; [by left|right]. exists w, v. split; [|done]. destruct Hst; simpl in *; [done|by right..].
Qed.

Lemma run_expiring c T :
  run_ok c → entries_expire cfg → latest T c → ∃ T', T <= T' ∧ expiring T' (Run.state c) ∧ latest T' c.
Proof.
  intros [Hg _] He Hl. destruct (strs (Run.state c) !! cacheKey code) as [[v x]|] eqn:Ev.
  2: { exists T. split; [lia|]. split; [|done]. intros v x. by rewrite Ev. }
  destruct (g_entry _ _ _ _ Hg code v x Ev) as [[_ Hx]|[]]. destruct (Hx He) as [d ->].
  assert (Hex : ∀ T', d <= T' → expiring T' (Run.state c)).
  { intros T' HT v' x'. rewrite Ev. intros [= <- <-]. eauto. }
  destruct (Z.le_gt_cases d T).
  - exists T. split_and!; [lia|by apply Hex|done].
  - exists d. split_and!; [lia|by apply Hex; lia|right]. exists (Run.state c), v. split; [apply (g_here _ _ _ _ Hg)|done].
Qed.

(** A run, with a bound on what is in the cache on the way. *)
Lemma quiet_bounded c c1 :
  run_ok c → entries_expire cfg → rtc quiet_step c c1 →
  ∃ T, run_ok c1 ∧ latest T c1 ∧ expiring T (Run.state c)
    ∧ rtc (λ a b, quiet_step a b ∧ run_ok b ∧ expiring T (Run.state b)) c c1.
Proof.
  intros Hc He Hr.
  apply (rtc_ind_r (R:=quiet_step) (λ c1, ∃ T, run_ok c1 ∧ latest T c1 ∧ expiring T (Run.state c)
    ∧ rtc (λ a b, quiet_step a b ∧ run_ok b ∧ expiring T (Run.state b)) c c1) c); [| |exact Hr].
  - destruct (run_expiring c 0 Hc He ltac:(by left)) as (T & _ & Hex & Hl). exists T. split_and!; [done..|apply rtc_refl].
  - intros c2 c3 _ Hs (T & Hok & Hl & Hex & Hsteps).
    assert (Hok3 : run_ok c3) by (by eapply (Concurrent.cstep_ok promhttp Hprom fuel cfg demoTenant), Hok; apply Hs).
    destruct (run_expiring c3 T Hok3 He) as (T' & HT & Hex3 & Hl3); [eapply latest_step; [apply Hs|done]|].
    assert (Hmono : ∀ w, expiring T w → expiring T' w).
    { intros w Hw v x Hv. destruct (Hw v x Hv) as (d & ? & ?). exists d. split; [done|lia]. }
    exists T'. split_and!; [done|done|by apply Hmono|]. eapply rtc_r; [|by split_and!].
    eapply rtc_subrel; [|exact Hsteps]. intros a b (? & ? & ?). split_and!; auto.
Qed.

(** * The account through a run *)

Lemma since_expiring T c c1 :
  rtc (λ a b, quiet_step a b ∧ run_ok b ∧ expiring T (Run.state b)) c c1 →
  ∀ k h, since (stale_by T) k h c → ∃ h', since (stale_by T) k h' c1.
Proof.
  induction 1 as [c|c c' c1 (Hq & Hok & Hex) _ IH]; intros k h Hs; [by exists h|].
  apply (IH k (Run.state c' :: h)). apply (since_step _ _ _ c); [done| |done|].
  - apply (g_ok _ _ _ _ (r_guarantee _ _ _ _ Hok)).
  - left. by apply expiring_current.
Qed.

Lemma since_answered T k c c1 :
  rtc quiet_step c c1 → run_ok c → answered_below k c →
  ∀ h, since (stale_by T) k h c → run_ok c1 ∧ answered_below k c1 ∧ ∃ h', since (stale_by T) k h' c1.
Proof.
  induction 1 as [c|c c' c1 Hq _ IH]; intros Hok Hd h Hs; [eauto|].
  assert (Hok' : run_ok c') by (by eapply (Concurrent.cstep_ok promhttp Hprom fuel cfg demoTenant), Hok; apply Hq).
  apply (IH Hok' ltac:(eapply answered_below_step; [apply Hq|done]) (Run.state c' :: h)).
  apply (since_step _ _ _ c); [done| |done|by right]. apply (g_ok _ _ _ _ (r_guarantee _ _ _ _ Hok')).
Qed.

(** Requests that arrive when the clock is past [T], among the others. *)
Definition late (T : Time) (k : nat) (c : Run.t) : Prop :=
  ∃ h, since (stale_by T) k h c ∧ ∀ w, w ∈ h → T <= o_now (w_step w).

Lemma late_run T k k2 c c1 :
  rtc (late_step T) c c1 → run_ok c → answered_below k c → (∃ h, since (stale_by T) k h c) → late T k2 c → late T k2 c1.
Proof.
  induction 1 as [c|c c' c1 [Hq Ht] _ IH]; intros Hok Hd [h Hs] (h2 & Hs2 & Hlate); [by exists h2|].
  assert (Hok' : run_ok c') by (by eapply (Concurrent.cstep_ok promhttp Hprom fuel cfg demoTenant), Hok; apply Hq).
  assert (Hw' : world_ok (Run.state c')) by apply (g_ok _ _ _ _ (r_guarantee _ _ _ _ Hok')).
  assert (Hs' : since (stale_by T) k (Run.state c' :: h) c') by (apply (since_step _ _ _ c); auto).
  apply IH; [done|eapply answered_below_step; [apply Hq|done]|eauto|].
  exists (Run.state c' :: h2). split; [|by intros w [->|?]%elem_of_cons; auto].
  apply (since_step _ _ _ c); [done..|]. left. by eapply since_current.
Qed.

(** What such a request shows. *)
Lemma late_reply T k c i x a :
  late T k c → (k ≤ i)%nat → Run.threads c !! i = Some ((Some RedirectRoute, x), Done (Ok a)) →
  Request.Param (Ctx.req x) "code" = code →
  400 <= Response.status (Answer.response a)
  ∨ ∃ l r id n, Answer.response a = Response.Mk (redirectStatus (Link.RedirectType l))
                  [("X-Request-ID", id); ("Location", hexEscapeNonASCII (Link.TargetURL l))] (BRedirect (Link.TargetURL l))
      ∧ row (Run.state c) = Some r ∧ Link.TargetURL l = Link.TargetURL r ∧ Link.RedirectType l = Link.RedirectType r
      ∧ Link.IsActive l (o_now n) = true.
Proof.
  intros (h & [_ Hts Hrows] & Hlate) Hi Ht Hcode. pose proof (Hts i _ Hi Ht) as (id & resp & Ha & Hresp).
  destruct Hresp as [Hresp|[[|] _]]; [|done..]. unfold reply_ok in Hresp. simpl in Hresp. rewrite Hcode in Hresp.
  rewrite Ha. destruct Hresp as [Hst|(l & (Hans & w1 & _ & Hact) & ->)]; [by left|right].
  destruct Hans as [(w & r & Hw & _ & Hrow & Hsame)|(w & v & y & Hw & Hst & Hvis)].
  - specialize (Hrows w Hw). rewrite Hrow in Hrows. destruct (row (Run.state c)) as [r'|] eqn:Er; [|done].
    exists l, r', id, (w_step w1). simpl in Hrows.
    split_and!; [done..| | |done].
    + by rewrite (same_target _ _ Hsame), (same_target _ _ Hrows).
    + by rewrite (same_redirect _ _ Hsame), (same_redirect _ _ Hrows).
  - exfalso. destruct (Hst eq_refl) as (d & Ed & Hd). simpl in Ed. subst y. specialize (Hlate w Hw).
    unfold Redis.visible in Hvis. simpl in Hvis. rewrite (proj2 (Z.ltb_ge _ _)) in Hvis by lia. by destruct Hvis.
Qed.
End races.

Section theorem.
Context `{O : Oracle} `{Codec} `{!CodecLaws} `{Binding} `{Collation} `{Gin}.
Context (promhttp : M Response.t) (Hprom : reads promhttp) (fuel : nat).

(** C7: Lost races heal.  Take any interleaved run [c], with positive cache lifetimes, and
    let it go on, requests still in flight and others arriving, while nothing changes the
    answer of the table for a code, until the requests of [c] have been answered in [c1].
    Such a request may have read a row that changed before [c] and written it into the
    cache, at any moment up to [c1].  There is an instant, at the latest the expiry of an
    entry the code had during the run, from which this is over: let the run go on in the
    same way to any [c2] whose clock shows that instant.  A resolution at [c2] answers as
    the table says.  And a redirect of the code that arrives after [c2] and runs at once
    with any others, on a clock that does not go back behind the instant, is answered with
    an error, or sent to the target and with the type of the code's row, of a link active
    when the clock was read. *)
Theorem races_heal w0 cfg demoTenant c code c1 :
  initial w0 → concurrent_run promhttp fuel w0 cfg demoTenant c → entries_expire cfg →
  rtc (quiet_step promhttp fuel cfg demoTenant code) c c1 → answered_below (length (Run.threads c)) c1 →
  ∃ T, latest code T c1
  ∧ ∀ c2, rtc (quiet_step promhttp fuel cfg demoTenant code) c1 c2 → T <= o_now (w_step (Run.state c2)) →
      (let o := RedirectService.Resolve (redirectService cfg) code (Run.state c2) in
       answers code (select_row (by_code code) (w_links (Run.state c2))) (w_step (Run.state c2)) o.1
       ∧ w_db o.2 = w_db (Run.state c2))
      ∧ ∀ c3 i x a, rtc (late_step promhttp fuel cfg demoTenant code T) c2 c3 →
          (length (Run.threads c2) ≤ i)%nat →
          Run.threads c3 !! i = Some ((Some RedirectRoute, x), Done (Ok a)) → Request.Param (Ctx.req x) "code" = code →
          400 <= Response.status (Answer.response a)
          ∨ ∃ l r id n, Answer.response a = Response.Mk (redirectStatus (Link.RedirectType l))
                          [("X-Request-ID", id); ("Location", hexEscapeNonASCII (Link.TargetURL l))] (BRedirect (Link.TargetURL l))
              ∧ select_row (by_code code) (w_links (Run.state c3)) = Some r
              ∧ Link.TargetURL l = Link.TargetURL r ∧ Link.RedirectType l = Link.RedirectType r
              ∧ Link.IsActive l (o_now n) = true.
Proof.
  intros Hi Hr He Hq Hdone. pose proof (runs_ok promhttp Hprom fuel _ _ _ _ Hi Hr) as Hok.
  destruct (quiet_bounded promhttp Hprom fuel cfg demoTenant code c c1 Hok He Hq) as (T & Hok1 & Hl & Hex & Hsteps).
  exists T. split; [exact Hl|]. intros c2 Hq2 Ht.
  destruct (since_expiring promhttp Hprom fuel cfg demoTenant code T c c1 Hsteps (length (Run.threads c)) [Run.state c]) as [h1 Hs1].
  { apply since_begin; [apply (r_guarantee _ _ _ _ Hok)|by apply expiring_current]. }
  destruct (since_answered promhttp Hprom fuel cfg demoTenant code T _ c1 c2 Hq2 Hok1 Hdone h1 Hs1) as (Hok2 & Hdone2 & h2 & Hs2).
  pose proof (g_ok _ _ _ _ (r_guarantee _ _ _ _ Hok2)) as Hw2. pose proof (since_current _ _ _ _ _ _ _ _ Hs2) as Hc2.
  split; [by eapply resolved_now, current_shown|].
  intros c3 i x a Hq3 Hge Hth Hcode. eapply (late_reply fuel cfg demoTenant code T (length (Run.threads c2))); [|done..].
  eapply (late_run promhttp Hprom); [exact Hq3|exact Hok2|exact Hdone2|by eexists|].
  exists [Run.state c2]. split; [by apply since_begin|]. by intros w ->%list_elem_of_singleton.
Qed.
End theorem.
