(* ===== verification/Secrecy.v ===== *)
(** What a client can learn of the signing secrets.  Two worlds are [alike] when they
    differ in the stored secrets of webhooks only.  A computation is [blind] when it
    cannot tell alike worlds apart: it returns the same and leaves them alike.  Blindness
    is compositional, so that it is proved along the structure of the code, like the
    invariants; the one exception is the listing of webhooks, whose rows carry their
    secrets as far as the handler, which drops them. *)
From stdpp Require Import prelude gmap strings list sorting.
From S2P Require Import Prelude GoStd Domain Wire Enrich World Schema LinkRepo LinkCache Shortcode LinkService.
From S2P Require Import Counters Redirect KeyRepo Auth WebhookRepo WebhookService ClickRepo Stats RateLimit.
From S2P Require Import Ingest Delivery Notifier Config Http Observe Handlers Server System.

Local Open Scope Z_scope.

(** * Worlds up to the secrets *)

Definition redact (h : Webhook.t) : Webhook.t :=
  Webhook.Mk (Webhook.ID h) (Webhook.TenantID h) (Webhook.URL h) "" (Webhook.Events h) (Webhook.Active h)
    (Webhook.FailureCount h) (Webhook.DisabledAt h) (Webhook.CreatedAt h).

Definition redact_job (j : Job.t) : Job.t :=
  Job.Mk (redact (Job.webhook j)) (Job.event j) (Job.payload j) (Job.attempt j).

Definition redact_db : DB.t → DB.t := DB.with_webhooks (fmap redact).

Definition redact_disp (d : Dispatcher.t) : Dispatcher.t :=
  upd_sent (λ _, []) (upd_posts (fmap redact_job) (upd_timers (fmap (λ t, (t.1, redact_job t.2)))
    (upd_jobs (fmap redact_job) d))).

Definition hide (w : World) : World := upd_disp redact_disp (upd_db redact_db w).

Definition alike (w w' : World) : Prop := hide w = hide w'.

#[export] Instance alike_equiv : Equivalence alike.
Proof. unfold alike. split; [by intros w|by intros w w' E|intros ??? E ?; by rewrite E]. Qed.

(** Everything but the two parts that hold secrets is the same. *)
Lemma alike_parts w w' :
  alike w w' ↔
  w_step w = w_step w' ∧ redact_db (w_db w) = redact_db (w_db w') ∧ w_redis w = w_redis w' ∧ w_pipe w = w_pipe w'
  ∧ redact_disp (w_disp w) = redact_disp (w_disp w') ∧ w_metrics w = w_metrics w' ∧ w_access w = w_access w'.
Proof.
  unfold alike. split.
  { intros E. split_and!; [exact (f_equal w_step E)|exact (f_equal w_db E)|exact (f_equal w_redis E)|
      exact (f_equal w_pipe E)|exact (f_equal w_disp E)|exact (f_equal w_metrics E)|exact (f_equal w_access E)]. }
  unfold hide. destruct w, w'. unfold upd_disp, upd_db. simpl. intros (-> & E1 & -> & -> & E2 & -> & ->). by rewrite E1, E2.
Qed.

(** * Blind computations *)

(** The two computations return related outcomes and alike worlds from alike worlds. *)
Definition same_sight {A} (R : A → A → Prop) (m m' : M A) : Prop :=
  ∀ w w', alike w w' →
    match (m w).1, (m' w').1 with
    | Ok a, Ok a' => R a a'
    | Err e, Err e' => e = e'
    | Panic p, Panic p' => p = p'
    | _, _ => False
    end ∧ alike (m w).2 (m' w').2.

Definition blind {A} (m : M A) : Prop := same_sight eq m m.

Lemma sight_bind {A B} (R : A → A → Prop) (S : B → B → Prop) (m m' : M A) (k k' : A → M B) :
  same_sight R m m' → (∀ a a', R a a' → same_sight S (k a) (k' a')) → same_sight S (m ≫= k) (m' ≫= k').
Proof.
  intros Hm Hk w w' Hw. specialize (Hm w w' Hw). unfold mbind, M_bind.
  destruct (m w) as [[a|e|p] w1], (m' w') as [[a'|e'|p'] w1']; simpl in *; destruct Hm as [Hr Hw1]; try done.
  by apply Hk.
Qed.

Lemma sight_attempt {A} (R : A → A → Prop) (m m' : M A) :
  same_sight R m m' → same_sight (sum_relation R eq) (attempt m) (attempt m').
Proof.
  intros Hm w w' Hw. specialize (Hm w w' Hw). unfold attempt.
  destruct (m w) as [[a|e|p] w1], (m' w') as [[a'|e'|p'] w1']; simpl in *; destruct Hm as [Hr Hw1]; try done;
    split; try done; by constructor.
Qed.

Create HintDb blind.

Section combinators.
Lemma blind_ret {A} (a : A) : blind (mret a).
Proof. by intros w w' Hw. Qed.

Lemma blind_fail {A} e : blind (@fail A e).
Proof. by intros w w' Hw. Qed.

Lemma blind_panic {A} p : blind (@panic A p).
Proof. by intros w w' Hw. Qed.

Lemma blind_check c : blind (check c).
Proof. destruct c; [apply blind_fail|apply blind_ret]. Qed.

Lemma blind_bind {A B} (m : M A) (k : A → M B) : blind m → (∀ a, blind (k a)) → blind (m ≫= k).
Proof. intros Hm Hk. eapply sight_bind; [exact Hm|]. intros a ? <-. apply Hk. Qed.

Lemma blind_attempt {A} (m : M A) : blind m → blind (attempt m).
Proof.
  intros Hm w w' Hw. specialize (Hm w w' Hw). unfold attempt.
  destruct (m w) as [[a|e|p] w1], (m w') as [[a'|e'|p'] w1']; simpl in *; destruct Hm as [Hr Hw1]; by try subst.
Qed.

Lemma blind_gets {A} (f : World → A) : (∀ w w', alike w w' → f w = f w') → blind (gets f).
Proof. intros Hf w w' Hw. split; [by apply Hf|done]. Qed.

Lemma blind_modify f : (∀ w w', alike w w' → alike (f w) (f w')) → blind (modify f).
Proof. intros Hf w w' Hw. split; [done|by apply Hf]. Qed.

(** A statement that does not read the webhooks: it is the same program on the tables
    without their secrets. *)
Lemma blind_db {A} (k : DB.t → M A) :
  (∀ d, blind (k d)) → (∀ d, k (redact_db d) = k d) → blind (gets w_db ≫= k).
Proof.
  intros Hk Hd w w' Hw. rewrite !gets_bind. apply alike_parts in Hw as Hp. destruct Hp as (_ & E & _).
  rewrite <- (Hd (w_db w)), <- (Hd (w_db w')), E. by apply Hk.
Qed.

Lemma blind_gets_db {A} (f : DB.t → A) : (∀ d, f (redact_db d) = f d) → blind (gets (λ w, f (w_db w))).
Proof.
  intros Hf. apply blind_gets. intros w w' (_ & E & _)%alike_parts. by rewrite <- (Hf (w_db w)), E, Hf.
Qed.

Lemma blind_redis {A} (k : Redis.t → M A) : (∀ r, blind (k r)) → blind (gets w_redis ≫= k).
Proof. intros Hk. apply blind_bind; [|exact Hk]. apply blind_gets. by intros w w' (_ & _ & ? & _)%alike_parts. Qed.

Lemma blind_pipe {A} (k : Pipeline.t → M A) : (∀ p, blind (k p)) → blind (gets w_pipe ≫= k).
Proof. intros Hk. apply blind_bind; [|exact Hk]. apply blind_gets. by intros w w' (_ & _ & _ & ? & _)%alike_parts. Qed.

(** What changes the rest of the world changes alike worlds alike. *)
Lemma alike_step n w w' : alike w w' → alike (set_step n w) (set_step n w').
Proof. rewrite !alike_parts. by intros (_ & ?). Qed.
Lemma alike_redis f w w' : alike w w' → alike (upd_redis f w) (upd_redis f w').
Proof. rewrite !alike_parts. intros (? & ? & E & ?). simpl. by rewrite E. Qed.
Lemma alike_pipe f w w' : alike w w' → alike (upd_pipe f w) (upd_pipe f w').
Proof. rewrite !alike_parts. intros (? & ? & ? & E & ?). simpl. by rewrite E. Qed.
Lemma alike_metrics f w w' : alike w w' → alike (upd_metrics f w) (upd_metrics f w').
Proof. rewrite !alike_parts. intros (? & ? & ? & ? & ? & E & ?). simpl. by rewrite E. Qed.
Lemma alike_access f w w' : alike w w' → alike (upd_access f w) (upd_access f w').
Proof. rewrite !alike_parts. intros (? & ? & ? & ? & ? & ? & E). simpl. by rewrite E. Qed.
Lemma alike_db f w w' :
  (∀ d, redact_db (f d) = f (redact_db d)) → alike w w' → alike (upd_db f w) (upd_db f w').
Proof. intros Hf. rewrite !alike_parts. intros (? & E & ?). simpl. by rewrite !Hf, E. Qed.
Lemma alike_disp f w w' :
  (∀ d, redact_disp (f d) = f (redact_disp d)) → alike w w' → alike (upd_disp f w) (upd_disp f w').
Proof. intros Hf. rewrite !alike_parts. intros (? & ? & ? & ? & E & ?). simpl. by rewrite !Hf, E. Qed.

Context `{O : Oracle}.

Lemma blind_tick : blind tick.
Proof.
  intros w w' Hw. unfold tick. simpl. pose proof Hw as (E & _)%alike_parts. rewrite E.
  split; [done|by apply alike_step].
Qed.

Lemma blind_now : blind now.
Proof. apply blind_bind; [apply blind_tick|intros; apply blind_ret]. Qed.

Lemma blind_range_keys {V} (m : gmap UUID V) : blind (range_keys m).
Proof. apply blind_bind; [apply blind_tick|intros; apply blind_ret]. Qed.

Lemma sight_backend {A} (R : A → A → Prop) (b b' : nat → M A) :
  (∀ n, same_sight R (b n) (b' n)) → same_sight R (backend b) (backend b').
Proof.
  intros Hb w w' Hw. unfold backend. pose proof Hw as (E & _)%alike_parts. rewrite E.
  pose proof (alike_step (S (w_step w')) w w' Hw) as Hw1.
  destruct (Hb (w_step w') _ _ Hw1) as [Hr Hw2].
  destruct (o_fault (w_step w')) as [[msg [|]]|]; simpl; done.
Qed.

Lemma blind_backend {A} (b : nat → M A) : (∀ n, blind (b n)) → blind (backend b).
Proof. apply sight_backend. Qed.

Lemma blind_rand_Read k : blind (rand_Read k).
Proof. apply blind_backend. intros; apply blind_ret. Qed.
End combinators.

#[export] Hint Resolve blind_ret blind_fail blind_panic blind_check blind_tick blind_now blind_range_keys
  blind_rand_Read alike_step alike_redis alike_pipe alike_metrics alike_access : blind.

(** Split the computation of a goal [blind m] down to its statements. *)
Ltac blind :=
  repeat first
    [ solve [eauto 2 with blind]
    | match goal with |- ∀ _, _ => intro end
    | (simple apply blind_db; [|reflexivity])
    | simple apply blind_redis
    | simple apply blind_pipe
    | (simple apply blind_gets_db; reflexivity)
    | simple apply blind_bind
    | simple apply blind_attempt
    | simple apply blind_backend
    | progress case_match
    | simple apply blind_modify
    | (simple apply alike_db; [reflexivity|])
    | (simple apply alike_disp; [reflexivity|]) ].

(** * The operations of a request *)

Section operations.
Context `{O : Oracle} `{Codec} `{Binding} `{Collation}.
Context (cfg : Config.t) (demoTenant : option Tenant.t) (fuel : nat).

Lemma blind_read_row {A} what (q : DB.t → option A) : (∀ d, q (redact_db d) = q d) → blind (read_row what q).
Proof.
  intros Hq. unfold read_row, scan_row. apply blind_bind; [|blind].
  apply blind_attempt, blind_backend. intros _. apply blind_db; [blind|]. intros d. by rewrite Hq.
Qed.

Lemma blind_Authenticate token : blind (AuthService.Authenticate token).
Proof.
  unfold AuthService.Authenticate, APIKeyRepository.GetByHash.
  pose proof (blind_read_row (A:=APIKey.t)) as Hr. blind.
Qed.

Lemma blind_Allow key limit window : blind (RedisRateLimiter.Allow key limit window).
Proof.
  unfold RedisRateLimiter.Allow, RedisRateLimiter.uniqueMember, RedisRateLimiter.run_script. blind.
Qed.

(** ** The dispatcher: what a request sees of it is its event queue *)

Lemma blind_Dispatch ev : blind (Dispatch (Config.Webhook cfg) ev).
Proof.
  assert (Hoff : ∀ ev, blind (offer_event (Config.Webhook cfg) ev)).
  { intros e w w' Hw. rewrite !offer_event_run. pose proof Hw as (_ & _ & _ & _ & E & _)%alike_parts.
    pose proof (f_equal Dispatcher.quit E) as Eq. pose proof (f_equal Dispatcher.events E) as Ee. simpl in Eq, Ee.
    rewrite Eq, Ee. destruct (Dispatcher.quit (w_disp w')); [done|].
    destruct (_ <? _); (split; [done|]); by apply alike_disp. }
  unfold Dispatch, stamp_id, stamp_time. blind.
Qed.

Lemma blind_LinkCreated l : blind (Notifier.LinkCreated (notifier cfg) l).
Proof. pose proof blind_Dispatch. unfold Notifier.LinkCreated. blind. Qed.

(** ** Links *)

Lemma blind_Invalidate code : blind (LinkCache.Invalidate code).
Proof. unfold LinkCache.Invalidate, redis_DEL. blind. Qed.

Lemma blind_gen : blind (LinkService.gen (linkService cfg demoTenant fuel)).
Proof.
  destruct (linkService_parts cfg demoTenant fuel) as (-> & _). unfold gen, Generator_generates, Generate.
  generalize (@nil Ascii.ascii). induction fuel as [|n IH]; intros out; cbn [generate_loop]; blind.
Qed.

Lemma blind_invalidate code : blind (LinkService.invalidate (linkService cfg demoTenant fuel) code).
Proof.
  unfold LinkService.invalidate. destruct (linkService_parts cfg demoTenant fuel) as (_ & _ & ->).
  pose proof blind_Invalidate. blind.
Qed.

Lemma blind_emit l : blind (LinkService.emitCreated (linkService cfg demoTenant fuel) l).
Proof.
  unfold LinkService.emitCreated. destruct (linkService_parts cfg demoTenant fuel) as (_ & -> & _).
  apply blind_LinkCreated.
Qed.

Lemma blind_insert_link l : blind (LinkRepository.Create l).
Proof. unfold LinkRepository.Create, insert_link. blind. Qed.

Lemma blind_get_link t id : blind (LinkRepository.GetByIDForTenant t id).
Proof. unfold LinkRepository.GetByIDForTenant, LinkRepository.one_row, LinkRepository.query_row. blind. Qed.

Lemma blind_update_link l : blind (LinkRepository.Update l).
Proof. unfold LinkRepository.Update, update_link. blind. Qed.

Lemma blind_delete_link t id : blind (LinkRepository.SoftDelete t id).
Proof. unfold LinkRepository.SoftDelete, soft_delete_link. blind. Qed.

Lemma blind_clamp t e : blind (LinkService.clampDemoExpiry (linkService cfg demoTenant fuel) t e).
Proof. unfold LinkService.clampDemoExpiry. blind. Qed.

Lemma blind_expiry e : blind (LinkService.validateExpiry e).
Proof. unfold LinkService.validateExpiry. blind. Qed.

Lemma blind_patch inp l : blind (LinkService.patch inp l).
Proof.
  pose proof blind_expiry.
  unfold LinkService.patch, LinkService.patch_url, LinkService.patch_redirect, LinkService.patch_expiry, LinkService.patch_max.
  blind.
Qed.

Local Hint Resolve blind_gen blind_invalidate blind_emit blind_insert_link blind_get_link blind_update_link
  blind_delete_link blind_clamp blind_expiry blind_patch : blind.

Lemma blind_Create t inp : blind (LinkService.Create (linkService cfg demoTenant fuel) t inp).
Proof.
  assert (Hall : ∀ n l, blind (LinkService.allocate (linkService cfg demoTenant fuel) n l)).
  { intros n l. induction n as [|n IH]; cbn [LinkService.allocate]; blind. }
  unfold LinkService.Create, LinkService.allocateGeneratedCode. blind.
Qed.

Lemma blind_List t limit offset : blind (LinkService.List t limit offset).
Proof. unfold LinkService.List, LinkRepository.ListByTenant. blind. Qed.

Lemma blind_Update t id inp : blind (LinkService.Update (linkService cfg demoTenant fuel) t id inp).
Proof. unfold LinkService.Update. blind. Qed.

Lemma blind_Delete t id : blind (LinkService.Delete (linkService cfg demoTenant fuel) t id).
Proof. unfold LinkService.Delete. blind. Qed.

(** ** Statistics *)

Lemma blind_select {A} what (q : DB.t → A) : (∀ d, q (redact_db d) = q d) → blind (ClickRepository.select what q).
Proof.
  intros Hq. unfold ClickRepository.select. apply blind_bind; [|blind].
  by apply blind_attempt, blind_backend; intros _; apply blind_gets_db.
Qed.

Lemma blind_LinkStats t id from to bucket : blind (StatsService.LinkStats t id from to bucket).
Proof.
  unfold StatsService.LinkStats, ClickRepository.SeriesForLink, ClickRepository.TotalForLink, ClickRepository.TopReferrers,
    ClickRepository.TopCountries, ClickRepository.DeviceBreakdown, ClickRepository.labelQuery.
  repeat case_match; try apply blind_fail.
  repeat (apply blind_bind; [first [apply blind_get_link | by apply blind_select]|intros ?]). apply blind_ret.
Qed.

Lemma blind_Overview t : blind (StatsService.Overview t).
Proof.
  unfold StatsService.Overview, ClickRepository.TenantOverview.
  repeat (apply blind_bind; [by apply blind_select|intros ?]). apply blind_ret.
Qed.

(** ** Redirects *)

Lemma blind_fromDB code : blind (RedirectService.fromDB (redirectService cfg) code).
Proof.
  unfold RedirectService.fromDB, RedirectService.checkActive, LinkRepository.GetByCode, LinkRepository.one_row,
    LinkRepository.query_row, LinkCache.Set_, LinkCache.SetNegative, redis_SET. blind.
Qed.

Lemma blind_Resolve code : blind (RedirectService.Resolve (redirectService cfg) code).
Proof.
  pose proof blind_fromDB.
  unfold RedirectService.Resolve, RedirectService.observeHit, RedirectService.observeMiss, RedirectService.checkActive,
    LinkCache.Get, redis_GET, redirectService. simpl. unfold ObserveCacheHit, ObserveCacheMiss. blind.
Qed.

Lemma blind_Enqueue e : blind (Enqueue (pipeline cfg) e).
Proof.
  assert (Hc : blind Enqueue_check).
  { apply blind_gets. intros w w' (_ & _ & _ & E & _)%alike_parts. by rewrite E. }
  unfold Enqueue, Enqueue_send, when_obs. simpl. unfold IncEnqueued, IncDropped. blind.
Qed.

(** ** Webhooks *)

Lemma redact_insert h n : blind (insert_webhook h n).
Proof.
  unfold insert_webhook. intros w w' Hw. rewrite !gets_bind. pose proof Hw as (_ & E & _)%alike_parts.
  pose proof (f_equal DB.tenants E) as Et. pose proof (f_equal DB.webhooks E) as Eh. simpl in Et, Eh.
  assert (Hid : ∀ id, is_Some (DB.webhooks (w_db w) !! id) ↔ is_Some (DB.webhooks (w_db w') !! id)).
  { assert (Hf : ∀ id (m : gmap UUID Webhook.t), is_Some ((redact <$> m) !! id) ↔ is_Some (m !! id)).
    { intros id m. by rewrite lookup_fmap, fmap_is_Some. }
    intros id. by rewrite <- Hf, Eh, Hf. }
  rewrite Et, (bool_decide_ext _ _ (Hid _)). destruct (negb _); [done|].
  case_bool_decide; [done|]. case_bool_decide; [done|]. split; [done|].
  apply alike_parts in Hw as (? & _ & ?). apply alike_parts. split_and!; try naive_solver.
  simpl. unfold redact_db, DB.with_webhooks in *. simpl in *. rewrite !fmap_insert. congruence.
Qed.

Lemma blind_hook_create t inp : blind (WebhookService.Create t inp).
Proof.
  pose proof redact_insert. unfold WebhookService.Create, WebhookRepository.Create, GenerateWebhookSecret. blind.
Qed.

Lemma blind_hook_delete t id : blind (WebhookService.Delete t id).
Proof.
  unfold WebhookService.Delete, WebhookRepository.DeleteForTenant. apply blind_bind; [|blind].
  apply blind_attempt, blind_backend. intros _ w w' Hw. unfold delete_webhook. rewrite !gets_bind.
  pose proof Hw as (_ & E & _)%alike_parts. pose proof (f_equal DB.webhooks E) as Eh. simpl in Eh.
  pose proof (f_equal (λ m, m !! id) Eh) as El. simpl in El. rewrite !lookup_fmap in El.
  destruct (DB.webhooks (w_db w) !! id) as [h|], (DB.webhooks (w_db w') !! id) as [h'|]; try discriminate El; [|done].
  injection El as _ Ht _ _ _ _ _ _. rewrite Ht. case_bool_decide; [|done].
  split; [done|]. apply alike_db; [|done]. intros d. unfold redact_db, DB.with_webhooks. simpl. by rewrite fmap_delete.
Qed.

(** The rows listed differ in their secrets only. *)
Lemma listed_sight t :
  same_sight (λ l l', redact <$> l = redact <$> l') (WebhookService.List t) (WebhookService.List t).
Proof.
  unfold WebhookService.List, WebhookRepository.ListByTenant.
  eapply sight_bind; [apply (sight_attempt (λ l l', redact <$> l = redact <$> l')), sight_backend|].
  - intros _ w w' Hw. rewrite !gets_bind. split; [|exact Hw]. simpl.
    pose proof Hw as (_ & E & _)%alike_parts. pose proof (f_equal DB.webhooks E) as Eh. simpl in Eh.
    assert (Hl : ∀ m : gmap UUID Webhook.t, redact <$> merge_sort newer_hook (filter (λ h, Webhook.TenantID h = t) (map_to_list m).*2)
      = merge_sort newer_hook (filter (λ h, Webhook.TenantID h = t) (map_to_list (redact <$> m)).*2)).
    { intros m. rewrite (merge_sort_fmap newer_hook redact) by done. f_equal. rewrite map_to_list_fmap.
      induction (map_to_list m) as [|[id h] l IH]; [done|]. csimpl. rewrite !filter_cons. simpl.
      case_decide; csimpl; by rewrite IH. }
    by rewrite !Hl, Eh.
  - intros r r' Hr. destruct Hr as [l l' Hl|e e' <-]; by intros w w' Hw.
Qed.
End operations.

(** * Requests *)

Section requests.
Context `{O : Oracle} `{Codec} `{Binding} `{Collation} `{Gin}.
Context (cfg : Config.t) (demoTenant : option Tenant.t) (promhttp : M Response.t) (fuel : nat).
Context (Hprom : blind promhttp).

Lemma blind_respond {A} (m : M A) k : blind m → blind (respond m k).
Proof. intros Hm. unfold respond. blind. Qed.

Lemma blind_with_id c k : (∀ id, blind (k id)) → blind (with_id c k).
Proof. intros Hk. unfold with_id. destruct (parseID c); [apply Hk|apply blind_ret]. Qed.

(** The handler drops the secrets of the rows. *)
Lemma blind_list_hooks c : blind (WebhookHandler.List c).
Proof.
  unfold WebhookHandler.List, respond. eapply sight_bind; [apply sight_attempt, listed_sight|].
  intros r r' [l l' Hl|e e' <-]; [|apply blind_ret].
  assert (E : (λ h, toWebhookResponse h false) <$> l = (λ h, toWebhookResponse h false) <$> l').
  { change (λ h, toWebhookResponse h false) with ((λ h, toWebhookResponse h false) ∘ redact).
    by rewrite !list_fmap_compose, Hl. }
  assert (El : length l = length l') by (apply (f_equal length) in Hl; by rewrite !length_fmap in Hl).
  rewrite E, El. apply blind_ret.
Qed.

Lemma blind_api r c : blind (api_handler cfg demoTenant fuel r c).
Proof.
  destruct r; simpl.
  - unfold LinkHandler.Create. destruct (_ ≫= bind_createLink); [|apply blind_ret]. apply blind_respond, blind_Create.
  - apply blind_respond, blind_List.
  - apply blind_with_id. intros id. apply blind_respond, blind_get_link.
  - apply blind_with_id. intros id. repeat case_match; try apply blind_ret. apply blind_respond, blind_Update.
  - apply blind_with_id. intros id. apply blind_respond, blind_Delete.
  - apply blind_with_id. intros id. apply blind_bind; [apply blind_now|intros t].
    cbv zeta. repeat case_match; try apply blind_ret. apply blind_respond, blind_LinkStats.
  - apply blind_respond, blind_Overview.
  - unfold WebhookHandler.Create. destruct (_ ≫= bind_createWebhook); [|apply blind_ret].
    apply blind_respond, blind_hook_create.
  - apply blind_list_hooks.
  - apply blind_with_id. intros id. apply blind_respond, blind_hook_delete.
Qed.

Lemma blind_redirect c : blind (RedirectHandler.Redirect (redirectHandler cfg) c).
Proof.
  pose proof blind_Resolve. pose proof (blind_Enqueue cfg).
  assert (Hobs : ∀ s, blind (RedirectHandler.observe (redirectHandler cfg) s)).
  { intros s. unfold RedirectHandler.observe. simpl. unfold ObserveRedirect. blind. }
  unfold RedirectHandler.Redirect. cbn [RedirectHandler.svc RedirectHandler.clicks redirectHandler].
  unfold PipelineClickRecorder_Record. blind.
Qed.

Lemma blind_serve r c : blind (serve cfg demoTenant promhttp health fuel r c).
Proof.
  pose proof blind_Authenticate. pose proof blind_Allow. pose proof blind_api. pose proof blind_redirect.
  assert (He : blind external) by (unfold external; blind).
  destruct r as [| | |r|]; cbn [serve].
  - unfold HealthHandler.Live. blind.
  - unfold HealthHandler.Ready, health. cbn [HealthHandler.run_checks]. blind.
  - blind.
  - unfold APIKeyAuth, limited, RateLimit. blind.
  - blind.
Qed.

(** The middleware chain keeps a handler blind, layer by layer. *)
Lemma blind_recovery next : (∀ c, blind (next c)) → ∀ c, blind (Recovery next c).
Proof.
  intros Hn c w w' Hw. specialize (Hn c w w' Hw). unfold Recovery.
  destruct (next c w) as [[?|?|?] ?], (next c w') as [[?|?|?] ?]; simpl in *; destruct Hn as [E ?]; by try subst.
Qed.

Lemma blind_logged min next : (∀ c, blind (next c)) → ∀ c, blind (RequestLogger min next c).
Proof. intros Hn c. unfold RequestLogger, log. blind. Qed.

Lemma blind_measured path next : (∀ c, blind (next c)) → ∀ c, blind (MetricsMiddleware ObserveHTTP path next c).
Proof. intros Hn c. unfold MetricsMiddleware, ObserveHTTP. blind. Qed.

Lemma blind_identified next : (∀ c, blind (next c)) → ∀ c, blind (RequestID next c).
Proof. intros Hn c. unfold RequestID. blind. Qed.

Lemma blind_engine r c : blind (engine cfg demoTenant promhttp health fuel r c).
Proof.
  unfold engine, observed. apply blind_identified, blind_recovery, blind_logged, blind_measured.
  intros c1. destruct r; [apply blind_serve|apply blind_ret].
Qed.

(** The answers to a sequence of requests. *)
Fixpoint answers_to (rs : list (option route * Ctx.t)) : M (list Answer.t) :=
  match rs with
  | [] => mret []
  | (r, c) :: rs =>
      a ← engine cfg demoTenant promhttp health fuel r c;
      l ← answers_to rs;
      mret (a :: l)
  end.

(** C10: The signing secrets stay in.  Take two states that differ in the secrets of the
    stored webhooks only.  Whatever sequence of requests is made, with whatever keys and
    bodies and whatever fails, the answers are the same in both, headers and bodies: no
    response depends on a stored secret, so none is ever shown again after the one that
    registered its webhook. *)
Theorem secrets_stay_in rs w w' :
  alike w w' →
  (answers_to rs w).1 = (answers_to rs w').1 ∧ alike (answers_to rs w).2 (answers_to rs w').2.
Proof.
  intros Hw. assert (Hb : blind (answers_to rs)).
  { pose proof blind_engine. induction rs as [|[r c] rs IH]; cbn [answers_to]; blind. }
  destruct (Hb w w' Hw) as [Hr Ha]. split; [|exact Ha].
  destruct (answers_to rs w) as [[?|?|?] ?], (answers_to rs w') as [[?|?|?] ?]; simpl in *; by try subst.
Qed.
End requests.
