(* ===== verification/Witnesses.v ===== *)
(** Every theorem with hypotheses, applied to a concrete run of the program: the
    hypotheses are reachable.  The runs use the instances of Concrete.v and, for the
    server, the configuration an empty environment gives. *)
From stdpp Require Import prelude gmap strings list sorting.
From Stdlib Require Import Ascii.
From S2P Require Import Prelude GoStd Rfc3339 Json Domain Wire Enrich World Schema LinkRepo ClickRepo LinkCache Shortcode.
From S2P Require Import LinkService Concrete LinkServiceSpec Counters Redirect Coherence KeyRepo Auth.
From S2P Require Import WebhookRepo WebhookService Stats Janitor RateLimit Ingest Delivery Notifier.
From S2P Require Import Config Http Observe Handlers Server NetUrl Invariant System.
From S2P Require Import Lifecycle Programs CallBound Healing Guarantee Safety Concurrent Races Secrecy.

Local Open Scope Z_scope.
#[local] Existing Instance calm.

(** * Runs *)

Definition is_ok {A} (o : res A * World) : bool := match o.1 with Ok _ => true | _ => false end.

(** A run that succeeded, as its value and its final world. *)
Lemma run_eq {A} (dflt : A) (m : M A) w : is_ok (m w) = true → m w = (Ok (value dflt (m w)), (m w).2).
Proof. unfold is_ok, value. by destruct (m w) as [[a|e|p] w']. Qed.

(** * More instances *)

#[local] Instance quoter : Quoter := λ s, String "034" (s +:+ String "034" "").
#[local] Instance binding : Binding := {
  bind_createLink s := Some (createLinkRequest.Mk s "" 0 None None);
  bind_createWebhook s := Some (createWebhookRequest.Mk s [EventLinkCreated]);
}.

#[local] Instance gin : Gin := {
  gin_size _ := 0;
  gin_recovered := Response.Mk 500 [] BNone;
  gin_no_route := Response.Mk 404 [] BNone;
}.

(** Buckets of an hour or a day of UTC; shorter labels come first. *)
#[local] Program Instance collation : Collation := {|
  date_trunc b t := if String.eqb b BucketHour then t / Hour * Hour else t / (24 * Hour) * (24 * Hour);
  collate a b := (String.length a <=? String.length b)%nat;
|}.
Next Obligation. intros a b. apply orb_true_iff. rewrite !Nat.leb_le. lia. Qed.
Next Obligation. intros a b c. rewrite !Nat.leb_le. lia. Qed.

(** * Worlds *)

Lemma schema_world0 : schema world0.
Proof. split; intros *; simpl; rewrite ?lookup_empty; try done. by rewrite list_elem_of_In. Qed.

Lemma coherent_no_cache w : w_redis w = Redis.empty → coherent w.
Proof. intros E code v x. rewrite E. simpl. by rewrite lookup_empty. Qed.

Lemma svc_sink sink : LinkService.events svc = Some sink → SinkLaws sink.
Proof. done. Qed.

Lemma svc_cache inv : LinkService.cache svc = Some inv → InvalidatorLaws inv.
Proof. intros [= <-]. apply _. Qed.

Lemma resolver_observer o : RedirectService.observer resolver = Some o → CacheObserver.laws o.
Proof. intros [= <-]. apply Metrics_CacheObserver_laws. Qed.

#[local] Instance svc_gen : CodeGeneratorLaws (LinkService.gen svc) := generator_laws.

Lemma schema_with_promo : schema with_promo.
Proof. exact (@exec_schema _ svc svc_gen svc_sink svc_cache tenant1 (CCreate promo) world0 schema_world0). Qed.

Lemma coherent_with_promo : coherent with_promo.
Proof. apply coherent_no_cache. vm_compute. reflexivity. Qed.

Definition link0 : Link.t := Link.Mk 0 0 "" "" 0 None None 0 0 0 None.

(** The row of the link "promo". *)
Definition promo_link : Link.t := default link0 (w_links with_promo !! promo_id).

(** * The link service *)

Lemma Create_correct_witness :
  ∃ l, w_links with_promo !! Link.ID l = Some l
    ∧ Link.TargetURL l = "https://old.example" ∧ Link.Code l = "promo" ∧ Link.RedirectType l = 302.
Proof.
  destruct (@Create_correct _ svc svc_gen svc_sink tenant1 promo world0
    (value link0 (LinkService.Create svc tenant1 promo world0)) with_promo) as (Hdb & _ & _ & Hc & _ & Hu & _ & Hrt & _).
  { apply run_eq. vm_compute. reflexivity. }
  exists (value link0 (LinkService.Create svc tenant1 promo world0)).
  split; [rewrite Hdb; apply lookup_insert_eq|]. split; [rewrite Hu; reflexivity|].
  unfold code_choice in Hc. simpl in Hc. split; [apply Hc|exact Hrt].
Defined.

Lemma List_page_witness :
  ∃ all size, all ≡ₚ filter (λ l, Link.TenantID l = tenant1 ∧ Link.live l = true)
                       (map_to_list (w_links with_promo)).*2
    ∧ value [] (LinkService.List tenant1 10 0 with_promo) = take (Z.to_nat size) (drop (Z.to_nat 0) all).
Proof.
  destruct (List_page tenant1 10 0 with_promo (value [] (LinkService.List tenant1 10 0 with_promo))
    (LinkService.List tenant1 10 0 with_promo).2) as (all & size & Hp & _ & _ & Hl & _).
  { apply run_eq. vm_compute. reflexivity. }
  exists all, size. split; [exact Hp | exact Hl].
Defined.

(** The world after the link was pointed elsewhere. *)
Definition retargeted : World := (LinkService.Update svc tenant1 promo_id retarget with_promo).2.
Definition retargeted_link : Link.t := value link0 (LinkService.Update svc tenant1 promo_id retarget with_promo).

Lemma Update_correct_witness :
  w_links retargeted !! promo_id = Some retargeted_link ∧ Link.TargetURL retargeted_link = "https://new.example".
Proof.
  destruct (@Update_correct _ svc svc_cache tenant1 promo_id retarget with_promo retargeted_link retargeted)
    as (old & e & n & _ & _ & _ & Hdb & _ & _ & _ & _ & Hu & _).
  - exact schema_with_promo.
  - apply run_eq. vm_compute. reflexivity.
  - split; [rewrite Hdb; apply lookup_insert_eq | exact Hu].
Defined.

(** The world after the link was deleted. *)
Definition deleted : World := (LinkService.Delete svc tenant1 promo_id with_promo).2.

Lemma Delete_correct_witness : select_row (by_code "promo") (w_links deleted) = None.
Proof.
  destruct (@Delete_correct _ svc svc_cache tenant1 promo_id with_promo tt deleted)
    as (old & n & Hold & _ & _ & _ & Hsel).
  - exact schema_with_promo.
  - apply (run_eq tt). vm_compute. reflexivity.
  - assert (Hc : Link.Code old = "promo").
    { assert (Hp : Link.Code <$> w_links with_promo !! promo_id = Some "promo") by (vm_compute; reflexivity).
      rewrite Hold in Hp. injection Hp as Hp. exact Hp. }
    rewrite <- Hc. exact Hsel.
Defined.

(** Two tenants at work. *)
Definition calls : list (UUID * call) :=
  [(tenant1, CCreate promo); (tenant2, CCreate promo); (tenant1, CUpdate promo_id retarget);
   (tenant2, CList 10 0); (tenant1, CDelete promo_id)].

Lemma calls_keep_schema_witness : schema (exec_all svc calls world0).
Proof. apply (@calls_keep_schema _ svc svc_gen svc_sink svc_cache calls world0). exact schema_world0. Defined.

(** The service with a cap of an hour on the links of tenant 2. *)
Definition demo_svc : LinkService.t := LinkService.SetDemoPolicy svc tenant2 Hour.

Lemma demo_links_capped_witness : capped tenant2 Hour (exec_all demo_svc calls world0).
Proof.
  apply (@demo_links_capped _ demo_svc svc_gen svc_sink svc_cache calls world0).
  - exact schema_world0.
  - reflexivity.
  - intros id l Hl. simpl in Hl. rewrite lookup_empty in Hl. discriminate Hl.
Defined.

(** * Redirects *)

Lemma Resolve_refines_witness :
  answers "promo" (select_row (by_code "promo") (w_links with_promo)) (w_step with_promo)
    (RedirectService.Resolve resolver "promo" with_promo).1.
Proof.
  apply (Resolve_refines resolver resolver_observer "promo" with_promo);
    [exact schema_with_promo | exact coherent_with_promo].
Defined.

Lemma Update_visible_witness :
  same_link retargeted_link (value link0 (RedirectService.Resolve resolver (Link.Code retargeted_link) retargeted)).
Proof.
  refine (proj2 (@Update_visible _ _ _ svc svc_gen svc_sink eq_refl tenant1 promo_id retarget with_promo
    retargeted_link retargeted resolver _ (RedirectService.Resolve resolver (Link.Code retargeted_link) retargeted).2
    resolver_observer schema_with_promo coherent_with_promo _ _ _)).
  - apply run_eq. vm_compute. reflexivity.
  - vm_compute. reflexivity.
  - apply run_eq. vm_compute. reflexivity.
Defined.

Lemma Delete_visible_witness :
  ∃ e, (RedirectService.Resolve resolver "promo" deleted).1 = Err e
    ∧ (e = ESentinel ErrNotFound ∨ is_Some (o_fault (S (w_step deleted)))).
Proof.
  refine (proj2 (@Delete_visible _ _ _ svc svc_gen svc_sink eq_refl tenant1 promo_id with_promo tt deleted
    resolver promo_link resolver_observer schema_with_promo coherent_with_promo _ _ _)).
  - vm_compute. reflexivity.
  - apply (run_eq tt). vm_compute. reflexivity.
  - vm_compute. reflexivity.
Defined.

(** * Statistics, the janitor *)

(** Two clicks of the link recorded. *)
Definition click_at (t : Time) : Click.t := Click.Mk promo_id tenant1 t "" "" "" "" "desktop" "" "".
Definition clicked : World := (ClickRepository.RecordBatch [click_at Second; click_at (2 * Second)] with_promo).2.

Lemma schema_clicked : schema clicked.
Proof. apply RecordBatch_schema, schema_with_promo. Qed.

Definition stats0 : LinkStats.t := LinkStats.Mk 0 0 0 "" 0 [] [] [] [].
Definition promo_stats : LinkStats.t :=
  value stats0 (StatsService.LinkStats tenant1 promo_id 0 Hour BucketHour clicked).

Lemma LinkStats_correct_witness :
  LinkStats.TotalClicks promo_stats = 2
  ∧ sum (TimePoint.Count <$> LinkStats.Series promo_stats) = LinkStats.TotalClicks promo_stats.
Proof.
  destruct (LinkStats_correct tenant1 promo_id 0 Hour BucketHour clicked promo_stats
    (StatsService.LinkStats tenant1 promo_id 0 Hour BucketHour clicked).2) as (_ & _ & _ & Ht & Hs & _).
  - exact schema_clicked.
  - apply run_eq. vm_compute. reflexivity.
  - split; [rewrite Ht; vm_compute; reflexivity | exact Hs].
Defined.

Definition deleted_link : Link.t := default link0 (w_links deleted !! promo_id).


(** * Keys *)

Lemma calm_fault n : o_fault n = None.
Proof. reflexivity. Qed.

Lemma keys_world0 : keys_ok (w_db world0).
Proof. split; intros *; simpl; rewrite ?lookup_empty; done. Qed.

Definition generated0 : GeneratedKey.t := GeneratedKey.Mk "" "" "".
Definition key0 : APIKey.t := APIKey.Mk 0 0 "" "" "" 0 None None.

(** A key minted for tenant 1 and stored. *)
Definition minted : GeneratedKey.t := value generated0 (GenerateAPIKey world0).
Definition stored : res APIKey.t * World :=
  APIKeyRepository.Create tenant1 "ci" (GeneratedKey.Prefix minted) (GeneratedKey.Hash minted)
    (GenerateAPIKey world0).2.
Definition with_key : World := stored.2.
Definition stored_key : APIKey.t := value key0 stored.

Lemma stored_run :
  APIKeyRepository.Create tenant1 "ci" (GeneratedKey.Prefix minted) (GeneratedKey.Hash minted)
    (GenerateAPIKey world0).2 = (Ok stored_key, with_key).
Proof. apply run_eq. vm_compute. reflexivity. Qed.

Lemma keys_with_key : keys_ok (w_db with_key).
Proof.
  destruct (KeyCreate_Ok _ _ _ _ _ _ _ stored_run) as (Ht & Hh & _ & _ & _ & Hn & Hu & Hten & ->).
  apply (keys_ok_insert (w_db world0)); [exact keys_world0 | exact Hn | by rewrite Hh | by rewrite Ht].
Qed.

Lemma Authenticate_correct_witness :
  ∃ k, (AuthService.Authenticate (GeneratedKey.Plaintext minted) with_key).1
       = Ok (k, AuthService.touch (APIKey.ID k)) ∧ k = stored_key.
Proof.
  exists stored_key. split; [|reflexivity].
  apply (Authenticate_correct (GeneratedKey.Plaintext minted) with_key keys_with_key (calm_fault _)).
  split; [reflexivity|]. split_and!; vm_compute; reflexivity.
Defined.

Lemma minted_key_authenticates_witness :
  (AuthService.Authenticate (GeneratedKey.Plaintext minted) with_key).1
  = Ok (stored_key, AuthService.touch (APIKey.ID stored_key)).
Proof.
  refine (proj1 (minted_key_authenticates tenant1 "ci" world0 minted (GenerateAPIKey world0).2 stored_key with_key
    keys_world0 _ stored_run _)).
  - apply run_eq. vm_compute. reflexivity.
  - vm_compute. reflexivity.
Defined.

(** * Webhooks *)

Definition hook0 : Webhook.t := Webhook.Mk 0 0 "" "" [] false 0 None 0.
Definition hook_input : CreateWebhookInput.t :=
  CreateWebhookInput.Mk "https://hooks.example" [EventLinkCreated; EventLinkClicked; EventLinkCreated].

(** A webhook of tenant 1 on both events. *)
Definition with_hook : World := (WebhookService.Create tenant1 hook_input world0).2.
Definition hook : Webhook.t := value hook0 (WebhookService.Create tenant1 hook_input world0).

Lemma WebhookCreate_correct_witness :
  DB.webhooks (w_db with_hook) !! Webhook.ID hook = Some hook ∧ NoDup (Webhook.Events hook)
  ∧ String.length (Webhook.Secret hook) = 38%nat.
Proof.
  destruct (WebhookCreate_correct tenant1 hook_input world0 hook with_hook)
    as (Hdb & _ & _ & _ & _ & _ & _ & Hn & _ & _ & _ & _ & Hl).
  { apply run_eq. vm_compute. reflexivity. }
  split; [rewrite Hdb; apply lookup_insert_eq|]. split; [exact Hn | exact Hl].
Defined.

Lemma hooks_sound : webhooks_sound with_hook.
Proof.
  intros id h. assert (E : DB.webhooks (w_db with_hook) = {[ Webhook.ID hook := hook ]}) by (vm_compute; reflexivity).
  rewrite E. intros [<- <-]%lookup_singleton_Some. split; [done|]. eexists _, _. split; [vm_compute; reflexivity|]. split; [by right | done].
Qed.

Definition subscribers : list Webhook.t :=
  value [] (WebhookRepository.ListActiveForEvent tenant1 EventLinkCreated with_hook).

Lemma ListActiveForEvent_exact_witness :
  (∀ h, h ∈ subscribers ↔
    (∃ id, DB.webhooks (w_db with_hook) !! id = Some h)
    ∧ Webhook.TenantID h = tenant1 ∧ Webhook.Active h = true
    ∧ EventLinkCreated ∈ Webhook.Events h)
  ∧ NoDup (Webhook.ID <$> subscribers).
Proof.
  destruct (ListActiveForEvent_exact tenant1 EventLinkCreated with_hook subscribers
    (WebhookRepository.ListActiveForEvent tenant1 EventLinkCreated with_hook).2 hooks_sound)
    as (A & B & _); [apply run_eq; vm_compute; reflexivity | exact (conj A B)].
Defined.

Lemma RecordFailure_correct_witness :
  (WebhookRepository.RecordFailure 7%N 3 with_hook).1 = Err (ESentinel ErrNotFound).
Proof. exact (proj1 (RecordFailure_correct 7%N 3 with_hook (calm_fault _))). Defined.

(** * Generated codes *)

Lemma Generate_correct_witness :
  ∃ code w', Generate 2 (NewGenerator 7) world0 = (Ok code, w') ∧ String.length code = 7%nat.
Proof.
  destruct (Generate_correct 2 (NewGenerator 7) world0) as [(code & w' & k & E & Hl & _) _].
  - apply Nat.leb_le. vm_compute. reflexivity.
  - reflexivity.
  - exists code, w'. split; [exact E | exact Hl].
Defined.

(** * The pipeline *)

(** An environment with one worker and batches of two. *)
Definition env0 (key : string) : option string :=
  if String.eqb key "ANALYTICS_WORKERS" then Some "1"
  else if String.eqb key "ANALYTICS_BATCH_SIZE" then Some "2"
  else if String.eqb key "CACHE_NEGATIVE_TTL" then Some "30s"
  else None.
Definition cfg0 : Config.t := resolved env0.
Definition pipe0 : PipelineCfg.t := pipeline cfg0.

Definition redirected : ClickEvent.t :=
  ClickEvent.Mk promo_id tenant1 "promo" Second "https://ref.example" "curl/8.0" "203.0.113.42".

(** A click is enqueued and taken by the worker; then the pipeline is shut down, and the
    worker drains, flushes and returns. *)
Definition p0 : World := upd_pipe (λ _, NewPipeline pipe0) with_promo.
Definition p1 : World := upd_pipe (upd_checked (λ l, redirected :: l)) p0.
Definition p2 : World := (Enqueue_send pipe0 redirected (upd_pipe (upd_checked (delete 0%nat)) p1)).2.
Definition p3 : World := (receive pipe0 0 p2).2.
Definition p4 : World := (shutdown p3).2.
Definition p5 : World := (start_drain 0 p4).2.
Definition p6 : World := (finish pipe0 0 p5).2.
Definition taken_click : Click.t := enrich redirected NoopResolver (Config.IPHashSalt cfg0).

Definition serving : list act := [Silent; Accepted redirected; Silent].
Definition draining : list act := [Silent; Wrote [taken_click]].

Lemma run_serving : run pipe0 p0 serving p3.
Proof.
  eapply run_step; [by apply (step_check pipe0 redirected p0); vm_compute|].
  eapply run_step.
  { assert (E : Accepted redirected = (if Z.of_nat (length (Pipeline.input (w_pipe p1))) <? PipelineCfg.bufferSize pipe0
      then Accepted redirected else Refused redirected)) by (vm_compute; reflexivity).
    rewrite E. apply (step_send pipe0 0 redirected p1). vm_compute. reflexivity. }
  eapply run_step; [|apply run_nil].
  assert (E : Silent = receive_act pipe0 0 p2) by (vm_compute; reflexivity). rewrite E.
  apply (step_receive pipe0 0 Running [] p2); [vm_compute; reflexivity | done | vm_compute; discriminate].
Qed.

Lemma run_draining : run pipe0 p4 draining p6.
Proof.
  eapply run_step; [apply (step_quit pipe0 0 [taken_click] p4); vm_compute; reflexivity|].
  eapply run_step; [|apply run_nil].
  assert (E : Wrote [taken_click] = flush_act [taken_click] p5) by (vm_compute; reflexivity). rewrite E.
  apply (step_finish pipe0 0 [taken_click] p5); vm_compute; reflexivity.
Qed.

Lemma pipeline_conserves_witness :
  Pipeline.enqueued (w_pipe p3) = 1 ∧ Pipeline.flushed (w_pipe p3) = 0.
Proof.
  destruct (pipeline_conserves pipe0 (pipeline_laws cfg0) p0 serving p3 eq_refl run_serving) as (_ & He & Hf & _).
  split; [exact He | exact Hf].
Defined.

Lemma pipeline_bounded_witness : bounded pipe0 (w_pipe p3).
Proof.
  apply (pipeline_bounded pipe0 (pipeline_laws cfg0) p0 serving p3); [vm_compute; discriminate..|reflexivity|].
  exact run_serving.
Defined.

Lemma shutdown_drains_witness : Pipeline.input (w_pipe p6) = [] ∧ batches (Pipeline.workers (w_pipe p6)) = [].
Proof.
  destruct (shutdown_drains pipe0 (pipeline_laws cfg0) p0 serving p3 draining p6) as (Hi & Hb & _).
  - reflexivity.
  - exact run_serving.
  - vm_compute. reflexivity.
  - vm_compute. reflexivity.
  - exact run_draining.
  - split; [|vm_compute; discriminate].
    assert (E : Pipeline.workers (w_pipe p6) = [(Exited, [])]) by (vm_compute; reflexivity).
    rewrite E. by repeat constructor.
  - split; [exact Hi | exact Hb].
Defined.

Lemma shutdown_terminates_witness :
  ∃ acts w', run pipe0 p4 acts w' ∧ (length acts ≤ remaining (w_pipe p4))%nat.
Proof.
  destruct (shutdown_terminates pipe0 (pipeline_laws cfg0) p4) as (_ & _ & acts & w' & Hr & _ & Hl & _).
  - split; [vm_compute; reflexivity|]. split; [vm_compute; reflexivity|].
    left. vm_compute. reflexivity.
  - exists acts, w'. split; [exact Hr | exact Hl].
Defined.

(** * The dispatcher *)

Definition hooks_cfg : WebhookConfig.t := Config.Webhook cfg0.
Definition created : Event.t := Event.Mk 5 EventLinkCreated tenant1 Second [].

(** The webhook of tenant 1 is registered and a dispatcher runs; an event is resolved
    and delivered. *)
Definition d0 : World := upd_disp (λ _, NewDispatcher hooks_cfg) with_hook.
Definition d1 : World := (Dispatch hooks_cfg created d0).2.
Definition d2 : World := take_event hooks_cfg created [] d1.
Definition payload : string := default "" (event_Marshal created).
Definition first_job : Job.t := Job.Mk hook created payload 0.
Definition d3 : World := take_job hooks_cfg first_job [] d2.

Lemma run_delivery : drun hooks_cfg d0 [created] d3.
Proof.
  apply (drun_step _ _ [] d1 [created]); [apply (dstep_dispatch hooks_cfg created)|].
  apply (drun_step _ _ [created] d2 []).
  { apply (dstep_resolve hooks_cfg created []); vm_compute; [discriminate|reflexivity]. }
  apply (drun_step _ _ [] d3 []); [|apply drun_refl].
  apply (dstep_send hooks_cfg 0 Running first_job []); [vm_compute; reflexivity|done|vm_compute; reflexivity].
Qed.

Lemma backoff_bounds_witness :
  ∃ d w', backoff hooks_cfg 70 d0 = (Ok d, w') ∧ d <= 300 * Second.
Proof.
  destruct (backoff_bounds hooks_cfg 70 d0) as (d & w' & E & Hd & Hc & _); [lia|vm_compute; split; discriminate|].
  exists d, w'. split; [exact E|]. change (WebhookConfig.MaxBackoff hooks_cfg) with (300 * Second) in Hc. lia.
Defined.


Lemma deliver_correct_witness : Dispatcher.timers (w_disp (deliver hooks_cfg first_job d2).2) = [].
Proof.
  refine (proj2 (deliver_correct hooks_cfg first_job d2 _ _)); vm_compute; [discriminate | split; discriminate].
Defined.

Lemma attempts_bounded_witness :
  Z.of_nat (length (deliveries (Webhook.ID hook) 5 (Dispatcher.posts (w_disp d3)))) <= 6.
Proof.
  refine (proj1 (attempts_bounded hooks_cfg d0 [created] d3 (Webhook.ID hook) 5 eq_refl hooks_sound
    _ run_delivery)). vm_compute. discriminate.
Defined.

Lemma queues_bounded_witness : within_queues hooks_cfg (w_disp d3).
Proof.
  apply (queues_bounded hooks_cfg d0 [created] d3 eq_refl ltac:(vm_compute; discriminate) run_delivery).
Defined.

(** The same dispatcher, shut down with the event still queued. *)
Definition d1_quit : World := (dispatcher_shutdown d1).2.
Definition d2_quit : World := take_event hooks_cfg created [] d1_quit.

Lemma shutdown_posts_queued_jobs_witness : Dispatcher.posts (w_disp d2_quit) = [].
Proof.
  destruct (shutdown_posts_queued_jobs hooks_cfg d1_quit [created] d2_quit) as (_ & Hp & _).
  - reflexivity.
  - apply (drun_step _ _ [created] d2_quit []); [|apply drun_refl].
    apply (dstep_resolve hooks_cfg created []); vm_compute; [discriminate|reflexivity].
  - apply Hp. vm_compute. reflexivity.
Defined.

Lemma dispatcher_terminates_witness :
  ∃ evs w', dstep hooks_cfg d1_quit evs w' ∧ (disp_work (w_disp w') < disp_work (w_disp d1_quit))%nat.
Proof.
  apply (proj2 (dispatcher_terminates hooks_cfg d1_quit eq_refl)). left. vm_compute. discriminate.
Defined.

(** An endpoint that answers 302: the dispatcher asks the address it names, which nobody
    registered, by a GET with the signature, and the answer counts as the delivery. *)
Definition elsewhere : nat → HttpRequest.t → http_result := λ _ req,
  if String.eqb (HttpRequest.Method req) "POST" then HttpStatus 302 (LocatedAt "http://10.0.0.1/admin")
  else HttpStatus 200 NoLocation.

Example redirected_delivery :
  let w := (@deliver (oracle no_fault elsewhere) _ hooks_cfg first_job d2).2 in
  (λ jr, (HttpRequest.Method jr.2, HttpRequest.URL jr.2, String.eqb (HttpRequest.Body jr.2) "",
     bool_decide (HttpRequest.Header jr.2 !! SignatureHeader = Some (Sign (Webhook.Secret hook) payload))))
    <$> Dispatcher.sent (w_disp w)
  = [("POST", Webhook.URL hook, false, true); ("GET", "http://10.0.0.1/admin", true, true)]
  ∧ Dispatcher.timers (w_disp w) = [].
Proof. vm_compute. split; reflexivity. Qed.

(** * The notifier *)

Lemma ClicksFlushed_counts_witness :
  ∃ (ids : list UUID) (evs : list Event.t), length ids = length evs
    ∧ sum_list_with (λ id, length (clicks_of id [click_at 0; click_at Second])) ids = 2%nat.
Proof.
  destruct (ClicksFlushed_counts (notifier cfg0) [click_at 0; click_at Second] d0)
    as (ids & evs & _ & _ & Hf & Hs & _).
  - reflexivity.
  - vm_compute. discriminate.
  - exists ids, evs. split; [exact (Forall2_length _ _ _ Hf) | exact Hs].
Defined.

(** * Configuration *)

Lemma Load_correct_witness : Load env0 = inl cfg0.
Proof.
  apply (Load_correct env0). split; [reflexivity|]. apply problems_nil. vm_compute. reflexivity.
Defined.

Lemma getEnvInt32_out_of_range_witness :
  getEnvInt32 (λ _, Some "4294967296") "DATABASE_MAX_CONNS" 20 = 20.
Proof.
  apply (getEnvInt32_out_of_range _ _ _ "4294967296" 4294967296); [reflexivity|done|reflexivity|lia].
Defined.

(** The configuration with WEBHOOK_MAX_BACKOFF at minus ten seconds. *)
Definition negative_cap : WebhookConfig.t := WebhookConfig.Mk 4 1000 5 Second (-10 * Second) (10 * Second) 10.

Lemma negative_backoff_panics_witness : ∃ msg w', backoff negative_cap 0 d0 = (Panic msg, w').
Proof. apply (negative_backoff_panics negative_cap 0 d0). vm_compute. split; discriminate. Defined.

(** * Requests *)

Definition bare : Request.t := Request.Mk "GET" "/promo" "" "" (λ _, "promo") (λ _, None) None "" "curl/8.0" "203.0.113.42".
Definition anonymous : Ctx.t := Ctx.Mk bare None None None.

(** The same request with the stored key. *)
Definition with_token : Ctx.t :=
  Ctx.Mk (Request.Mk "GET" "/api/v1/links" "" ("Bearer " +:+ GeneratedKey.Plaintext minted) (λ _, "promo") (λ _, None) None "" "" "")
    None None None.

Definition page : M Response.t := mret (Response.Mk 200 [] BNone).

Lemma rate_limited_witness :
  RateLimit (λ _ _ _, mret (false, 0, 1500 * Millisecond)) 100 Minute (λ _, page)
    (Ctx.Mk bare (Some tenant1) None None) world0
  = (Ok (Response.Mk 429 [("X-RateLimit-Limit", "100"); ("X-RateLimit-Remaining", "0"); ("Retry-After", "1")]
           (BError CodeRateLimited "rate limit exceeded")), world0).
Proof.
  destruct (rate_limited (λ _ _ _, mret (false, 0, 1500 * Millisecond)) 100 Minute (λ _, page) bare tenant1 None None world0)
    as (s & E & H1 & H2 & H3); [vm_compute; discriminate|].
  assert (s = 1) as -> by (unfold Millisecond, Second in *; lia).
  exact E.
Defined.

Lemma api_requires_key_witness :
  (∃ msg n, serve cfg0 None page [] 2 (Api ListLinks) anonymous with_key
    = (Ok (Answer.Mk (WriteError 401 CodeUnauthorized msg) anonymous None), set_step n with_key))
  ∧ ∃ n, serve cfg0 None page [] 2 (Api ListLinks) with_token with_key
    = (resp ← limited cfg0 (api_handler cfg0 None 2 ListLinks) (setAuth with_token stored_key);
       mret (Answer.Mk resp (setAuth with_token stored_key) (Some (AuthService.touch (APIKey.ID stored_key))))) (set_step n with_key).
Proof.
  split.
  - apply (proj2 (api_requires_key cfg0 None page [] 2 ListLinks anonymous with_key keys_with_key (calm_fault _))).
    intros (k & token & E & _). vm_compute in E. discriminate E.
  - destruct (proj1 (api_requires_key cfg0 None page [] 2 ListLinks with_token with_key keys_with_key
      (calm_fault _)) stored_key) as (n & E & _); [|exists n; exact E].
    exists (GeneratedKey.Plaintext minted). split_and!; vm_compute; reflexivity.
Defined.

Lemma api_isolated_witness :
  w_db (serve cfg0 None page [] 2 (Api ListLinks) anonymous with_promo).2 = w_db with_promo.
Proof.
  destruct (api_isolated cfg0 None page [] 2 ListLinks anonymous with_promo schema_with_promo)
    as [E|(token & k & t & w1 & E & _)]; [exact E|].
  vm_compute in E. discriminate E.
Defined.

Lemma redirect_correct_witness :
  ∃ resp w', serve cfg0 None page [] 2 RedirectRoute anonymous with_promo = (Ok (Answer.Mk resp anonymous None), w')
    ∧ w_db w' = w_db with_promo ∧ coherent w'.
Proof.
  destruct (redirect_correct cfg0 None page [] 2 anonymous with_promo schema_with_promo coherent_with_promo)
    as (resp & w' & E & D & C & _).
  exists resp, w'. split; [exact E|]. split; [exact D | exact C].
Defined.

(** A batch on the links table. *)
Lemma RecordBatch_atomic_witness :
  schema (ClickRepository.RecordBatch [click_at Second] with_promo).2.
Proof. exact (proj2 (RecordBatch_atomic [click_at Second] with_promo) schema_with_promo). Defined.

(** * The process

    The program started on an empty database, and a link created with the demo key. *)

Lemma world_ok_world0 : world_ok world0.
Proof.
  split; [|by apply map_Forall_empty].
  split; [exact schema_world0|apply map_Forall_empty|exact keys_world0|].
  intros id h. simpl. by rewrite lookup_empty.
Qed.

Definition booted : World := (boot cfg0 world0).2.
Definition demo_tenant : option Tenant.t := value None (boot cfg0 world0).

Definition demo_request : Ctx.t :=
  Ctx.Mk (Request.Mk "POST" "/api/v1/links" "" ("Bearer " +:+ Seed.DemoAPIKey) (λ _, "") (λ _, None) (Some "https://example.com/page") "" "" "")
    None None None.

Definition linked : World := (engine cfg0 demo_tenant page health 2 (Some (Api CreateLink)) demo_request booted).2.

Lemma page_reads : reads page.
Proof. apply reads_ret. Qed.

Lemma linked_reachable : reachable page 2 env0 world0 cfg0 demo_tenant linked.
Proof.
  split; [vm_compute; reflexivity|]. exists booted. split.
  - apply (run_eq None (boot cfg0) world0). vm_compute. reflexivity.
  - apply rtc_once. apply s_request.
Qed.

(** A webhook is registered with the demo key, then a link is created; its event is
    resolved and delivered. *)
Definition hooked : World := (engine cfg0 demo_tenant page health 2 (Some (Api CreateWebhook)) demo_request booted).2.
Definition announced_link : World := (engine cfg0 demo_tenant page health 2 (Some (Api CreateLink)) demo_request hooked).2.
Definition link_event : Event.t :=
  default created (head (Dispatcher.events (w_disp announced_link))).
Definition fanned_out : World := take_event hooks_cfg link_event [] announced_link.
Definition link_job : Job.t := default first_job (head (Dispatcher.jobs (w_disp fanned_out))).
Definition notified : World := take_job hooks_cfg link_job [] fanned_out.

Lemma notified_reachable : reachable page 2 env0 world0 cfg0 demo_tenant notified.
Proof.
  split; [vm_compute; reflexivity|]. exists booted. split.
  { apply (run_eq None (boot cfg0) world0). vm_compute. reflexivity. }
  eapply rtc_l; [apply (s_request cfg0 demo_tenant page 2 (Some (Api CreateWebhook)) demo_request)|].
  eapply rtc_l; [apply (s_request cfg0 demo_tenant page 2 (Some (Api CreateLink)) demo_request)|].
  eapply rtc_l; [eapply s_dispatcher, (dstep_resolve hooks_cfg link_event []); vm_compute; [discriminate|reflexivity]|].
  eapply rtc_l; [|apply rtc_refl].
  eapply s_dispatcher, (dstep_send hooks_cfg 0 Running link_job []); [vm_compute; reflexivity|done|vm_compute; reflexivity].
Qed.

Lemma requests_authentic_witness :
  length (Dispatcher.posts (w_disp notified)) = 1%nat
  ∧ ∃ req hook payload signature, Dispatcher.sent (w_disp notified) = [(link_job, req)]
      ∧ HttpRequest.Method req = "POST" ∧ HttpRequest.Body req = payload
      ∧ HttpRequest.Header req !! SignatureHeader = Some signature
      ∧ Verify (Webhook.Secret hook) payload signature = true.
Proof.
  assert (E : length (Dispatcher.posts (w_disp notified)) = 1%nat) by (vm_compute; reflexivity).
  split; [exact E|].
  destruct (requests_authentic page page_reads 2 env0 world0 cfg0 demo_tenant notified world_ok_world0 notified_reachable)
    as (_ & _ & Hall).
  assert (Es : ∃ req, Dispatcher.sent (w_disp notified) = [(link_job, req)] ∧ HttpRequest.Method req = "POST").
  { eexists. split; vm_compute; reflexivity. }
  destruct Es as (req & Es & Em). cbv zeta in Hall. rewrite Es in Hall.
  destruct (Hall link_job req) as (_ & wr & ev & id & hook & payload & sig & _ & _ & _ & _ & _ & _ & _ & Hs & Hv & _ & _ & _ & Hm & _);
    [left|].
  exists req, hook, payload, sig. split; [exact Es|]. split; [exact Em|].
  destruct Hm as [[_ Hb]|[Hg _]]; [split; [exact Hb|split; [exact Hs|exact Hv]]|].
  rewrite Em in Hg. discriminate Hg.
Defined.

Lemma reachable_sound_witness :
  world_ok linked ∧ size (DB.links (w_db linked)) = 1%nat ∧ size (DB.api_keys (w_db linked)) = 1%nat.
Proof.
  split.
  - exact (reachable_sound page page_reads 2 env0 world0 cfg0 demo_tenant linked world_ok_world0 linked_reachable).
  - vm_compute. split; reflexivity.
Defined.

(** The link's code, and a request for it. *)
Definition linked_code : string :=
  match map_to_list (DB.links (w_db linked)) with (_, l) :: _ => Link.Code l | [] => "" end.
Definition visit : Ctx.t := Ctx.Mk (Request.Mk "GET" ("/" +:+ linked_code) "" "" (λ _, linked_code) (λ _, None) None "" "" "203.0.113.42")
    None None None.
Definition visited := engine cfg0 demo_tenant page health 2 (Some RedirectRoute) visit linked.
Definition visit_answer : Answer.t := value (Answer.Mk (Response.Mk 0 [] BNone) visit None) visited.

Lemma redirects_to_web_witness :
  Response.status (Answer.response visit_answer) = 302
  ∧ ∃ t, hexEscapeNonASCII t = "https://example.com/page" ∧ web_url t.
Proof.
  assert (Es : Response.status (Answer.response visit_answer) = 302) by (vm_compute; reflexivity).
  assert (Eh : (snd <$> Response.headers (Answer.response visit_answer)) !! 1%nat = Some "https://example.com/page")
    by (vm_compute; reflexivity).
  split; [exact Es|].
  destruct (redirects_to_web page page_reads 2 env0 world0 cfg0 demo_tenant linked visit visit_answer
    visited.2 world_ok_world0 linked_reachable eq_refl) as [(id & t & Ht & _ & Et)|Hs].
  - apply run_eq. vm_compute. reflexivity.
  - rewrite Et in Eh. injection Eh as Eh. exists t. split; [exact Eh|exact Ht].
  - rewrite Es in Hs. lia.
Defined.

(** The line and the count it left. *)
Example visit_observed :
  AccessLine.status <$> w_access visited.2 = [201; 302]
  ∧ Metrics.httpRequests (w_metrics visited.2) !! ("GET", "/:code", "302") = Some 1.
Proof. split; vm_compute; reflexivity. Qed.

Lemma process_bounded_witness : bounded (pipeline cfg0) (w_pipe linked).
Proof.
  exact (proj1 (process_bounded page page_reads 2 env0 world0 cfg0 demo_tenant linked world_ok_world0 linked_reachable)).
Defined.

(** * The end of the process *)

Lemma booted_run : boot cfg0 world0 = (Ok demo_tenant, booted).
Proof. apply (run_eq None (boot cfg0) world0). vm_compute. reflexivity. Qed.

Abbreviation process := (lstep cfg0 demo_tenant page 2).

(** A link was created and visited: a click is in the channel and events are queued. *)
Lemma process_visited : rtc process (started booted) (Proc.Mk Serving false visited.2).
Proof.
  eapply rtc_l; [|eapply rtc_once].
  - apply (l_goes_on _ _ _ _ Serving false booted linked).
    split; [exact (s_request cfg0 demo_tenant page 2 (Some (Api CreateLink)) demo_request booted)|vm_compute; reflexivity].
  - apply (l_goes_on _ _ _ _ Serving false linked visited.2).
    split; [exact (s_request cfg0 demo_tenant page 2 (Some RedirectRoute) visit linked)|vm_compute; reflexivity].
Qed.

(** The signal arrives, and every stage drains in time. *)
Lemma process_exits : ∃ w, rtc process (Proc.Mk Serving false visited.2) (Proc.Mk (Returned None) false w).
Proof.
  destruct (workers_return cfg0 demo_tenant page 2 false (shutdown visited.2).2) as (w2 & Hr2 & _ & Hall).
  { vm_compute. reflexivity. }
  destruct (goroutines_return cfg0 demo_tenant page 2 false (dispatcher_shutdown w2).2 eq_refl) as (w3 & Hr3 & Hres & Hs).
  exists w3. eapply rtc_l; [apply l_signal|]. eapply rtc_l; [apply l_http_stopped; vm_compute; reflexivity|].
  etrans; [exact Hr2|]. eapply rtc_l; [by apply l_clicks_drained|]. eapply rtc_r; [exact Hr3|by apply l_hooks_drained].
Qed.


Lemma exit_always_possible_witness :
  ∃ w, rtc process (Proc.Mk Serving false visited.2) (Proc.Mk (Returned None) false w).
Proof.
  apply (exit_always_possible cfg0 demo_tenant page 2 page_reads world0 booted (Proc.Mk Serving false visited.2)
    booted_run process_visited).
  intros r. discriminate.
Defined.

(** The listener fails while the click is in the channel. *)
Lemma failed_exit_abandons_witness :
  Pipeline.quit (w_pipe visited.2) = false ∧ length (Pipeline.input (w_pipe visited.2)) = 1%nat.
Proof.
  split; [|vm_compute; reflexivity].
  destruct (failed_exit_abandons cfg0 demo_tenant page 2 page_reads world0 booted (EOther "listen") false visited.2
    booted_run) as [Hq _].
  - eapply rtc_r; [exact process_visited|apply l_listener].
  - exact (f_equal fst Hq).
Defined.

(** * Healing *)

(** The same program with cached entries of a second. *)
Definition env_brief (key : string) : option string :=
  if String.eqb key "CACHE_LINK_TTL" then Some "1s" else env0 key.
Definition cfg_brief : Config.t := resolved env_brief.
Definition booted_brief : World := (boot cfg_brief world0).2.

(** A request to the program with these entries. *)
Definition brief (r : option route) (c : Ctx.t) : M Answer.t := engine cfg_brief demo_tenant page health 2 r c.
Definition visited_brief : World := (brief (Some RedirectRoute) visit (brief (Some (Api CreateLink)) demo_request booted_brief).2).2.
Definition later_brief : World := (brief (Some Healthz) anonymous visited_brief).2.

Lemma booted_brief_run : boot cfg_brief world0 = (Ok demo_tenant, booted_brief).
Proof. apply (run_eq None (boot cfg_brief) world0). vm_compute. reflexivity. Qed.

Lemma visited_brief_reachable : reachable page 2 env_brief world0 cfg_brief demo_tenant visited_brief.
Proof.
  split; [vm_compute; reflexivity|]. exists booted_brief. split.
  { exact booted_brief_run. }
  eapply rtc_l; [apply (s_request cfg_brief demo_tenant page 2 (Some (Api CreateLink)) demo_request)|].
  apply rtc_once, (s_request cfg_brief demo_tenant page 2 (Some RedirectRoute) visit).
Qed.

Definition cached_until (w : World) : option Time :=
  Redis.strs (w_redis w) !! cacheKey linked_code ≫= snd.

Lemma staleness_ends_witness :
  is_Some (cached_until visited_brief)
  ∧ answers linked_code (select_row (by_code linked_code) (w_links later_brief)) (w_step later_brief)
      (RedirectService.Resolve (redirectService cfg_brief) linked_code later_brief).1.
Proof.
  split; [vm_compute; by eexists|].
  destruct (staleness_ends page page_reads 2 env_brief world0 cfg_brief demo_tenant visited_brief linked_code
    world_ok_world0 ltac:(done) visited_brief_reachable) as (T & HT & Hlater).
  { split; vm_compute; reflexivity. }
  refine (proj1 (Hlater later_brief _ _)).
  - apply rtc_once. split; [exact (s_request cfg_brief demo_tenant page 2 (Some Healthz) anonymous visited_brief)|].
    vm_compute. split; reflexivity.
  - assert (E : ∃ t, cached_until visited_brief = Some t ∧ t <= o_now (w_step later_brief)).
    { exists (default 0 (cached_until visited_brief)). split; vm_compute; [reflexivity|discriminate]. }
    destruct E as (t & ([v x] & Hv & Hx)%bind_Some & Ht). change (x = Some t) in Hx.
    pose proof (eq_trans (eq_sym Hx) (HT v x Hv)) as Et. injection Et as <-. exact Ht.
Defined.

(** [Load] takes a lifetime of zero: the entries then never expire, and a stale one is
    there until an invalidation reaches it. *)
Definition env_forever (key : string) : option string :=
  if String.eqb key "CACHE_LINK_TTL" then Some "0s" else env0 key.
Definition cfg_forever : Config.t := resolved env_forever.
Definition visited_forever : World :=
  (engine cfg_forever demo_tenant page health 2 (Some RedirectRoute) visit linked).2.

Example zero_ttl_never_expires :
  Load env_forever = inl cfg_forever
  ∧ snd <$> Redis.strs (w_redis visited_forever) !! cacheKey linked_code = Some None.
Proof. split; vm_compute; reflexivity. Qed.

(** * Interleaved requests *)

(** The link of the demo tenant, and two patches of it. *)
Definition linked_row : Link.t := match map_to_list (DB.links (w_db linked)) with (_, l) :: _ => l | [] => link0 end.

Definition in_quotes (s : string) : string := String dquote (s +:+ String dquote "").

Definition patching_row (field value : string) : request :=
  (Some (Api UpdateLink),
   Ctx.Mk (Request.Mk "PATCH" "/api/v1/links" "" ("Bearer " +:+ Seed.DemoAPIKey) (λ _, uuid_String (Link.ID linked_row))
     (λ _, None) (Some ("{" +:+ in_quotes field +:+ ":" +:+ value +:+ "}")) "" "" "") None None None).
Definition move : request := patching_row "url" (in_quotes "https://example.com/moved").
Definition limit : request := patching_row "max_clicks" "9".
Definition visiting : request := (Some RedirectRoute, visit).

(** The requests arrive after the link was created, and make their calls in this order. *)
Definition interleaved (rs : list request) (order : list nat) : Run.t :=
  schedule order (Run.Mk ((λ r, (r, program cfg0 demo_tenant page 2 r)) <$> rs) [linked; booted] linked).

Lemma interleaved_run r1 r2 order : concurrent_run page 2 world0 cfg0 demo_tenant (interleaved [r1; r2] order).
Proof.
  exists booted. split; [exact booted_run|].
  eapply rtc_l; [apply (c_other cfg0 demo_tenant page 2 linked [] [booted] booted);
    exact (s_request cfg0 demo_tenant page 2 (Some (Api CreateLink)) demo_request booted)|].
  eapply rtc_l; [apply (c_arrive cfg0 demo_tenant page 2 r1)|]. eapply rtc_l; [apply (c_arrive cfg0 demo_tenant page 2 r2)|].
  apply schedule_runs.
Qed.

Lemma world0_initial : initial world0.
Proof. split; [exact world_ok_world0|exact (coherent_no_cache world0 eq_refl)|done]. Qed.

(** A visit reads the row, the link is moved, and the visit goes on. *)
Definition raced : Run.t := interleaved [visiting; move] (repeat 0%nat 6 ++ repeat 1%nat 40 ++ repeat 0%nat 20).

Definition answer_of (i : nat) (c : Run.t) : Answer.t :=
  match Run.threads c !! i with Some (_, Done (Ok a)) => a | _ => Answer.Mk (Response.Mk 0 [] BNone) visit None end.

Lemma interleaved_redirects_witness :
  Link.TargetURL <$> w_links (Run.state raced) !! Link.ID linked_row = Some "https://example.com/moved"
  ∧ Response.headers (Answer.response (answer_of 0 raced)) !! 1%nat = Some ("Location", "https://example.com/page")
  ∧ ∃ t, hexEscapeNonASCII t = "https://example.com/page" ∧ web_url t.
Proof.
  split; [vm_compute; reflexivity|].
  assert (Hin : (visiting, Done (Ok (answer_of 0 raced))) ∈ Run.threads raced).
  { apply list_elem_of_lookup. exists 0%nat. vm_compute. reflexivity. }
  assert (Eh : Response.headers (Answer.response (answer_of 0 raced)) !! 1%nat = Some ("Location", "https://example.com/page"))
    by (vm_compute; reflexivity).
  assert (Es : Response.status (Answer.response (answer_of 0 raced)) = 302) by (vm_compute; reflexivity).
  split; [exact Eh|].
  destruct (interleaved_redirects page page_reads 2 world0 cfg0 demo_tenant raced world0_initial (interleaved_run _ _ _))
    as [_ Hall].
  destruct (Hall _ _ Hin) as [Hst|(l & id & E & Hu & _)].
  - rewrite Es in Hst. exfalso. exact (Hst eq_refl).
  - rewrite E in Eh.
    change (Some ("Location", hexEscapeNonASCII (Link.TargetURL l)) = Some ("Location", "https://example.com/page")) in Eh.
    exists (Link.TargetURL l). split; [congruence|exact Hu].
Defined.

(** The patch of the row is answered with the tenant's row. *)
Lemma interleaved_tenants_witness :
  Response.status (Answer.response (answer_of 1 raced)) = 200
  ∧ ∃ k w x, w ∈ Run.past raced ∧ presents move.2 (w_db w) k
      ∧ shows (linkHandler cfg0 demo_tenant 2) (APIKey.TenantID k) (Run.past raced) x.
Proof.
  assert (Hin : (move, Done (Ok (answer_of 1 raced))) ∈ Run.threads raced).
  { apply list_elem_of_lookup. exists 1%nat. vm_compute. reflexivity. }
  assert (Es : Response.status (Answer.response (answer_of 1 raced)) = 200) by (vm_compute; reflexivity).
  split; [exact Es|].
  destruct (interleaved_tenants page page_reads 2 world0 cfg0 demo_tenant raced world0_initial (interleaved_run _ _ _))
    as [_ Hall].
  destruct (Hall UpdateLink move.2 _ Hin) as (id & resp & E & [(msg & Er)|[(k & w & Hw & Hk & Hs)|[Ha _]]]).
  - exfalso. rewrite E, Er in Es. discriminate Es.
  - exists k, w, (Response.content resp). split; [exact Hw|]. split; [exact Hk|exact Hs].
  - discriminate Ha.
Defined.

(** A request that makes its calls one after the other. *)
Fixpoint advances {A} (n : nat) (p : Prog A) (w : World) : Prog A :=
  match n with
  | 0%nat => p
  | S n => match advance p w with Some (p', w') => advances n p' w' | None => p end
  end.

Definition unfinished {A} (p : Prog A) : bool := match p with Done _ => false | Call _ _ => true end.

Lemma advances_goes {A} n (p : Prog A) w :
  unfinished (advances n p w) = true → nsteps goes (S n) p (advances (S n) p w).
Proof.
  revert p w. induction n as [|n IH]; intros p w Hu.
  - destruct p as [r|X m k]; [done|]. eapply nsteps_l, nsteps_O. exists w, (m w).2. simpl. by destruct (m w).
  - destruct p as [r|X m k]; [done|]. cbn [advances advance] in *. destruct (m w) as [r w'] eqn:E.
    eapply nsteps_l; [exists w, w'; simpl; by rewrite E|]. by apply IH.
Qed.

(** The visit makes all the calls it may, and is answered. *)
Lemma request_calls_bounded_witness :
  unfinished (advances 16 (program cfg0 demo_tenant page 2 visiting) linked) = false
  ∧ request_calls cfg0 (Some RedirectRoute) = 16%nat ∧ (16 ≤ request_calls cfg0 (Some RedirectRoute))%nat.
Proof.
  split; [vm_compute; reflexivity|]. split; [vm_compute; reflexivity|].
  refine (request_calls_bounded cfg0 demo_tenant page 2 (Some RedirectRoute) visit 16 _
    (advances_goes 15 (program cfg0 demo_tenant page 2 visiting) linked _)).
  vm_compute. reflexivity.
Defined.

(** ** A race, and its end

    With cached entries of a second: a visit has read the row when the link is moved, and
    goes on after the move has been answered. *)
Definition linked_brief : World := (brief (Some (Api CreateLink)) demo_request booted_brief).2.
Definition overtaken : Run.t :=
  schedule (repeat 0%nat 6 ++ repeat 1%nat 40)
    (Run.Mk ((λ r, (r, program cfg_brief demo_tenant page 2 r)) <$> [visiting; move]) [linked_brief; booted_brief] linked_brief).
Definition overwritten : Run.t := schedule (repeat 0%nat 20) overtaken.

(** The process answers a probe in one step. *)
Definition probe (w : World) : World := (brief (Some Healthz) anonymous w).2.
Definition probed (c : Run.t) : Run.t := Run.Mk (Run.threads c) (probe (Run.state c) :: Run.past c) (probe (Run.state c)).
(** A visit arrives. *)
Definition arrived (c : Run.t) : Run.t :=
  Run.Mk (Run.threads c ++ [(visiting, program cfg_brief demo_tenant page 2 visiting)]) (Run.past c) (Run.state c).

Definition expired : Run.t := probed overwritten.
Definition revisited : Run.t := schedule (repeat 2%nat 30) (arrived expired).

Lemma probed_step c : cstep cfg_brief demo_tenant page 2 c (probed c).
Proof. destruct c as [ts h w]. apply c_other. exact (s_request cfg_brief demo_tenant page 2 (Some Healthz) anonymous w). Qed.

Lemma arrived_step c : cstep cfg_brief demo_tenant page 2 c (arrived c).
Proof. destruct c as [ts h w]. apply (c_arrive cfg_brief demo_tenant page 2 visiting). Qed.

(** A schedule whose states all pass a test. *)
Fixpoint passing (P : World → bool) (order : list nat) (c : Run.t) : bool :=
  match order with
  | [] => true
  | i :: order =>
      match Run.threads c !! i with
      | Some (r, p) =>
          match advance p (Run.state c) with
          | Some (p', w') => P w' && passing P order (Run.Mk (<[i := (r, p')]> (Run.threads c)) (w' :: Run.past c) w')
          | None => passing P order c
          end
      | None => passing P order c
      end
  end.

Lemma passing_runs P order c :
  passing P order c = true → P (Run.state c) = true →
  rtc (λ c c', cstep cfg_brief demo_tenant page 2 c c' ∧ P (Run.state c) = true ∧ P (Run.state c') = true)
    c (schedule order c).
Proof.
  revert c. induction order as [|i order IH]; intros [ts h w]; cbn [passing schedule Run.threads Run.state Run.past];
    [intros; apply rtc_refl|].
  destruct (ts !! i) as [[r p]|] eqn:Hi; [|apply IH]. destruct (advance p w) as [[p' w']|] eqn:Ha; [|apply IH].
  intros [Hp Hr]%andb_prop Hw. eapply rtc_l; [|by apply IH]. split; [by eapply c_call|by split].
Qed.

#[local] Instance link_eq_dec : EqDecision Link.t.
Proof. solve_decision. Defined.

Definition row_of (w : World) : option Link.t := select_row (by_code linked_code) (w_links w).
Definition moved_row : option Link.t := row_of (Run.state overtaken).
Definition as_moved (w : World) : bool := @bool_decide _ (option_eq_dec (row_of w) moved_row).
Definition past_expiry (w : World) : bool := as_moved w && (o_now (w_step (Run.state expired)) <=? o_now (w_step w)).

Lemma as_moved_quiet c c' :
  cstep cfg_brief demo_tenant page 2 c c' ∧ as_moved (Run.state c) = true ∧ as_moved (Run.state c') = true →
  quiet_step page 2 cfg_brief demo_tenant linked_code c c'.
Proof.
  unfold as_moved. intros (Hs & Hc%bool_decide_eq_true & Hc'%bool_decide_eq_true). split; [exact Hs|].
  fold (row_of (Run.state c)). fold (row_of (Run.state c')). rewrite Hc, Hc'. apply answers_alike_refl.
Qed.

Lemma passing_quiet order c :
  passing as_moved order c = true → as_moved (Run.state c) = true →
  rtc (quiet_step page 2 cfg_brief demo_tenant linked_code) c (schedule order c).
Proof. intros Hp Hc. eapply rtc_subrel; [apply as_moved_quiet|]. by apply passing_runs. Qed.

Lemma passing_late T order c :
  T <= o_now (w_step (Run.state expired)) → passing past_expiry order c = true → past_expiry (Run.state c) = true →
  rtc (late_step page 2 cfg_brief demo_tenant linked_code T) c (schedule order c).
Proof.
  intros HT Hp Hc. eapply rtc_subrel; [|by apply passing_runs, Hc]. unfold past_expiry.
  intros a b (Hs & [Ha _]%andb_prop & [Hb Ht%Z.leb_le]%andb_prop). split; [by apply as_moved_quiet|lia].
Qed.

Lemma overtaken_run : concurrent_run page 2 world0 cfg_brief demo_tenant overtaken.
Proof.
  exists booted_brief. split; [exact booted_brief_run|].
  eapply rtc_l; [apply (c_other cfg_brief demo_tenant page 2 linked_brief [] [booted_brief] booted_brief);
    exact (s_request cfg_brief demo_tenant page 2 (Some (Api CreateLink)) demo_request booted_brief)|].
  eapply rtc_l; [apply (c_arrive cfg_brief demo_tenant page 2 visiting)|].
  eapply rtc_l; [apply (c_arrive cfg_brief demo_tenant page 2 move)|]. apply schedule_runs.
Qed.

(** No entry of the code outlives the clock of [expired]. *)
Definition outlived (w : World) : bool :=
  match Redis.strs (w_redis w) !! cacheKey linked_code with
  | Some (_, Some t) => t <=? o_now (w_step (Run.state expired))
  | _ => true
  end.

Lemma expired_after T : latest linked_code T overwritten → T <= o_now (w_step (Run.state expired)).
Proof.
  intros [->|(w & v & Hw & Hv)]; [vm_compute; discriminate|].
  assert (Hall : forallb outlived (Run.past overwritten) = true) by (vm_compute; reflexivity).
  pose proof (proj1 (forallb_forall _ _) Hall w (proj1 (list_elem_of_In _ _) Hw)) as Ho.
  unfold outlived in Ho. rewrite Hv in Ho. by apply Z.leb_le.
Qed.

Lemma arrived_late c T :
  as_moved (Run.state c) = true → T <= o_now (w_step (Run.state c)) →
  late_step page 2 cfg_brief demo_tenant linked_code T c (arrived c).
Proof. intros Hm HT. split; [|exact HT]. apply as_moved_quiet. split; [apply arrived_step|by split]. Qed.

Lemma overwritten_quiet : rtc (quiet_step page 2 cfg_brief demo_tenant linked_code) overtaken overwritten.
Proof. apply passing_quiet; vm_compute; reflexivity. Qed.

Lemma expired_quiet : rtc (quiet_step page 2 cfg_brief demo_tenant linked_code) overwritten expired.
Proof. apply rtc_once, as_moved_quiet. split; [apply probed_step|split; vm_compute; reflexivity]. Qed.

Lemma revisited_late T :
  T <= o_now (w_step (Run.state expired)) → rtc (late_step page 2 cfg_brief demo_tenant linked_code T) expired revisited.
Proof.
  intros HT. apply (rtc_l _ expired (arrived expired)); [apply arrived_late; [vm_compute; reflexivity|exact HT]|].
  unfold revisited. apply passing_late; [exact HT|vm_compute; reflexivity..].
Qed.

(** The visit and the move, answered; and the later visit. *)
Lemma overwritten_answered : answered_below 2 overwritten.
Proof.
  split; [vm_compute; lia|]. intros [|[|i]] t Hi Ht; [| |lia].
  - exists (Ok (answer_of 0 overwritten)). revert Ht. vm_compute. by intros [= <-].
  - exists (Ok (answer_of 1 overwritten)). revert Ht. vm_compute. by intros [= <-].
Qed.

Lemma revisited_moved : row_of (Run.state revisited) = moved_row.
Proof. vm_compute. reflexivity. Qed.

(** What the visit wrote after the move is in the cache; it expires, and the next visit
    is sent where the link was moved. *)
Lemma races_heal_witness :
  Link.TargetURL <$> moved_row = Some "https://example.com/moved"
  ∧ Response.headers (Answer.response (answer_of 0 overwritten)) !! 1%nat = Some ("Location", "https://example.com/page")
  ∧ is_Some (cached_until (Run.state overwritten))
  ∧ ∃ l id, Answer.response (answer_of 2 revisited) = Response.Mk (redirectStatus (Link.RedirectType l))
        [("X-Request-ID", id); ("Location", hexEscapeNonASCII (Link.TargetURL l))] (BRedirect (Link.TargetURL l))
      ∧ Link.TargetURL l = "https://example.com/moved".
Proof.
  assert (Em : Link.TargetURL <$> moved_row = Some "https://example.com/moved") by (vm_compute; reflexivity).
  split; [exact Em|]. split; [vm_compute; reflexivity|]. split; [vm_compute; by eexists|].
  destruct (races_heal page page_reads 2 world0 cfg_brief demo_tenant overtaken linked_code overwritten
    world0_initial overtaken_run) as (T & Hl & Hheal).
  - split; vm_compute; reflexivity.
  - exact overwritten_quiet.
  - exact overwritten_answered.
  - pose proof (expired_after T Hl) as HT. destruct (Hheal expired expired_quiet HT) as [_ Hlate].
    destruct (Hlate revisited 2%nat visit (answer_of 2 revisited) (revisited_late T HT)) as [Hst|(l & r & id & n & E & Hr & Et & _)].
    + vm_compute. lia.
    + vm_compute. reflexivity.
    + reflexivity.
    + exfalso. assert (Es : Response.status (Answer.response (answer_of 2 revisited)) = 302) by (vm_compute; reflexivity).
      rewrite Es in Hst. exact (Hst eq_refl).
    + exists l, id. split; [exact E|].
      assert (Er : moved_row = Some r) by (rewrite <- revisited_moved; exact Hr).
      rewrite Er in Em. rewrite Et. injection Em as Em. exact Em.
Defined.

(** Two patches of different fields, the first of which has read the row before the
    second writes it: both are answered 200 with the row they wrote, and the second is
    undone by the first. *)
Example lost_update :
  let c := interleaved [limit; move] (repeat 0%nat 8 ++ repeat 1%nat 40 ++ repeat 0%nat 40) in
  (λ i, match Response.content (Answer.response (answer_of i c)) with
        | BLink l => Some (Response.status (Answer.response (answer_of i c)), linkResponse.TargetURL l, linkResponse.MaxClicks l)
        | _ => None
        end) <$> [0; 1]%nat
    = [Some (200, "https://example.com/page", Some 9); Some (200, "https://example.com/moved", None)]
  ∧ (λ l, (Link.TargetURL l, Link.MaxClicks l)) <$> w_links (Run.state c) !! Link.ID linked_row
    = Some ("https://example.com/page", Some 9).
Proof. vm_compute. split; reflexivity. Qed.

(** * Secrets *)

(** The webhook of the demo tenant, with another secret. *)
Definition rekeyed : World :=
  upd_db (DB.with_webhooks (fmap (λ h, Webhook.Mk (Webhook.ID h) (Webhook.TenantID h) (Webhook.URL h) "whsec_other"
    (Webhook.Events h) (Webhook.Active h) (Webhook.FailureCount h) (Webhook.DisabledAt h) (Webhook.CreatedAt h)))) hooked.

Lemma secrets_stay_in_witness :
  Webhook.Secret <$> (map_to_list (DB.webhooks (w_db rekeyed))).*2
    ≠ Webhook.Secret <$> (map_to_list (DB.webhooks (w_db hooked))).*2
  ∧ (answers_to cfg0 demo_tenant page 2 [(Some (Api ListWebhooks), demo_request)] hooked).1
    = (answers_to cfg0 demo_tenant page 2 [(Some (Api ListWebhooks), demo_request)] rekeyed).1.
Proof.
  split; [vm_compute; discriminate|].
  refine (proj1 (secrets_stay_in cfg0 demo_tenant page 2 (blind_ret _) [(Some (Api ListWebhooks), demo_request)] hooked rekeyed _)).
  vm_compute. reflexivity.
Defined.

Definition negative_queue : Config.t := resolved (λ k, if String.eqb k "WEBHOOK_QUEUE_SIZE" then Some "-1" else None).

Lemma negative_queue_panics_witness :
  Load (λ k, if String.eqb k "WEBHOOK_QUEUE_SIZE" then Some "-1" else None) = inl negative_queue
  ∧ ∃ msg w', boot negative_queue world0 = (Panic msg, w').
Proof.
  split; [vm_compute; reflexivity|]. apply (negative_queue_panics negative_queue calm_fault). vm_compute. reflexivity.
Defined.

(** * Batches *)

Definition two_clicks : list Click.t := [click_at Second; click_at Minute].

Lemma batch_is_each_witness :
  DB.clicks (w_db (record_each two_clicks with_promo).2)
    = DB.clicks (w_db (ClickRepository.RecordBatch two_clicks with_promo).2)
  ∧ length (w_clicks (ClickRepository.RecordBatch two_clicks with_promo).2) = 2%nat.
Proof.
  split; [|vm_compute; reflexivity].
  refine (proj1 (batch_is_each two_clicks with_promo
    (value [] (ClickRepository.RecordBatch two_clicks with_promo)) _
    (value [] (record_each two_clicks with_promo)) _ _ _));
    apply run_eq; vm_compute; reflexivity.
Defined.

(** A click whose Referer was the byte 255, behind a sound one. *)
Definition poisoned : Click.t :=
  enrich (ClickEvent.Mk promo_id tenant1 "promo" Second (String "255" "") "curl/8.0" "203.0.113.42") NoopResolver "salt".

Lemma one_click_loses_batch_witness :
  w_clicks (ClickRepository.RecordBatch [click_at Second; poisoned] with_promo).2 = w_clicks with_promo
  ∧ length (w_clicks (ClickRepository.RecordBatch [click_at Second] with_promo).2) = 1%nat.
Proof.
  split; [|vm_compute; reflexivity].
  destruct (one_click_loses_batch [click_at Second; poisoned] poisoned with_promo) as (e & w' & E & Hd).
  - right. left.
  - vm_compute. reflexivity.
  - rewrite E. simpl. by rewrite Hd.
Defined.

Lemma undecodable_code_fails_witness :
  ∃ e, (RedirectService.Resolve resolver (String "255" "") with_promo).1 = Err e ∧ ∀ x, Is e x = false.
Proof.
  apply (undecodable_code_fails resolver resolver_observer (String "255" "") with_promo); vm_compute; reflexivity.
Defined.

(** * JSON and the environment *)

Lemma Load_reads_back_witness : Load (environment_of (variables cfg0)) = inl cfg0.
Proof.
  apply Load_reads_back.
  - apply problems_nil. vm_compute. reflexivity.
  - split; vm_compute; first [reflexivity | split; discriminate | discriminate].
Defined.

(** A patch with one field of each kind, the new expiry written an hour west of UTC. *)
Definition patch : Patch.t :=
  Patch.Mk (Some (Some ("https://example.com/?q=" +:+ String dquote "<&>"))) None (Some (Some (90 * Second))) (Some None).
Definition patch_body : string := string_of (Json.encode (default TNull (Patch.body (-60) patch))).
Definition patching : Ctx.t :=
  Ctx.Mk (Request.Mk "PATCH" "/api/v1/links" "" "" (λ _, uuid_String promo_id) (λ _, None) (Some patch_body) "" "" "")
    (Some tenant1) None None.
Definition links_handler : LinkHandler.t := LinkHandler.New svc "https://sho.rt".

Lemma patch_understood_witness :
  LinkHandler.Update links_handler patching
  = respond (LinkService.Update svc tenant1 promo_id
      (UpdateLinkInput.Mk (Some ("https://example.com/?q=" +:+ String dquote "<&>")) None (Some (90 * Second)) false None true))
      (λ link, Response.Mk 200 [] (BLink (LinkHandler.toResponse links_handler link))).
Proof.
  apply (patch_understood links_handler patching promo_id (-60) patch (default TNull (Patch.body (-60) patch))).
  - vm_compute. reflexivity.
  - split; [|split]; [intros s [= <-]; vm_compute; reflexivity | intros n; discriminate | intros n; discriminate].
  - vm_compute. reflexivity.
  - reflexivity.
Defined.

(** The link is cached, found a while later, and gone when its hour is over. *)
Definition hour_cache : LinkCache.t := LinkCache.Mk (5 * Second) Second.
Definition cached_world : World := (LinkCache.Set_ hour_cache promo_link with_promo).2.

Lemma cached_link_comes_back_witness :
  (LinkCache.Get (Link.Code promo_link) cached_world).1 = Ok (Some (snapshot promo_link), true)
  ∧ (LinkCache.Get (Link.Code promo_link) (set_step 100 cached_world)).1 = Ok (None, false).
Proof.
  assert (Hs : LinkCache.Set_ hour_cache promo_link with_promo = (Ok tt, cached_world)) by (vm_compute; reflexivity).
  assert (Hi : int_fields (fromDomain promo_link) = true) by (vm_compute; reflexivity).
  split.
  - refine (eq_trans (cached_link_comes_back hour_cache promo_link with_promo cached_world cached_world Hs _ _ _ Hi _ _) _);
      vm_compute; first [reflexivity | discriminate].
  - refine (eq_trans (cached_link_comes_back hour_cache promo_link with_promo cached_world (set_step 100 cached_world)
      Hs _ _ _ Hi _ _) _); vm_compute; first [reflexivity | discriminate].
Defined.

(** The event of a new link whose URL needs escaping. *)
Definition announced : Event.t :=
  Event.Mk 5 EventLinkCreated tenant1 (90 * Second)
    [("id", AStr "7"); ("target_url", AStr ("https://example.com/?q=" +:+ String dquote "<&>")); ("created_at", ATime Second)].

Lemma payload_tells_event_witness :
  ∃ raw, reads_as (AStr ("https://example.com/?q=" +:+ String dquote "<&>")) raw.
Proof.
  destruct (payload_tells_event announced (default "" (event_Marshal announced)))
    as (id & ty & at_ & data & d & _ & _ & _ & _ & _ & Hd).
  - vm_compute. reflexivity.
  - vm_compute. reflexivity.
  - apply (bool_decide_unpack _). vm_compute. exact I.
  - repeat constructor.
  - destruct (Hd "target_url" (AStr ("https://example.com/?q=" +:+ String dquote "<&>"))) as (raw & _ & Hr);
      [right; left | exists raw; exact Hr].
Defined.
